(* ===== verification/_CoqProject ===== *)
-Q . S2P
Prelude.v
GoStd.v
GoFloat.v
Flag.v
Sha256.v
Regexp.v
GoTime.v
NetIP.v
Detect.v
Checksum.v
DetectSpec.v
Base64.v
Json.v
JsonSpec.v
Corpus.v
CorpusSpec.v
Ledger.v
LedgerSpec.v
Merkle.v
MerkleSpec.v
Decode.v
Policy.v
PolicySpec.v
Runner.v
Redact.v
RedactSpec.v
Seal.v
SealSpec.v
Vault.v
Journal.v
JournalSpec.v
Proc.v
Queue.v
QueueSafe.v
QueueLogic.v
QueueSpec.v
QueueSigned.v
QueueOnce.v
QueueStores.v
QueueLive.v
QueueRetry.v
QueueOutage.v
Sentinel.v
SentinelSpec.v
SentinelRun.v
TimeParse.v
Verify.v
Keys.v
Api.v
ApiJobs.v
ApiNodes.v
ApiEvents.v
ApiLogic.v
ApiQueue.v
ApiReads.v
VerifySpec.v
ApiSpec.v
ApiTenants.v
ApiAccess.v
ApiLimit.v
ApiSentinel.v
Admin.v
AdminSpec.v
Entry.v
EntrySpec.v
