(* ===== verification/Prelude.v ===== *)
(** * Cold Harbour: a verification library

    Cold Harbour takes personal data out of texts and of log lines and keeps signed
    proof of it.  This library is a shallow embedding of its Go code in Rocq, with the
    theorems that make it correct.  Paths below are relative to src/.

    ** The program and its parts

    - The control plane (cmd/controlplane, internal/api) is an HTTP server.  It knows
      tenants by API keys and by sessions (internal/keys, internal/api/session.go),
      seals the text of a posted job under a key of its own and adds it to a Redis
      stream, and shows jobs, results, reports, delivery links, nodes and the policy.
    - The workers (cmd/worker, internal/queue) are a consumer group on that stream.  A
      worker opens the input of an entry, runs the runner of the job type
      (internal/redact, internal/mask, by way of internal/runner) with a checkpoint in a
      Redis hash, records the signed result in the journal (internal/journal), writes a
      signed purge receipt and destroys the key (internal/seal), publishes the outcome
      (internal/events) and acknowledges the entry.  What cannot be handled goes to a
      dead-letter stream.
    - The detectors (internal/detect) find and replace the data.  A tenant chooses among
      them by a policy (internal/policy, internal/policystore).
    - The audit ledger (internal/ledger) is a hash chain per tenant, of which the
      receipts, keys, sessions and policies are entries.  The verifier (cmd/verify) checks
      it, receipts, results and Merkle proofs without the rest.
    - Sentinel (cmd/sentinel) is a filter for log lines with the same detectors.  It
      fetches the policy, hands over lines that are too long as jobs, and posts counts.
      Its second command scans files.
    - The administration tool (cmd/coldharbour) makes tenants and keys.

    ** The files

    What Go's standard library does, by the names of its packages:
    [GoStd] (strings, strconv, hex, sort), [GoFloat] (float64, strconv.ParseInt,
    time.ParseDuration), [Flag] (flag), [GoTime] and [TimeParse] (time), [Sha256],
    [Base64], [Regexp] (regexp), [NetIP] (net), [Json], [JsonSpec] and [Decode]
    (encoding/json).  This file has what they share: byte strings with their literals,
    slices that panic, the result type, and the interface [Effects] of fallible programs
    with its notations, of which [io] (state and errors) is one implementation and the
    processes of [Proc] another; so the handlers of the server and the code of the
    workers are written with the same [x <- m ;; k].

    For each component, a file (often with a Module of the same name) has its data as
    records and one definition per function of the source, by the name it has there; a
    file in ...Spec, or one named for the subject, has the theorems.

    - internal/detect: [Detect] ([Scan], [preferLonger], [Apply], the detectors),
      [Checksum] (Luhn and Verhoeff), [DetectSpec]; the generators of the test corpora in
      [Corpus], [CorpusSpec].
    - internal/ledger: [Ledger], [LedgerSpec], [Merkle], [MerkleSpec].
    - internal/policy, internal/policystore: [Policy], [PolicySpec].
    - internal/runner, internal/redact, internal/mask: [Runner], [Redact] (Modules Redact
      and Mask), [RedactSpec].
    - internal/seal: [Seal] (sealing, signing, key and receipt stores), [SealSpec],
      [Vault] (vault.go).
    - internal/journal: [Journal], [JournalSpec].
    - internal/queue, internal/events, cmd/worker: [Proc] is the text of a process, a tree
      of commands, with its interleavings and its program logic; [Queue] has the commands
      and the functions of the package; [QueueSafe] the invariant of the world, kept by
      each command; [QueueLogic] the rules of the logic; [QueueSpec] the safety of every
      function; [QueueStores] what recovery asks of the stores ([Accepting]); [QueueOnce],
      [QueueLive], [QueueRetry], [QueueOutage] and [QueueSigned] one subject each.
    - cmd/sentinel: [Sentinel] (policy.go, mask.go, handoff.go, events.go, scan.go),
      [SentinelSpec], [SentinelRun] (main.go).
    - cmd/verify: [Verify], [VerifySpec], and the proof command in [Merkle].
    - internal/keys, internal/api: [Keys]; [Api] (server.go, session.go, keys_http.go,
      policy.go), [ApiJobs] (jobs.go, delivery.go, codec.go), [ApiNodes] (sentinel.go,
      report.go, events.go and the routes of server.go); [ApiLogic], the logic of
      handlers; [ApiQueue], the queue behind the server; and by subject [ApiSpec],
      [ApiTenants], [ApiReads], [ApiAccess], [ApiLimit], [ApiEvents], [ApiSentinel].
    - cmd/coldharbour: [Admin], [AdminSpec].
    - internal/migrate, and the main functions of cmd/worker and cmd/controlplane: [Entry]
      (Modules Migrate and Entry), [EntrySpec].

    Where components meet there is a type class: [Effects] (what a runner or a handler
    may do), [Seal.KeyStore], [Seal.ReceiptStore] and [Journal.Store] (interfaces of the Go
    code, with laws that both their implementations are shown to keep), [Seal.Vault] (kept
    by the client of [Vault]), [ApiJobs.Enqueuer] (the queue as the server sees it, whose
    implementation is the workers' Redis), and [Accepting] (stores that take what a worker
    writes for a tenant; those in memory do, those of Postgres under the conditions of
    [pg_accepting]).  Theorems about the queue are proved for every store that keeps the
    laws.

    ** How state and effects are modelled

    - A Go string or []byte is a list of bytes; an int64 that may overflow is a [Z] with
      the wrap-around written out; a Go map is a gmap, or a sorted association list where
      it is written as JSON.  A panic is [None] or an error, and theorems say that it does
      not happen.
    - A table of Postgres is a map or a list of records, Redis is a record of maps and of
      a stream with its group.  A statement, a transaction, a Redis command or script is
      atomic: its definition says what it does, which constraints it checks and what it
      returns.
    - The network may refuse any of them ([Proc.Refused]: nothing happens and the caller
      gets an error) or lose the answer ([Proc.ReplyLost]: it happens and the caller gets
      an error).  Theorems quantify over all such behaviours unless they say otherwise.
    - Workers and producers are processes that interleave between any two commands; a
      worker may be killed between any two commands, and started again.  The safety
      theorems of the queue hold in every reachable world.
    - Requests to the control plane are served one after another; what a handler does is
      a sequence of statements, each of which may fail.  A sequence of requests is any
      list, with any faults and any clock.
    - Sentinel's loop of lines and what runs beside it (the ticker of the policy, the
      timers of the breaker, the steps of a flush) are turns in any order.  Handing a line
      over is one turn, because only that loop uses the queue of the handoff and it waits
      for the reply.

    Parameters stand for code that is not in the repository, with its documented behaviour
    as laws: AES-GCM ([Seal.AEAD]), Ed25519 ([Seal.Ed25519]), the Vault server
    ([Vault.Service], with [Vault.Transit]: it decrypts what it has encrypted), the migration
    library ([Migrate.Goose], with [Migrate.GooseLaws]), UUIDs
    ([Seal.UUID], [Journal.JobIDs]), the identifiers that Redis gives to entries
    ([Queue.StreamIDs]), clocks and random bytes ([Queue.Sources], [Api.Environment]), what
    Postgres does to a JSONB value (the argument jsonb), the answers that Sentinel gets
    ([Sentinel.Network]) and what the tools find outside themselves ([Verify.Host],
    [Run.Host]).  SHA-256 is computed; that nobody finds a collision is not assumed, the
    theorems about it name the collision.  Each theorem with such a law has a witness in
    which the parameter is a concrete function (toy_... and the like).

    ** What is shown

    - Queue: a redaction job gets one result, which is that of an undisturbed run, however
      often it is delivered and whatever crashes ([one_result]); an undisturbed delivery
      finishes any job, if the stores take what it writes ([redelivery_finishes]); a key is
      destroyed only after the result and the receipt are there, as long as entries have
      a tenant ([shred_after_record]); no entry of a tenant goes away before its job is
      recorded or buried ([no_job_lost]); results and receipts never change
      ([durable_facts_stay]); a delivery whose read of the policy is refused, in whatever
      state it comes, buries the job for good ([policy_outage_buries]).
    - Control plane: a request touches the rows of its own tenant only ([tenant_frame]) and
      its answer depends on no other rows ([reads_isolated]); it is answered only to those
      who may ask ([access_control]); the tables stay well-formed ([tables_keep]); what is
      revoked or expired stays so ([revocation_final]); links and posts keep their bounds
      ([link_views_bounded], [rate_limited]); a posted job is in the queue, sealed
      ([posted_job_queued]); a key that is created is let in ([created_key_works]); events
      go to the connections of their tenant ([event_reaches_tenant]).
    - Verifier: it accepts every receipt and every result that workers sign, in every
      reachable world ([receipts_verify], [shown_output_verifies]), and its exit status
      says exactly what it checked ([verify_exact]); but the bytes that a tenant gets of
      a redaction result are never those that were signed ([shown_result_unsigned]).
    - Ledger and Merkle proofs: chains stay verifiable, for payloads whose numbers JSONB
      keeps as they are written ([append_keeps_chain]); a changed
      chain that verifies needs a collision ([ledger_tamper_evident]), as does a proof for
      another leaf ([inclusion_binding]).
    - Keys: both key stores implement one abstract store, in which a destroyed key stays
      destroyed ([key_stores_refine]); the Vault client gives back the key it wrapped, or
      an error ([vault_key_roundtrip]).
    - Detectors: [Scan] covers every finding by one at least as long ([scan_covers]), its
      prefilter loses nothing ([prefilter_sound]), [Apply] rewrites exactly the findings
      ([apply_scan]), with one local detector nothing is left to find
      ([redaction_clean]); a resumed redaction is an uninterrupted one ([redact_resume]);
      the generators of the corpora end, on any seed, and label truly
      ([corpora_labelled]).
    - Sentinel: outside --shadow, every line that is written is masked as some policy in
      force says, and one that is too long is not raw unless policy and flag agree
      ([sentinel_run_masks]); without a control plane, --shadow and --follow it is a
      function of its input ([sentinel_run_plain]); handing over is bounded
      ([handoff_bounded]); every count is posted, held or, for an address of which no
      request can be made, thrown away ([events_conserved]), and the server takes what
      nodes post ([node_batch_accepted]); the policy arrives as it was put and, once
      cached, outlives the control plane ([policy_reaches_sentinel],
      [policy_survives_outage]); a scan reports exactly what is there
      ([scan_report_exact]).
    - Start: a worker starts exactly when its configuration, Vault, the data source, the
      signing key and the certificates of Redis are there, and then refuses nothing more
      and is one of the processes that the theorems on the queue are about
      ([worker_start_Ok], [worker_start_served], [worker_serves], [worker_among]); the
      control plane listens after its migrations ([controlplane_serves]), and those skip
      the first on a database from before goose ([Migrate.Up_old_database]).
    - Administration: a file of ensure-sentinel-key holds a live key ([sentinel_key_ready]).

    Some things the code does that it should not are lemmas too: [two_detectors_leak],
    [scan_blind_spots], [entry_hash_ambiguous], [merkle_root_ambiguous],
    [policy_never_cards], [Migrate.baseline_torn], [tenantless_shredded] (a key destroyed
    without a receipt or a row), [append_minus_zero] (a payload that is accepted and after
    which a chain does not verify).

    ** Fuel and bounds

    Recursion is structural where the code's is.  Where it is not, the fuel is a length of
    the input and a lemma says that it is enough ([Float.duration_fuel], the parsers of
    [Json], the matcher of [Regexp]), or the bound is the code's own (60 attempts in
    [Admin.ensure], five failures in [Sentinel.retry], 4,800 attempts in
    [Corpus.positives]).  The rejection loops of the random source have no bound in the
    code; [corpora_labelled] shows that 2^128 steps are always enough, by the period of
    the generator.  A worker's loop is not bounded; a theorem about a delivery is about
    the turn that handles it.

    The generators were run against the repository: with the seeds of gencorpus and
    genrealistic they give the 1,800 lines of internal/detect/testdata/corpus.jsonl and the
    1,040 lines of realistic.jsonl, byte for byte, the second by way of [Scan].  The first
    lines of each are examples in [Corpus].

    ** What is not modelled, and why

    - internal/queue/metrics.go, cmd/sentinel/metrics.go: counters of the Prometheus
      library and its HTTP endpoint.
    - migrations: the SQL.  The tables are the records of the stores, with the constraints
      that the statements meet; [Migrate] knows the tables by name only.
    - cmd/sentinel-load: measures time; its results are floating-point statistics.
    - In the HTTP server: the parsing of requests and URLs, TLS, the WebSocket handshake
      and wire (the hub is there), concurrent requests.  In the tools: what they print
      for people.  The dashboard (TypeScript), the deployment files and the scripts. *)

From stdpp Require Export base gmap sets list strings sorting.
From Stdlib Require Export ZArith Lia.
From Stdlib Require Strings.Byte.
Export Corelib.Init.Byte.ByteSyntaxNotations.
Delimit Scope byte_scope with byte.

(** ** Go strings and byte slices

    A Go [string] and a Go [[]byte] are both finite sequences of bytes. *)

Abbreviation byte := Byte.byte.
Abbreviation gostring := (list Byte.byte).

Declare Scope go_scope.
Delimit Scope go_scope with go.

Definition bytes_of_literal (l : list Byte.byte) : gostring := l.
String Notation gostring bytes_of_literal bytes_of_literal : go_scope.
Open Scope go_scope.

#[export] Instance byte_eq_dec : EqDecision byte := Byte.byte_eq_dec.

Definition byte_nat (b : byte) : nat := Byte.to_nat b.

Definition byte_of_nat (n : nat) : byte :=
  match Byte.of_nat n with Some b => b | None => Byte.x00 end.

Lemma byte_of_nat_nat (b : byte) : byte_of_nat (byte_nat b) = b.
Proof. unfold byte_of_nat, byte_nat. by rewrite Byte.of_to_nat. Qed.

Lemma byte_nat_lt (b : byte) : byte_nat b < 256.
Proof. unfold byte_nat. pose proof (Byte.to_nat_bounded b). lia. Qed.

Lemma byte_nat_of_nat (n : nat) : n < 256 -> byte_nat (byte_of_nat n) = n.
Proof.
  intros Hn. unfold byte_of_nat, byte_nat.
  destruct (Byte.of_nat n) as [b|] eqn:E.
  - by apply Byte.to_of_nat.
  - apply Byte.of_nat_None_iff in E. lia.
Qed.

Lemma byte_nat_inj (a b : byte) : byte_nat a = byte_nat b -> a = b.
Proof. intros H. by rewrite <- (byte_of_nat_nat a), H, byte_of_nat_nat. Qed.

#[export] Instance byte_inhabited : Inhabited byte := populate Byte.x00.

#[export] Instance byte_countable : Countable byte :=
  inj_countable' byte_nat byte_of_nat byte_of_nat_nat.

(** [beq a b] is Go's [a == b] on bytes. *)
Definition beq (a b : byte) : bool := bool_decide (a = b).

(** [seqb s t] is Go's [s == t] on strings. *)
Definition seqb (s t : gostring) : bool := bool_decide (s = t).

Lemma seqb_eq s t : seqb s t = true <-> s = t.
Proof. unfold seqb. apply bool_decide_eq_true. Qed.

Lemma seqb_neq s t : seqb s t = false <-> s <> t.
Proof. unfold seqb. apply bool_decide_eq_false. Qed.

Lemma seqb_refl s : seqb s s = true.
Proof. by apply seqb_eq. Qed.

(** ** Results and effects

    A Go function returning [(T, error)] is a [result].  Code that also acts on
    the world is written against the interface [Effects]: [res] ends with an
    outcome, [try m k] runs [m] and hands its outcome to [k], an error included,
    as Go hands on [err].  [io] is the instance that runs on a state, which it
    keeps when it fails, so that what happened before an error is not lost. *)

Inductive result (E A : Type) : Type :=
| Ok (a : A)
| Err (e : E).
Arguments Ok {E A} a.
Arguments Err {E A} e.

#[export] Instance result_ret {E} : MRet (result E) := fun A a => Ok a.
#[export] Instance result_bind {E} : MBind (result E) := fun A B f m =>
  match m with Ok a => f a | Err e => Err e end.

Definition is_ok {E A} (r : result E A) : bool :=
  match r with Ok _ => true | Err _ => false end.

Class Effects (M : Type -> Type -> Type) := {
  res {E A} : result E A -> M E A;
  try {E E' A B} : M E A -> (result E A -> M E' B) -> M E' B;
}.

Section effects.
Context {M : Type -> Type -> Type} `{Effects M}.

Definition ret {E A} (a : A) : M E A := res (Ok a).
Definition throw {E A} (e : E) : M E A := res (Err e).

(** The Go idiom of returning [err] when it is not nil. *)
Definition bind {E A B} (m : M E A) (f : A -> M E B) : M E B :=
  try m (fun r => match r with Ok a => f a | Err e => throw e end).

(** The same, with the error wrapped. *)
Definition bind_err {E E' A B} (g : E -> E') (m : M E A) (f : A -> M E' B) : M E' B :=
  try m (fun r => match r with Ok a => f a | Err e => throw (g e) end).
End effects.

Notation "x <- m ;; k" := (bind m (fun x => k))
  (at level 60, m at next level, right associativity) : go_scope.
Notation "m ;;; k" := (bind m (fun _ => k))
  (at level 60, right associativity) : go_scope.

Definition io (W E A : Type) : Type := W -> W * result E A.

#[export] Instance io_effects {W} : Effects (io W) := {|
  res E A r := fun w => (w, r);
  try E E' A B m k := fun w => let '(w', r) := m w in k r w';
|}.

(** [io_run] carries out the pure steps of an [io]. *)
Ltac io_run := cbv beta iota delta [bind bind_err ret throw]; cbn [res try io_effects].

(** ** Slices

    [slice s lo hi] is [s[lo:hi]]; it panics, [None], exactly when Go does. *)
Definition glen {A} (s : list A) : Z := Z.of_nat (length s).

Definition slice {A} (s : list A) (lo hi : Z) : option (list A) :=
  if bool_decide (0 <= lo <= hi /\ hi <= glen s)%Z
  then Some (take (Z.to_nat (hi - lo)) (drop (Z.to_nat lo) s))
  else None.

Lemma slice_Some {A} (s : list A) (lo hi : Z) :
  (0 <= lo <= hi)%Z -> (hi <= glen s)%Z ->
  slice s lo hi = Some (take (Z.to_nat (hi - lo)) (drop (Z.to_nat lo) s)).
Proof. intros. unfold slice. by rewrite bool_decide_eq_true_2. Qed.

(** [seg s i j] is the text between two offsets known to be in range. *)
Definition seg {A} (s : list A) (i j : nat) : list A := take (j - i) (drop i s).

Lemma slice_seg {A} (s : list A) (i j : nat) :
  i <= j <= length s -> slice s (Z.of_nat i) (Z.of_nat j) = Some (seg s i j).
Proof.
  intros [? ?]. rewrite slice_Some by (unfold glen; lia). unfold seg.
  do 2 f_equal; [lia|]. by rewrite Nat2Z.id.
Qed.

Lemma length_seg {A} (s : list A) (i j : nat) :
  j <= length s -> length (seg s i j) = j - i.
Proof. intros. unfold seg. rewrite length_take, length_drop. lia. Qed.

Lemma seg_app {A} (s : list A) (i j k : nat) :
  i <= j <= k -> k <= length s -> seg s i j ++ seg s j k = seg s i k.
Proof.
  intros [? ?] ?. unfold seg.
  replace (drop j s) with (drop (j - i) (drop i s)) by (rewrite drop_drop; f_equal; lia).
  replace (k - i) with ((j - i) + (k - j)) by lia.
  by rewrite <- take_take_drop.
Qed.

Lemma seg_full {A} (s : list A) : seg s 0 (length s) = s.
Proof. unfold seg. rewrite drop_0, Nat.sub_0_r. by apply take_ge. Qed.

Lemma seg_lookup {A} (s : list A) (i j n : nat) :
  n < j - i -> seg s i j !! n = s !! (i + n).
Proof. intros. unfold seg. rewrite lookup_take_lt by lia. by rewrite lookup_drop. Qed.

(** ** Lists *)

Lemma filter_Forall {A} (P : A -> Prop) `{forall x, Decision (P x)} (l : list A) :
  Forall P l -> filter P l = l.
Proof. induction 1 as [|x l Hx Hl IH]; [done|]. by rewrite filter_cons_True, IH. Qed.

(** ** Case analysis shared by the components *)

Ltac bool_to_prop :=
  repeat match goal with
  | H : bool_decide _ = true |- _ => apply bool_decide_eq_true in H
  | H : bool_decide _ = false |- _ => apply bool_decide_eq_false in H
  | H : seqb _ _ = true |- _ => apply seqb_eq in H
  | H : seqb _ _ = false |- _ => apply seqb_neq in H
  | H : _ && _ = true |- _ => apply andb_true_iff in H as [? ?]
  | H : _ || _ = false |- _ => apply orb_false_iff in H as [? ?]
  | H : negb _ = true |- _ => apply negb_true_iff in H
  | H : negb _ = false |- _ => apply negb_false_iff in H
  | H : (_ <=? _)%Z = true |- _ => apply Z.leb_le in H
  | H : (_ <=? _)%Z = false |- _ => apply Z.leb_gt in H
  | H : (_ <? _)%Z = true |- _ => apply Z.ltb_lt in H
  | H : (_ <? _)%Z = false |- _ => apply Z.ltb_ge in H
  | H : (_ =? _)%Z = true |- _ => apply Z.eqb_eq in H
  | H : (_ =? _)%Z = false |- _ => apply Z.eqb_neq in H
  end.
