(* ===== verification/GoStd.v ===== *)
(** * The parts of the Go standard library that the program uses

    Strings ([strings.Contains], [Cut], [HasPrefix], [HasSuffix], [Repeat],
    [ToUpper], [TrimRight]), number formatting and parsing ([strconv]), [hex],
    byte order, and [sort.Slice].  Each definition follows the documented
    behaviour of the library function it is named after. *)

From S2P Require Import Prelude.

(** ** Bytes *)

(** [in_range lo hi b] is Go's [b >= lo && b <= hi]. *)
Definition in_range (lo hi b : byte) : bool :=
  (byte_nat lo <=? byte_nat b) && (byte_nat b <=? byte_nat hi).

Definition is_digit (b : byte) : bool := in_range "0"%byte "9"%byte b.
Definition is_upper (b : byte) : bool := in_range "A"%byte "Z"%byte b.
Definition is_lower (b : byte) : bool := in_range "a"%byte "z"%byte b.
Definition is_alpha (b : byte) : bool := is_upper b || is_lower b.

(** The numeric value of an ASCII digit, [int(b - '0')]. *)
Definition digit_val (b : byte) : nat := byte_nat b - 48.
Definition digit_byte (n : nat) : byte := byte_of_nat (48 + n).

(** [strings.ToUpper], on ASCII text. *)
Definition to_upper_byte (b : byte) : byte :=
  if is_lower b then byte_of_nat (byte_nat b - 32) else b.
Definition ToUpper (s : gostring) : gostring := to_upper_byte <$> s.

(** [strings.ToLower], on ASCII text. *)
Definition to_lower_byte (b : byte) : byte :=
  if is_upper b then byte_of_nat (byte_nat b + 32) else b.
Definition ToLower (s : gostring) : gostring := to_lower_byte <$> s.

(** ** Searching and cutting *)

Fixpoint HasPrefix (s p : gostring) : bool :=
  match p, s with
  | [], _ => true
  | c :: p', b :: s' => beq b c && HasPrefix s' p'
  | _ :: _, [] => false
  end.

Definition HasSuffix (s p : gostring) : bool := HasPrefix (reverse s) (reverse p).

Fixpoint Contains (s sub : gostring) : bool :=
  HasPrefix s sub ||
  match s with [] => false | _ :: s' => Contains s' sub end.

Definition ContainsAny (s chars : gostring) : bool :=
  existsb (fun b => existsb (beq b) chars) s.

(** [strings.Cut(s, sep)] for a one-byte separator. *)
Fixpoint Cut (s : gostring) (sep : byte) : option (gostring * gostring) :=
  match s with
  | [] => None
  | b :: s' =>
      if beq b sep then Some ([], s')
      else match Cut s' sep with
           | Some (before, after) => Some (b :: before, after)
           | None => None
           end
  end.

(** [strings.TrimRight(s, cutset)]. *)
Fixpoint TrimRight (s cutset : gostring) : gostring :=
  match s with
  | [] => []
  | b :: s' =>
      match TrimRight s' cutset with
      | [] => if existsb (beq b) cutset then [] else [b]
      | t => b :: t
      end
  end.

Definition Repeat (s : gostring) (n : nat) : gostring := mjoin (replicate n s).

(** Go's [<] on strings: bytewise lexicographic order. *)
Fixpoint str_lt (s t : gostring) : bool :=
  match s, t with
  | _, [] => false
  | [], _ :: _ => true
  | a :: s', b :: t' =>
      if byte_nat a <? byte_nat b then true
      else if byte_nat b <? byte_nat a then false
      else str_lt s' t'
  end.

(** [strings.Split(s, sep)] for a one-byte separator. *)
Fixpoint Split (s : gostring) (sep : byte) : list gostring :=
  match s with
  | [] => [[]]
  | b :: s' =>
      if beq b sep then [] :: Split s' sep
      else match Split s' sep with
           | w :: ws => (b :: w) :: ws
           | [] => [[b]]
           end
  end.

(** The encodings of the runes for which [unicode.IsSpace] holds. *)
Definition space_runes : list gostring :=
  (fun b => [b]) <$> [Byte.x09; Byte.x0a; Byte.x0b; Byte.x0c; Byte.x0d; Byte.x20].
Definition wide_space_runes : list gostring :=
  [[Byte.xc2; Byte.x85]; [Byte.xc2; Byte.xa0]; [Byte.xe1; Byte.x9a; Byte.x80];
   [Byte.xe2; Byte.x80; Byte.xa8]; [Byte.xe2; Byte.x80; Byte.xa9]; [Byte.xe2; Byte.x80; Byte.xaf];
   [Byte.xe2; Byte.x81; Byte.x9f]; [Byte.xe3; Byte.x80; Byte.x80]] ++
  ((fun n => [Byte.xe2; Byte.x80; byte_of_nat (128 + n)]) <$> seq 0 11).

Fixpoint trim_left (fuel : nat) (runes : list gostring) (s : gostring) : gostring :=
  match fuel with
  | O => s
  | S fuel' =>
      match find (HasPrefix s) runes with
      | Some r => trim_left fuel' runes (drop (length r) s)
      | None => s
      end
  end.

(** [strings.TrimSpace]. *)
Definition TrimSpace (s : gostring) : gostring :=
  let runes := space_runes ++ wide_space_runes in
  let t := trim_left (length s) runes s in
  reverse (trim_left (length t) (reverse <$> runes) (reverse t)).

(** ** Numbers *)

Fixpoint format_loop (fuel : nat) (n : N) (acc : gostring) : gostring :=
  match fuel with
  | O => acc
  | S fuel' =>
      let acc' := digit_byte (N.to_nat (n mod 10)) :: acc in
      if (n <? 10)%N then acc' else format_loop fuel' (n / 10) acc'
  end.

(** [strconv.FormatUint(n, 10)].  A number has at most as many decimal as
    binary digits, so the fuel is enough. *)
Definition FormatUint (n : N) : gostring := format_loop (S (N.size_nat n)) n [].

(** [strconv.Itoa]. *)
Definition Itoa (z : Z) : gostring :=
  if (z <? 0)%Z then "-"%byte :: FormatUint (Z.abs_N z) else FormatUint (Z.abs_N z).

Fixpoint parse_digits (acc : N) (s : gostring) : option N :=
  match s with
  | [] => Some acc
  | b :: s' =>
      if is_digit b then parse_digits (acc * 10 + N.of_nat (digit_val b)) s' else None
  end.

(** [strconv.ParseUint(s, 10, 64)]: a syntax or a range error is [None]. *)
Definition ParseUint (s : gostring) : option N :=
  match s with
  | [] => None
  | _ => n ← parse_digits 0 s; if (n <? 2 ^ 64)%N then Some n else None
  end.

(** [strconv.Atoi]: an optional sign, then digits, within the range of [int]. *)
Definition Atoi (s : gostring) : option Z :=
  let unsigned (t : gostring) : option N :=
    match t with [] => None | _ => parse_digits 0 t end in
  if HasPrefix s "-" then
    n ← unsigned (drop 1 s); if (n <=? 2 ^ 63)%N then Some (- Z.of_N n)%Z else None
  else
    n ← unsigned (if HasPrefix s "+" then drop 1 s else s);
    if (n <? 2 ^ 63)%N then Some (Z.of_N n) else None.

(** ** Hexadecimal *)

Definition hex_digit (n : nat) : byte :=
  if n <? 10 then byte_of_nat (48 + n) else byte_of_nat (87 + n).

(** [hex.EncodeToString], and [fmt]'s [%x] on a byte slice. *)
Fixpoint hex_encode (s : gostring) : gostring :=
  match s with
  | [] => []
  | b :: s' =>
      hex_digit (byte_nat b / 16) :: hex_digit (byte_nat b mod 16) :: hex_encode s'
  end.

Definition hex_val (b : byte) : option nat :=
  if is_digit b then Some (byte_nat b - 48)
  else if in_range "a"%byte "f"%byte b then Some (byte_nat b - 87)
  else if in_range "A"%byte "F"%byte b then Some (byte_nat b - 55)
  else None.

(** [hex.DecodeString]. *)
Fixpoint hex_decode (s : gostring) : option gostring :=
  match s with
  | [] => Some []
  | [_] => None
  | a :: b :: s' =>
      h ← hex_val a; l ← hex_val b; t ← hex_decode s';
      Some (byte_of_nat (16 * h + l) :: t)
  end.

(** ** Sorting

    [sort.Slice(l, less)].  The library's order for elements that compare
    equal is unspecified; this one keeps their original order.  Where the
    comparison is a total order the result is the only sorted permutation
    ([sort_slice_unique]), so the choice does not show. *)
Section sort_slice.
Context {A : Type} (less : A -> A -> bool).

Fixpoint insert_by (x : A) (l : list A) : list A :=
  match l with
  | [] => [x]
  | y :: l' => if less y x then y :: insert_by x l' else x :: y :: l'
  end.

Definition sort_slice (l : list A) : list A := foldr insert_by [] l.
End sort_slice.

(** ** Lemmas *)

Lemma beq_eq a b : beq a b = true <-> a = b.
Proof. unfold beq. apply bool_decide_eq_true. Qed.

Lemma beq_refl b : beq b b = true.
Proof. by apply beq_eq. Qed.

Lemma in_range_spec lo hi b :
  in_range lo hi b = true <-> byte_nat lo <= byte_nat b <= byte_nat hi.
Proof. unfold in_range. rewrite andb_true_iff, !Nat.leb_le. done. Qed.

Lemma is_digit_spec b : is_digit b = true <-> 48 <= byte_nat b <= 57.
Proof. unfold is_digit. by rewrite in_range_spec. Qed.

Lemma is_digit_digit_byte n : n < 10 -> is_digit (digit_byte n) = true.
Proof.
  intros. apply is_digit_spec. unfold digit_byte. rewrite byte_nat_of_nat; lia.
Qed.

Lemma digit_val_byte n : n < 10 -> digit_val (digit_byte n) = n.
Proof. intros. unfold digit_val, digit_byte. rewrite byte_nat_of_nat; lia. Qed.

Lemma HasPrefix_spec s p : HasPrefix s p = true <-> exists t, s = p ++ t.
Proof.
  revert s. induction p as [|c p IH]; intros s.
  - destruct s; split; by eauto.
  - destruct s as [|b s].
    + split; [done|]. by intros [t Ht].
    + simpl. rewrite andb_true_iff, beq_eq, IH. split.
      * intros [-> [t ->]]. by exists t.
      * intros [t [= -> ->]]. by eauto.
Qed.

Lemma Contains_spec s sub : Contains s sub = true <-> exists a b, s = a ++ sub ++ b.
Proof.
  induction s as [|c s IH]; cbn [Contains]; rewrite orb_true_iff, HasPrefix_spec.
  - split.
    + intros [[t Ht]|]; [by exists [], t|done].
    + intros (a & b & H). left. destruct a; [by exists b|done].
  - rewrite IH. split.
    + intros [[t ->]|(a & b & ->)]; [by exists [], t|by exists (c :: a), b].
    + intros (a & b & H). destruct a as [|x a]; [left; by exists b|right].
      injection H as -> ->. by exists a, b.
Qed.

Lemma Cut_Some s sep a b :
  Cut s sep = Some (a, b) <-> s = a ++ sep :: b /\ sep ∉ a.
Proof.
  revert a b. induction s as [|c s IH]; intros a b; simpl.
  { split; [done|]. intros [H _]. by destruct a. }
  destruct (beq c sep) eqn:E.
  - apply beq_eq in E as ->. split.
    + intros [= <- <-]. split; [done|]. apply not_elem_of_nil.
    + intros [H Hn]. destruct a as [|x a]; [by injection H as ->|].
      injection H as -> _. by rewrite not_elem_of_cons in Hn; destruct Hn.
  - assert (Hc : sep <> c) by (intros ->; by rewrite beq_refl in E). split.
    + destruct (Cut s sep) as [[a' b']|]; [|done]. intros [= <- <-].
      destruct (proj1 (IH _ _) eq_refl) as [-> Hn].
      by rewrite not_elem_of_cons.
    + intros [H Hn]. destruct a as [|x a]; [by injection H as -> ->|].
      injection H as -> Hs. apply not_elem_of_cons in Hn as [_ Hn].
      by rewrite (proj2 (IH a b) (conj Hs Hn)).
Qed.

(** *** Decimal round trip *)

Lemma parse_digits_app acc s t n :
  parse_digits acc s = Some n -> parse_digits acc (s ++ t) = parse_digits n t.
Proof.
  revert acc. induction s as [|b s IH]; intros acc; simpl; [by intros [= ->]|].
  destruct (is_digit b); [apply IH|done].
Qed.

Lemma format_loop_app fuel n acc :
  format_loop fuel n acc = format_loop fuel n [] ++ acc.
Proof.
  revert n acc. induction fuel as [|fuel IH]; intros n acc; simpl; [done|].
  destruct (n <? 10)%N; [done|].
  rewrite IH, (IH _ [_]), <- app_assoc. done.
Qed.

Lemma format_loop_parse fuel n :
  (n < 2 ^ N.of_nat fuel)%N -> parse_digits 0 (format_loop (S fuel) n []) = Some n.
Proof.
  revert n. induction fuel as [|fuel IH]; intros n Hn.
  - replace n with 0%N by (simpl in Hn; lia). done.
  - change (format_loop (S (S fuel)) n []) with
      (if (n <? 10)%N then [digit_byte (N.to_nat (n mod 10))]
       else format_loop (S fuel) (n / 10) [digit_byte (N.to_nat (n mod 10))]).
    pose proof (N.mod_lt n 10 ltac:(lia)) as Hm.
    assert (Hd : N.to_nat (n mod 10) < 10) by lia.
    destruct (N.ltb_spec n 10) as [Hs|Hs].
    + cbn [parse_digits]. rewrite is_digit_digit_byte, digit_val_byte by done.
      rewrite N.mod_small by done. f_equal. lia.
    + rewrite format_loop_app. erewrite parse_digits_app.
      2: { apply IH. rewrite Nat2N.inj_succ, N.pow_succ_r' in Hn.
           apply N.Div0.div_lt_upper_bound. lia. }
      cbn [parse_digits]. rewrite is_digit_digit_byte, digit_val_byte by done.
      f_equal. pose proof (N.div_mod n 10 ltac:(lia)). lia.
Qed.

Lemma size_nat_size n : N.of_nat (N.size_nat n) = N.size n.
Proof.
  destruct n as [|p]; [done|]. cbn [N.size_nat N.size].
  induction p as [p IHp|p IHp|]; cbn [Pos.size_nat Pos.size]; [..|done];
    by rewrite Nat2N.inj_succ, IHp.
Qed.

Lemma FormatUint_parse n : parse_digits 0 (FormatUint n) = Some n.
Proof.
  apply format_loop_parse. rewrite size_nat_size. apply N.size_gt.
Qed.

Lemma FormatUint_nonempty n : FormatUint n <> [].
Proof.
  unfold FormatUint. cbn [format_loop]. destruct (n <? 10)%N; [done|].
  rewrite format_loop_app. intros H%(f_equal length). rewrite length_app in H.
  simpl in H. lia.
Qed.

Lemma ParseUint_FormatUint n : (n < 2 ^ 64)%N -> ParseUint (FormatUint n) = Some n.
Proof.
  intros Hn. unfold ParseUint. pose proof (FormatUint_nonempty n).
  destruct (FormatUint n) eqn:E; [done|]. rewrite <- E, FormatUint_parse. simpl.
  apply N.ltb_lt in Hn. by rewrite Hn.
Qed.

Lemma format_loop_digits fuel n acc :
  Forall (fun b => is_digit b = true) acc ->
  Forall (fun b => is_digit b = true) (format_loop fuel n acc).
Proof.
  revert n acc. induction fuel as [|fuel IH]; intros n acc Ha; simpl; [done|].
  pose proof (N.mod_lt n 10 ltac:(lia)).
  assert (is_digit (digit_byte (N.to_nat (n mod 10))) = true)
    by (apply is_digit_digit_byte; lia).
  destruct (n <? 10)%N; [|apply IH]; by constructor.
Qed.

Lemma FormatUint_digits n : Forall (fun b => is_digit b = true) (FormatUint n).
Proof. by apply format_loop_digits. Qed.

(** *** Sorting *)

(** *** Splitting *)

Lemma Split_nonempty s sep : Split s sep <> [].
Proof. destruct s as [|b s]; cbn [Split]; [done|]. by destruct (beq b sep); [|destruct (Split s sep)]. Qed.

Lemma Split_no_sep s sep : sep ∉ s -> Split s sep = [s].
Proof.
  induction s as [|b s IH]; intros H; [done|]. cbn [Split].
  rewrite not_elem_of_cons in H. destruct H as [Hb Hs].
  destruct (beq b sep) eqn:E; [by apply beq_eq in E|]. by rewrite IH.
Qed.

Lemma Split_app s t sep : sep ∉ s -> Split (s ++ sep :: t) sep = s :: Split t sep.
Proof.
  induction s as [|b s IH]; intros H; cbn [app Split]; [by rewrite beq_refl|].
  rewrite not_elem_of_cons in H. destruct H as [Hb Hs].
  destruct (beq b sep) eqn:E; [by apply beq_eq in E|]. by rewrite IH.
Qed.

(** *** Trimming *)

(** A printable ASCII byte other than the space. *)
Definition plain (b : byte) : bool := in_range Byte.x21 Byte.x7e b.

Lemma trim_left_plain fuel runes b s :
  plain b = true -> Forall (fun r => exists c t, r = c :: t /\ plain c = false) runes ->
  trim_left fuel runes (b :: s) = b :: s.
Proof.
  intros Hb Hr. destruct fuel as [|fuel]; [done|]. cbn [trim_left].
  assert (find (HasPrefix (b :: s)) runes = None) as ->; [|done].
  induction Hr as [|r runes (c & t & -> & Hc) Hr IH]; [done|]. cbn [find HasPrefix].
  destruct (beq b c) eqn:E; [apply beq_eq in E as ->; congruence|done].
Qed.

Lemma TrimSpace_plain s : Forall (fun b => plain b = true) s -> TrimSpace s = s.
Proof.
  intros H. unfold TrimSpace. destruct s as [|b s]; [done|].
  assert (Hl : Forall (fun r => exists c t, r = c :: t /\ plain c = false)
                 (space_runes ++ wide_space_runes)) by (repeat constructor; by eexists _, _).
  assert (Hr : Forall (fun r => exists c t, r = c :: t /\ plain c = false)
                 (reverse <$> (space_runes ++ wide_space_runes)))
    by (repeat constructor; by eexists _, _).
  pose proof H as H'. apply Forall_cons in H' as [Hb _]. rewrite trim_left_plain by done.
  destruct (reverse (b :: s)) as [|c t] eqn:E.
  { apply (f_equal length) in E. rewrite length_reverse in E. done. }
  assert (Hc : c ∈ b :: s) by (rewrite <- elem_of_reverse, E; left).
  rewrite Forall_forall in H. rewrite trim_left_plain by auto.
  by rewrite <- E, reverse_involutive.
Qed.

(** *** Hexadecimal *)

Lemma hex_val_digit n : n < 16 -> hex_val (hex_digit n) = Some n.
Proof. intros H. do 16 (destruct n as [|n]; [done|]). lia. Qed.

Lemma hex_decode_encode s : hex_decode (hex_encode s) = Some s.
Proof.
  induction s as [|b s IH]; [done|]. cbn [hex_encode hex_decode].
  pose proof (byte_nat_lt b) as Hb.
  rewrite !hex_val_digit; [|first [apply Nat.mod_upper_bound|apply Nat.Div0.div_lt_upper_bound]; lia..].
  cbn [mbind option_bind]. rewrite IH. cbn [mbind option_bind].
  by rewrite <- (Nat.div_mod_eq (byte_nat b) 16), byte_of_nat_nat.
Qed.

Definition is_lower_hex (b : byte) : bool := is_digit b || in_range "a"%byte "f"%byte b.

Lemma hex_digit_hex n : n < 16 -> is_lower_hex (hex_digit n) = true.
Proof. intros H. do 16 (destruct n as [|n]; [done|]). lia. Qed.

Lemma hex_encode_hex s : Forall (fun b => is_lower_hex b = true) (hex_encode s).
Proof.
  induction s as [|b s IH]; [constructor|]. cbn [hex_encode]. pose proof (byte_nat_lt b).
  repeat constructor; [| |done]; apply hex_digit_hex;
    [apply Nat.Div0.div_lt_upper_bound; lia|apply Nat.mod_upper_bound; lia].
Qed.

Lemma hex_encode_length s : length (hex_encode s) = 2 * length s.
Proof. induction s as [|b s IH]; cbn [hex_encode length]; lia. Qed.

Lemma hex_encode_inj s t : hex_encode s = hex_encode t -> s = t.
Proof. intros H%(f_equal hex_decode). rewrite !hex_decode_encode in H. congruence. Qed.

(** *** The order on strings *)

Lemma str_lt_irrefl s : str_lt s s = false.
Proof. induction s as [|a s IH]; [done|]. cbn [str_lt]. by rewrite Nat.ltb_irrefl. Qed.

Lemma str_lt_trans s t u : str_lt s t = true -> str_lt t u = true -> str_lt s u = true.
Proof.
  revert t u. induction s as [|a s IH]; intros [|b t] [|c u]; cbn [str_lt]; try done.
  destruct (Nat.ltb_spec (byte_nat a) (byte_nat b)), (Nat.ltb_spec (byte_nat b) (byte_nat c)),
    (Nat.ltb_spec (byte_nat a) (byte_nat c)); try lia; try done;
  destruct (Nat.ltb_spec (byte_nat b) (byte_nat a)), (Nat.ltb_spec (byte_nat c) (byte_nat b)),
    (Nat.ltb_spec (byte_nat c) (byte_nat a)); try lia; try done. apply IH.
Qed.

Lemma str_lt_total s t : str_lt s t = true \/ s = t \/ str_lt t s = true.
Proof.
  revert t. induction s as [|a s IH]; intros [|b t]; cbn [str_lt]; auto.
  destruct (Nat.ltb_spec (byte_nat a) (byte_nat b)); [auto|].
  destruct (Nat.ltb_spec (byte_nat b) (byte_nat a)); [auto|].
  assert (a = b) as -> by (apply byte_nat_inj; lia).
  destruct (IH t) as [H1 | [-> | H1]]; auto.
Qed.

Lemma str_lt_asym s t : str_lt s t = true -> str_lt t s = false.
Proof.
  intros H. apply not_true_is_false. intros H'.
  pose proof (str_lt_trans _ _ _ H H') as E. by rewrite str_lt_irrefl in E.
Qed.

Lemma str_lt_seqb s t : str_lt s t = true -> seqb s t = false /\ seqb t s = false.
Proof.
  intros H. split; apply seqb_neq; intros ->; by rewrite str_lt_irrefl in H.
Qed.

Section sort_slice_lemmas.
Context {A : Type} (less : A -> A -> bool).

(** [less] orders like a strict weak order. *)
Hypothesis less_asym : forall a b, less a b = true -> less b a = false.
Hypothesis less_trans : forall a b c,
  less b a = false -> less c b = false -> less c a = false.

Definition not_after (a b : A) : Prop := less b a = false.

Lemma insert_by_perm x l : insert_by less x l ≡ₚ x :: l.
Proof.
  induction l as [|y l IH]; simpl; [done|].
  destruct (less y x); [|done]. rewrite IH. apply Permutation_swap.
Qed.

Lemma sort_slice_perm l : sort_slice less l ≡ₚ l.
Proof.
  induction l as [|x l IH]; simpl; [done|]. by rewrite insert_by_perm, IH.
Qed.

Lemma insert_by_sorted x l :
  StronglySorted not_after l -> StronglySorted not_after (insert_by less x l).
Proof.
  induction 1 as [|y l Hl IH Hy]; simpl; [by repeat constructor|].
  destruct (less y x) eqn:E.
  - constructor; [done|]. rewrite Forall_forall in Hy |- *.
    intros z. rewrite insert_by_perm, elem_of_cons.
    intros [->|Hz]; [by apply less_asym|by apply Hy].
  - constructor; [by constructor|]. constructor; [done|].
    eapply Forall_impl; [exact Hy|]. intros z Hz. by eapply less_trans.
Qed.

Lemma sort_slice_sorted l : StronglySorted not_after (sort_slice less l).
Proof. induction l; simpl; [constructor|by apply insert_by_sorted]. Qed.

(** The order is total on the elements that occur: then the sorted
    permutation is unique, whatever algorithm computes it. *)
Lemma sort_slice_unique l l' :
  (forall a b, a ∈ l -> b ∈ l -> less a b = false -> less b a = false -> a = b) ->
  l' ≡ₚ l -> StronglySorted not_after l' -> l' = sort_slice less l.
Proof.
  intros Htot Hp Hs.
  assert (Hp' : l' ≡ₚ sort_slice less l) by (by rewrite sort_slice_perm).
  assert (Htot' : forall a b, a ∈ l' -> b ∈ l' ->
            less a b = false -> less b a = false -> a = b).
  { intros a b. rewrite Hp. apply Htot. }
  clear Htot Hp. pose proof (sort_slice_sorted l) as Hs'.
  revert Hs' Hp'. generalize (sort_slice less l) as k.
  induction Hs as [|x l' Hs IH Hx]; intros k Hs' Hp.
  { by apply Permutation_nil_l in Hp. }
  destruct Hs' as [|y k Hs' Hy]; [by apply Permutation_nil_r in Hp|].
  assert (x = y) as <-.
  { assert (Hxk : x ∈ y :: k) by (rewrite <- Hp; left).
    assert (Hyl : y ∈ x :: l') by (rewrite Hp; left).
    apply elem_of_cons in Hxk as [->|Hxk]; [done|].
    pose proof Hyl as Hyl'. apply elem_of_cons in Hyl' as [->|Hyl']; [done|].
    rewrite Forall_forall in Hx, Hy.
    apply Htot'; [left|done|by apply Hy|by apply Hx]. }
  f_equal. apply IH; [|done|by eapply Permutation_cons_inv].
  intros a b Ha Hb. apply Htot'; by right.
Qed.
End sort_slice_lemmas.

(** An element that sorts after all the others stays last. *)
Lemma sort_slice_snoc {A} (less : A -> A -> bool) l x :
  Forall (fun y => less x y = false) l -> sort_slice less (l ++ [x]) = sort_slice less l ++ [x].
Proof.
  assert (H : forall y k, less x y = false -> insert_by less y (k ++ [x]) = insert_by less y k ++ [x]).
  { intros y k Hy. induction k as [|z k IH]; cbn [app insert_by].
    - by rewrite Hy.
    - destruct (less z y); [by rewrite IH|done]. }
  unfold sort_slice. induction 1 as [|y l Hy Hl IH]; [done|]. cbn [app foldr]. by rewrite IH, H.
Qed.
