(* ===== verification/GoFloat.v ===== *)
(** * float64, and the numbers and durations of command lines

    The operations of Go's float64 that the program reaches, on the Standard Library's
    IEEE 754 binary64 ([SpecFloat] with 53 bits of precision), [strconv.ParseInt] with
    base 0 and [time.ParseDuration]. *)

From S2P Require Import Prelude GoStd.
From Stdlib Require Import Floats.SpecFloat.
#[local] Open Scope Z_scope.

Module Float.

(** ** float64 *)

Abbreviation float64 := spec_float (only parsing).

Definition prec : Z := 53.
Definition emax : Z := 1024.

(** The nearest float64, ties to even: [float64(z)], and [z / 2^k]. *)
Definition of_Z (z : Z) : float64 := binary_normalize prec emax z 0 false.
Definition mul : float64 -> float64 -> float64 := SFmul prec emax.
Definition div : float64 -> float64 -> float64 := SFdiv prec emax.

Definition lt (a b : float64) : bool := SFltb a b.

(** Towards zero: [int(x)], [uint64(x)] where the result fits; the machine decides
    otherwise and the program never asks. *)
Definition trunc (x : float64) : Z :=
  match x with
  | S754_finite s m e =>
      let a := match e with Zneg p => Zpos m / 2 ^ Zpos p | _ => Zpos m * 2 ^ e end in if s then - a else a
  | _ => 0
  end.

(** [math.Ceil], for a result that is converted to an integer. *)
Definition ceil (x : float64) : Z :=
  match x with
  | S754_finite s m e =>
      let v := if s then Zneg m else Zpos m in
      match e with Zneg p => - ((- v) / 2 ^ Zpos p) | _ => v * 2 ^ e end
  | _ => 0
  end.

Example ceil_example : (ceil (mul (div (of_Z 1) (of_Z 2)) (of_Z 7)), ceil (of_Z (-3))) = (4, -3).
Proof. vm_compute. reflexivity. Qed.

(** 0.1 + 0.2 is for additions; here 0.1 times 3 is not 0.3. *)
Example mul_rounds : mul (div (of_Z 1) (of_Z 10)) (of_Z 3) <> div (of_Z 3) (of_Z 10).
Proof. vm_compute. discriminate. Qed.

(** ** Integers in any base: [strconv.ParseInt(s, 0, 64)] *)

Definition lower (b : byte) : byte := to_lower_byte b.

Definition digit_of (b : byte) : option Z :=
  if is_digit b then Some (Z.of_nat (digit_val b))
  else if is_lower (lower b) then Some (Z.of_nat (byte_nat (lower b)) - 87)
  else None.

(** The base, and the digits after its prefix. *)
Definition base_of (s : gostring) : Z * gostring :=
  match s with
  | z :: rest =>
      if beq z "0"%byte then
        match rest with
        | b :: (_ :: _) as digits =>
            if beq (lower b) "b"%byte then (2, drop 1 rest)
            else if beq (lower b) "o"%byte then (8, drop 1 rest)
            else if beq (lower b) "x"%byte then (16, drop 1 rest)
            else (8, rest)
        | _ => (8, rest)
        end
      else (10, s)
  | [] => (10, s)
  end.

(** The digits, with underscores anywhere; [None] is a character that is no digit. *)
Fixpoint digits (base acc : Z) (s : gostring) : option Z :=
  match s with
  | [] => Some acc
  | b :: s =>
      if beq b "_"%byte then digits base acc s
      else d ← digit_of b; if d <? base then digits base (acc * base + d) s else None
  end.

(** [underscoreOK]: every underscore between digits, or after the prefix. *)
Inductive saw := SawStart | SawDigit | SawUnderscore | SawOther.

Fixpoint underscores (hex : bool) (last : saw) (s : gostring) : bool :=
  match s with
  | [] => match last with SawUnderscore => false | _ => true end
  | b :: s =>
      if is_digit b || hex && in_range "a"%byte "f"%byte (lower b) then underscores hex SawDigit s
      else if beq b "_"%byte then
        match last with SawDigit => underscores hex SawUnderscore s | _ => false end
      else match last with SawUnderscore => false | _ => underscores hex SawOther s end
  end.

Definition underscoreOK (s : gostring) : bool :=
  match s with
  | z :: b :: rest =>
      if beq z "0"%byte && existsb (beq (lower b)) ["b"; "o"; "x"]%byte
      then underscores (beq (lower b) "x"%byte) SawDigit rest
      else underscores false SawStart s
  | _ => underscores false SawStart s
  end.

Definition ParseUint0 (s : gostring) : option Z :=
  if seqb s [] then None
  else
    let '(base, ds) := base_of s in
    n ← digits base 0 ds;
    if (2 ^ 64 <=? n) || (existsb (beq "_"%byte) s && negb (underscoreOK s)) then None else Some n.

Definition ParseInt (s : gostring) : option Z :=
  let '(neg, u) := match s with
                   | c :: r => if beq c "-"%byte then (true, r) else if beq c "+"%byte then (false, r) else (false, s)
                   | [] => (false, s)
                   end in
  n ← ParseUint0 u;
  if (neg : bool) then if n <=? 2 ^ 63 then Some (- n) else None else if n <? 2 ^ 63 then Some n else None.

Example ParseInt_examples :
  ParseInt <$> ["65536"; "0x1F"; "-0b101"; "1_000"; "0_7"; "0"; "010"; "0x"; "_1"; "1__0"; "9223372036854775808"; "";
                "-9223372036854775808"; "+7"; "08"]%go =
  [Some 65536; Some 31; Some (-5); Some 1000; Some 7; Some 0; Some 8; None; None; None; None; None;
   Some (- 2 ^ 63); Some 7; None].
Proof. vm_compute. reflexivity. Qed.

(** ** Durations: [time.ParseDuration] *)

Definition max_abs : Z := 2 ^ 63.

(** [leadingInt] *)
Fixpoint leadingInt (acc : Z) (s : gostring) : option (Z * gostring) :=
  match s with
  | [] => Some (acc, s)
  | b :: s' =>
      if is_digit b then
        if max_abs / 10 <? acc then None
        else let x := acc * 10 + Z.of_nat (digit_val b) in if max_abs <? x then None else leadingInt x s'
      else Some (acc, s)
  end.

(** [leadingFraction]: the digits that fit, and ten to their number. *)
Fixpoint leadingFraction (acc scale : Z) (overflow : bool) (s : gostring) : Z * Z * gostring :=
  match s with
  | [] => (acc, scale, s)
  | b :: s' =>
      if is_digit b then
        if overflow || ((max_abs - 1) / 10 <? acc) then leadingFraction acc scale true s'
        else let y := acc * 10 + Z.of_nat (digit_val b) in
             if max_abs <? y then leadingFraction acc scale true s' else leadingFraction y (scale * 10) false s'
      else (acc, scale, s)
  end.

Definition units : list (gostring * Z) :=
  [("ns", 1); ("us", 1000); ([Byte.xc2; Byte.xb5; Byte.x73], 1000); ([Byte.xce; Byte.xbc; Byte.x73], 1000);
   ("ms", 1000000); ("s", 1000000000); ("m", 60000000000); ("h", 3600000000000)]%go.

Definition unit_of (u : gostring) : option Z := snd <$> find (fun x => seqb x.1 u) units.

(** Up to the next digit or dot. *)
Fixpoint unit_name (s : gostring) : gostring * gostring :=
  match s with
  | b :: s' => if beq b "."%byte || is_digit b then ([], s) else let '(u, r) := unit_name s' in (b :: u, r)
  | [] => ([], [])
  end.

Definition head_ok (s : gostring) : bool := match s with b :: _ => beq b "."%byte || is_digit b | [] => false end.

(** A number and its unit, in nanoseconds. *)
Definition component (s : gostring) : option (Z * gostring) :=
  if negb (head_ok s) then None
  else
    vs ← leadingInt 0 s;
    let pre := negb (length vs.2 =? length s)%nat in
    let '(f, scale, rest, post) :=
      match vs.2 with
      | b :: r => if beq b "."%byte then let '(f, scale, r') := leadingFraction 0 1 false r in
                                       (f, scale, r', negb (length r' =? length r)%nat)
                  else (0, 1, vs.2, false)
      | [] => (0, 1, vs.2, false)
      end in
    if negb pre && negb post then None
    else
      let '(u, rest) := unit_name rest in
      if seqb u [] then None
      else
        unit ← unit_of u;
        if max_abs / unit <? vs.1 then None
        else
          let v := vs.1 * unit in
          let v := if 0 <? f then v + trunc (mul (of_Z f) (div (of_Z unit) (of_Z scale))) else v in
          if max_abs <? v then None else Some (v, rest).

Fixpoint duration_loop (fuel : nat) (d : Z) (s : gostring) : option Z :=
  match s with
  | [] => Some d
  | _ =>
      match fuel with
      | O => None
      | S fuel => vr ← component s; let d := d + vr.1 in if max_abs <? d then None else duration_loop fuel d vr.2
      end
  end.

Definition ParseDuration (s : gostring) : option Z :=
  let '(neg, s) := match s with
                   | c :: r => if beq c "-"%byte then (true, r) else if beq c "+"%byte then (false, r) else (false, s)
                   | [] => (false, s)
                   end in
  if seqb s "0" then Some 0
  else if seqb s [] then None
  else
    d ← duration_loop (length s) 0 s;
    if (neg : bool) then Some (- d) else if max_abs - 1 <? d then None else Some d.

Example ParseDuration_examples :
  ParseDuration <$> ["1m0s"; "1.5h"; "-10s"; "0"; ".5s"; "1h2m3.000000004s"; "5"; "s"; "1.s"; "."; "9223372036.854775807s";
                     "2562047h47m16.854775807s"; "2562048h"; "0.1ns"; "1x"; ""]%go =
  [Some 60000000000; Some 5400000000000; Some (-10000000000); Some 0; Some 500000000; Some 3723000000004; None; None;
   Some 1000000000; None; Some (2 ^ 63 - 1); Some (2 ^ 63 - 1); None; Some 0; None; None].
Proof. vm_compute. reflexivity. Qed.

(** The fuel of [ParseDuration] is enough: every component takes a character. *)
Lemma unit_name_length s : (length (unit_name s).2 + length (unit_name s).1 = length s)%nat.
Proof.
  induction s as [|b s IH]; [done|]. cbn [unit_name]. destruct (_ || _); [cbn; lia|].
  destruct (unit_name s) as [u r]. cbn in *. lia.
Qed.

Lemma leadingInt_length acc s v r : leadingInt acc s = Some (v, r) -> (length r <= length s)%nat.
Proof.
  revert acc. induction s as [|b s IH]; intros acc; cbn [leadingInt]; [by intros [= _ <-]|].
  destruct (is_digit b); [|by intros [= _ <-]]. destruct (_ <? _); [done|]. cbv zeta. destruct (_ <? _); [done|].
  intros H%IH. cbn. lia.
Qed.

Lemma leadingFraction_length acc sc o s : (length (leadingFraction acc sc o s).2 <= length s)%nat.
Proof.
  revert acc sc o. induction s as [|b s IH]; intros acc sc o; cbn [leadingFraction]; [done|].
  destruct (is_digit b); [|done]. cbv zeta. repeat (case_match; try done); etrans; try apply IH; cbn; lia.
Qed.

Lemma component_shorter s v r : component s = Some (v, r) -> (length r < length s)%nat.
Proof.
  unfold component. destruct (negb (head_ok s)); [done|]. destruct (leadingInt 0 s) as [[v0 r0]|] eqn:El; [|done].
  apply leadingInt_length in El. cbn [mbind option_bind fst snd].
  assert (H : exists f sc r1 post, match r0 with
    | b :: r => if beq b "."%byte then let '(f, scale, r') := leadingFraction 0 1 false r in
                                     (f, scale, r', negb (length r' =? length r)%nat)
                else (0, 1, r0, false)
    | [] => (0, 1, r0, false) end = (f, sc, r1, post) /\ (length r1 <= length r0)%nat).
  { destruct r0 as [|b r0]; [by eexists _, _, _, _|]. destruct (beq b _); [|by eexists _, _, _, _].
    pose proof (leadingFraction_length 0 1 false r0) as Hf. destruct (leadingFraction 0 1 false r0) as [[f sc] r1].
    eexists _, _, _, _. split; [reflexivity|]. cbn in *. lia. }
  destruct H as (f & sc & r1 & post & -> & Hl). destruct (negb _ && _); [done|].
  pose proof (unit_name_length r1) as Hu. destruct (unit_name r1) as [u r2]. cbn [fst snd] in Hu.
  destruct (seqb u []) eqn:E; [done|]. apply seqb_neq in E. destruct (unit_of u); [|done]. cbn [mbind option_bind].
  destruct (_ <? _); [done|]. cbv zeta. destruct (_ <? _); [done|]. intros [= _ <-]. destruct u; [done|]. cbn in Hu. lia.
Qed.

Lemma duration_fuel n m d s : (length s <= n)%nat -> (length s <= m)%nat -> duration_loop n d s = duration_loop m d s.
Proof.
  revert m d s. induction n as [|n IH]; intros [|m] d [|b s] Hn Hm; try done; cbn [length] in *; try lia.
  cbn [duration_loop]. destruct (component (b :: s)) as [[v r]|] eqn:E; [|done]. cbn [mbind option_bind fst snd].
  destruct (_ <? _); [done|]. apply component_shorter in E. cbn in E. apply IH; lia.
Qed.

End Float.
