(* ===== verification/Flag.v ===== *)
(** * Command lines, as the Go package [flag] parses them

    [FlagSet.Parse] with [ContinueOnError], for flags that are texts, booleans,
    integers or durations.  A flag is written -name or --name; the value of one that is
    not a boolean follows an equals sign or is the next argument, whatever it looks
    like.  The first argument that is
    not a flag, or the one after --, ends the parsing. *)

From S2P Require Import Prelude GoStd GoFloat.

Module Flag.

Inductive flag_kind := StringFlag | BoolFlag | IntFlag | DurationFlag.

(** The flags that are defined, with the texts of their defaults. *)
Definition flag_set := list (gostring * (flag_kind * gostring)).

Definition formal (fs : flag_set) (name : gostring) : option flag_kind :=
  (fun f => f.2.1) <$> find (fun f => seqb f.1 name) fs.

Definition defaults (fs : flag_set) : gmap gostring gostring :=
  list_to_map ((fun f => (f.1, f.2.2)) <$> fs).

(** [strconv.ParseBool], as the text of the value. *)
Definition ParseBool (s : gostring) : option gostring :=
  if existsb (seqb s) ["1"; "t"; "T"; "true"; "TRUE"; "True"]%go then Some "true"%go
  else if existsb (seqb s) ["0"; "f"; "F"; "false"; "FALSE"; "False"]%go then Some "false"%go
  else None.

(** What [Set] says to the text of a value; booleans are set apart. *)
Definition set_ok (k : flag_kind) (v : gostring) : bool :=
  match k with
  | StringFlag | BoolFlag => true
  | IntFlag => match Float.ParseInt v with Some _ => true | None => false end
  | DurationFlag => match Float.ParseDuration v with Some _ => true | None => false end
  end.

(** An argument: a name, perhaps with a value; not a flag; the end of the flags; or
    bad syntax. *)
Inductive arg := Named (name : gostring) (value : option gostring) | Positional | Terminator | BadSyntax.

Definition named (s : gostring) : arg :=
  match s with
  | [] => BadSyntax
  | c :: _ =>
      if beq c "-"%byte || beq c "="%byte then BadSyntax
      else match Cut s "="%byte with
           | Some (name, value) => Named name (Some value)
           | None => Named s None
           end
  end.

Definition classify (s : gostring) : arg :=
  if seqb s "--" then Terminator
  else if HasPrefix s "--" then named (drop 2 s)
  else if HasPrefix s "-" && (1 <? length s) then named (drop 1 s)
  else Positional.

(** [Parse]: the values and the arguments that are left; [None] is an error, a
    request for help included. *)
Fixpoint parse_args (fs : flag_set) (args : list gostring) (cur : gmap gostring gostring)
    : option (gmap gostring gostring * list gostring) :=
  match args with
  | [] => Some (cur, [])
  | s :: rest =>
      match classify s with
      | Positional => Some (cur, args)
      | Terminator => Some (cur, rest)
      | BadSyntax => None
      | Named name value =>
          match formal fs name, value with
          | None, _ => None
          | Some BoolFlag, None => parse_args fs rest (<[name := "true"%go]> cur)
          | Some BoolFlag, Some v => b ← ParseBool v; parse_args fs rest (<[name := b]> cur)
          | Some k, Some v => if set_ok k v then parse_args fs rest (<[name := v]> cur) else None
          | Some k, None =>
              match rest with
              | [] => None
              | v :: rest' => if set_ok k v then parse_args fs rest' (<[name := v]> cur) else None
              end
          end
      end
  end.

Definition Parse (fs : flag_set) (args : list gostring) : option (gmap gostring gostring * list gostring) :=
  parse_args fs args (defaults fs).

(** The value of a flag. *)
Definition value (name : gostring) (vs : gmap gostring gostring) : gostring := default [] (vs !! name).

Definition bool_value (name : gostring) (vs : gmap gostring gostring) : bool := seqb (value name vs) "true".
Definition int_value (name : gostring) (vs : gmap gostring gostring) : Z := default 0%Z (Float.ParseInt (value name vs)).
Definition duration_value (name : gostring) (vs : gmap gostring gostring) : Z :=
  default 0%Z (Float.ParseDuration (value name vs)).

Definition texts (names : list gostring) : flag_set := (fun n => (n, (StringFlag, []))) <$> names.

Example parse_example :
  (fun r => (value "name" r.1, value "json" r.1, r.2)) <$>
    Parse (("json", (BoolFlag, "false")) :: texts ["name"])%go ["--name=a=b"; "-json"; "--name"; "--x"; "rest"; "-json"]%go =
  Some ("--x", "true", ["rest"; "-json"])%go.
Proof. vm_compute. reflexivity. Qed.

Example parse_errors :
  (fun args => snd <$> Parse (texts ["name"]) args) <$> [["-"]; ["---name"; "a"]; ["--other"]; ["-name"]; ["-h"]; ["--"; "-h"]]%go =
  [Some ["-"]; None; None; None; None; Some ["-h"]]%go.
Proof. vm_compute. reflexivity. Qed.

(** ** A command line of named texts *)

Definition option_name (s : gostring) : bool :=
  match s with [] => false | c :: _ => negb (beq c "-"%byte || beq c "="%byte) end && negb (existsb (beq "="%byte) s).

(** --name value, for each *)
Definition command_line (kvs : list (gostring * gostring)) : list gostring :=
  kvs ≫= (fun kv => ["--" ++ kv.1; kv.2]).

Lemma Cut_none s sep : existsb (beq sep) s = false -> Cut s sep = None.
Proof.
  induction s as [|c s IH]; [done|]. cbn [existsb Cut]. intros [Hc Hs]%orb_false_iff.
  destruct (beq c sep) eqn:E; [|by rewrite IH].
  apply beq_eq in E as ->. by rewrite beq_refl in Hc.
Qed.

Lemma classify_option name : option_name name = true -> classify ("--" ++ name) = Named name None.
Proof.
  unfold option_name. intros [Hn He]%andb_true_iff. apply negb_true_iff in He.
  destruct name as [|c s]; [done|]. apply negb_true_iff in Hn.
  change (classify ("--" ++ c :: s)) with (named (c :: s)). unfold named. by rewrite Hn, Cut_none.
Qed.

Definition set_all (kvs : list (gostring * gostring)) (cur : gmap gostring gostring) : gmap gostring gostring :=
  foldl (fun m kv => <[kv.1 := kv.2]> m) cur kvs.

Lemma parse_command_line fs kvs cur :
  Forall (fun kv => option_name kv.1 = true /\ formal fs kv.1 = Some StringFlag) kvs ->
  parse_args fs (command_line kvs) cur = Some (set_all kvs cur, []).
Proof.
  revert cur. induction kvs as [|[k v] kvs IH]; intros cur H; [done|].
  apply Forall_cons in H as [[Hn Hf] H]. cbn [fst] in Hn, Hf.
  change (command_line ((k, v) :: kvs)) with (("--" ++ k) :: v :: command_line kvs)%go. cbn [parse_args].
  rewrite classify_option, Hf by done. by apply IH.
Qed.

(** The values of a command line, by computation. *)
Lemma Parse_gives fs args (want : list (gostring * gostring)) :
  match Parse fs args with Some (vs, _) => forallb (fun kv => seqb (value kv.1 vs) kv.2) want | None => false end = true ->
  exists vs rest, Parse fs args = Some (vs, rest) /\ Forall (fun kv => value kv.1 vs = kv.2) want.
Proof.
  destruct (Parse fs args) as [[vs rest]|]; [|done]. intros Hb. exists vs, rest. split; [done|].
  apply Forall_forall. intros kv Hkv. rewrite forallb_forall in Hb. apply seqb_eq, Hb. by apply list_elem_of_In.
Qed.

End Flag.
