(* ===== verification/Sha256.v ===== *)
(** * SHA-256, as the Go package [crypto/sha256] computes it

    The function of FIPS 180-4 on byte strings, executable, with the length of
    its output.  The program hashes with it in [detect.TokenFor], the audit
    ledger, the Merkle tree and the API-key and session tables. *)

From S2P Require Import Prelude GoStd.
Local Open Scope N_scope.

Module Sha256.

(** 32-bit words. *)
Definition wmod (x : N) : N := N.land x 0xffffffff.
Definition wadd (x y : N) : N := wmod (x + y).
Definition rotr (n x : N) : N :=
  N.lor (N.shiftr x n) (wmod (N.shiftl x (32 - n))).
Definition wnot (x : N) : N := N.lxor x 0xffffffff.

Definition ch (x y z : N) : N := N.lxor (N.land x y) (N.land (wnot x) z).
Definition maj (x y z : N) : N :=
  N.lxor (N.lxor (N.land x y) (N.land x z)) (N.land y z).
Definition big_sigma0 (x : N) : N := N.lxor (N.lxor (rotr 2 x) (rotr 13 x)) (rotr 22 x).
Definition big_sigma1 (x : N) : N := N.lxor (N.lxor (rotr 6 x) (rotr 11 x)) (rotr 25 x).
Definition sigma0 (x : N) : N := N.lxor (N.lxor (rotr 7 x) (rotr 18 x)) (N.shiftr x 3).
Definition sigma1 (x : N) : N := N.lxor (N.lxor (rotr 17 x) (rotr 19 x)) (N.shiftr x 10).

(** *** The constants

    The standard takes them from the fractional parts of the cube and the
    square roots of the first primes; they are computed here the same way. *)

(** The largest [r] with [r ^ k <= n], below [2 ^ bits]. *)
Fixpoint root (k n : N) (bits : nat) (r : N) : N :=
  match bits with
  | O => r
  | S b => let r' := r + 2 ^ N.of_nat b in root k n b (if r' ^ k <=? n then r' else r)
  end.

(** The first 32 bits of the fractional part of the [k]-th root of [p]. *)
Definition root_bits (k p : N) : N := wmod (root k (p * 2 ^ (32 * k)) 40 0).

Definition is_prime (p : nat) : bool := forallb (fun d => negb (p mod d =? 0)%nat) (seq 2 (p - 2)).
Definition primes (n : nat) : list N := N.of_nat <$> filter (fun p => is_prime p = true) (seq 2 n).

(** The 64 primes up to 311. *)
Definition round_constants : list N := Eval vm_compute in root_bits 3 <$> primes 310.

(** The eight chaining words. *)
Record words := Words { wa : N; wb : N; wc : N; wd : N; we : N; wf : N; wg : N; wh : N }.

Definition initial : words := Eval vm_compute in
  match root_bits 2 <$> primes 18 with
  | [a; b; c; d; e; f; g; h] => Words a b c d e f g h
  | _ => Words 0 0 0 0 0 0 0 0
  end.

Definition round (s : words) (kw : N * N) : words :=
  let t1 := wadd (wadd (wadd (wadd (wh s) (big_sigma1 (we s)))
                             (ch (we s) (wf s) (wg s))) (fst kw)) (snd kw) in
  let t2 := wadd (big_sigma0 (wa s)) (maj (wa s) (wb s) (wc s)) in
  Words (wadd t1 t2) (wa s) (wb s) (wc s) (wadd (wd s) t1) (we s) (wf s) (wg s).

(** The message schedule.  [window] holds the last sixteen words, oldest first. *)
Fixpoint schedule (n : nat) (window : list N) : list N :=
  match n with
  | O => []
  | S n' =>
      match window with
      | w0 :: rest =>
          let w1 := nth 0 rest 0 in
          let w9 := nth 8 rest 0 in
          let w14 := nth 13 rest 0 in
          let next := wadd (wadd (wadd (sigma1 w14) w9) (sigma0 w1)) w0 in
          w0 :: schedule n' (rest ++ [next])
      | [] => []
      end
  end.

Definition add_words (s t : words) : words :=
  Words (wadd (wa s) (wa t)) (wadd (wb s) (wb t)) (wadd (wc s) (wc t)) (wadd (wd s) (wd t))
        (wadd (we s) (we t)) (wadd (wf s) (wf t)) (wadd (wg s) (wg t)) (wadd (wh s) (wh t)).

Definition compress (s : words) (block : list N) : words :=
  add_words s (foldl round s (zip round_constants (schedule 64 block))).

(** Big-endian conversions. *)
Definition byte_N (b : byte) : N := N.of_nat (byte_nat b).
Definition N_byte (n : N) : byte := byte_of_nat (N.to_nat (n mod 256)).

Definition word_bytes (w : N) : gostring :=
  [N_byte (N.shiftr w 24); N_byte (N.shiftr w 16); N_byte (N.shiftr w 8); N_byte w].

Fixpoint bytes_words (s : gostring) : list N :=
  match s with
  | a :: b :: c :: d :: s' =>
      (byte_N a * 16777216 + byte_N b * 65536 + byte_N c * 256 + byte_N d) :: bytes_words s'
  | _ => []
  end.

(** A one bit, zeros up to 56 bytes modulo 64, the bit length in 8 bytes. *)
Definition padding (len : nat) : gostring :=
  let bits := N.of_nat len * 8 in
  Byte.x80 :: replicate (N.to_nat ((55 + 64 - N.of_nat len mod 64) mod 64)) Byte.x00
  ++ word_bytes (wmod (N.shiftr bits 32)) ++ word_bytes (wmod bits).

(** One block is sixteen words. *)
Fixpoint compress_blocks (fuel : nat) (s : words) (ws : list N) : words :=
  match fuel, ws with
  | S fuel', _ :: _ => compress_blocks fuel' (compress s (take 16 ws)) (drop 16 ws)
  | _, _ => s
  end.

Definition digest_bytes (s : words) : gostring :=
  word_bytes (wa s) ++ word_bytes (wb s) ++ word_bytes (wc s) ++ word_bytes (wd s) ++
  word_bytes (we s) ++ word_bytes (wf s) ++ word_bytes (wg s) ++ word_bytes (wh s).

(** [sha256.Sum256]. *)
Definition Sum256 (msg : gostring) : gostring :=
  let ws := bytes_words (msg ++ padding (length msg)) in
  digest_bytes (compress_blocks (S (length ws)) initial ws).

Lemma Sum256_length msg : length (Sum256 msg) = 32%nat.
Proof. reflexivity. Qed.

(** The test vectors of FIPS 180-4. *)
Example Sum256_empty : hex_encode (Sum256 []) =
  "e3b0c44298fc1c149afbf4c8996fb92427ae41e4649b934ca495991b7852b855".
Proof. vm_compute. reflexivity. Qed.

Example Sum256_abc : hex_encode (Sum256 "abc") =
  "ba7816bf8f01cfea414140de5dae2223b00361a396177a9cb410ff61f20015ad".
Proof. vm_compute. reflexivity. Qed.

Example Sum256_two_blocks :
  hex_encode (Sum256 "abcdbcdecdefdefgefghfghighijhijkijkljklmklmnlmnomnopnopq") =
  "248d6a61d20638b8e5c026930c3e6039a33ce45964ff2167f6ecedd419db06c1".
Proof. vm_compute. reflexivity. Qed.

End Sha256.
#[global] Opaque Sha256.Sum256.
