(* ===== verification/Regexp.v ===== *)
(** * Regular expressions, as the Go package [regexp] matches them

    The fragment of RE2 syntax the detectors use: byte classes, [\b],
    concatenation, alternation, [?], [*], [+], [{n}] and [{n,m}], all greedy.
    [ends] lists the ends of the matches that start at an offset in Go's order
    of preference (leftmost-first); [FindAllStringIndex] is the loop of the
    library's [allMatches].  [matches] is the declarative meaning, and the
    lemmas relate the two.  Every class the program writes is ASCII, so byte
    offsets and rune offsets pick the same matches. *)

From S2P Require Import Prelude GoStd.

Inductive regex : Type :=
| Eps
| Cls (p : byte -> bool)
| WordB
| Cat (a b : regex)
| Alt (a b : regex)
| Opt (a : regex)
| Star (a : regex).

Definition Plus (a : regex) : regex := Cat a (Star a).

Fixpoint Times (n : nat) (a : regex) : regex :=
  match n with O => Eps | S n' => Cat a (Times n' a) end.

(** [a{0,n}] as Go's simplifier writes it: [(a(a(...)?)?)?]. *)
Fixpoint UpTo (n : nat) (a : regex) : regex :=
  match n with O => Eps | S n' => Opt (Cat a (UpTo n' a)) end.

Definition Range (lo hi : nat) (a : regex) : regex := Cat (Times lo a) (UpTo (hi - lo) a).

Fixpoint Lit (l : gostring) : regex :=
  match l with [] => Eps | c :: l' => Cat (Cls (beq c)) (Lit l') end.

(** [\w]. *)
Definition is_word (b : byte) : bool := is_digit b || is_alpha b || beq b "_"%byte.

Definition word_at (s : gostring) (i : nat) : bool :=
  match s !! i with Some b => is_word b | None => false end.

(** [\b] between offsets [i-1] and [i]. *)
Definition boundary (s : gostring) (i : nat) : bool :=
  xorb (match i with O => false | S i' => word_at s i' end) (word_at s i).

(** ** The matcher *)

Section star_ends.
Context (f : nat -> list nat).

(** Greedy iteration; an iteration that consumes nothing ends the loop. *)
Fixpoint star_ends (fuel i : nat) : list nat :=
  match fuel with
  | O => [i]
  | S fuel' => (filter (fun j => i < j) (f i) ≫= star_ends fuel') ++ [i]
  end.
End star_ends.

Fixpoint ends (s : gostring) (r : regex) (i : nat) : list nat :=
  match r with
  | Eps => [i]
  | Cls p => match s !! i with
             | Some b => if p b then [S i] else []
             | None => []
             end
  | WordB => if boundary s i then [i] else []
  | Cat a b => ends s a i ≫= ends s b
  | Alt a b => ends s a i ++ ends s b i
  | Opt a => ends s a i ++ [i]
  | Star a => star_ends (ends s a) (S (length s) - i) i
  end.

(** The preferred match at the first offset from [pos] on where there is one. *)
Fixpoint find_from (s : gostring) (r : regex) (fuel pos : nat) : option (nat * nat) :=
  match fuel with
  | O => None
  | S fuel' =>
      match ends s r pos with
      | e :: _ => Some (pos, e)
      | [] => find_from s r fuel' (S pos)
      end
  end.

Definition find (s : gostring) (r : regex) (pos : nat) : option (nat * nat) :=
  find_from s r (S (length s) - pos) pos.

(** The loop of [Regexp.allMatches]: an empty match right after the previous
    match is dropped, and the search moves at least one byte each time, so
    [S (length s)] rounds are enough. *)
Fixpoint all_from (s : gostring) (r : regex) (fuel pos : nat) (prev : option nat)
    : list (nat * nat) :=
  match fuel with
  | O => []
  | S fuel' =>
      if length s <? pos then []
      else match find s r pos with
           | None => []
           | Some (i, e) =>
               let accept := negb ((e =? pos) && bool_decide (prev = Some i)) in
               let pos' := if e =? pos then S pos else e in
               let rest := all_from s r fuel' pos' (Some e) in
               if accept then (i, e) :: rest else rest
           end
  end.

(** [re.FindAllStringIndex(s, -1)]. *)
Definition FindAll (r : regex) (s : gostring) : list (nat * nat) :=
  all_from s r (S (length s)) 0 None.

(** ** The declarative meaning *)

Inductive matches (s : gostring) : regex -> nat -> nat -> Prop :=
| m_eps i : matches s Eps i i
| m_cls p b i : s !! i = Some b -> p b = true -> matches s (Cls p) i (S i)
| m_wordb i : boundary s i = true -> matches s WordB i i
| m_cat a b i j k : matches s a i j -> matches s b j k -> matches s (Cat a b) i k
| m_alt_l a b i j : matches s a i j -> matches s (Alt a b) i j
| m_alt_r a b i j : matches s b i j -> matches s (Alt a b) i j
| m_opt_some a i j : matches s a i j -> matches s (Opt a) i j
| m_opt_none a i : matches s (Opt a) i i
| m_star_nil a i : matches s (Star a) i i
| m_star_cons a i j k :
    matches s a i j -> matches s (Star a) j k -> matches s (Star a) i k.

(** The least number of bytes a match consumes. *)
Fixpoint min_len (r : regex) : nat :=
  match r with
  | Eps | WordB | Opt _ | Star _ => 0
  | Cls _ => 1
  | Cat a b => min_len a + min_len b
  | Alt a b => min (min_len a) (min_len b)
  end.

Create HintDb regex.
#[export] Hint Constructors matches : regex.

Lemma matches_min_len s r i j : matches s r i j -> i + min_len r <= j.
Proof. induction 1; simpl; lia. Qed.

Lemma matches_le s r i j : matches s r i j -> i <= j.
Proof. intros H%matches_min_len. lia. Qed.

Lemma matches_bound s r i j : matches s r i j -> i <= length s -> j <= length s.
Proof. induction 1; auto. intros _. by apply lookup_lt_Some in H. Qed.

(** *** The matcher computes the meaning *)

Lemma star_ends_sound s a fuel i k :
  (forall i j, j ∈ ends s a i -> matches s a i j) ->
  k ∈ star_ends (ends s a) fuel i -> matches s (Star a) i k.
Proof.
  intros Ha. revert i. induction fuel as [|fuel IH]; intros i; simpl.
  - intros ->%list_elem_of_singleton. constructor.
  - rewrite elem_of_app, list_elem_of_singleton, list_elem_of_bind.
    intros [(j & Hk & Hj)| ->]; [|constructor].
    apply list_elem_of_filter in Hj as [_ Hj]. eauto with regex.
Qed.

Lemma ends_sound s r i j : j ∈ ends s r i -> matches s r i j.
Proof.
  revert i j. induction r as [|p| |a IHa b IHb|a IHa b IHb|a IHa|a IHa];
    intros i j; simpl.
  - intros ->%list_elem_of_singleton. constructor.
  - destruct (s !! i) as [b|] eqn:Hb; [|by intros ?%elem_of_nil].
    destruct (p b) eqn:Hp; [|by intros ?%elem_of_nil].
    intros ->%list_elem_of_singleton. eauto with regex.
  - destruct (boundary s i) eqn:Hb; [|by intros ?%elem_of_nil].
    intros ->%list_elem_of_singleton. by constructor.
  - rewrite list_elem_of_bind. intros (k & ? & ?). eauto with regex.
  - rewrite elem_of_app. intros [?|?]; eauto with regex.
  - rewrite elem_of_app, list_elem_of_singleton. intros [?| ->]; eauto with regex.
  - by apply star_ends_sound.
Qed.

Lemma star_ends_self f fuel i : i ∈ star_ends f fuel i.
Proof. destruct fuel; simpl; [|apply elem_of_app; right]; by apply list_elem_of_singleton. Qed.

Lemma star_ends_complete s a i k :
  (forall i j, i <= length s -> matches s a i j -> j ∈ ends s a i) ->
  matches s (Star a) i k -> i <= length s ->
  forall fuel, S (length s) - i <= fuel -> k ∈ star_ends (ends s a) fuel i.
Proof.
  intros Ha H. remember (Star a) as r eqn:Hr.
  induction H as [| | | | | | | |a' i|a' i j k Hij _ Hjk IH];
    simplify_eq; intros Hi fuel Hf; [apply star_ends_self|].
  pose proof (matches_le _ _ _ _ Hij). pose proof (matches_bound _ _ _ _ Hij Hi).
  destruct (decide (i = j)) as [->|]; [by apply IH|].
  destruct fuel as [|fuel]; [lia|]. simpl. apply elem_of_app. left.
  apply list_elem_of_bind. exists j. split; [apply IH; [done|lia|lia]|].
  apply list_elem_of_filter. split; [lia|by apply Ha].
Qed.

Lemma ends_complete s r i j : i <= length s -> matches s r i j -> j ∈ ends s r i.
Proof.
  revert i j. induction r as [|p| |a IHa b IHb|a IHa b IHb|a IHa|a IHa];
    intros i j Hi H; simpl.
  - inversion H; subst. by apply list_elem_of_singleton.
  - inversion H as [|p' b ? Hb Hp| | | | | | | |]; subst. rewrite Hb, Hp.
    by apply list_elem_of_singleton.
  - inversion H as [| |? Hb| | | | | | |]; subst. rewrite Hb.
    by apply list_elem_of_singleton.
  - inversion H as [| | |? ? ? k ? Ha Hb| | | | | |]; subst. apply list_elem_of_bind.
    exists k. split; [|by apply IHa]. apply IHb; [|done]. by eapply matches_bound.
  - apply elem_of_app. inversion H; subst; eauto.
  - apply elem_of_app. inversion H; subst; [by eauto|].
    right. by apply list_elem_of_singleton.
  - apply star_ends_complete; [done|done|done|lia].
Qed.

(** *** Searching *)

Definition is_match (s : gostring) (r : regex) (i : nat) : Prop := exists j, matches s r i j.

Lemma find_from_Some s r fuel pos i e :
  find_from s r fuel pos = Some (i, e) ->
  pos <= i /\ i < pos + fuel /\ matches s r i e /\
  forall k, pos <= k < i -> k <= length s -> ~ is_match s r k.
Proof.
  revert pos. induction fuel as [|fuel IH]; intros pos; simpl; [done|].
  destruct (ends s r pos) as [|e' l] eqn:E.
  - intros (? & ? & ? & Hn)%IH. repeat split; [lia|lia|done|].
    intros k [? ?] Hk [j Hj]. destruct (decide (k = pos)) as [->|].
    + apply ends_complete in Hj; [|done]. rewrite E in Hj. by apply elem_of_nil in Hj.
    + apply (Hn k); [lia|done|by exists j].
  - intros [= -> ->]. repeat split; [lia|lia| |lia].
    apply ends_sound. rewrite E. by left.
Qed.

Lemma find_from_None s r fuel pos :
  find_from s r fuel pos = None ->
  forall k, pos <= k < pos + fuel -> k <= length s -> ~ is_match s r k.
Proof.
  revert pos. induction fuel as [|fuel IH]; intros pos; simpl; [lia|].
  destruct (ends s r pos) as [|e' l] eqn:E; [|done].
  intros Hn k [? ?] Hk [j Hj]. destruct (decide (k = pos)) as [->|].
  - apply ends_complete in Hj; [|done]. rewrite E in Hj. by apply elem_of_nil in Hj.
  - apply (IH _ Hn k); [lia|done|by exists j].
Qed.

Lemma find_Some s r pos i e :
  find s r pos = Some (i, e) ->
  pos <= i <= length s /\ matches s r i e /\ forall k, pos <= k < i -> ~ is_match s r k.
Proof.
  unfold find. intros (? & ? & ? & Hn)%find_from_Some.
  repeat split; [lia|lia|done|]. intros k Hk. apply Hn; lia.
Qed.

Lemma find_None s r pos :
  find s r pos = None -> forall k, pos <= k <= length s -> ~ is_match s r k.
Proof. unfold find. intros Hn k Hk. eapply find_from_None; [done|lia|lia]. Qed.

(** *** All matches

    For an expression that never matches the empty string: the reported
    spans are matches, in order, apart from each other, and no match starts
    outside all of them. *)

Section all_matches.
Context (s : gostring) (r : regex) (Hr : 0 < min_len r).

Lemma match_lt i j : matches s r i j -> i < j.
Proof. intros H%matches_min_len. lia. Qed.

(** [chain pos l]: [l] lists, from [pos] on, exactly the spans the search
    must report. *)
Inductive chain : nat -> list (nat * nat) -> Prop :=
| chain_nil pos : (forall k, pos <= k <= length s -> ~ is_match s r k) -> chain pos []
| chain_cons pos i e l :
    pos <= i -> i < e <= length s -> matches s r i e ->
    (forall k, pos <= k < i -> ~ is_match s r k) ->
    chain e l -> chain pos ((i, e) :: l).

Lemma all_from_chain fuel pos prev :
  S (length s) - pos <= fuel -> chain pos (all_from s r fuel pos prev).
Proof.
  revert pos prev. induction fuel as [|fuel IH]; intros pos prev Hf; simpl.
  { constructor. lia. }
  destruct (Nat.ltb_spec (length s) pos) as [Hp|Hp]; [constructor; lia|].
  destruct (find s r pos) as [[i e]|] eqn:E.
  - apply find_Some in E as (Hi & Hm & Hn). pose proof (match_lt _ _ Hm).
    pose proof (matches_bound _ _ _ _ Hm ltac:(lia)).
    assert ((e =? pos) = false) as -> by (apply Nat.eqb_neq; lia). simpl.
    constructor; [lia|lia|done|done|]. apply IH. lia.
  - constructor. by apply find_None.
Qed.

Lemma FindAll_chain : chain 0 (FindAll r s).
Proof. apply all_from_chain. lia. Qed.

Lemma chain_elem pos l i e :
  chain pos l -> (i, e) ∈ l -> pos <= i < e /\ e <= length s /\ matches s r i e.
Proof.
  induction 1 as [|pos i' e' l Hp Hi Hm Hn Hc IH]; [by intros ?%elem_of_nil|].
  intros [[= -> ->]|Hin]%elem_of_cons; [split; [lia|]; by split; [lia|]|].
  destruct (IH Hin) as (? & ? & ?). split; [lia|done].
Qed.

Lemma chain_sorted pos l :
  chain pos l -> StronglySorted (fun x y => snd x <= fst y) l.
Proof.
  induction 1 as [|pos i e l Hp Hi Hm Hn Hc IH]; constructor; [done|].
  rewrite Forall_forall. intros [i' e'] Hin. simpl.
  destruct (chain_elem _ _ _ _ Hc Hin). lia.
Qed.

Lemma chain_complete pos l k :
  chain pos l -> pos <= k <= length s -> is_match s r k ->
  exists i e, (i, e) ∈ l /\ (i <= k < e).
Proof.
  induction 1 as [pos Hn|pos i e l Hp Hi Hm Hn Hc IH]; intros Hk Hmk.
  { by destruct (Hn k). }
  destruct (decide (k < i)) as [|]; [destruct (Hn k); [lia|done]|].
  destruct (decide (k < e)) as [|].
  - exists i, e. split; [by left|lia].
  - destruct IH as (i' & e' & Hin & ?); [lia|done|].
    exists i', e'. split; [by right|lia].
Qed.

Lemma FindAll_elem i e :
  (i, e) ∈ FindAll r s -> i < e <= length s /\ matches s r i e.
Proof. intros H. destruct (chain_elem _ _ _ _ FindAll_chain H) as (? & ? & ?). by split; [lia|]. Qed.

Lemma FindAll_sorted : StronglySorted (fun x y => snd x <= fst y) (FindAll r s).
Proof. eapply chain_sorted, FindAll_chain. Qed.

Lemma FindAll_complete k :
  k <= length s -> is_match s r k -> exists i e, (i, e) ∈ FindAll r s /\ i <= k < e.
Proof. intros. eapply chain_complete; [apply FindAll_chain|lia|done]. Qed.
End all_matches.

Lemma FindAll_no_match s r :
  (forall i, i <= length s -> ~ is_match s r i) -> FindAll r s = [].
Proof.
  intros Hn. unfold FindAll. cbn [all_from].
  destruct (length s <? 0); [done|]. destruct (find s r 0) as [[i e]|] eqn:E; [|done].
  apply find_Some in E as (? & Hm & _). destruct (Hn i); [lia|by exists e].
Qed.

(** *** Inversion *)

Lemma matches_cls_inv s p i j :
  matches s (Cls p) i j -> exists b, s !! i = Some b /\ p b = true /\ j = S i.
Proof. inversion 1; subst. eauto. Qed.

Lemma matches_cat_inv s a b i k :
  matches s (Cat a b) i k -> exists j, matches s a i j /\ matches s b j k.
Proof. inversion 1; subst. eauto. Qed.

Lemma matches_alt_inv s a b i j :
  matches s (Alt a b) i j -> matches s a i j \/ matches s b i j.
Proof. inversion 1; subst; eauto. Qed.

Lemma matches_opt_inv s a i j : matches s (Opt a) i j -> matches s a i j \/ j = i.
Proof. inversion 1; subst; eauto. Qed.

Lemma matches_eps_inv s i j : matches s Eps i j -> j = i.
Proof. by intros H; inversion H. Qed.

Lemma matches_wordb_inv s i j : matches s WordB i j -> j = i /\ boundary s i = true.
Proof. by intros H; inversion H. Qed.

Lemma matches_lit s l i j :
  matches s (Lit l) i j <-> j = i + length l /\ take (length l) (drop i s) = l.
Proof.
  revert i j. induction l as [|c l IH]; intros i j; simpl.
  - split; [intros ->%matches_eps_inv; split; [lia|done]|].
    intros [-> _]. rewrite Nat.add_0_r. constructor.
  - split.
    + intros (k & (b & Hb & ->%beq_eq & ->)%matches_cls_inv & [-> Hl]%IH)%matches_cat_inv.
      split; [lia|]. rewrite (drop_S _ _ _ Hb). simpl. by rewrite Hl.
    + intros [-> H]. destruct (s !! i) as [b|] eqn:Hb.
      * rewrite (drop_S _ _ _ Hb) in H. injection H as -> Hl.
        eapply m_cat; [eapply m_cls; [done|apply beq_refl]|]. apply IH. split; [lia|done].
      * rewrite drop_ge in H by (by apply lookup_ge_None). done.
Qed.

(** *** Bytes a match must contain, and bytes it may contain *)

(** [cls_within p P]: every byte of the class [p] satisfies [P]. *)
Definition cls_within (p P : byte -> bool) : bool :=
  forallb (fun n => implb (p (byte_of_nat n)) (P (byte_of_nat n))) (seq 0 256).

Lemma cls_within_spec p P b : cls_within p P = true -> p b = true -> P b = true.
Proof.
  unfold cls_within. rewrite forallb_forall. intros H Hp.
  assert (Hin : In (byte_nat b) (seq 0 256)).
  { apply in_seq. pose proof (byte_nat_lt b). lia. }
  specialize (H _ Hin). by rewrite byte_of_nat_nat, Hp in H.
Qed.

(** Every match contains a byte that satisfies [P]. *)
Fixpoint needs (P : byte -> bool) (r : regex) : bool :=
  match r with
  | Eps | WordB | Opt _ | Star _ => false
  | Cls p => cls_within p P
  | Cat a b => needs P a || needs P b
  | Alt a b => needs P a && needs P b
  end.

(** Every byte of every match satisfies [P]. *)
Fixpoint only (P : byte -> bool) (r : regex) : bool :=
  match r with
  | Eps | WordB => true
  | Cls p => cls_within p P
  | Cat a b | Alt a b => only P a && only P b
  | Opt a | Star a => only P a
  end.

(** The expression does not look outside its match. *)
Fixpoint local (r : regex) : bool :=
  match r with
  | Eps | Cls _ => true
  | WordB => false
  | Cat a b | Alt a b => local a && local b
  | Opt a | Star a => local a
  end.

Lemma needs_sound s P r i j :
  needs P r = true -> matches s r i j ->
  exists k b, i <= k < j /\ s !! k = Some b /\ P b = true.
Proof.
  intros Hn H. revert Hn.
  induction H as [|p b i Hb Hp| |a b i j k Ha IHa Hb IHb|a b i j Ha IHa|a b i j Hb IHb| | | |];
    simpl; try done.
  - intros Hc. exists i, b. split; [lia|]. split; [done|]. by eapply cls_within_spec.
  - pose proof (matches_le _ _ _ _ Ha). pose proof (matches_le _ _ _ _ Hb).
    rewrite orb_true_iff. intros [Hn|Hn].
    + destruct (IHa Hn) as (x & c & ? & ?). exists x, c. split; [lia|done].
    + destruct (IHb Hn) as (x & c & ? & ?). exists x, c. split; [lia|done].
  - intros [? ?]%andb_true_iff. by apply IHa.
  - intros [? ?]%andb_true_iff. by apply IHb.
Qed.

Lemma only_sound s P r i j :
  only P r = true -> matches s r i j ->
  forall k, i <= k < j -> exists b, s !! k = Some b /\ P b = true.
Proof.
  intros Ho H. revert Ho.
  induction H as [|p b i Hb Hp| |a b i j k Ha IHa Hb IHb|a b i j Ha IHa|a b i j Hb IHb
                 |a i j Ha IHa| |a i|a i j k Ha IHa Hb IHb];
    simpl; intros Ho x Hx; try lia.
  - assert (x = i) as -> by lia. exists b. split; [done|]. by eapply cls_within_spec.
  - apply andb_true_iff in Ho as [? ?].
    destruct (decide (x < j)); [apply IHa; [done|lia]|apply IHb; [done|lia]].
  - apply andb_true_iff in Ho as [? ?]. by apply IHa.
  - apply andb_true_iff in Ho as [? ?]. by apply IHb.
  - by apply IHa.
  - destruct (decide (x < j)); [apply IHa; [done|lia]|apply IHb; [done|lia]].
Qed.

(** A local match moves with its text. *)
Lemma local_shift s t r i j i' :
  local r = true -> matches s r i j ->
  (forall k, k < j - i -> t !! (i' + k) = s !! (i + k)) ->
  matches t r i' (i' + (j - i)).
Proof.
  intros Hl H. revert i' Hl.
  induction H as [x|p b x Hb Hp|x Hb|a b x j k Ha IHa Hb IHb|a b x j Ha IHa|a b x j Hb IHb
                 |a x j Ha IHa|a x|a x|a x j k Ha IHa Hb IHb];
    simpl; intros i' Hl Ht; try done;
    try (rewrite Nat.sub_diag, Nat.add_0_r; by constructor).
  - replace (i' + (S x - x)) with (S i') by lia. apply m_cls with b; [|done].
    rewrite <- Hb, <- (Nat.add_0_r i'), <- (Nat.add_0_r x) at 1. apply Ht. lia.
  - apply andb_true_iff in Hl as [? ?].
    pose proof (matches_le _ _ _ _ Ha). pose proof (matches_le _ _ _ _ Hb).
    apply m_cat with (i' + (j - x)); [apply IHa; [done|]; intros; apply Ht; lia|].
    replace (i' + (k - x)) with (i' + (j - x) + (k - j)) by lia. apply IHb; [done|].
    intros y Hy. rewrite <- Nat.add_assoc, Ht by lia. f_equal. lia.
  - apply andb_true_iff in Hl as [? ?]. apply m_alt_l. by apply IHa.
  - apply andb_true_iff in Hl as [? ?]. apply m_alt_r. by apply IHb.
  - apply m_opt_some. by apply IHa.
  - pose proof (matches_le _ _ _ _ Ha). pose proof (matches_le _ _ _ _ Hb).
    apply m_star_cons with (i' + (j - x)); [apply IHa; [done|]; intros; apply Ht; lia|].
    replace (i' + (k - x)) with (i' + (j - x) + (k - j)) by lia. apply IHb; [done|].
    intros y Hy. rewrite <- Nat.add_assoc, Ht by lia. f_equal. lia.
Qed.
