(* ===== verification/GoTime.v ===== *)
(** * Time, as the Go package [time] keeps and prints it

    A [time.Time] in UTC is the number of nanoseconds since the Unix epoch.
    [Truncate] to microseconds, and [Format(time.RFC3339Nano)] with its
    calendar arithmetic, proved injective: two instants that print alike are
    the same instant. *)

From S2P Require Import Prelude GoStd.
#[local] Open Scope Z_scope.

Abbreviation time := Z (only parsing).

Definition Microsecond : Z := 1000.
Definition Second : Z := 1000000000.

(** [t.Truncate(d)]: the zero time is a whole number of seconds before the
    epoch, so rounding down from either is the same for [d] that divides a
    second. *)
Definition Truncate (t : time) (d : Z) : time := t - t mod d.

(** ** The calendar *)

Record civil := Civil { year : Z; month : Z; day : Z }.

Definition era_days : Z := 146097.

(** Year and day within a 400-year era that starts on the first of March. *)
Definition era_year (doe : Z) : Z := (doe - doe / 1460 + doe / 36524 - doe / 146096) / 365.
Definition year_day (doe yoe : Z) : Z := doe - (365 * yoe + yoe / 4 - yoe / 100).

Definition civil_from_days (days : Z) : civil :=
  let z := days + 719468 in
  let era := z / era_days in
  let doe := z mod era_days in
  let yoe := era_year doe in
  let doy := year_day doe yoe in
  let mp := (5 * doy + 2) / 153 in
  let d := doy - (153 * mp + 2) / 5 + 1 in
  let m := if mp <? 10 then mp + 3 else mp - 9 in
  let y := yoe + era * 400 in
  Civil (if m <=? 2 then y + 1 else y) m d.

Definition days_from_civil (c : civil) : Z :=
  let y := if month c <=? 2 then year c - 1 else year c in
  let mp := if month c <=? 2 then month c + 9 else month c - 3 in
  let era := y / 400 in
  let yoe := y mod 400 in
  let doy := (153 * mp + 2) / 5 + day c - 1 in
  era * era_days + (yoe * 365 + yoe / 4 - yoe / 100 + doy) - 719468.

(** ** Formatting *)

(** [appendInt(x, width)]. *)
Definition appendInt (x : Z) (width : nat) : gostring :=
  let ds := FormatUint (Z.abs_N x) in
  (if x <? 0 then ["-"%byte] else []) ++ Repeat "0" (width - length ds) ++ ds.

(** The last [w] decimal digits of [n]. *)
Fixpoint fixed_digits (w : nat) (n : N) : gostring :=
  match w with
  | O => []
  | S w' => fixed_digits w' (n / 10) ++ [digit_byte (N.to_nat (n mod 10))]
  end.

(** [.999999999]: nine digits, trailing zeros dropped. *)
Definition format_frac (ns : Z) : gostring :=
  match TrimRight (fixed_digits 9 (Z.to_N ns)) "0" with
  | [] => []
  | ds => "."%byte :: ds
  end.

(** [t.UTC().Format(time.RFC3339Nano)]. *)
Definition FormatRFC3339Nano (t : time) : gostring :=
  let secs := t / Second in
  let ns := t mod Second in
  let c := civil_from_days (secs / 86400) in
  let s := secs mod 86400 in
  appendInt (year c) 4 ++ "-" ++ appendInt (month c) 2 ++ "-" ++ appendInt (day c) 2 ++ "T" ++
  appendInt (s / 3600) 2 ++ ":" ++ appendInt (s / 60 mod 60) 2 ++ ":" ++
  appendInt (s mod 60) 2 ++ format_frac ns ++ "Z".

Example format_epoch : FormatRFC3339Nano 0 = "1970-01-01T00:00:00Z"%go.
Proof. vm_compute. reflexivity. Qed.
Example format_frac_example :
  FormatRFC3339Nano 1709210096120300000 = "2024-02-29T12:34:56.1203Z"%go.
Proof. vm_compute. reflexivity. Qed.

(** ** The calendar is a bijection *)

Lemma era_bounds doe :
  0 <= doe < era_days ->
  0 <= era_year doe < 400 /\ 0 <= year_day doe (era_year doe) <= 365.
Proof.
  unfold era_days, year_day, era_year. intros H.
  pose proof (Z.div_mod doe 1460 ltac:(lia)). pose proof (Z.mod_pos_bound doe 1460 ltac:(lia)).
  pose proof (Z.div_mod doe 36524 ltac:(lia)). pose proof (Z.mod_pos_bound doe 36524 ltac:(lia)).
  pose proof (Z.div_mod doe 146096 ltac:(lia)).
  pose proof (Z.mod_pos_bound doe 146096 ltac:(lia)).
  generalize dependent (doe mod 1460). generalize dependent (doe mod 36524).
  generalize dependent (doe mod 146096). generalize dependent (doe / 146096).
  generalize dependent (doe / 1460). generalize dependent (doe / 36524).
  intros q2 q1 q3 r3 H3 H3' r2 H2 H2' r1 H1 H1'.
  set (n := doe - q1 + q2 - q3).
  pose proof (Z.div_mod n 365 ltac:(lia)) as Hn. pose proof (Z.mod_pos_bound n 365 ltac:(lia)).
  generalize dependent (n mod 365). generalize dependent (n / 365). unfold n. clear n.
  intros y r Hn Hr.
  pose proof (Z.div_mod y 4 ltac:(lia)). pose proof (Z.mod_pos_bound y 4 ltac:(lia)).
  pose proof (Z.div_mod y 100 ltac:(lia)). pose proof (Z.mod_pos_bound y 100 ltac:(lia)).
  generalize dependent (y mod 4). generalize dependent (y mod 100).
  generalize dependent (y / 4). generalize dependent (y / 100). intros b a b' Hb Hb' a' Ha Ha'.
  assert (q3 = 0 \/ q3 = 1) as Hq3 by lia.
  assert (q2 = 0 \/ q2 = 1 \/ q2 = 2 \/ q2 = 3 \/ q2 = 4) as Hq2 by lia.
  assert (Hy : 0 <= y < 400)
    by (destruct Hq3 as [-> | ->]; destruct Hq2 as [-> | [-> | [-> | [-> | ->]]]]; lia).
  split; [done|].
  assert (b = 0 \/ b = 1 \/ b = 2 \/ b = 3) as Hq by lia.
  destruct Hq3 as [-> | ->]; destruct Hq2 as [-> | [-> | [-> | [-> | ->]]]];
    destruct Hq as [-> | [-> | [-> | ->]]]; lia.
Qed.

Lemma month_bounds doy : 0 <= doy -> doy <= 365 -> 0 <= (5 * doy + 2) / 153 <= 11.
Proof. intros. Z.div_mod_to_equations. lia. Qed.

Lemma days_civil d : days_from_civil (civil_from_days d) = d.
Proof.
  unfold civil_from_days. cbv zeta.
  set (z := d + 719468). pose proof (Z.div_mod z era_days ltac:(done)) as Hz.
  pose proof (Z.mod_pos_bound z era_days ltac:(done)) as Hb.
  destruct (era_bounds _ Hb) as [[H1 H2] [H3 H4]].
  set (doe := z mod era_days) in *. set (yoe := era_year doe) in *.
  set (doy := year_day doe yoe) in *.
  pose proof (month_bounds doy H3 H4) as H5.
  set (mp := (5 * doy + 2) / 153) in *.
  assert (Hdoe : doe = 365 * yoe + yoe / 4 - yoe / 100 + doy) by (unfold doy, year_day; lia).
  clearbody mp doy yoe doe. unfold days_from_civil. cbn [year month day].
  set (era := z / era_days) in *. clearbody era.
  assert (Hy : (yoe + era * 400) / 400 = era /\ (yoe + era * 400) mod 400 = yoe).
  { rewrite Z.div_add, Z.mod_add by done. rewrite Z.div_small, Z.mod_small by lia. lia. }
  destruct Hy as [Hy1 Hy2].
  destruct (Z.ltb_spec mp 10) as [Hm|Hm].
  - destruct (Z.leb_spec (mp + 3) 2); [lia|]. rewrite Hy1, Hy2.
    replace (mp + 3 - 3) with mp by lia. lia.
  - destruct (Z.leb_spec (mp - 9) 2); [|lia].
    replace (yoe + era * 400 + 1 - 1) with (yoe + era * 400) by lia.
    rewrite Hy1, Hy2. replace (mp - 9 + 9) with mp by lia. lia.
Qed.

Lemma civil_from_days_inj a b : civil_from_days a = civil_from_days b -> a = b.
Proof. intros H. by rewrite <- (days_civil a), H, days_civil. Qed.

(** ** What is printed determines the instant *)

(** Text that starts with digits and then something else splits one way only. *)
Lemma digits_app_inj (s t r u : gostring) b c :
  Forall (fun x => is_digit x = true) s -> Forall (fun x => is_digit x = true) t ->
  is_digit b = false -> is_digit c = false ->
  s ++ b :: r = t ++ c :: u -> s = t /\ b :: r = c :: u.
Proof.
  revert t. induction s as [|x s IH]; intros [|y t] Hs Ht Hb Hc E; cbn [app] in E.
  - done.
  - injection E as -> _. apply Forall_cons in Ht as [Hy _]. congruence.
  - injection E as -> _. apply Forall_cons in Hs as [Hx _]. congruence.
  - injection E as -> E. apply Forall_cons in Hs as [_ Hs], Ht as [_ Ht].
    destruct (IH t Hs Ht Hb Hc E) as [-> ->]. done.
Qed.

Lemma parse_zeros k s : parse_digits 0 (Repeat "0" k ++ s) = parse_digits 0 s.
Proof. induction k as [|k IH]; [done|]. exact IH. Qed.

Definition digits_of (x : Z) (w : nat) : gostring :=
  Repeat "0" (w - length (FormatUint (Z.abs_N x))) ++ FormatUint (Z.abs_N x).

Lemma digits_of_digits x w : Forall (fun b => is_digit b = true) (digits_of x w).
Proof.
  unfold digits_of. apply Forall_app. split; [|apply FormatUint_digits].
  generalize (w - length (FormatUint (Z.abs_N x)))%nat as k.
  induction k as [|k IH]; [constructor|]. by constructor.
Qed.

Lemma digits_of_inj x y w : digits_of x w = digits_of y w -> Z.abs x = Z.abs y.
Proof.
  intros H%(f_equal (parse_digits 0)). unfold digits_of in H.
  rewrite !parse_zeros, !FormatUint_parse in H. injection H as H. lia.
Qed.

Lemma appendInt_nonneg x w : 0 <= x -> appendInt x w = digits_of x w.
Proof. intros H. unfold appendInt, digits_of. by destruct (Z.ltb_spec x 0); [lia|]. Qed.

Lemma appendInt_app_inj x y w b r u :
  is_digit b = false -> appendInt x w ++ b :: r = appendInt y w ++ b :: u ->
  x = y /\ r = u.
Proof.
  intros Hb H.
  assert (Hhead : forall z t, appendInt z w ++ b :: t =
            (if z <? 0 then ["-"%byte] else []) ++ digits_of z w ++ b :: t)
    by (intros; unfold appendInt, digits_of; by rewrite !app_assoc).
  rewrite !Hhead in H.
  assert (Hd : forall z, exists d l, digits_of z w = d :: l /\ is_digit d = true).
  { intros z. pose proof (digits_of_digits z w) as Hz. destruct (digits_of z w) as [|d l] eqn:E.
    - unfold digits_of in E. apply app_eq_nil in E as [_ E]. by destruct (FormatUint_nonempty _ E).
    - apply Forall_cons in Hz as [? _]. eauto. }
  destruct (Hd x) as (dx & lx & Ex & Hx), (Hd y) as (dy & ly & Ey & Hy).
  assert (Hin : forall v w', digits_of x w ++ b :: v = digits_of y w ++ b :: w' ->
                Z.abs x = Z.abs y /\ v = w').
  { intros v w' E. apply digits_app_inj in E as [E Er]; auto using digits_of_digits.
    apply digits_of_inj in E. by injection Er as ->. }
  destruct (Z.ltb_spec x 0), (Z.ltb_spec y 0); cbn [app] in H.
  - injection H as H. apply Hin in H as [? ->]. split; [lia|done].
  - rewrite Ey in H. injection H as <- _. done.
  - rewrite Ex in H. injection H as -> _. done.
  - apply Hin in H as [? ->]. split; [lia|done].
Qed.

Lemma fixed_digits_length w n : length (fixed_digits w n) = w.
Proof. revert n. induction w as [|w IH]; intros n; [done|]. cbn. rewrite length_app, IH. simpl. lia. Qed.

Lemma fixed_digits_digits w n : Forall (fun b => is_digit b = true) (fixed_digits w n).
Proof.
  revert n. induction w as [|w IH]; intros n; [constructor|]. cbn [fixed_digits].
  apply Forall_app. split; [apply IH|]. constructor; [|constructor].
  apply is_digit_digit_byte. pose proof (N.mod_lt n 10 ltac:(lia)). lia.
Qed.

Lemma fixed_digits_inj w m n :
  (m < 10 ^ N.of_nat w)%N -> (n < 10 ^ N.of_nat w)%N -> fixed_digits w m = fixed_digits w n -> m = n.
Proof.
  revert m n. induction w as [|w IH]; intros m n Hm Hn H; [simpl in *; lia|].
  cbn [fixed_digits] in H. apply app_inj_tail in H as [H1 H2].
  rewrite Nat2N.inj_succ, N.pow_succ_r' in Hm, Hn.
  apply IH in H1; [|apply N.Div0.div_lt_upper_bound; lia..].
  apply (f_equal digit_val) in H2.
  pose proof (N.mod_lt m 10 ltac:(lia)). pose proof (N.mod_lt n 10 ltac:(lia)).
  rewrite !digit_val_byte in H2 by lia.
  rewrite (N.div_mod m 10), (N.div_mod n 10) by lia. lia.
Qed.

(** Dropping trailing zeros loses nothing at a fixed width. *)
Lemma TrimRight_zeros s : exists k, s = TrimRight s "0" ++ Repeat "0" k.
Proof.
  induction s as [|b s [k IH]]; [by exists 0%nat|]. cbn [TrimRight].
  destruct (TrimRight s "0") as [|c t].
  - cbn [existsb orb]. destruct (beq b "0"%byte) eqn:E.
    + apply beq_eq in E as ->. exists (S k). by rewrite IH at 1.
    + exists k. by rewrite IH at 1.
  - exists k. cbn [app] in *. by rewrite IH at 1.
Qed.

Lemma Repeat_zero_length k : length (Repeat "0" k) = k.
Proof. induction k as [|k IH]; [done|]. cbn. by rewrite <- IH at 2. Qed.

Lemma TrimRight_zeros_inj s t :
  length s = length t -> TrimRight s "0" = TrimRight t "0" -> s = t.
Proof.
  intros Hl H. destruct (TrimRight_zeros s) as [k Hs], (TrimRight_zeros t) as [j Ht].
  rewrite H in Hs. assert (k = j) as ->; [|congruence].
  apply (f_equal length) in Hs, Ht. rewrite length_app, Repeat_zero_length in Hs, Ht. lia.
Qed.

Lemma TrimRight_digits s :
  Forall (fun b => is_digit b = true) s -> Forall (fun b => is_digit b = true) (TrimRight s "0").
Proof.
  intros H. destruct (TrimRight_zeros s) as [k Hs]. rewrite Hs in H at 1.
  by apply Forall_app in H as [H _].
Qed.

Lemma format_frac_inj a b :
  0 <= a < Second -> 0 <= b < Second ->
  format_frac a ++ "Z"%go = format_frac b ++ "Z"%go -> a = b.
Proof.
  unfold format_frac. intros Ha Hb H.
  assert (E : TrimRight (fixed_digits 9 (Z.to_N a)) "0" = TrimRight (fixed_digits 9 (Z.to_N b)) "0").
  { pose proof (TrimRight_digits _ (fixed_digits_digits 9 (Z.to_N a))) as Da.
    pose proof (TrimRight_digits _ (fixed_digits_digits 9 (Z.to_N b))) as Db.
    destruct (TrimRight (fixed_digits 9 (Z.to_N a)) "0") as [|x s],
      (TrimRight (fixed_digits 9 (Z.to_N b)) "0") as [|y t]; [done..|].
    rewrite <- !app_comm_cons in H. injection H as -> H. f_equal.
    by apply app_inj_tail in H as [-> _]. }
  apply TrimRight_zeros_inj in E; [|by rewrite !fixed_digits_length].
  apply fixed_digits_inj in E; unfold Second in *; simpl; lia.
Qed.

(** Hours, minutes and seconds determine the second of the day. *)
Lemma clock_inj a b :
  a / 3600 = b / 3600 -> a / 60 mod 60 = b / 60 mod 60 -> a mod 60 = b mod 60 -> a = b.
Proof. intros. Z.div_mod_to_equations. lia. Qed.

Lemma FormatRFC3339Nano_inj t u : FormatRFC3339Nano t = FormatRFC3339Nano u -> t = u.
Proof.
  unfold FormatRFC3339Nano. cbv zeta. intros H.
  set (ct := civil_from_days (t / Second / 86400)) in *.
  set (cu := civil_from_days (u / Second / 86400)) in *.
  apply appendInt_app_inj in H as [Hy H]; [|done].
  apply appendInt_app_inj in H as [Hm H]; [|done].
  apply appendInt_app_inj in H as [Hd H]; [|done].
  apply appendInt_app_inj in H as [Hh H]; [|done].
  apply appendInt_app_inj in H as [Hmi H]; [|done].
  assert (ct = cu) as Hc by (destruct ct, cu; cbn in *; congruence).
  apply civil_from_days_inj in Hc.
  pose proof (Z.mod_pos_bound t Second ltac:(done)). pose proof (Z.mod_pos_bound u Second ltac:(done)).
  assert (Hdig : forall f, exists b r, format_frac f ++ "Z"%go = b :: r /\ is_digit b = false).
  { intros f. unfold format_frac. destruct (TrimRight _ _); by eexists _, _. }
  assert (Hs : t / Second mod 86400 mod 60 = u / Second mod 86400 mod 60 /\
               format_frac (t mod Second) ++ "Z"%go = format_frac (u mod Second) ++ "Z"%go).
  { destruct (Hdig (t mod Second)) as (b & r & Eb & Hb), (Hdig (u mod Second)) as (c & r' & Ec & Hc').
    rewrite Eb, Ec in H |- *.
    pose proof (Z.mod_pos_bound (t / Second mod 86400) 60 ltac:(lia)).
    pose proof (Z.mod_pos_bound (u / Second mod 86400) 60 ltac:(lia)).
    rewrite !appendInt_nonneg in H by lia.
    apply digits_app_inj in H as [H ->]; auto using digits_of_digits.
    apply digits_of_inj in H. split; [lia|done]. }
  destruct Hs as [Hs Hf]. apply format_frac_inj in Hf; [|done..].
  assert (t / Second = u / Second).
  { set (st := t / Second) in *. set (su := u / Second) in *.
    pose proof (Z.div_mod st 86400 ltac:(lia)). pose proof (Z.div_mod su 86400 ltac:(lia)).
    assert (Hab : st mod 86400 = su mod 86400) by (apply clock_inj; assumption). lia. }
  rewrite (Z.div_mod t Second), (Z.div_mod u Second) by done. congruence.
Qed.

Lemma Truncate_idem t : Truncate (Truncate t Microsecond) Microsecond = Truncate t Microsecond.
Proof.
  unfold Truncate, Microsecond. pose proof (Z.div_mod t 1000 ltac:(lia)) as H.
  replace (t - t mod 1000) with (t / 1000 * 1000) by lia. rewrite Z.mod_mul by lia. lia.
Qed.
