(* ===== verification/NetIP.v ===== *)
(** * IP addresses, as the Go package [net] parses them

    [net.ParseIP] on dotted IPv4 and colon-separated IPv6 text, following the
    library's [netip.ParseAddr]: an address is sixteen bytes, an IPv4 address
    being the mapped form [::ffff:a.b.c.d].  An address with a zone is refused,
    as [net.ParseIP] refuses it. *)

From S2P Require Import Prelude GoStd.

(** [parseIPv4Fields]: [val] and [diglen] describe the current octet, [done]
    holds the finished ones in reverse, [prev_dot] says that the previous byte
    was a dot (or that there is none). *)
Fixpoint v4_fields (s : gostring) (val diglen : nat) (done : list nat) (prev_dot : bool)
    : option (list nat) :=
  match s with
  | [] => if length done <? 3 then None else Some (reverse (val :: done))
  | b :: s' =>
      if is_digit b then
        if (diglen =? 1) && (val =? 0) then None
        else let val' := val * 10 + digit_val b in
             if 255 <? val' then None
             else v4_fields s' val' (S diglen) done false
      else if beq b "."%byte then
        if prev_dot || bool_decide (s' = []) then None
        else if length done =? 3 then None
        else v4_fields s' 0 0 (val :: done) true
      else None
  end.

Definition parse_v4_fields (s : gostring) : option (list nat) :=
  v4_fields s 0 0 [] true.

Definition v4_in_v6 : list nat := replicate 10 0 ++ [255; 255].

Definition parse_v4 (s : gostring) : option (list nat) :=
  f ← parse_v4_fields s; Some (v4_in_v6 ++ f).

(** One hexadecimal group: its digit count and value; more than four digits
    are refused. *)
Fixpoint hex_group (s : gostring) (off acc : nat) : option (nat * nat) :=
  match s with
  | [] => Some (off, acc)
  | b :: s' =>
      match hex_val b with
      | None => Some (off, acc)
      | Some d => if 3 <? off then None else hex_group s' (S off) (acc * 16 + d)
      end
  end.

(** The loop of [parseIPv6].  [ip] is what has been parsed so far and
    [ellipsis] the position of [::] in it. *)
Fixpoint v6_loop (fuel : nat) (s : gostring) (ip : list nat) (ellipsis : option nat)
    : option (gostring * list nat * option nat) :=
  match fuel with
  | O => Some (s, ip, ellipsis)
  | S fuel' =>
      if 16 <=? length ip then Some (s, ip, ellipsis)
      else
        g ← hex_group s 0 0;
        let '(off, acc) := g in
        if off =? 0 then None
        else
          let s1 := drop off s in
          if HasPrefix s1 "." then
            if bool_decide (ellipsis = None) && negb (length ip =? 12) then None
            else if 16 <? length ip + 4 then None
            else f ← parse_v4_fields s; Some ([], ip ++ f, ellipsis)
          else
            let ip1 := ip ++ [acc / 256; acc mod 256] in
            match s1 with
            | [] => Some ([], ip1, ellipsis)
            | c :: s2 =>
                if negb (beq c ":"%byte) then None
                else if bool_decide (s2 = []) then None
                else if HasPrefix s2 ":" then
                  match ellipsis with
                  | Some _ => None
                  | None =>
                      match drop 1 s2 with
                      | [] => Some ([], ip1, Some (length ip1))
                      | s3 => v6_loop fuel' s3 ip1 (Some (length ip1))
                      end
                  end
                else v6_loop fuel' s2 ip1 ellipsis
            end
  end.

Definition parse_v6 (s : gostring) : option (list nat) :=
  let run (s' : gostring) (ellipsis : option nat) : option (list nat) :=
    r ← v6_loop 8 s' [] ellipsis;
    let '(rest, ip, ell) := r in
    match rest with
    | _ :: _ => None
    | [] =>
        match ell with
        | None => if length ip <? 16 then None else Some ip
        | Some e => if length ip <? 16
                    then Some (take e ip ++ replicate (16 - length ip) 0 ++ drop e ip)
                    else None
        end
    end in
  if HasPrefix s "::" then
    match drop 2 s with [] => Some (replicate 16 0) | s' => run s' (Some 0) end
  else run s None.

(** [net.ParseIP]. The first dot, colon or percent sign decides the form; a
    zone is refused. *)
Fixpoint ip_form (s : gostring) : option byte :=
  match s with
  | [] => None
  | b :: s' => if existsb (beq b) ".:%"%go then Some b else ip_form s'
  end.

Definition ParseIP (s : gostring) : option (list nat) :=
  match ip_form s with
  | Some b =>
      if beq b "."%byte then parse_v4 s
      else if beq b ":"%byte then
        if existsb (beq "%"%byte) s then None else parse_v6 s
      else None
  | None => None
  end.

(** [ip.To4() != nil]. *)
Definition is_v4 (ip : list nat) : bool := bool_decide (take 12 ip = v4_in_v6).

Example ParseIP_v4 : ParseIP "192.168.1.1" = Some (v4_in_v6 ++ [192; 168; 1; 1]).
Proof. reflexivity. Qed.
Example ParseIP_v4_big : ParseIP "999.1.1.1" = None.
Proof. reflexivity. Qed.
Example ParseIP_v4_zero : ParseIP "01.1.1.1" = None.
Proof. reflexivity. Qed.
Example ParseIP_loopback : ParseIP "::1" = Some (replicate 15 0 ++ [1]).
Proof. reflexivity. Qed.
Example ParseIP_v6 : ParseIP "2001:0db8:85a3:0000:0000:8a2e:0370:7334" =
  Some [32; 1; 13; 184; 133; 163; 0; 0; 0; 0; 138; 46; 3; 112; 115; 52].
Proof. reflexivity. Qed.
Example ParseIP_v6_ellipsis : ParseIP "1::2" = Some (0 :: 1 :: replicate 13 0 ++ [2]).
Proof. reflexivity. Qed.
Example ParseIP_v6_twice : ParseIP "1::2::3" = None.
Proof. reflexivity. Qed.
