(* ===== verification/Detect.v ===== *)
(** * The detectors ([internal/detect])

    [detect.go], [creditcard.go], [india.go] and [ip.go]: the kinds, the
    expressions and the checksums, [Scan] with its choice between overlapping
    spans, and [Apply] with its three modes. *)

From S2P Require Import Prelude GoStd Sha256 Regexp NetIP.

(** ** Data *)

(** [type Kind string] *)
Abbreviation Kind := gostring (only parsing).

Definition KindEmail : Kind := "email".
Definition KindPhoneUS : Kind := "phone_us".
Definition KindPhoneIN : Kind := "phone_in".
Definition KindSSN : Kind := "ssn".
Definition KindAadhaar : Kind := "aadhaar".
Definition KindPAN : Kind := "pan".
Definition KindCreditCard : Kind := "credit_card".
Definition KindIP : Kind := "ip".

Record Span : Type := MkSpan { sp_kind : Kind; sp_start : Z; sp_end : Z }.

#[export] Instance Span_eq_dec : EqDecision Span.
Proof. solve_decision. Defined.

(** [type Mode string] *)
Abbreviation Mode := gostring (only parsing).
Definition ModeRedact : Mode := "redact".
Definition ModePartial : Mode := "partial".
Definition ModeTokenize : Mode := "tokenize".

(** ** The expressions *)

Definition Seq (l : list regex) : regex := foldr Cat Eps l.
Definition digit_re : regex := Cls is_digit.
Definition chr (b : byte) : regex := Cls (beq b).
Definition one_of (l : gostring) : regex := Cls (fun b => existsb (beq b) l).
Definition sep_opt : regex := Opt (one_of " -").

Definition word_dot (b : byte) : bool := is_word b || beq b "."%byte.

Definition emailRE : regex :=
  Seq [Plus (Cls word_dot); Alt (Lit "@") (Lit "%40"); Plus (Cls word_dot);
       chr "."%byte; Plus (Cls is_alpha)].

Definition phoneUSRE : regex :=
  Alt (Seq [chr "("%byte; Times 3 digit_re; Lit ") "; Times 3 digit_re;
            chr "-"%byte; Times 4 digit_re])
  (Alt (Seq [Times 3 digit_re; chr "-"%byte; Times 3 digit_re;
             chr "-"%byte; Times 4 digit_re])
  (Alt (Seq [Lit "+1 "; Times 3 digit_re; chr " "%byte; Times 3 digit_re;
             chr " "%byte; Times 4 digit_re])
       (Seq [Times 3 digit_re; chr " "%byte; Times 3 digit_re;
             chr " "%byte; Times 4 digit_re]))).

Definition ssnRE : regex :=
  Seq [WordB; Times 3 digit_re; chr "-"%byte; Times 2 digit_re; chr "-"%byte;
       Times 4 digit_re; WordB].

Definition cardRE : regex :=
  Seq [WordB; Range 13 19 (Cat digit_re sep_opt); WordB].

Definition aadhaarRE : regex :=
  Seq [Cls (in_range "2"%byte "9"%byte); Times 3 digit_re; sep_opt;
       Times 4 digit_re; sep_opt; Times 4 digit_re].

Definition panRE : regex :=
  Seq [WordB; Times 3 (Cls is_upper); one_of "ABCFGHLJPT"; Cls is_upper;
       Times 4 digit_re; Cls is_upper; WordB].

Definition phoneINRE : regex :=
  Seq [Opt (Alt (Cat (Lit "+91") sep_opt) (chr "0"%byte));
       Cls (in_range "6"%byte "9"%byte); Times 9 (Cat sep_opt digit_re)].

Definition ipv4RE : regex :=
  Seq [WordB; Range 1 3 digit_re; chr "."%byte; Range 1 3 digit_re; chr "."%byte;
       Range 1 3 digit_re; chr "."%byte; Range 1 3 digit_re; WordB].

Definition is_hex (b : byte) : bool :=
  is_digit b || in_range "a"%byte "f"%byte b || in_range "A"%byte "F"%byte b.

Definition ipv6RE : regex :=
  Alt (Seq [Alt (Seq [WordB; Range 1 4 (Cls is_hex); chr ":"%byte]) (Lit "::");
            Star (Cls (fun b => is_hex b || beq b ":"%byte)); WordB])
      (Lit "::1").

(** ** Checksums *)

(** [digitsOnly] *)
Definition digitsOnly (s : gostring) : gostring := filter (fun b => is_digit b = true) s.

(** [int(b - '0')]: the subtraction is on bytes and wraps. *)
Definition byte_digit (b : byte) : nat := (byte_nat b + 208) mod 256.

(** [luhnOK]: the loop runs from the last digit to the first. *)
Fixpoint luhn_loop (rev_digits : gostring) (alternate : bool) (sum : nat) : bool :=
  match rev_digits with
  | [] => sum mod 10 =? 0
  | b :: rest =>
      let n := byte_digit b in
      if 9 <? n then false
      else
        let n1 := if alternate then let d := n * 2 in if 9 <? d then d - 9 else d else n in
        luhn_loop rest (negb alternate) (sum + n1)
  end.

Definition luhnOK (digits : gostring) : bool := luhn_loop (reverse digits) false 0.

Definition verhoeffD : list (list nat) :=
  [[0; 1; 2; 3; 4; 5; 6; 7; 8; 9];
   [1; 2; 3; 4; 0; 6; 7; 8; 9; 5];
   [2; 3; 4; 0; 1; 7; 8; 9; 5; 6];
   [3; 4; 0; 1; 2; 8; 9; 5; 6; 7];
   [4; 0; 1; 2; 3; 9; 5; 6; 7; 8];
   [5; 9; 8; 7; 6; 0; 4; 3; 2; 1];
   [6; 5; 9; 8; 7; 1; 0; 4; 3; 2];
   [7; 6; 5; 9; 8; 2; 1; 0; 4; 3];
   [8; 7; 6; 5; 9; 3; 2; 1; 0; 4];
   [9; 8; 7; 6; 5; 4; 3; 2; 1; 0]].

Definition verhoeffP : list (list nat) :=
  [[0; 1; 2; 3; 4; 5; 6; 7; 8; 9];
   [1; 5; 7; 6; 2; 8; 3; 0; 9; 4];
   [5; 8; 0; 3; 7; 9; 6; 1; 4; 2];
   [8; 9; 1; 6; 0; 4; 3; 5; 2; 7];
   [9; 4; 5; 3; 1; 2; 6; 8; 7; 0];
   [4; 2; 8; 6; 5; 7; 3; 9; 0; 1];
   [2; 7; 9; 3; 8; 0; 6; 4; 1; 5];
   [7; 0; 4; 6; 9; 1; 3; 2; 5; 8]].

Definition verhoeffInv : list nat := [0; 4; 3; 2; 1; 5; 6; 7; 8; 9].

(** [verhoeffD[c][verhoeffP[j%8][digit]]]; an index out of range panics. *)
Definition verhoeff_step (c j : nat) (b : byte) : option nat :=
  row ← verhoeffP !! (j mod 8);
  p ← row !! byte_digit b;
  line ← verhoeffD !! c;
  line !! p.

Fixpoint verhoeff_loop (rev_digits : gostring) (j c : nat) : option nat :=
  match rev_digits with
  | [] => Some c
  | b :: rest => c' ← verhoeff_step c j b; verhoeff_loop rest (S j) c'
  end.

(** [verhoeffOK]; [None] is a panic. *)
Definition verhoeffOK (digits : gostring) : option bool :=
  c ← verhoeff_loop (reverse digits) 0 0; Some (c =? 0).

(** [verhoeffCheck]; [None] is a panic. *)
Definition verhoeffCheck (payload : gostring) : option byte :=
  c ← verhoeff_loop (reverse payload) 1 0;
  i ← verhoeffInv !! c;
  ("0123456789" : gostring) !! i.

(** ** The detectors *)

Definition mk_span (k : Kind) (loc : nat * nat) : Span :=
  MkSpan k (Z.of_nat (fst loc)) (Z.of_nat (snd loc)).

(** [isDigit(s[i-1])] guarded by [i > 0], and [isDigit(s[i])] by [i < len(s)]. *)
Definition digit_before (s : gostring) (i : nat) : bool :=
  match i with
  | O => false
  | S i' => match s !! i' with Some b => is_digit b | None => false end
  end.
Definition digit_at (s : gostring) (i : nat) : bool :=
  match s !! i with Some b => is_digit b | None => false end.

(** [regexSpans] with its quick refusals. *)
Definition prefilter (kind : Kind) (s : gostring) : bool :=
  if seqb kind KindEmail then Contains s "@" || Contains s "%40"
  else if seqb kind KindPhoneUS || seqb kind KindSSN
  then ContainsAny s "0123456789"
  else true.

Definition regexSpans (kind : Kind) (re : regex) (s : gostring) : list Span :=
  if prefilter kind s then mk_span kind <$> FindAll re s else [].

Definition card_ok (s : gostring) (loc : nat * nat) : bool :=
  let digits := digitsOnly (seg s (fst loc) (snd loc)) in
  if digit_before s (fst loc) then false
  else if digit_at s (snd loc) then false
  else if (length digits <? 13) || (19 <? length digits) then false
  else match digits with
       | first :: _ => in_range "3"%byte "6"%byte first && luhnOK digits
       | [] => false
       end.

Definition findCreditCard (s : gostring) : list Span :=
  mk_span KindCreditCard <$> filter (fun loc => card_ok s loc = true) (FindAll cardRE s).

(** [verhoeffOK] does not panic on [digitsOnly] text ([aadhaar_no_panic]). *)
Definition aadhaar_ok (s : gostring) (loc : nat * nat) : bool :=
  let digits := digitsOnly (seg s (fst loc) (snd loc)) in
  if digit_before s (fst loc) then false
  else if digit_at s (snd loc) then false
  else if negb (length digits =? 12) then false
  else match verhoeffOK digits with Some ok => ok | None => false end.

Definition findAadhaar (s : gostring) : list Span :=
  mk_span KindAadhaar <$> filter (fun loc => aadhaar_ok s loc = true) (FindAll aadhaarRE s).

Definition findPAN (s : gostring) : list Span := mk_span KindPAN <$> FindAll panRE s.

Definition phoneIN_ok (s : gostring) (loc : nat * nat) : bool :=
  if digit_at s (snd loc) then false
  else if negb (bool_decide (s !! fst loc = Some "+"%byte)) && digit_before s (fst loc)
  then false
  else true.

Definition findPhoneIN (s : gostring) : list Span :=
  mk_span KindPhoneIN <$> filter (fun loc => phoneIN_ok s loc = true) (FindAll phoneINRE s).

Definition ipv4_ok (s : gostring) (loc : nat * nat) : bool :=
  match ParseIP (seg s (fst loc) (snd loc)) with Some ip => is_v4 ip | None => false end.

Definition ipv6_ok (s : gostring) (loc : nat * nat) : bool :=
  let candidate := seg s (fst loc) (snd loc) in
  if negb (Contains candidate ":") then false
  else match ParseIP candidate with Some ip => negb (is_v4 ip) | None => false end.

Definition findIP (s : gostring) : list Span :=
  (mk_span KindIP <$> filter (fun loc => ipv4_ok s loc = true) (FindAll ipv4RE s)) ++
  (mk_span KindIP <$> filter (fun loc => ipv6_ok s loc = true) (FindAll ipv6RE s)).

(** [type detector struct] *)
Record detector : Type := MkDetector { d_kind : Kind; d_find : gostring -> list Span }.

Definition detectors : list detector :=
  [MkDetector KindEmail (regexSpans KindEmail emailRE);
   MkDetector KindPhoneUS (regexSpans KindPhoneUS phoneUSRE);
   MkDetector KindSSN (regexSpans KindSSN ssnRE);
   MkDetector KindPhoneIN findPhoneIN;
   MkDetector KindAadhaar findAadhaar;
   MkDetector KindPAN findPAN;
   MkDetector KindCreditCard findCreditCard;
   MkDetector KindIP findIP].

(** ** [preferLonger] *)

Definition span_len (sp : Span) : Z := (sp_end sp - sp_start sp)%Z.

Definition longer_first (a b : Span) : bool :=
  if negb (span_len a =? span_len b)%Z then (span_len b <? span_len a)%Z
  else if negb (sp_start a =? sp_start b)%Z then (sp_start a <? sp_start b)%Z
  else str_lt (sp_kind a) (sp_kind b).

Definition start_first (a b : Span) : bool := (sp_start a <? sp_start b)%Z.

(** [sp.Start < c.End && c.Start < sp.End] *)
Definition overlaps (sp c : Span) : bool :=
  (sp_start sp <? sp_end c)%Z && (sp_start c <? sp_end sp)%Z.

Fixpoint choose (spans chosen : list Span) : list Span :=
  match spans with
  | [] => chosen
  | sp :: rest =>
      if (sp_end sp <=? sp_start sp)%Z then choose rest chosen
      else if existsb (overlaps sp) chosen then choose rest chosen
      else choose rest (chosen ++ [sp])
  end.

Definition preferLonger (spans : list Span) : list Span :=
  sort_slice start_first (choose (sort_slice longer_first spans) []).

(** ** [Scan] *)

Definition candidates (s : gostring) (enabled : list Kind) : list Span :=
  d ← detectors;
  if existsb (seqb (d_kind d)) enabled then d_find d s else [].

Definition Scan (s : gostring) (enabled : list Kind) : list Span :=
  preferLonger (candidates s enabled).

(** ** [Apply] *)

Definition TokenFor (kind : Kind) (value : gostring) : gostring :=
  let h := Sha256.Sum256 (kind ++ ":" ++ value) in
  "tok_" ++ kind ++ "_" ++ hex_encode (take 4 h).

Definition partial (s : gostring) : gostring :=
  if length s <=? 4 then s
  else Repeat "*" (length s - 4) ++ drop (length s - 4) s.

Definition replacement (mode : Mode) (kind : Kind) (text : gostring) : gostring :=
  if seqb mode ModePartial then partial text
  else if seqb mode ModeTokenize then TokenFor kind text
  else "[" ++ ToUpper kind ++ "]".

(** [counts[kind]++] *)
Definition bump (counts : gmap Kind Z) (k : Kind) : gmap Kind Z :=
  <[k := (default 0 (counts !! k) + 1)%Z]> counts.

Fixpoint apply_loop (s : gostring) (mode : Mode) (ordered : list Span)
    (b : gostring) (counts : gmap Kind Z) (prev : Z)
    : option (gostring * gmap Kind Z) :=
  match ordered with
  | [] => rest ← slice s prev (glen s); Some (b ++ rest, counts)
  | sp :: ordered' =>
      if (sp_start sp <? prev)%Z || (glen s <? sp_end sp)%Z
         || (sp_end sp <=? sp_start sp)%Z
      then apply_loop s mode ordered' b counts prev
      else
        gap ← slice s prev (sp_start sp);
        text ← slice s (sp_start sp) (sp_end sp);
        apply_loop s mode ordered' (b ++ gap ++ replacement mode (sp_kind sp) text)
                   (bump counts (sp_kind sp)) (sp_end sp)
  end.

(** [Apply]; [None] would be a panic. *)
Definition Apply (s : gostring) (spans : list Span) (mode : Mode)
    : option (gostring * gmap Kind Z) :=
  apply_loop s mode (sort_slice start_first spans) [] ∅ 0.

Example scan_readme :
  Scan "Contact jane.doe@example.com or (555) 123-4567. SSN 123-45-6789."
       [KindEmail; KindPhoneUS; KindSSN] =
  [MkSpan KindEmail 8 28; MkSpan KindPhoneUS 32 46; MkSpan KindSSN 52 63].
Proof. vm_compute. reflexivity. Qed.

Example card_visa : findCreditCard "4532 0150 1234 5671" = [MkSpan KindCreditCard 0 19].
Proof. vm_compute. reflexivity. Qed.
Example card_bad : findCreditCard "4532 0150 1234 5670" = [].
Proof. vm_compute. reflexivity. Qed.
Example ip_text : findIP "Server IP 192.168.1.1 connected" = [MkSpan KindIP 10 21].
Proof. vm_compute. reflexivity. Qed.
Example ip_loopback : findIP "Local loopback ::1" = [MkSpan KindIP 15 18].
Proof. vm_compute. reflexivity. Qed.
