(* ===== verification/Checksum.v ===== *)
(** * The checksums of the detectors

    Verhoeff's dihedral checksum ([verhoeffOK], [verhoeffCheck]) and Luhn's
    ([luhnOK]): the table lookups never leave their tables on digits, the
    check digit that [verhoeffCheck] computes is the one [verhoeffOK] accepts,
    and the errors the two codes exist to catch are caught. *)

From S2P Require Import Prelude GoStd Detect.

Definition digits_only (s : gostring) : Prop := Forall (fun b => is_digit b = true) s.

Lemma byte_digit_lt b : is_digit b = true -> byte_digit b < 10.
Proof.
  rewrite is_digit_spec. intros H. unfold byte_digit.
  replace (byte_nat b + 208) with ((byte_nat b - 48) + 1 * 256) by lia.
  rewrite Nat.Div0.mod_add, Nat.mod_small; lia.
Qed.

Lemma byte_digit_inj a b :
  is_digit a = true -> is_digit b = true -> byte_digit a = byte_digit b -> a = b.
Proof.
  rewrite !is_digit_spec. intros Ha Hb. unfold byte_digit.
  replace (byte_nat a + 208) with ((byte_nat a - 48) + 1 * 256) by lia.
  replace (byte_nat b + 208) with ((byte_nat b - 48) + 1 * 256) by lia.
  rewrite !Nat.Div0.mod_add, !Nat.mod_small by lia.
  intros H. apply byte_nat_inj. lia.
Qed.

Lemma byte_digit_digit_byte n : n < 10 -> byte_digit (digit_byte n) = n.
Proof.
  intros H. unfold byte_digit, digit_byte. rewrite byte_nat_of_nat by lia.
  replace (48 + n + 208) with (n + 1 * 256) by lia.
  rewrite Nat.Div0.mod_add, Nat.mod_small; lia.
Qed.

(** ** The tables

    [dmul] is the product of the dihedral group and [perm] the position-
    dependent permutation; the facts below are checked entry by entry. *)

Definition dmul (a b : nat) : nat := nth b (nth a verhoeffD []) 0.
Definition perm (j d : nat) : nat := nth d (nth (j mod 8) verhoeffP []) 0.

(** [below n P] checks [P] on [0..n-1]. *)
Definition below (n : nat) (P : nat -> bool) : bool := forallb P (seq 0 n).

Lemma below_spec n P : below n P = true -> forall i, i < n -> P i = true.
Proof.
  unfold below. rewrite forallb_forall. intros H i Hi. apply H, in_seq. lia.
Qed.

Lemma dmul_lt a b : a < 10 -> b < 10 -> dmul a b < 10.
Proof.
  intros Ha Hb.
  assert (H : below 10 (fun a => below 10 (fun b => dmul a b <? 10)) = true) by reflexivity.
  eapply below_spec in H; [|exact Ha]. eapply below_spec in H; [|exact Hb].
  by apply Nat.ltb_lt.
Qed.

Lemma dmul_assoc a b c : a < 10 -> b < 10 -> c < 10 -> dmul (dmul a b) c = dmul a (dmul b c).
Proof.
  intros Ha Hb Hc.
  assert (H : below 10 (fun a => below 10 (fun b => below 10 (fun c =>
    dmul (dmul a b) c =? dmul a (dmul b c)))) = true) by (vm_compute; reflexivity).
  eapply below_spec in H; [|exact Ha]. eapply below_spec in H; [|exact Hb].
  eapply below_spec in H; [|exact Hc]. by apply Nat.eqb_eq.
Qed.

Lemma dmul_0_l a : a < 10 -> dmul 0 a = a.
Proof. intros Ha. do 10 (destruct a as [|a]; [done|]). lia. Qed.

Lemma dmul_0_r a : a < 10 -> dmul a 0 = a.
Proof. intros Ha. do 10 (destruct a as [|a]; [done|]). lia. Qed.

Lemma dmul_inv a : a < 10 -> dmul (nth a verhoeffInv 0) a = 0 /\ dmul a (nth a verhoeffInv 0) = 0.
Proof. intros Ha. do 10 (destruct a as [|a]; [done|]). lia. Qed.

Lemma inv_lt a : a < 10 -> nth a verhoeffInv 0 < 10.
Proof. intros Ha. do 10 (destruct a as [|a]; [simpl; lia|]). lia. Qed.

Lemma dmul_cancel_l a b c : a < 10 -> b < 10 -> c < 10 -> dmul a b = dmul a c -> b = c.
Proof.
  intros Ha Hb Hc H. apply (f_equal (dmul (nth a verhoeffInv 0))) in H.
  pose proof (inv_lt a Ha).
  rewrite <- !dmul_assoc, (proj1 (dmul_inv a Ha)), !dmul_0_l in H by done. done.
Qed.

Lemma dmul_cancel_r a b c : a < 10 -> b < 10 -> c < 10 -> dmul a c = dmul b c -> a = b.
Proof.
  intros Ha Hb Hc H. apply (f_equal (fun x => dmul x (nth c verhoeffInv 0))) in H.
  pose proof (inv_lt c Hc).
  rewrite !dmul_assoc, (proj2 (dmul_inv c Hc)), !dmul_0_r in H by done. done.
Qed.

Lemma perm_lt j d : d < 10 -> perm j d < 10.
Proof.
  intros Hd. unfold perm. pose proof (Nat.mod_upper_bound j 8 ltac:(lia)) as Hj.
  assert (H : below 8 (fun j => below 10 (fun d => nth d (nth j verhoeffP []) 0 <? 10)) = true)
    by reflexivity.
  eapply below_spec in H; [|exact Hj]. eapply below_spec in H; [|exact Hd].
  by apply Nat.ltb_lt.
Qed.

Lemma perm_inj j a b : a < 10 -> b < 10 -> perm j a = perm j b -> a = b.
Proof.
  intros Ha Hb. unfold perm. pose proof (Nat.mod_upper_bound j 8 ltac:(lia)) as Hj.
  assert (H : below 8 (fun j => below 10 (fun a => below 10 (fun b =>
    implb (nth a (nth j verhoeffP []) 0 =? nth b (nth j verhoeffP []) 0) (a =? b)))) = true)
    by (vm_compute; reflexivity).
  eapply below_spec in H; [|exact Hj]. eapply below_spec in H; [|exact Ha].
  eapply below_spec in H; [|exact Hb].
  intros E. rewrite E, Nat.eqb_refl in H. by apply Nat.eqb_eq.
Qed.

(** Adjacent positions permute so that swapping two different digits shows. *)
Lemma perm_swap j a b :
  a < 10 -> b < 10 ->
  dmul (perm j a) (perm (S j) b) = dmul (perm j b) (perm (S j) a) -> a = b.
Proof.
  intros Ha Hb. unfold perm.
  replace (S j mod 8) with (S (j mod 8) mod 8)
    by (rewrite <- Nat.add_1_r, <- (Nat.add_1_r j), Nat.Div0.add_mod_idemp_l; done).
  pose proof (Nat.mod_upper_bound j 8 ltac:(lia)) as Hj.
  assert (H : below 8 (fun j => below 10 (fun a => below 10 (fun b =>
    implb (dmul (nth a (nth j verhoeffP []) 0) (nth b (nth (S j mod 8) verhoeffP []) 0) =?
           dmul (nth b (nth j verhoeffP []) 0) (nth a (nth (S j mod 8) verhoeffP []) 0))
          (a =? b)))) = true) by (vm_compute; reflexivity).
  eapply below_spec in H; [|exact Hj]. eapply below_spec in H; [|exact Ha].
  eapply below_spec in H; [|exact Hb].
  intros E. rewrite E, Nat.eqb_refl in H. by apply Nat.eqb_eq.
Qed.

(** ** The loop *)

Lemma nth_lookup_lt {A} (l : list A) i d : i < length l -> l !! i = Some (nth i l d).
Proof.
  revert i. induction l as [|x l IH]; intros [|i] H; simpl in *; [lia|lia|done|].
  apply IH. lia.
Qed.

Lemma verhoeff_step_ok c j b :
  c < 10 -> is_digit b = true ->
  verhoeff_step c j b = Some (dmul c (perm j (byte_digit b))).
Proof.
  intros Hc Hb%byte_digit_lt. pose proof (perm_lt j _ Hb) as Hp. revert Hp.
  unfold verhoeff_step, dmul, perm.
  pose proof (Nat.mod_upper_bound j 8 ltac:(lia)) as Hj.
  generalize dependent (j mod 8). intros k Hk.
  rewrite (nth_lookup_lt verhoeffP k []) by done. cbn [mbind option_bind].
  assert (H : below 8 (fun j => length (nth j verhoeffP []) =? 10) = true) by reflexivity.
  eapply below_spec in H; [|exact Hk]. apply Nat.eqb_eq in H.
  rewrite (nth_lookup_lt _ (byte_digit b) 0) by (by rewrite H). cbn [mbind option_bind].
  rewrite (nth_lookup_lt verhoeffD c []) by done. cbn [mbind option_bind].
  assert (H' : below 10 (fun c => length (nth c verhoeffD []) =? 10) = true) by reflexivity.
  eapply below_spec in H'; [|exact Hc]. apply Nat.eqb_eq in H'.
  intros Hp. apply nth_lookup_lt. by rewrite H'.
Qed.

(** The product of the permuted digits, from position [j]. *)
Fixpoint verhoeff_prod (l : gostring) (j : nat) : nat :=
  match l with
  | [] => 0
  | b :: l' => dmul (perm j (byte_digit b)) (verhoeff_prod l' (S j))
  end.

Lemma digits_only_cons b l : digits_only (b :: l) <-> is_digit b = true /\ digits_only l.
Proof. unfold digits_only. by rewrite Forall_cons. Qed.
Lemma digits_only_app l1 l2 : digits_only (l1 ++ l2) <-> digits_only l1 /\ digits_only l2.
Proof. unfold digits_only. by rewrite Forall_app. Qed.
Lemma digits_only_reverse l : digits_only (reverse l) <-> digits_only l.
Proof. unfold digits_only. by rewrite Forall_reverse. Qed.

Lemma verhoeff_prod_lt l j : digits_only l -> verhoeff_prod l j < 10.
Proof.
  revert j. induction l as [|b l IH]; intros j Hl; simpl; [lia|].
  apply digits_only_cons in Hl as [Hb Hl].
  apply dmul_lt; [by apply perm_lt, byte_digit_lt|by apply IH].
Qed.

Lemma verhoeff_loop_prod l j c :
  c < 10 -> digits_only l -> verhoeff_loop l j c = Some (dmul c (verhoeff_prod l j)).
Proof.
  revert j c. induction l as [|b l IH]; intros j c Hc Hl; simpl.
  { by rewrite dmul_0_r. }
  apply digits_only_cons in Hl as [Hb Hl]. rewrite verhoeff_step_ok by done. simpl.
  pose proof (perm_lt j _ (byte_digit_lt _ Hb)).
  rewrite IH by (try done; by apply dmul_lt).
  by rewrite dmul_assoc by (try done; by apply verhoeff_prod_lt).
Qed.

Lemma verhoeffOK_prod s :
  digits_only s -> verhoeffOK s = Some (verhoeff_prod (reverse s) 0 =? 0).
Proof.
  intros Hs. unfold verhoeffOK. rewrite <- digits_only_reverse in Hs.
  rewrite verhoeff_loop_prod by (try done; lia). simpl.
  by rewrite dmul_0_l by (by apply verhoeff_prod_lt).
Qed.

(** [findAadhaar] calls [verhoeffOK] on what [digitsOnly] returns: it never
    reads outside the tables. *)
Lemma aadhaar_no_panic s : verhoeffOK (digitsOnly s) <> None.
Proof.
  rewrite verhoeffOK_prod; [done|]. unfold digits_only, digitsOnly.
  apply Forall_forall. by intros b [? _]%list_elem_of_filter.
Qed.

Lemma verhoeff_prod_app l1 l2 j :
  digits_only l1 -> digits_only l2 ->
  verhoeff_prod (l1 ++ l2) j = dmul (verhoeff_prod l1 j) (verhoeff_prod l2 (length l1 + j)).
Proof.
  intros H1 H2. revert j H1. induction l1 as [|b l1 IH]; intros j H1; simpl.
  { by rewrite dmul_0_l by (by apply verhoeff_prod_lt). }
  apply digits_only_cons in H1 as [Hb H1]. rewrite IH by done.
  replace (length l1 + S j) with (S (length l1 + j)) by lia.
  rewrite dmul_assoc; [done|by apply perm_lt, byte_digit_lt| |];
    by apply verhoeff_prod_lt.
Qed.

(** Replacing the middle of a digit string: the checksums agree only if the
    middles have the same product. *)
Lemma verhoeff_context p m m' q j :
  digits_only p -> digits_only m -> digits_only m' -> digits_only q ->
  length m = length m' ->
  verhoeff_prod (p ++ m ++ q) j = verhoeff_prod (p ++ m' ++ q) j ->
  verhoeff_prod m (length p + j) = verhoeff_prod m' (length p + j).
Proof.
  intros Hp Hm Hm' Hq Hl E.
  rewrite !verhoeff_prod_app in E by (rewrite ?digits_only_app; done).
  apply dmul_cancel_l in E; [|by apply verhoeff_prod_lt|..];
    try (apply dmul_lt; by apply verhoeff_prod_lt).
  rewrite Hl in E.
  eapply dmul_cancel_r in E; [done|by apply verhoeff_prod_lt..].
Qed.

Lemma verhoeff_differs p m m' q :
  digits_only p -> digits_only m -> digits_only m' -> digits_only q ->
  length m = length m' ->
  verhoeff_prod (reverse m) (length q) <> verhoeff_prod (reverse m') (length q) ->
  verhoeffOK (p ++ m ++ q) = Some true -> verhoeffOK (p ++ m' ++ q) = Some false.
Proof.
  intros Hp Hm Hm' Hq Hl Hne E.
  rewrite verhoeffOK_prod in E |- * by (rewrite !digits_only_app; auto).
  injection E as E%Nat.eqb_eq. f_equal. apply Nat.eqb_neq. intros E'.
  apply Hne. pose proof (eq_trans E (eq_sym E')) as EE.
  rewrite <- (length_reverse q), <- (Nat.add_0_r (length (reverse q))).
  eapply verhoeff_context with (q := reverse p);
    [by rewrite digits_only_reverse..|by rewrite !length_reverse|].
  rewrite !reverse_app, <- !app_assoc in EE. exact EE.
Qed.

(** ** The claims *)

(** for every string of digits, [verhoeffCheck]
    returns a digit, and the string with that digit appended is exactly what
    [verhoeffOK] accepts: any other final digit is refused. *)
Lemma verhoeff_check_valid payload :
  digits_only payload ->
  exists check, verhoeffCheck payload = Some check /\ is_digit check = true /\
    forall last, is_digit last = true ->
      verhoeffOK (payload ++ [last]) = Some (beq last check).
Proof.
  intros Hp. pose proof Hp as Hr. rewrite <- digits_only_reverse in Hr.
  set (g := verhoeff_prod (reverse payload) 1).
  assert (Hg : g < 10) by (by apply verhoeff_prod_lt).
  set (i := nth g verhoeffInv 0). assert (Hi : i < 10) by (by apply inv_lt).
  exists (digit_byte i). split; [|split].
  - unfold verhoeffCheck. rewrite verhoeff_loop_prod by (try done; lia).
    cbn [mbind option_bind]. rewrite dmul_0_l by done. fold g.
    rewrite (nth_lookup_lt _ _ 0) by done. cbn [mbind option_bind].
    fold i. clearbody i. do 10 (destruct i as [|i]; [done|]). lia.
  - by apply is_digit_digit_byte.
  - intros last Hl. rewrite verhoeffOK_prod by (rewrite digits_only_app; by repeat constructor).
    rewrite reverse_snoc. simpl. fold g. f_equal.
    assert (Hpl : perm 0 (byte_digit last) = byte_digit last).
    { pose proof (byte_digit_lt _ Hl) as Hb. revert Hb. generalize (byte_digit last).
      intros n Hn. do 10 (destruct n as [|n]; [done|]). lia. }
    rewrite Hpl. apply eq_true_iff_eq. rewrite Nat.eqb_eq, beq_eq. split.
    + intros E. apply byte_digit_inj; [done|by apply is_digit_digit_byte|].
      rewrite byte_digit_digit_byte by done.
      eapply dmul_cancel_r; [by apply byte_digit_lt|done|exact Hg|].
      rewrite E. symmetry. apply dmul_inv, Hg.
    + intros ->. rewrite byte_digit_digit_byte by done. apply dmul_inv, Hg.
Qed.

(** from a digit string [verhoeffOK] accepts,
    changing any one digit, or swapping any two different neighbours, gives a
    string it refuses. *)
Lemma verhoeff_detects_errors p q a b :
  digits_only p -> digits_only q -> is_digit a = true -> is_digit b = true -> a <> b ->
  (verhoeffOK (p ++ [a] ++ q) = Some true -> verhoeffOK (p ++ [b] ++ q) = Some false) /\
  (verhoeffOK (p ++ [a; b] ++ q) = Some true -> verhoeffOK (p ++ [b; a] ++ q) = Some false).
Proof.
  intros Hp Hq Ha Hb Hab.
  assert (H1 : forall x, is_digit x = true -> digits_only [x]) by (by repeat constructor).
  assert (H2 : forall x y, is_digit x = true -> is_digit y = true -> digits_only [x; y])
    by (by repeat constructor).
  pose proof (byte_digit_lt _ Ha) as La. pose proof (byte_digit_lt _ Hb) as Lb.
  split; intros E.
  - apply (verhoeff_differs p [a] [b] q); [done|by auto|by auto|done|done| |done].
    cbn [reverse rev_append verhoeff_prod]. rewrite !dmul_0_r by (by apply perm_lt).
    intros E'%perm_inj; [|done..]. by apply Hab, byte_digit_inj.
  - apply (verhoeff_differs p [a; b] [b; a] q); [done|by auto|by auto|done|done| |done].
    cbn [reverse rev_append verhoeff_prod]. rewrite !dmul_0_r by (by apply perm_lt).
    intros E'%perm_swap; [|done..]. by apply Hab, eq_sym, byte_digit_inj.
Qed.

(** ** Luhn *)

(** What one digit adds to the sum. *)
Definition luhn_weight (alternate : bool) (n : nat) : nat :=
  if alternate then let d := n * 2 in if 9 <? d then d - 9 else d else n.

Fixpoint luhn_sum (l : gostring) (alternate : bool) : nat :=
  match l with
  | [] => 0
  | b :: l' => luhn_weight alternate (byte_digit b) + luhn_sum l' (negb alternate)
  end.

Lemma luhn_loop_sum l alt n :
  digits_only l -> luhn_loop l alt n = ((n + luhn_sum l alt) mod 10 =? 0).
Proof.
  revert alt n. induction l as [|b l IH]; intros alt n Hl.
  { cbn [luhn_loop luhn_sum]. by rewrite Nat.add_0_r. }
  apply digits_only_cons in Hl as [Hb%byte_digit_lt Hl].
  cbn [luhn_loop luhn_sum]. destruct (Nat.ltb_spec 9 (byte_digit b)); [lia|].
  rewrite IH by done. unfold luhn_weight. by rewrite Nat.add_assoc.
Qed.

Lemma luhn_weight_lt alt n : n < 10 -> luhn_weight alt n < 10.
Proof. intros Hn. destruct alt; do 10 (destruct n as [|n]; [simpl; lia|]); lia. Qed.

Lemma luhn_weight_inj alt a b :
  a < 10 -> b < 10 -> luhn_weight alt a = luhn_weight alt b -> a = b.
Proof.
  intros Ha Hb.
  assert (H : forall alt, below 10 (fun a => below 10 (fun b =>
    implb (luhn_weight alt a =? luhn_weight alt b) (a =? b))) = true)
    by (intros [|]; vm_compute; reflexivity).
  specialize (H alt). eapply below_spec in H; [|exact Ha].
  eapply below_spec in H; [|exact Hb].
  intros E. rewrite E, Nat.eqb_refl in H. by apply Nat.eqb_eq.
Qed.

(** Swapping neighbours keeps the sum only for equal digits and for 0 with 9. *)
Lemma luhn_weight_swap alt a b :
  a < 10 -> b < 10 ->
  (luhn_weight alt a + luhn_weight (negb alt) b) mod 10 =
  (luhn_weight alt b + luhn_weight (negb alt) a) mod 10 ->
  a = b \/ (a = 0 /\ b = 9) \/ (a = 9 /\ b = 0).
Proof.
  intros Ha Hb.
  assert (H : forall alt, below 10 (fun a => below 10 (fun b =>
    implb ((luhn_weight alt a + luhn_weight (negb alt) b) mod 10 =?
           (luhn_weight alt b + luhn_weight (negb alt) a) mod 10)
      ((a =? b) || ((a =? 0) && (b =? 9)) || ((a =? 9) && (b =? 0))))) = true)
    by (intros [|]; vm_compute; reflexivity).
  specialize (H alt). eapply below_spec in H; [|exact Ha].
  eapply below_spec in H; [|exact Hb].
  intros E. rewrite E, Nat.eqb_refl in H. cbn [implb] in H.
  rewrite !orb_true_iff, !andb_true_iff, !Nat.eqb_eq in H. tauto.
Qed.

(** The sum of a string with a hole: what surrounds the hole adds a constant,
    and the hole's content is weighed from the parity the hole starts at. *)
Lemma luhn_sum_context p q n alt :
  exists alt' k, forall m, length m = n ->
    luhn_sum (p ++ m ++ q) alt = k + luhn_sum m alt'.
Proof.
  revert alt. induction p as [|c p IH]; intros alt; simpl.
  - exists alt. set (alt_q := Nat.iter n negb alt).
    exists (luhn_sum q alt_q). intros m Hm. unfold alt_q. clear alt_q.
    revert n alt Hm. induction m as [|d m IHm]; intros n alt Hm; simpl in Hm; subst n.
    { simpl. lia. }
    cbn [app luhn_sum Nat.iter]. rewrite (IHm (length m) (negb alt)) by done.
    replace (Nat.iter (length m) negb (negb alt)) with (negb (Nat.iter (length m) negb alt)).
    { simpl. lia. }
    exact (Nat.iter_succ_r (length m) bool negb alt).
  - destruct (IH (negb alt)) as (alt' & k & H).
    exists alt', (luhn_weight alt (byte_digit c) + k). intros m Hm.
    rewrite H by done. lia.
Qed.

Lemma luhn_differs p m m' q :
  digits_only p -> digits_only m -> digits_only m' -> digits_only q ->
  length m = length m' ->
  (forall alt, luhn_sum (reverse m) alt mod 10 <> luhn_sum (reverse m') alt mod 10) ->
  luhnOK (p ++ m ++ q) = true -> luhnOK (p ++ m' ++ q) = false.
Proof.
  intros Hp Hm Hm' Hq Hl Hne. unfold luhnOK.
  rewrite !luhn_loop_sum by (rewrite digits_only_reverse, !digits_only_app; auto).
  rewrite !reverse_app, <- !app_assoc, !Nat.add_0_l.
  destruct (luhn_sum_context (reverse q) (reverse p) (length m) false) as (alt & k & H).
  rewrite !H by (rewrite length_reverse; done). specialize (Hne alt).
  rewrite Nat.eqb_eq, Nat.eqb_neq. intros E E'. apply Hne.
  generalize dependent (luhn_sum (reverse m) alt). intros u _ E.
  generalize dependent (luhn_sum (reverse m') alt). intros v E'.
  clear -E E'. pose proof (Nat.div_mod_eq (k + u) 10). pose proof (Nat.div_mod_eq (k + v) 10).
  pose proof (Nat.div_mod_eq u 10). pose proof (Nat.div_mod_eq v 10).
  pose proof (Nat.mod_upper_bound u 10 ltac:(lia)).
  pose proof (Nat.mod_upper_bound v 10 ltac:(lia)). lia.
Qed.

(** from a digit string [luhnOK] accepts, changing
    any one digit gives a string it refuses, and so does swapping two different
    neighbours unless they are 0 and 9. *)
Lemma luhn_detects_errors p q a b :
  digits_only p -> digits_only q -> is_digit a = true -> is_digit b = true -> a <> b ->
  (luhnOK (p ++ [a] ++ q) = true -> luhnOK (p ++ [b] ++ q) = false) /\
  (~ (a = "0"%byte /\ b = "9"%byte) -> ~ (a = "9"%byte /\ b = "0"%byte) ->
   luhnOK (p ++ [a; b] ++ q) = true -> luhnOK (p ++ [b; a] ++ q) = false).
Proof.
  intros Hp Hq Ha Hb Hab.
  assert (H1 : forall x, is_digit x = true -> digits_only [x]) by (by repeat constructor).
  assert (H2 : forall x y, is_digit x = true -> is_digit y = true -> digits_only [x; y])
    by (by repeat constructor).
  pose proof (byte_digit_lt _ Ha) as La. pose proof (byte_digit_lt _ Hb) as Lb.
  split.
  - apply (luhn_differs p [a] [b] q); auto. intros alt.
    cbn [reverse rev_append luhn_sum]. rewrite !Nat.add_0_r, !Nat.mod_small
      by (by apply luhn_weight_lt).
    intros E%luhn_weight_inj; [|done..]. by apply Hab, byte_digit_inj.
  - intros N1 N2. apply (luhn_differs p [a; b] [b; a] q); auto. intros alt.
    cbn [reverse rev_append luhn_sum]. rewrite !Nat.add_0_r.
    intros [E|[[E1 E2]|[E1 E2]]]%luhn_weight_swap; [|apply N2|apply N1|done..].
    + by apply Hab, eq_sym, byte_digit_inj.
    + split; by apply byte_digit_inj.
    + split; by apply byte_digit_inj.
Qed.
