(* ===== verification/DetectSpec.v ===== *)
(** * What [Scan] and [Apply] guarantee

    [Scan] returns well-placed spans, each one a detector's, and covers every
    detector's finding by a span at least as long; its result does not depend
    on the order in which the findings arrive.  [Apply] never panics, rewrites
    exactly the spans it is given, and in partial mode changes single bytes.
    For one local detector, nothing is left to find in what [Apply] returns;
    with several detectors that fails. *)

From S2P Require Import Prelude GoStd Sha256 Regexp NetIP Detect.
Local Open Scope Z_scope.

(** ** Spans *)

Definition is_ascii (b : byte) : bool := in_range Byte.x00 Byte.x7f b.

(** A span of kind [k] that lies in [s], is not empty and covers ASCII only. *)
Definition span_in (s : gostring) (k : Kind) (sp : Span) : Prop :=
  exists i j, (i < j <= length s)%nat /\ sp = mk_span k (i, j) /\
    forall x, (i <= x < j)%nat -> exists b, s !! x = Some b /\ is_ascii b = true.

Lemma span_in_bounds s k sp :
  span_in s k sp -> sp_kind sp = k /\ 0 <= sp_start sp < sp_end sp /\ sp_end sp <= glen s.
Proof. intros (i & j & Hij & -> & _). unfold glen, mk_span; simpl. split; [done|lia]. Qed.

Lemma mk_spans_in s k re (l : list (nat * nat)) sp :
  (0 < min_len re)%nat -> only is_ascii re = true -> (forall x, x ∈ l -> x ∈ FindAll re s) ->
  sp ∈ mk_span k <$> l -> span_in s k sp.
Proof.
  intros Hre Ho Hl. rewrite list_elem_of_fmap. intros ([i j] & -> & Hin).
  apply Hl, FindAll_elem in Hin as [? Hm]; [|done]. exists i, j. split; [lia|].
  split; [done|]. intros x Hx. by eapply only_sound.
Qed.

Lemma mk_spans_bounds s k re sp :
  (0 < min_len re)%nat -> sp ∈ mk_span k <$> FindAll re s ->
  sp_kind sp = k /\ 0 <= sp_start sp < sp_end sp /\ sp_end sp <= glen s.
Proof.
  intros Hre. rewrite list_elem_of_fmap. intros ([i j] & -> & [? _]%FindAll_elem); [|done].
  unfold glen, mk_span; simpl. split; [done|lia].
Qed.

Lemma filter_subset {A} (P : A -> Prop) `{forall x, Decision (P x)} (l : list A) x :
  x ∈ filter P l -> x ∈ l.
Proof. by intros [_ ?]%list_elem_of_filter. Qed.

Lemma regexSpans_in s k re sp :
  (0 < min_len re)%nat -> only is_ascii re = true -> sp ∈ regexSpans k re s -> span_in s k sp.
Proof.
  intros Hre Ho. unfold regexSpans. destruct (prefilter k s); [|by intros ?%elem_of_nil].
  by apply (mk_spans_in s k re).
Qed.

Lemma detectors_find s d sp :
  d ∈ detectors -> sp ∈ d_find d s -> span_in s (d_kind d) sp.
Proof.
  unfold detectors.
  assert (Hf : forall k re (P : nat * nat -> Prop) `{forall x, Decision (P x)},
    (0 < min_len re)%nat -> only is_ascii re = true ->
    sp ∈ mk_span k <$> filter P (FindAll re s) -> span_in s k sp).
  { intros k re P ? Hre Ho. apply mk_spans_in with re; [done|done|]. intros x. apply filter_subset. }
  intros Hd. repeat (apply elem_of_cons in Hd as [-> |Hd]); [..|by apply elem_of_nil in Hd];
    cbn [d_kind d_find].
  - apply regexSpans_in; [simpl; lia|by vm_compute].
  - apply regexSpans_in; [simpl; lia|by vm_compute].
  - apply regexSpans_in; [simpl; lia|by vm_compute].
  - apply Hf; [simpl; lia|by vm_compute].
  - apply Hf; [simpl; lia|by vm_compute].
  - apply mk_spans_in with panRE; [simpl; lia|by vm_compute|done].
  - apply Hf; [simpl; lia|by vm_compute].
  - unfold findIP. rewrite elem_of_app.
    intros [H|H]; revert H; apply Hf; [simpl; lia|by vm_compute|simpl; lia|by vm_compute].
Qed.

Lemma candidates_spec s enabled sp :
  sp ∈ candidates s enabled <->
  exists d, d ∈ detectors /\ d_kind d ∈ enabled /\ sp ∈ d_find d s.
Proof.
  unfold candidates. rewrite list_elem_of_bind.
  assert (He : forall k, existsb (seqb k) enabled = true <-> k ∈ enabled).
  { intros k. rewrite existsb_exists. split.
    - intros (x & Hx & ->%seqb_eq). by apply list_elem_of_In.
    - intros Hk. exists k. split; [by apply list_elem_of_In|apply seqb_refl]. }
  split.
  - intros (d & Hsp & Hd). exists d. destruct (existsb (seqb (d_kind d)) enabled) eqn:E.
    + apply He in E. done.
    + by apply elem_of_nil in Hsp.
  - intros (d & Hd & Hk & Hsp). exists d. apply He in Hk. by rewrite Hk.
Qed.

Lemma candidates_in s enabled sp :
  sp ∈ candidates s enabled -> span_in s (sp_kind sp) sp /\ sp_kind sp ∈ enabled.
Proof.
  intros (d & Hd & Hk & Hsp)%candidates_spec.
  pose proof (detectors_find _ _ _ Hd Hsp) as H.
  destruct (span_in_bounds _ _ _ H) as [-> _]. done.
Qed.

(** ** The orders *)

Lemma str_lt_antisym s t : str_lt s t = false -> str_lt t s = false -> s = t.
Proof. intros H1 H2. destruct (str_lt_total s t) as [H | [H | H]]; congruence. Qed.

Lemma str_lt_ntrans a b c : str_lt b a = false -> str_lt c b = false -> str_lt c a = false.
Proof.
  intros H1 H2. destruct (str_lt_total b a) as [H | [-> | H]]; [congruence|done|].
  apply not_true_is_false. intros Hca.
  pose proof (str_lt_trans _ _ _ Hca H). congruence.
Qed.

Lemma longer_first_asym a b : longer_first a b = true -> longer_first b a = false.
Proof.
  unfold longer_first. rewrite (Z.eqb_sym (span_len b)), (Z.eqb_sym (sp_start b)).
  destruct (Z.eqb_spec (span_len a) (span_len b)); simpl; [|rewrite Z.ltb_lt, Z.ltb_ge; lia].
  destruct (Z.eqb_spec (sp_start a) (sp_start b)); simpl; [|rewrite Z.ltb_lt, Z.ltb_ge; lia].
  apply str_lt_asym.
Qed.

(** What it means not to come after [b]. *)
Lemma not_longer_first a b :
  longer_first b a = false <->
  span_len b < span_len a \/
  (span_len a = span_len b /\
   (sp_start a < sp_start b \/
    (sp_start a = sp_start b /\ str_lt (sp_kind b) (sp_kind a) = false))).
Proof.
  unfold longer_first.
  destruct (Z.eqb_spec (span_len b) (span_len a)); simpl; [|rewrite Z.ltb_ge; lia].
  destruct (Z.eqb_spec (sp_start b) (sp_start a)); simpl; [|rewrite Z.ltb_ge; lia].
  intuition lia.
Qed.

Lemma longer_first_ntrans a b c :
  longer_first b a = false -> longer_first c b = false -> longer_first c a = false.
Proof.
  rewrite !not_longer_first. intros Hab Hbc.
  destruct Hab as [Hab|[? [?|[? Hk]]]], Hbc as [Hbc|[? [?|[? Hk']]]];
    try (left; lia); right; split; try lia; try (left; lia).
  right. split; [lia|]. by eapply str_lt_ntrans.
Qed.

Lemma longer_first_total a b :
  longer_first a b = false -> longer_first b a = false -> a = b.
Proof.
  rewrite !not_longer_first. intros Hba Hab. destruct a as [k s e], b as [k' s' e'].
  unfold span_len in *. simpl in *.
  assert (s = s' /\ e = e' /\ str_lt k k' = false /\ str_lt k' k = false) as (-> & -> & ? & ?).
  { repeat split; intuition lia || tauto || (destruct Hab, Hba; intuition (done || lia)). }
  f_equal. by apply str_lt_antisym.
Qed.

Lemma start_first_asym a b : start_first a b = true -> start_first b a = false.
Proof. unfold start_first. rewrite Z.ltb_lt, Z.ltb_ge. lia. Qed.

Lemma start_first_ntrans a b c :
  start_first b a = false -> start_first c b = false -> start_first c a = false.
Proof. unfold start_first. rewrite !Z.ltb_ge. lia. Qed.

(** ** The choice between overlapping spans *)

Lemma overlaps_spec a b :
  overlaps a b = true <-> sp_start a < sp_end b /\ sp_start b < sp_end a.
Proof. unfold overlaps. by rewrite andb_true_iff, !Z.ltb_lt. Qed.

Lemma overlaps_false a b :
  overlaps a b = false <-> sp_end b <= sp_start a \/ sp_end a <= sp_start b.
Proof. unfold overlaps. rewrite andb_false_iff, !Z.ltb_ge. done. Qed.

Definition proper (sp : Span) : Prop := sp_start sp < sp_end sp.

(** A set of spans that lie apart from each other. *)
Definition apart (l : list Span) : Prop :=
  NoDup l /\ (forall a, a ∈ l -> proper a) /\
  (forall a b, a ∈ l -> b ∈ l -> a <> b -> overlaps a b = false).

Lemma apart_perm l l' : l ≡ₚ l' -> apart l -> apart l'.
Proof.
  intros Hp (H1 & H2 & H3). split; [by rewrite <- Hp|]. split.
  - intros a. rewrite <- Hp. apply H2.
  - intros a b. rewrite <- Hp. apply H3.
Qed.

Lemma apart_snoc l sp :
  apart l -> proper sp -> existsb (overlaps sp) l = false -> apart (l ++ [sp]).
Proof.
  intros (Hn & Hp & Ho) Hsp He.
  assert (Hno : forall c, c ∈ l -> overlaps sp c = false).
  { intros c Hc. apply not_true_is_false. intros Ht.
    apply not_true_iff_false in He. apply He, existsb_exists.
    exists c. split; [by apply list_elem_of_In|done]. }
  split; [|split].
  - apply NoDup_app. split; [done|]. split; [|apply NoDup_singleton].
    intros c Hc ->%list_elem_of_singleton. apply Hno, overlaps_false in Hc.
    unfold proper in Hsp. lia.
  - intros a. rewrite elem_of_app, list_elem_of_singleton. intros [?| ->]; auto.
  - intros a b. rewrite !elem_of_app, !list_elem_of_singleton.
    intros [Ha| ->] [Hb| ->] Hne; auto; [|done].
    apply Hno in Ha. rewrite overlaps_false in Ha |- *. lia.
Qed.

(** The loop keeps what it has chosen, adds only spans it is shown, and every
    proper span it is shown meets a chosen one that is at least as long. *)
Lemma choose_spec spans chosen :
  StronglySorted (not_after longer_first) spans ->
  (forall c sp, c ∈ chosen -> sp ∈ spans -> span_len sp <= span_len c) ->
  apart chosen ->
  apart (choose spans chosen) /\
  (forall c, c ∈ chosen -> c ∈ choose spans chosen) /\
  (forall c, c ∈ choose spans chosen -> c ∈ chosen \/ c ∈ spans) /\
  (forall sp, sp ∈ spans -> proper sp ->
     exists c, c ∈ choose spans chosen /\ overlaps sp c = true /\ span_len sp <= span_len c).
Proof.
  intros Hs. revert chosen. induction Hs as [|sp spans Hs IH Hsp]; intros chosen Hlen Hap.
  { simpl. split; [done|]. split; [done|]. split; [by left|]. by intros ? ?%elem_of_nil. }
  cbn [choose].
  assert (Hlen' : forall c sp', c ∈ chosen -> sp' ∈ spans -> span_len sp' <= span_len c)
    by (intros; apply Hlen; [done|by right]).
  destruct (Z.leb_spec (sp_end sp) (sp_start sp)) as [He|He].
  { destruct (IH chosen Hlen' Hap) as (H1 & H2 & H3 & H4).
    split; [done|]. split; [done|]. split.
    - intros c Hc. destruct (H3 c Hc); [by left|right; by right].
    - intros sp' [-> |Hin]%elem_of_cons Hp; [unfold proper in Hp; lia|auto]. }
  destruct (existsb (overlaps sp) chosen) eqn:Eo.
  { destruct (IH chosen Hlen' Hap) as (H1 & H2 & H3 & H4).
    split; [done|]. split; [done|]. split.
    - intros c Hc. destruct (H3 c Hc); [by left|right; by right].
    - intros sp' [-> |Hin]%elem_of_cons Hp; [|auto].
      apply existsb_exists in Eo as (c & Hc%list_elem_of_In & Hov).
      exists c. split; [by apply H2|]. split; [done|]. apply Hlen; [done|by left]. }
  destruct (IH (chosen ++ [sp])) as (H1 & H2 & H3 & H4).
  { intros c sp' Hc Hsp'. apply elem_of_app in Hc as [Hc| ->%list_elem_of_singleton]; [auto|].
    rewrite Forall_forall in Hsp. specialize (Hsp _ Hsp').
    unfold not_after in Hsp. apply not_longer_first in Hsp. lia. }
  { by apply apart_snoc. }
  split; [done|]. split; [|split].
  - intros c Hc. apply H2, elem_of_app. by left.
  - intros c Hc. destruct (H3 c Hc) as [Hin|Hin]; [|right; by right].
    apply elem_of_app in Hin as [?| ->%list_elem_of_singleton]; [by left|right; by left].
  - intros sp' [-> |Hin]%elem_of_cons Hp; [|auto].
    exists sp. split; [apply H2, elem_of_app; right; by apply list_elem_of_singleton|].
    split; [|lia]. apply overlaps_spec. unfold proper in Hp. lia.
Qed.

(** Spans in text order, each ending before the next begins. *)
Definition in_order (l : list Span) : Prop :=
  StronglySorted (fun a b => sp_end a <= sp_start b) l.

Lemma apart_in_order l :
  apart l -> StronglySorted (not_after start_first) l -> in_order l.
Proof.
  intros (Hn & Hp & Ho) Hs. induction Hs as [|a l Hs IH Ha]; constructor.
  - apply NoDup_cons in Hn as [_ Hn]. apply IH; [done| |].
    + intros b Hb. apply Hp. by right.
    + intros b c Hb Hc. apply Ho; by right.
  - rewrite Forall_forall in Ha |- *. intros b Hb.
    apply NoDup_cons in Hn as [Hna _].
    assert (a <> b) as Hab by (intros ->; done).
    specialize (Ha b Hb). unfold not_after, start_first in Ha. apply Z.ltb_ge in Ha.
    assert (proper a) by (apply Hp; by left).
    assert (Hpb : proper b) by (apply Hp; by right).
    pose proof (Ho a b ltac:(by left) ltac:(by right) Hab) as Hov.
    apply overlaps_false in Hov. unfold proper in *. lia.
Qed.

Lemma choose_sorted_spec spans :
  let ch := choose (sort_slice longer_first spans) [] in
  apart ch /\ (forall c, c ∈ ch -> c ∈ spans) /\
  (forall sp, sp ∈ spans -> proper sp ->
     exists c, c ∈ ch /\ overlaps sp c = true /\ span_len sp <= span_len c).
Proof.
  intros ch. destruct (choose_spec (sort_slice longer_first spans) []) as (H1 & _ & H3 & H4).
  { apply sort_slice_sorted; [apply longer_first_asym|apply longer_first_ntrans]. }
  { by intros ? ? ?%elem_of_nil. }
  { split; [constructor|]. split; [by intros ? ?%elem_of_nil|].
    by intros ? ? ?%elem_of_nil. }
  split; [done|]. split.
  - intros c Hc. destruct (H3 c Hc) as [?%elem_of_nil|Hin]; [done|].
    by rewrite sort_slice_perm in Hin.
  - intros sp Hin Hpr. apply H4; [|done]. by rewrite sort_slice_perm.
Qed.

Lemma preferLonger_spec spans :
  in_order (preferLonger spans) /\
  (forall sp, sp ∈ preferLonger spans -> sp ∈ spans /\ proper sp) /\
  (forall sp, sp ∈ spans -> proper sp ->
     exists c, c ∈ preferLonger spans /\ overlaps sp c = true /\ span_len sp <= span_len c).
Proof.
  destruct (choose_sorted_spec spans) as (H1 & H2 & H3).
  unfold preferLonger. set (ch := choose _ []) in *.
  pose proof (sort_slice_perm start_first ch) as Hp. split; [|split].
  - apply apart_in_order; [by eapply apart_perm|].
    apply sort_slice_sorted; [apply start_first_asym|apply start_first_ntrans].
  - intros sp. rewrite Hp. intros Hin. split; [by apply H2|by apply H1].
  - intros sp Hin Hpr. destruct (H3 sp Hin Hpr) as (c & ?). exists c. by rewrite Hp.
Qed.

(** ** Claims about [Scan] *)

Lemma Scan_spans s enabled :
  in_order (Scan s enabled) /\
  forall sp, sp ∈ Scan s enabled ->
    0 <= sp_start sp < sp_end sp /\ sp_end sp <= glen s /\ sp_kind sp ∈ enabled /\
    exists d, d ∈ detectors /\ d_kind d = sp_kind sp /\ sp ∈ d_find d s.
Proof.
  destruct (preferLonger_spec (candidates s enabled)) as (H1 & H2 & _).
  split; [exact H1|]. intros sp Hsp. apply H2 in Hsp as [Hc _].
  pose proof (candidates_in _ _ _ Hc) as [Hin Hk].
  apply span_in_bounds in Hin as (_ & ? & ?). split; [done|]. split; [done|].
  split; [done|]. apply candidates_spec in Hc as (d & Hd & _ & Hf).
  exists d. split; [done|]. split; [|done].
  pose proof (detectors_find _ _ _ Hd Hf) as Hdf.
  by destruct (span_in_bounds _ _ _ Hdf) as [-> _].
Qed.

(** the spans [Scan] returns are in text order, do not
    overlap, lie inside the text, are not empty, are of enabled kinds, and each
    is one that the detector of its kind reported. *)
Lemma scan_well_formed s enabled :
  in_order (Scan s enabled) /\
  forall sp, sp ∈ Scan s enabled ->
    0 <= sp_start sp < sp_end sp /\ sp_end sp <= glen s /\ sp_kind sp ∈ enabled /\
    exists d, d ∈ detectors /\ d_kind d = sp_kind sp /\ sp ∈ d_find d s.
Proof. exact (Scan_spans s enabled). Qed.

(** C34 [scan_covers]: nothing an enabled detector finds is lost: each finding
    overlaps a span of [Scan]'s result that is at least as long. *)
Theorem scan_covers s enabled d sp :
  d ∈ detectors -> d_kind d ∈ enabled -> sp ∈ d_find d s ->
  exists c, c ∈ Scan s enabled /\ overlaps sp c = true /\ span_len sp <= span_len c.
Proof.
  intros Hd Hk Hf. destruct (preferLonger_spec (candidates s enabled)) as (_ & _ & H).
  apply H; [by apply candidates_spec; exists d|].
  pose proof (detectors_find _ _ _ Hd Hf) as Hin.
  apply span_in_bounds in Hin. unfold proper. lia.
Qed.

Lemma scan_covers_witness :
  exists c, c ∈ Scan "555-123-4567.a@x.co" [KindEmail; KindPhoneUS] /\
    overlaps (MkSpan KindEmail 8 19) c = true /\
    span_len (MkSpan KindEmail 8 19) <= span_len c.
Proof.
  apply (scan_covers "555-123-4567.a@x.co" [KindEmail; KindPhoneUS]
           (MkDetector KindEmail (regexSpans KindEmail emailRE))).
  - left.
  - left.
  - apply (bool_decide_unpack _). vm_compute. reflexivity.
Defined.

(** [preferLonger] gives the same spans for every
    order of its input, and with every correct sorting algorithm: its two sorts
    have only one possible result. *)
Lemma preferLonger_order_free spans :
  (forall spans', spans' ≡ₚ spans -> preferLonger spans' = preferLonger spans) /\
  (forall l, l ≡ₚ spans -> StronglySorted (not_after longer_first) l ->
     forall l', l' ≡ₚ choose l [] -> StronglySorted (not_after start_first) l' ->
       l' = preferLonger spans).
Proof.
  assert (Hl : forall l, l ≡ₚ spans -> StronglySorted (not_after longer_first) l ->
                 l = sort_slice longer_first spans).
  { intros l. apply sort_slice_unique.
    - apply longer_first_asym.
    - apply longer_first_ntrans.
    - intros a b _ _. apply longer_first_total. }
  assert (Hsorted : forall l, StronglySorted (not_after longer_first) (sort_slice longer_first l)).
  { apply sort_slice_sorted; [apply longer_first_asym|apply longer_first_ntrans]. }
  split.
  - intros spans' Hp. unfold preferLonger.
    rewrite (Hl (sort_slice longer_first spans')); [done| |done].
    by rewrite sort_slice_perm.
  - intros l Hp Hs l' Hp' Hs'. unfold preferLonger. rewrite (Hl l Hp Hs) in Hp'.
    eapply sort_slice_unique; [apply start_first_asym|apply start_first_ntrans| |done|done].
    destruct (choose_sorted_spec spans) as ((_ & Hpr & Ho) & _).
    intros a b Ha Hb Hab Hba. destruct (decide (a = b)) as [|Hne]; [done|].
    specialize (Ho a b Ha Hb Hne). apply overlaps_false in Ho.
    pose proof (Hpr a Ha). pose proof (Hpr b Hb). unfold proper, start_first in *.
    rewrite Z.ltb_ge in Hab, Hba. lia.
Qed.

Lemma needs_ContainsAny s P chars r i j :
  needs P r = true -> (forall b, P b = true -> existsb (beq b) chars = true) ->
  matches s r i j -> ContainsAny s chars = true.
Proof.
  intros Hn HP Hm. destruct (needs_sound _ _ _ _ _ Hn Hm) as (k & b & _ & Hk & Hb).
  unfold ContainsAny. apply existsb_exists. exists b. split; [|by apply HP].
  apply list_elem_of_In. by eapply list_elem_of_lookup_2.
Qed.

Lemma lit_Contains s l i j : matches s (Lit l) i j -> Contains s l = true.
Proof.
  intros [_ H]%matches_lit. apply Contains_spec.
  exists (take i s), (drop (length l) (drop i s)).
  rewrite <- (take_drop i s) at 1. f_equal.
  rewrite <- (take_drop (length l) (drop i s)) at 1. by rewrite H.
Qed.

Lemma regexSpans_FindAll s :
  regexSpans KindEmail emailRE s = mk_span KindEmail <$> FindAll emailRE s /\
  regexSpans KindPhoneUS phoneUSRE s = mk_span KindPhoneUS <$> FindAll phoneUSRE s /\
  regexSpans KindSSN ssnRE s = mk_span KindSSN <$> FindAll ssnRE s.
Proof.
  assert (Hgen : forall k re,
    (forall i j, matches s re i j -> prefilter k s = true) ->
    regexSpans k re s = mk_span k <$> FindAll re s).
  { intros k re H. unfold regexSpans. destruct (prefilter k s) eqn:E; [done|].
    rewrite FindAll_no_match; [done|]. intros i _ [j Hm]. by specialize (H _ _ Hm). }
  assert (Hdig : forall b, is_digit b = true -> existsb (beq b) "0123456789" = true).
  { intros b. apply (cls_within_spec is_digit (fun b => existsb (beq b) "0123456789")).
    vm_compute. reflexivity. }
  split; [|split]; apply Hgen; intros i j Hm.
  - unfold emailRE, Seq in Hm. cbn [foldr] in Hm.
    apply matches_cat_inv in Hm as (k & _ & Hm).
    apply matches_cat_inv in Hm as (k' & Hat & _).
    apply orb_true_iff. apply matches_alt_inv in Hat as [Hat|Hat]; [left|right];
      by apply lit_Contains in Hat.
  - change (ContainsAny s "0123456789" = true).
    eapply needs_ContainsAny; [|exact Hdig|exact Hm]. reflexivity.
  - change (ContainsAny s "0123456789" = true).
    eapply needs_ContainsAny; [|exact Hdig|exact Hm]. reflexivity.
Qed.

(** C35 [prefilter_sound]: the quick refusals of [regexSpans] (no at sign, no
    digit) never hide a match: each of the three detectors built with it
    reports every match of its expression. *)
Theorem prefilter_sound s :
  regexSpans KindEmail emailRE s = mk_span KindEmail <$> FindAll emailRE s /\
  regexSpans KindPhoneUS phoneUSRE s = mk_span KindPhoneUS <$> FindAll phoneUSRE s /\
  regexSpans KindSSN ssnRE s = mk_span KindSSN <$> FindAll ssnRE s.
Proof. exact (regexSpans_FindAll s). Qed.

(** ** [Apply] *)

(** Spans that [Apply] will rewrite: in order, from [prev] on, within [s]. *)
Definition placed (s : gostring) (prev : Z) (spans : list Span) : Prop :=
  in_order spans /\
  forall sp, sp ∈ spans -> prev <= sp_start sp < sp_end sp /\ sp_end sp <= glen s.

Lemma scan_placed s enabled : placed s 0 (Scan s enabled).
Proof.
  destruct (Scan_spans s enabled) as [H1 H2]. split; [done|].
  intros sp (? & ? & _)%H2. done.
Qed.

Lemma placed_cons s prev sp spans :
  placed s prev (sp :: spans) ->
  prev <= sp_start sp < sp_end sp /\ sp_end sp <= glen s /\ placed s (sp_end sp) spans.
Proof.
  intros [Ho Hb]. pose proof (Hb sp ltac:(by left)) as [? ?].
  split; [done|]. split; [done|]. inversion Ho as [|? ? Ho' Hf]; subst.
  split; [done|]. rewrite Forall_forall in Hf. intros sp' Hin.
  pose proof (Hb sp' ltac:(by right)). specialize (Hf sp' Hin). lia.
Qed.

Lemma sort_placed s prev spans :
  placed s prev spans -> sort_slice start_first spans = spans.
Proof.
  revert prev. induction spans as [|sp spans IH]; intros prev Hp; [done|].
  apply placed_cons in Hp as (H1 & H2 & Hp). cbn [sort_slice foldr].
  change (foldr (insert_by start_first) [] spans) with (sort_slice start_first spans).
  rewrite (IH _ Hp). destruct spans as [|sp' spans]; [done|]. cbn [insert_by].
  apply placed_cons in Hp as (H3 & _). unfold start_first.
  destruct (Z.ltb_spec (sp_start sp') (sp_start sp)); [lia|done].
Qed.

(** [Apply] returns for every text, every list of spans,
    overlapping, reversed, negative or out of range, and every mode: no slice
    expression it evaluates panics. *)
Lemma apply_total s spans mode :
  exists out counts, Apply s spans mode = Some (out, counts).
Proof.
  unfold Apply. generalize (sort_slice start_first spans) as l. intros l.
  assert (H : forall b counts prev, 0 <= prev <= glen s ->
    exists out counts', apply_loop s mode l b counts prev = Some (out, counts')).
  { induction l as [|sp l IH]; intros b counts prev Hp; cbn [apply_loop].
    { rewrite slice_Some by lia. by eexists _, _. }
    destruct (_ || _) eqn:E; [by apply IH|]. bool_to_prop.
    rewrite !slice_Some by lia. cbn [mbind option_bind]. apply IH. lia. }
  apply H. unfold glen. lia.
Qed.

(** The text between the spans, from offset [prev], and the texts of the spans. *)
Definition zseg (s : gostring) (i j : Z) : gostring := seg s (Z.to_nat i) (Z.to_nat j).

Fixpoint gaps (s : gostring) (prev : Z) (spans : list Span) : list gostring :=
  match spans with
  | [] => [zseg s prev (glen s)]
  | sp :: spans' => zseg s prev (sp_start sp) :: gaps s (sp_end sp) spans'
  end.

Definition span_text (s : gostring) (sp : Span) : gostring :=
  zseg s (sp_start sp) (sp_end sp).

Fixpoint interleave (gs ts : list gostring) : gostring :=
  match gs, ts with
  | g :: gs', t :: ts' => g ++ t ++ interleave gs' ts'
  | g :: gs', [] => g ++ interleave gs' []
  | [], _ => []
  end.

Definition count_kind (k : Kind) (spans : list Span) : Z :=
  glen (filter (fun sp => sp_kind sp = k) spans).

Lemma count_kind_nil k : count_kind k [] = 0.
Proof. done. Qed.

Lemma count_kind_cons k sp spans :
  count_kind k (sp :: spans) =
  if decide (sp_kind sp = k) then 1 + count_kind k spans else count_kind k spans.
Proof.
  unfold count_kind. rewrite filter_cons. destruct (decide _); [|done].
  unfold glen. cbn [length]. lia.
Qed.

Lemma zslice s i j : 0 <= i <= j -> j <= glen s -> slice s i j = Some (zseg s i j).
Proof.
  intros ? ?. rewrite <- (Z2Nat.id i), <- (Z2Nat.id j) by lia.
  rewrite slice_seg by (unfold glen in *; lia). unfold zseg. by rewrite !Nat2Z.id.
Qed.

Lemma apply_loop_placed s mode spans b counts prev :
  0 <= prev <= glen s -> placed s prev spans ->
  exists counts',
    apply_loop s mode spans b counts prev =
      Some (b ++ interleave (gaps s prev spans)
                   ((fun sp => replacement mode (sp_kind sp) (span_text s sp)) <$> spans),
            counts') /\
    forall k, default 0 (counts' !! k) = default 0 (counts !! k) + count_kind k spans.
Proof.
  revert b counts prev. induction spans as [|sp spans IH]; intros b counts prev Hp Hpl.
  - cbn [apply_loop gaps fmap list_fmap interleave].
    rewrite zslice by lia. cbn [mbind option_bind]. exists counts.
    rewrite app_nil_r. split; [done|]. intros k. rewrite count_kind_nil. lia.
  - apply placed_cons in Hpl as (H1 & H2 & Hpl). cbn [apply_loop].
    destruct (_ || _) eqn:E.
    { rewrite !orb_true_iff, !Z.ltb_lt, Z.leb_le in E. lia. }
    rewrite !zslice by lia. cbn [mbind option_bind].
    destruct (IH (b ++ zseg s prev (sp_start sp) ++
                  replacement mode (sp_kind sp) (zseg s (sp_start sp) (sp_end sp)))
                 (bump counts (sp_kind sp)) (sp_end sp)) as (counts' & -> & Hc);
      [lia|done|]. exists counts'. split.
    + f_equal. f_equal. cbn [gaps fmap list_fmap interleave]. by rewrite <- !app_assoc.
    + intros k. rewrite Hc, count_kind_cons. unfold bump.
      destruct (decide (sp_kind sp = k)) as [->|Hne].
      * rewrite lookup_insert_eq. simpl. lia.
      * by rewrite lookup_insert_ne.
Qed.

Lemma interleave_texts s prev spans :
  0 <= prev <= glen s -> placed s prev spans ->
  interleave (gaps s prev spans) (span_text s <$> spans) = zseg s prev (glen s).
Proof.
  revert prev. induction spans as [|sp spans IH]; intros prev Hp Hpl.
  { cbn. by rewrite app_nil_r. }
  apply placed_cons in Hpl as (H1 & H2 & Hpl). cbn [gaps fmap list_fmap interleave].
  change (list_fmap ?A ?B ?f spans) with (f <$> spans).
  rewrite IH by (done || lia). unfold span_text, zseg. unfold glen in *.
  rewrite (seg_app s (Z.to_nat (sp_start sp))) by lia.
  by rewrite seg_app by lia.
Qed.

Lemma Apply_Scan s enabled mode :
  let spans := Scan s enabled in
  let texts := span_text s <$> spans in
  exists counts,
    s = interleave (gaps s 0 spans) texts /\
    Apply s spans mode =
      Some (interleave (gaps s 0 spans)
              (zip_with (replacement mode) (sp_kind <$> spans) texts), counts) /\
    forall k, default 0 (counts !! k) = count_kind k spans.
Proof.
  intros spans texts. pose proof (scan_placed s enabled) as Hp. fold spans in Hp.
  assert (H0 : 0 <= 0 <= glen s) by (unfold glen; lia).
  destruct (apply_loop_placed s mode spans [] ∅ 0 H0 Hp) as (counts & HA & Hc).
  exists counts. split; [|split].
  - unfold texts. rewrite interleave_texts by done. unfold zseg, glen.
    rewrite Nat2Z.id. symmetry. apply seg_full.
  - unfold Apply. rewrite (sort_placed s 0) by done. rewrite HA. do 3 f_equal.
    unfold texts. by rewrite zip_with_fmap_l, zip_with_fmap_r, zip_with_diag.
  - intros k. rewrite Hc, lookup_empty. simpl. lia.
Qed.

(** C36 [apply_scan]: masking the spans of a scan keeps the text between them,
    byte for byte and in order, and puts in place of each span only what its
    mode prescribes; the counts are the numbers of spans of each kind. *)
Theorem apply_scan s enabled mode :
  let spans := Scan s enabled in
  let texts := span_text s <$> spans in
  exists counts,
    s = interleave (gaps s 0 spans) texts /\
    Apply s spans mode =
      Some (interleave (gaps s 0 spans)
              (zip_with (replacement mode) (sp_kind <$> spans) texts), counts) /\
    forall k, default 0 (counts !! k) = count_kind k spans.
Proof. apply Apply_Scan. Qed.

(** *** Partial mode *)

Lemma Repeat_star n : Repeat "*" n = replicate n "*"%byte.
Proof. unfold Repeat. induction n as [|n IH]; [done|]. simpl in *. by rewrite IH. Qed.

Lemma partial_lookup t n :
  partial t !! n = (fun b => if (n <? length t - 4)%nat then "*"%byte else b) <$> t !! n.
Proof.
  unfold partial. destruct (Nat.leb_spec (length t) 4) as [H|H].
  - replace (length t - 4)%nat with 0%nat by lia. simpl. by destruct (t !! n).
  - rewrite Repeat_star. destruct (Nat.ltb_spec n (length t - 4)) as [Hn|Hn].
    + rewrite lookup_app_l by (rewrite length_replicate; lia).
      rewrite lookup_replicate_2 by done.
      destruct (lookup_lt_is_Some_2 t n ltac:(lia)) as [b ->]. done.
    + rewrite lookup_app_r by (rewrite length_replicate; lia).
      rewrite length_replicate, lookup_drop.
      replace (length t - 4 + (n - (length t - 4)))%nat with n by lia.
      by destruct (t !! n).
Qed.

(** The offsets that partial mode stars out: all of a span but its last four. *)
Definition hidden (spans : list Span) (i : Z) : bool :=
  existsb (fun sp => (sp_start sp <=? i) && (i <? sp_end sp - 4)) spans.

Definition starred (spans : list Span) (i : nat) (b : byte) : byte :=
  if hidden spans (Z.of_nat i) then "*"%byte else b.

Lemma starred_none spans i (o : option byte) :
  hidden spans (Z.of_nat i) = false -> starred spans i <$> o = o.
Proof. intros H. unfold starred. rewrite H. by destruct o. Qed.

Lemma hidden_before spans s prev i :
  placed s prev spans -> i < prev -> hidden spans i = false.
Proof.
  intros [_ Hb] Hi. apply not_true_is_false. unfold hidden. rewrite existsb_exists.
  intros (sp & Hin%list_elem_of_In & H). destruct (Hb sp Hin). bool_to_prop. lia.
Qed.

Lemma partial_text sp t :
  (fun sp => replacement ModePartial (sp_kind sp) (t sp)) sp = partial (t sp).
Proof. done. Qed.

Lemma zseg_length s i j : 0 <= i <= j -> j <= glen s -> length (zseg s i j) = Z.to_nat (j - i).
Proof. intros. unfold zseg, glen in *. rewrite length_seg by lia. lia. Qed.

Lemma zseg_lookup s i j n :
  0 <= i -> Z.of_nat n < j - i -> zseg s i j !! n = s !! (Z.to_nat i + n)%nat.
Proof. intros. unfold zseg. apply seg_lookup. lia. Qed.

Lemma interleave_partial s prev spans n :
  0 <= prev <= glen s -> placed s prev spans ->
  interleave (gaps s prev spans)
    ((fun sp => replacement ModePartial (sp_kind sp) (span_text s sp)) <$> spans) !! n =
  starred spans (Z.to_nat prev + n) <$> s !! (Z.to_nat prev + n)%nat.
Proof.
  revert prev n. induction spans as [|sp spans IH]; intros prev n Hp Hpl.
  { cbn [gaps fmap list_fmap interleave]. rewrite app_nil_r, starred_none by done.
    destruct (decide (Z.of_nat n < glen s - prev)); [by rewrite zseg_lookup by lia|].
    rewrite !lookup_ge_None_2; [done|unfold glen in *; lia|].
    rewrite zseg_length by lia. lia. }
  apply placed_cons in Hpl as (H1 & H2 & Hpl). cbn [gaps fmap list_fmap interleave].
  change (list_fmap ?A ?B ?f spans) with (f <$> spans).
  change (replacement ModePartial (sp_kind sp) (span_text s sp)) with (partial (span_text s sp)).
  set (p := Z.to_nat prev). set (a := Z.to_nat (sp_start sp)). set (e := Z.to_nat (sp_end sp)).
  assert (Ht : length (span_text s sp) = (e - a)%nat)
    by (unfold span_text; rewrite zseg_length by lia; lia).
  assert (Hpt : length (partial (span_text s sp)) = (e - a)%nat).
  { rewrite <- Ht. unfold partial. destruct (Nat.leb_spec (length (span_text s sp)) 4); [done|].
    rewrite Repeat_star, length_app, length_replicate, length_drop. lia. }
  assert (Hg : length (zseg s prev (sp_start sp)) = (a - p)%nat)
    by (rewrite zseg_length by lia; lia).
  assert (Hh : forall i, hidden (sp :: spans) (Z.of_nat i) =
    ((a <=? i)%nat && (i <? e - 4)%nat) || hidden spans (Z.of_nat i)).
  { intros i. unfold hidden at 1. cbn [existsb]. f_equal.
    apply eq_true_iff_eq. rewrite !andb_true_iff, Z.leb_le, Z.ltb_lt, Nat.leb_le, Nat.ltb_lt. lia. }
  destruct (decide (n < a - p)%nat) as [Hn|Hn].
  { rewrite lookup_app_l by lia. rewrite zseg_lookup by lia. fold p.
    rewrite starred_none; [done|].
    rewrite Hh, (hidden_before spans s (sp_end sp)) by (done || lia).
    destruct (Nat.leb_spec a (p + n)); [lia|done]. }
  rewrite lookup_app_r, Hg by lia.
  destruct (decide (n < e - p)%nat) as [Hn'|Hn'].
  { rewrite lookup_app_l by lia. rewrite partial_lookup, Ht. unfold span_text.
    rewrite zseg_lookup by lia. fold a.
    replace (a + (n - (a - p)))%nat with (p + n)%nat by lia.
    unfold starred. rewrite Hh, (hidden_before spans s (sp_end sp)) by (done || lia).
    destruct (Nat.leb_spec a (p + n)); [|lia].
    destruct (Nat.ltb_spec (n - (a - p)) (e - a - 4)), (Nat.ltb_spec (p + n) (e - 4));
      try lia; done. }
  rewrite lookup_app_r, Hpt by lia. rewrite IH by (done || lia). fold e.
  replace (e + (n - (a - p) - (e - a)))%nat with (p + n)%nat by lia.
  unfold starred. rewrite Hh. destruct (Nat.ltb_spec (p + n) (e - 4)); [lia|].
  by rewrite andb_false_r.
Qed.

(** in partial mode masking keeps every offset in
    place and changes only single bytes: exactly those of a span that are not
    among its last four become stars. *)
Lemma apply_partial_pointwise s enabled :
  exists out counts, Apply s (Scan s enabled) ModePartial = Some (out, counts) /\
    length out = length s /\
    forall i, out !! i = starred (Scan s enabled) i <$> s !! i.
Proof.
  pose proof (scan_placed s enabled) as Hp.
  assert (H0 : 0 <= 0 <= glen s) by (unfold glen; lia).
  destruct (apply_loop_placed s ModePartial _ [] ∅ 0 H0 Hp) as (counts & HA & _).
  rewrite app_nil_l in HA. eexists _, counts. unfold Apply.
  rewrite (sort_placed s 0) by done. split; [exact HA|].
  assert (Hi : forall i, _ !! i = starred (Scan s enabled) i <$> s !! i)
    by (intros i; exact (interleave_partial s 0 (Scan s enabled) i H0 Hp)).
  split; [|exact Hi].
  apply Nat.le_antisymm; apply Nat.nlt_ge; intros Hlt.
  - specialize (Hi (length s)). rewrite (lookup_ge_None_2 s) in Hi by done.
    apply lookup_ge_None in Hi. lia.
  - destruct (lookup_lt_is_Some_2 s _ Hlt) as [b Hb].
    match type of Hlt with (length ?o < _)%nat => specialize (Hi (length o)) end.
    rewrite Hb, lookup_ge_None_2 in Hi by done. done.
Qed.

(** *** Nothing left to find *)

Lemma lookup_cons_S {A} (x : A) (l : list A) n : (x :: l) !! S n = l !! n.
Proof. done. Qed.

(** A detector's expression whose matches hold none of the bytes of the token
    put in their place can match only inside the text that was kept. *)
Section clean.
Context (s : gostring) (r : regex) (P Q : byte -> bool) (token : gostring).
Hypothesis Hr : (0 < min_len r)%nat.
Hypothesis Hlocal : local r = true.
Hypothesis Honly : only Q r = true.
Hypothesis Hneeds : needs P r = true.
Hypothesis Htok_open : exists mid, token = "["%byte :: mid ++ ["]"%byte] /\
  forall b, b ∈ mid -> P b = false.
Hypothesis Hbr : Q "["%byte = false /\ Q "]"%byte = false.

(** What [Apply] makes of the text from [pos] on. *)
Fixpoint cleaned (pos : nat) (l : list (nat * nat)) : gostring :=
  match l with
  | [] => seg s pos (length s)
  | (i, e) :: l' => seg s pos i ++ token ++ cleaned e l'
  end.

(** A match lies on one side of a byte it cannot contain. *)
Lemma match_avoids t i j k b :
  matches t r i j -> t !! k = Some b -> Q b = false -> (j <= k \/ k < i)%nat.
Proof.
  intros Hm Hk Hb. destruct (decide (i <= k < j)%nat) as [Hin|]; [|lia].
  destruct (only_sound _ _ _ _ _ Honly Hm k Hin) as (c & Hc & HQ). congruence.
Qed.

Lemma kept_no_match pos e i j t :
  (e <= length s)%nat -> (forall k, pos <= k < e -> ~ is_match s r k)%nat ->
  matches (seg s pos e ++ t) r i j -> (j <= e - pos)%nat -> False.
Proof.
  intros He Hn Hm Hj. pose proof (match_lt _ _ Hr _ _ Hm).
  apply (Hn (pos + i)%nat); [lia|]. eexists. eapply local_shift; [done|exact Hm|].
  intros k Hk. rewrite lookup_app_l by (rewrite length_seg; lia).
  rewrite seg_lookup by lia. f_equal. lia.
Qed.

Lemma cleaned_no_match pos l :
  chain s r pos l -> (pos <= length s)%nat ->
  forall i j, matches (cleaned pos l) r i j -> False.
Proof.
  induction 1 as [pos Hn|pos x e l Hp Hx Hm Hn Hc IH]; intros Hpos i j Hij.
  - cbn [cleaned] in Hij. rewrite <- (app_nil_r (seg s pos _)) in Hij.
    eapply (kept_no_match pos (length s)); [done| |exact Hij|].
    + intros k Hk. apply Hn. lia.
    + assert (i <= length (cleaned pos []))%nat.
      { destruct (needs_sound _ _ _ _ _ Hneeds Hij) as (k & b & Hk & Hb & _).
        apply lookup_lt_Some in Hb. rewrite app_nil_r in Hb. simpl. lia. }
      apply matches_bound in Hij; [|rewrite app_nil_r; done].
      rewrite app_nil_r, length_seg in Hij; lia.
  - cbn [cleaned] in Hij. destruct Htok_open as (mid & Htok & Hmid).
    set (g := (x - pos)%nat).
    assert (Hg : length (seg s pos x) = g) by (rewrite length_seg; lia).
    assert (Hopen : (seg s pos x ++ token ++ cleaned e l) !! g = Some "["%byte).
    { rewrite lookup_app_r by lia. rewrite Hg, Nat.sub_diag, Htok. done. }
    assert (Hclose : (seg s pos x ++ token ++ cleaned e l) !! (g + S (length mid))%nat
                     = Some "]"%byte).
    { rewrite lookup_app_r by lia. rewrite Hg, Htok.
      replace (g + S (length mid) - g)%nat with (S (length mid)) by lia.
      rewrite <- app_comm_cons, lookup_cons_S, <- app_assoc, lookup_app_r by lia.
      by rewrite Nat.sub_diag. }
    pose proof (match_avoids _ _ _ _ _ Hij Hopen (proj1 Hbr)) as [H1|H1].
    { eapply (kept_no_match pos x); [lia|exact Hn|exact Hij|lia]. }
    pose proof (match_avoids _ _ _ _ _ Hij Hclose (proj2 Hbr)) as [H2|H2].
    + destruct (needs_sound _ _ _ _ _ Hneeds Hij) as (k & b & Hk & Hb & HP).
      rewrite lookup_app_r, Hg, Htok in Hb by lia.
      destruct (k - g)%nat as [|n] eqn:En; [lia|].
      rewrite <- app_comm_cons, lookup_cons_S, <- app_assoc, lookup_app_l in Hb by lia.
      rewrite Hmid in HP; [done|]. by eapply list_elem_of_lookup_2.
    + set (o := (g + length token)%nat).
      assert (Ho : o = S (g + S (length mid))).
      { unfold o. rewrite Htok. cbn [length]. rewrite length_app. simpl. lia. }
      eapply (IH ltac:(lia) (i - o)%nat). eapply local_shift; [done|exact Hij|].
      intros k Hk. rewrite (lookup_app_r _ _ (i + k)%nat) by lia.
      rewrite lookup_app_r by lia. f_equal. lia.
Qed.
End clean.

Lemma choose_apart l chosen : apart (chosen ++ l) -> choose l chosen = chosen ++ l.
Proof.
  revert chosen. induction l as [|sp l IH]; intros chosen Hap; cbn [choose].
  { by rewrite app_nil_r. }
  pose proof Hap as (Hn & Hp & Ho).
  assert (Hsp : proper sp) by (apply Hp, elem_of_app; right; by left).
  destruct (Z.leb_spec (sp_end sp) (sp_start sp)); [unfold proper in Hsp; lia|].
  assert (existsb (overlaps sp) chosen = false) as ->.
  { apply not_true_is_false. rewrite existsb_exists.
    intros (c & Hc%list_elem_of_In & Hov).
    rewrite Ho in Hov; [done|apply elem_of_app; right; by left|apply elem_of_app; by left|].
    intros ->. apply NoDup_app in Hn as (_ & Hn & _). apply (Hn c Hc). by left. }
  rewrite IH by (by rewrite <- app_assoc). by rewrite <- app_assoc.
Qed.

Lemma in_order_apart l : in_order l -> (forall a, a ∈ l -> proper a) -> apart l.
Proof.
  intros Ho. induction Ho as [|a l Ho IH Ha]; intros Hp.
  { split; [constructor|]. split; [done|]. by intros ? ? ?%elem_of_nil. }
  rewrite Forall_forall in Ha.
  destruct IH as (H1 & H2 & H3); [intros; apply Hp; by right|].
  assert (Hpa : proper a) by (apply Hp; by left). unfold proper in Hpa.
  assert (Hov : forall b, b ∈ l -> overlaps a b = false).
  { intros b Hb. apply overlaps_false. specialize (Ha b Hb). lia. }
  split; [|split; [done|]].
  - constructor; [|done]. intros Hin. specialize (Ha a Hin). lia.
  - intros b c [-> |Hb]%elem_of_cons [-> |Hc]%elem_of_cons Hne; auto; [done|].
    specialize (Hov b Hb). rewrite overlaps_false in Hov |- *. tauto.
Qed.

Lemma preferLonger_in_order l :
  in_order l -> (forall a, a ∈ l -> proper a) -> preferLonger l = l.
Proof.
  intros Ho Hp. pose proof (in_order_apart l Ho Hp) as Hap.
  unfold preferLonger.
  rewrite choose_apart by (eapply apart_perm; [symmetry; apply sort_slice_perm|done]).
  rewrite app_nil_l. symmetry.
  apply sort_slice_unique; [apply start_first_asym|apply start_first_ntrans| | |].
  - intros a b Ha Hb Hab Hba. rewrite sort_slice_perm in Ha, Hb.
    destruct Hap as (_ & _ & Hov). destruct (decide (a = b)) as [|Hne]; [done|].
    specialize (Hov a b Ha Hb Hne). apply overlaps_false in Hov.
    pose proof (Hp a Ha). pose proof (Hp b Hb). unfold proper, start_first in *.
    rewrite Z.ltb_ge in Hab, Hba. lia.
  - symmetry. apply sort_slice_perm.
  - clear Hap. induction Ho as [|a l Ho IH Ha]; constructor.
    + apply IH. intros b Hb. apply Hp. by right.
    + rewrite Forall_forall in Ha |- *. intros b Hb. specialize (Ha b Hb).
      assert (proper a) by (apply Hp; by left). unfold proper, not_after, start_first in *.
      apply Z.ltb_ge. lia.
Qed.

Lemma mk_spans_in_order k re s :
  (0 < min_len re)%nat -> in_order (mk_span k <$> FindAll re s).
Proof.
  intros Hre. pose proof (FindAll_sorted s re Hre) as Hs. unfold in_order.
  induction Hs as [|a l Hs IH Ha]; cbn [fmap list_fmap]; constructor; [done|].
  rewrite Forall_forall in Ha. apply Forall_forall.
  intros b (c & -> & Hc)%list_elem_of_fmap.
  specialize (Ha c Hc). unfold mk_span. simpl. lia.
Qed.

Lemma preferLonger_FindAll k re s :
  (0 < min_len re)%nat ->
  preferLonger (mk_span k <$> FindAll re s) = mk_span k <$> FindAll re s.
Proof.
  intros Hre. apply preferLonger_in_order; [by apply mk_spans_in_order|].
  intros sp Hsp. apply (mk_spans_bounds s k re) in Hsp; [|done]. unfold proper. lia.
Qed.

Lemma interleave_cleaned s k re token pos l :
  chain s re pos l -> (pos <= length s)%nat ->
  interleave (gaps s (Z.of_nat pos) (mk_span k <$> l)) (const token <$> (mk_span k <$> l)) =
  cleaned s token pos l.
Proof.
  intros Hc. induction Hc as [pos Hn|pos i e l Hp Hi Hm Hn Hc IH]; intros Hpos.
  - cbn. rewrite app_nil_r. unfold zseg, glen. by rewrite !Nat2Z.id.
  - cbn [fmap list_fmap gaps interleave cleaned].
    change (list_fmap ?A ?B ?f l) with (f <$> l).
    change (list_fmap ?A ?B ?f (mk_span k <$> l)) with (f <$> (mk_span k <$> l)).
    change (sp_end (mk_span k (i, e))) with (Z.of_nat e).
    change (sp_start (mk_span k (i, e))) with (Z.of_nat i). rewrite IH by lia.
    unfold zseg. rewrite !Nat2Z.id. done.
Qed.

(** What [Apply] returns for the spans of one expression. *)
Lemma apply_redact_FindAll s k re :
  (0 < min_len re)%nat ->
  exists counts,
    Apply s (mk_span k <$> FindAll re s) ModeRedact =
    Some (cleaned s ("[" ++ ToUpper k ++ "]") 0 (FindAll re s), counts).
Proof.
  intros Hre. set (spans := mk_span k <$> FindAll re s).
  assert (Hpl : placed s 0 spans).
  { split; [by apply mk_spans_in_order|]. intros sp Hsp.
    apply (mk_spans_bounds s k re) in Hsp; [|done].
    lia. }
  assert (H0 : 0 <= 0 <= glen s) by (unfold glen; lia).
  destruct (apply_loop_placed s ModeRedact spans [] ∅ 0 H0 Hpl) as (counts & HA & _).
  exists counts. unfold Apply. rewrite (sort_placed s 0) by done. rewrite HA.
  rewrite app_nil_l. do 2 f_equal.
  rewrite <- (interleave_cleaned s k re _ 0) by (apply FindAll_chain, Hre || lia).
  fold spans. f_equal. apply list_fmap_ext. intros n sp Hsp.
  apply list_elem_of_lookup_2, list_elem_of_fmap in Hsp as ([i e] & -> & _). done.
Qed.

Lemma candidates_email s : candidates s [KindEmail] = regexSpans KindEmail emailRE s.
Proof. unfold candidates. cbn. by rewrite app_nil_r. Qed.

Lemma candidates_phoneUS s : candidates s [KindPhoneUS] = regexSpans KindPhoneUS phoneUSRE s.
Proof. unfold candidates. cbn. by rewrite app_nil_r. Qed.

(** Bytes other than brackets. *)
Definition no_bracket (b : byte) : bool := negb (beq b "["%byte || beq b "]"%byte).

Lemma redact_clean s k re P :
  (0 < min_len re)%nat -> local re = true -> only no_bracket re = true -> needs P re = true ->
  forallb (fun b => negb (P b)) (ToUpper k) = true ->
  Scan s [k] = mk_span k <$> FindAll re s ->
  exists out counts, Apply s (Scan s [k]) ModeRedact = Some (out, counts) /\
    FindAll re out = [].
Proof.
  intros Hre Hl Ho Hn Hk HS. rewrite HS.
  destruct (apply_redact_FindAll s k re Hre) as (counts & HA).
  eexists _, counts. split; [exact HA|].
  apply FindAll_no_match. intros i _ [j Hm].
  eapply (cleaned_no_match s re P no_bracket) with (pos := 0%nat);
    [exact Hre|done|done|done| |done|apply FindAll_chain, Hre|lia|exact Hm].
  exists (ToUpper k). split; [done|]. intros b Hb. rewrite forallb_forall in Hk.
  apply negb_true_iff, Hk. by apply list_elem_of_In.
Qed.

Lemma email_clean s :
  exists out counts, Apply s (Scan s [KindEmail]) ModeRedact = Some (out, counts) /\
    Scan out [KindEmail] = [].
Proof.
  destruct (regexSpans_FindAll s) as [Hs _].
  destruct (redact_clean s KindEmail emailRE
              (fun b => beq b "@"%byte || beq b "%"%byte)) as (out & counts & HA & HF);
    [simpl; lia|reflexivity|vm_compute; reflexivity|vm_compute; reflexivity|reflexivity| |].
  - unfold Scan. rewrite candidates_email, Hs. apply preferLonger_FindAll. simpl. lia.
  - exists out, counts. split; [done|]. unfold Scan.
    rewrite candidates_email. destruct (regexSpans_FindAll out) as [-> _]. by rewrite HF.
Qed.

Lemma phone_clean s :
  exists out counts, Apply s (Scan s [KindPhoneUS]) ModeRedact = Some (out, counts) /\
    Scan out [KindPhoneUS] = [].
Proof.
  destruct (regexSpans_FindAll s) as (_ & Hs & _).
  destruct (redact_clean s KindPhoneUS phoneUSRE is_digit) as (out & counts & HA & HF);
    [simpl; lia|reflexivity|vm_compute; reflexivity|vm_compute; reflexivity|reflexivity| |].
  - unfold Scan. rewrite candidates_phoneUS, Hs. apply preferLonger_FindAll. simpl. lia.
  - exists out, counts. split; [done|]. unfold Scan.
    rewrite candidates_phoneUS. destruct (regexSpans_FindAll out) as (_ & -> & _). by rewrite HF.
Qed.

(** C37 [redaction_clean]: with the email detector alone no email address is
    left: the detector finds nothing in what [Apply] returns; and the same for
    the detector of US telephone numbers alone. *)
Theorem redaction_clean s kind :
  kind = KindEmail \/ kind = KindPhoneUS ->
  exists out counts, Apply s (Scan s [kind]) ModeRedact = Some (out, counts) /\
    Scan out [kind] = [].
Proof. intros [->| ->]; [apply email_clean|apply phone_clean]. Qed.

Lemma redaction_clean_witness :
  exists out counts, Apply "a@b.co" (Scan "a@b.co" [KindEmail]) ModeRedact = Some (out, counts) /\
    Scan out [KindEmail] = [].
Proof. apply (redaction_clean "a@b.co" KindEmail). by left. Defined.

(** with both detectors that does not hold.  In this
    text the telephone number and the address overlap, the number is as long
    and comes first, the address is dropped whole, and the part of it outside
    the number, an address by the detector's own rule, stays in the output. *)
Lemma two_detectors_leak :
  let s := "555-123-4567.a@x.co" in
  fst <$> Apply s (Scan s [KindEmail; KindPhoneUS]) ModeRedact = Some "[PHONE_US].a@x.co" /\
  Scan "[PHONE_US].a@x.co" [KindEmail; KindPhoneUS] = [MkSpan KindEmail 10 17].
Proof. split; vm_compute; reflexivity. Qed.
