(* ===== verification/Base64.v ===== *)
(** * Base 64, as the Go package [encoding/base64] reads and writes it

    [StdEncoding]: padded, and with line breaks ignored when reading; the
    unpadded URL alphabet; and the round trip. *)

From S2P Require Import Prelude GoStd.

(** The digit of a value below 64; [p] and [s] are the last two digits. *)
Definition b64_digit (p s : byte) (n : nat) : byte :=
  if n <? 26 then byte_of_nat (65 + n)
  else if n <? 52 then byte_of_nat (71 + n)
  else if n <? 62 then byte_of_nat (n - 4)
  else if n =? 62 then p else s.

Definition b64_val (b : byte) : option nat :=
  if is_upper b then Some (byte_nat b - 65)
  else if is_lower b then Some (byte_nat b - 71)
  else if is_digit b then Some (byte_nat b + 4)
  else if beq b "+"%byte then Some 62
  else if beq b "/"%byte then Some 63
  else None.

Definition pad_char : byte := "="%byte.

Section encode.
Context (digit : nat -> byte) (padding : bool).

Fixpoint b64_encode (s : gostring) : gostring :=
  match s with
  | [] => []
  | [a] =>
      digit (byte_nat a / 4) :: digit (byte_nat a mod 4 * 16) ::
      (if padding then [pad_char; pad_char] else [])
  | [a; b] =>
      digit (byte_nat a / 4) :: digit (byte_nat a mod 4 * 16 + byte_nat b / 16) ::
      digit (byte_nat b mod 16 * 4) :: (if padding then [pad_char] else [])
  | a :: b :: c :: s' =>
      digit (byte_nat a / 4) :: digit (byte_nat a mod 4 * 16 + byte_nat b / 16) ::
      digit (byte_nat b mod 16 * 4 + byte_nat c / 64) :: digit (byte_nat c mod 64) ::
      b64_encode s'
  end.
End encode.

(** [base64.StdEncoding.EncodeToString]. *)
Definition EncodeToString : gostring -> gostring := b64_encode (b64_digit "+"%byte "/"%byte) true.

(** [base64.RawURLEncoding.EncodeToString]. *)
Definition RawURLEncodeToString : gostring -> gostring :=
  b64_encode (b64_digit "-"%byte "_"%byte) false.

(** Four digits at a time; padding ends the text. *)
Fixpoint b64_decode (s : gostring) : option gostring :=
  match s with
  | [] => Some []
  | a :: b :: c :: d :: s' =>
      x ← b64_val a; y ← b64_val b;
      if beq c pad_char then
        if beq d pad_char && (length s' =? 0) then Some [byte_of_nat (x * 4 + y / 16)] else None
      else
        z ← b64_val c;
        if beq d pad_char then
          if length s' =? 0
          then Some [byte_of_nat (x * 4 + y / 16); byte_of_nat (y mod 16 * 16 + z / 4)]
          else None
        else
          v ← b64_val d; t ← b64_decode s';
          Some (byte_of_nat (x * 4 + y / 16) :: byte_of_nat (y mod 16 * 16 + z / 4) ::
                byte_of_nat (z mod 4 * 64 + v) :: t)
  | _ => None
  end.

(** [base64.StdEncoding.DecodeString]; [None] is a [CorruptInputError]. *)
Definition DecodeString (s : gostring) : option gostring :=
  b64_decode (filter (fun b => negb (beq b Byte.x0a || beq b Byte.x0d) = true) s).

Example base64_example : EncodeToString "any carnal pleas" = "YW55IGNhcm5hbCBwbGVhcw=="%go.
Proof. vm_compute. reflexivity. Qed.
Example base64_lines : DecodeString ("YW55" ++ [Byte.x0a] ++ "IA==") = Some "any "%go.
Proof. vm_compute. reflexivity. Qed.

(** ** The round trip *)

Lemma triple_ind (P : gostring -> Prop) :
  P [] -> (forall a, P [a]) -> (forall a b, P [a; b]) ->
  (forall a b c s, P s -> P (a :: b :: c :: s)) -> forall s, P s.
Proof. intros H0 H1 H2 H3. fix IH 1. intros [|a [|b [|c s]]]; [done|apply H1|apply H2|apply H3, IH]. Qed.

Abbreviation std_digit := (b64_digit "+"%byte "/"%byte).

Definition digit_ok (n : nat) : bool :=
  bool_decide (b64_val (std_digit n) = Some n) && negb (beq (std_digit n) pad_char)
  && negb (beq (std_digit n) Byte.x0a || beq (std_digit n) Byte.x0d).

Lemma digits_ok n : n < 64 -> digit_ok n = true.
Proof. intros H. do 64 (destruct n as [|n]; [reflexivity|]). lia. Qed.

Lemma b64_val_digit n : n < 64 -> b64_val (std_digit n) = Some n.
Proof. intros H. pose proof (digits_ok n H) as E. unfold digit_ok in E. by bool_to_prop. Qed.

Lemma digit_not_pad n : n < 64 -> beq (std_digit n) pad_char = false.
Proof. intros H. pose proof (digits_ok n H) as E. unfold digit_ok in E. by bool_to_prop. Qed.

Lemma digit_not_line n : n < 64 -> negb (beq (std_digit n) Byte.x0a || beq (std_digit n) Byte.x0d) = true.
Proof.
  intros H. pose proof (digits_ok n H) as E. unfold digit_ok in E.
  by rewrite !andb_true_iff in E; destruct E as [_ E].
Qed.

(** The sextets of three bytes. *)
Lemma sextets (a b c : nat) :
  a < 256 -> b < 256 -> c < 256 ->
  a / 4 < 64 /\ a mod 4 * 16 + b / 16 < 64 /\ b mod 16 * 4 + c / 64 < 64 /\ c mod 64 < 64 /\
  a / 4 * 4 + (a mod 4 * 16 + b / 16) / 16 = a /\
  (a mod 4 * 16 + b / 16) mod 16 * 16 + (b mod 16 * 4 + c / 64) / 4 = b /\
  (b mod 16 * 4 + c / 64) mod 4 * 64 + c mod 64 = c.
Proof.
  intros Ha Hb Hc.
  pose proof (Nat.div_mod_eq a 4). pose proof (Nat.mod_upper_bound a 4 ltac:(lia)).
  pose proof (Nat.div_mod_eq b 16). pose proof (Nat.mod_upper_bound b 16 ltac:(lia)).
  pose proof (Nat.div_mod_eq c 64). pose proof (Nat.mod_upper_bound c 64 ltac:(lia)).
  assert (Hb16 : b / 16 < 16) by lia. assert (Hc64 : c / 64 < 4) by lia.
  assert (E1 : (a mod 4 * 16 + b / 16) / 16 = a mod 4).
  { rewrite Nat.div_add_l, (Nat.div_small (b / 16)) by lia. lia. }
  assert (E2 : (a mod 4 * 16 + b / 16) mod 16 = b / 16).
  { rewrite Nat.add_comm, Nat.Div0.mod_add. by apply Nat.mod_small. }
  assert (E3 : (b mod 16 * 4 + c / 64) / 4 = b mod 16).
  { rewrite Nat.div_add_l, (Nat.div_small (c / 64)) by lia. lia. }
  assert (E4 : (b mod 16 * 4 + c / 64) mod 4 = c / 64).
  { rewrite Nat.add_comm, Nat.Div0.mod_add. by apply Nat.mod_small. }
  rewrite E1, E2, E3, E4. lia.
Qed.

Lemma b64_decode_encode s : b64_decode (EncodeToString s) = Some s.
Proof.
  unfold EncodeToString. induction s as [|a|a b|a b c s IH] using triple_ind; [done|..].
  - pose proof (sextets _ _ _ (byte_nat_lt a) (byte_nat_lt Byte.x00) (byte_nat_lt Byte.x00))
      as (H1 & H2 & _ & _ & E1 & _).
    change (byte_nat Byte.x00 / 16) with 0 in *. rewrite !Nat.add_0_r in *.
    cbn [b64_encode b64_decode]. rewrite !b64_val_digit by lia. cbn [mbind option_bind].
    rewrite beq_refl. cbn [andb length Nat.eqb]. by rewrite E1, byte_of_nat_nat.
  - pose proof (sextets _ _ _ (byte_nat_lt a) (byte_nat_lt b) (byte_nat_lt Byte.x00))
      as (H1 & H2 & H3 & _ & E1 & E2 & _).
    change (byte_nat Byte.x00 / 64) with 0 in *. rewrite !Nat.add_0_r in *.
    cbn [b64_encode b64_decode]. rewrite !b64_val_digit by lia. cbn [mbind option_bind].
    rewrite digit_not_pad by lia. rewrite beq_refl. cbn [length Nat.eqb].
    by rewrite E1, E2, !byte_of_nat_nat.
  - pose proof (sextets _ _ _ (byte_nat_lt a) (byte_nat_lt b) (byte_nat_lt c))
      as (H1 & H2 & H3 & H4 & E1 & E2 & E3).
    cbn [b64_encode b64_decode]. rewrite !b64_val_digit by lia. cbn [mbind option_bind].
    rewrite !digit_not_pad by lia. rewrite IH. cbn [mbind option_bind].
    by rewrite E1, E2, E3, !byte_of_nat_nat.
Qed.

Lemma EncodeToString_no_lines s :
  Forall (fun b => negb (beq b Byte.x0a || beq b Byte.x0d) = true) (EncodeToString s).
Proof.
  unfold EncodeToString. induction s as [|a|a b|a b c s IH] using triple_ind; cbn [b64_encode];
    [constructor|..].
  - pose proof (sextets _ _ _ (byte_nat_lt a) (byte_nat_lt Byte.x00) (byte_nat_lt Byte.x00))
      as (H1 & H2 & _). change (byte_nat Byte.x00 / 16) with 0 in *. rewrite !Nat.add_0_r in *.
    repeat constructor; by apply digit_not_line.
  - pose proof (sextets _ _ _ (byte_nat_lt a) (byte_nat_lt b) (byte_nat_lt Byte.x00))
      as (H1 & H2 & H3 & _). change (byte_nat Byte.x00 / 64) with 0 in *. rewrite !Nat.add_0_r in *.
    repeat constructor; by apply digit_not_line.
  - pose proof (sextets _ _ _ (byte_nat_lt a) (byte_nat_lt b) (byte_nat_lt c)) as (H1 & H2 & H3 & H4 & _).
    repeat (constructor; [by apply digit_not_line|]). exact IH.
Qed.

Lemma Decode_Encode s : DecodeString (EncodeToString s) = Some s.
Proof.
  unfold DecodeString. rewrite filter_Forall; [apply b64_decode_encode|].
  apply EncodeToString_no_lines.
Qed.

(** Every character is a digit, or padding. *)
Lemma b64_encode_all (P : byte -> Prop) digit padding s :
  (forall n, n < 64 -> P (digit n)) -> (padding = true -> P pad_char) -> Forall P (b64_encode digit padding s).
Proof.
  intros Hd Hp. induction s as [|a|a b|a b c s IH] using triple_ind; cbn [b64_encode]; [constructor|..].
  - pose proof (sextets _ _ _ (byte_nat_lt a) (byte_nat_lt Byte.x00) (byte_nat_lt Byte.x00)) as (H1 & H2 & _).
    change (byte_nat Byte.x00 / 16) with 0 in *. rewrite !Nat.add_0_r in *. destruct padding; repeat apply Forall_cons_2; auto using Forall_nil_2.
  - pose proof (sextets _ _ _ (byte_nat_lt a) (byte_nat_lt b) (byte_nat_lt Byte.x00)) as (H1 & H2 & H3 & _).
    change (byte_nat Byte.x00 / 64) with 0 in *. rewrite !Nat.add_0_r in *. destruct padding; repeat apply Forall_cons_2; auto using Forall_nil_2.
  - pose proof (sextets _ _ _ (byte_nat_lt a) (byte_nat_lt b) (byte_nat_lt c)) as (H1 & H2 & H3 & H4 & _). repeat apply Forall_cons_2; auto.
Qed.
