(* ===== verification/Json.v ===== *)
(** * JSON, as the Go package [encoding/json] reads and writes it

    Values decoded into [any], [json.Marshal] with its HTML-safe string
    escapes, [json.Unmarshal], and the round trip between the two.

    A Go map with string keys is the list of its bindings in key order (the
    order [Marshal] writes them in).  A number that is an integer of at most
    2^53 in absolute value is a [JNum]; [float64] holds those exactly.  The
    syntax tree of a text keeps the members of an object as they are written
    ([Parse]); decoding into an [any] makes maps of them ([normalize]).  Any
    other number literal is kept as its text, a [JFloat]: its rounding to
    [float64] is not modelled.  The decoder's limit of 10000 nested values is
    not modelled either. *)

From S2P Require Import Prelude GoStd.

(** ** UTF-8 *)

Definition cont (b : byte) : bool := in_range Byte.x80 Byte.xbf b.

(** The length of the valid encoding at the head of [s], as
    [utf8.DecodeRuneInString] finds it; [None] is its [RuneError]. *)
Definition rune_len (s : gostring) : option nat :=
  match s with
  | [] => None
  | a :: t =>
      if in_range Byte.x00 Byte.x7f a then Some 1
      else if in_range Byte.xc2 Byte.xdf a then
        match t with b :: _ => if cont b then Some 2 else None | _ => None end
      else if in_range Byte.xe0 Byte.xef a then
        match t with
        | b :: c :: _ =>
            let lo := if beq a Byte.xe0 then Byte.xa0 else Byte.x80 in
            let hi := if beq a Byte.xed then Byte.x9f else Byte.xbf in
            if in_range lo hi b && cont c then Some 3 else None
        | _ => None
        end
      else if in_range Byte.xf0 Byte.xf4 a then
        match t with
        | b :: c :: d :: _ =>
            let lo := if beq a Byte.xf0 then Byte.x90 else Byte.x80 in
            let hi := if beq a Byte.xf4 then Byte.x8f else Byte.xbf in
            if in_range lo hi b && cont c && cont d then Some 4 else None
        | _ => None
        end
      else None
  end.

(** [utf8.RuneError], encoded. *)
Definition rune_error : gostring := [Byte.xef; Byte.xbf; Byte.xbd].

(** [utf8.AppendRune]. *)
Definition encode_rune (r : N) : gostring :=
  let b (n : N) : byte := byte_of_nat (N.to_nat n) in
  (if r <? 128 then [b r]
   else if r <? 2048 then [b (192 + r / 64); b (128 + r mod 64)]
   else if (55296 <=? r) && (r <=? 57343) then rune_error
   else if r <? 65536 then
     [b (224 + r / 4096); b (128 + (r / 64) mod 64); b (128 + r mod 64)]
   else if r <? 1114112 then
     [b (240 + r / 262144); b (128 + (r / 4096) mod 64);
      b (128 + (r / 64) mod 64); b (128 + r mod 64)]
   else rune_error)%N.

Inductive valid_utf8 : gostring -> Prop :=
| valid_nil : valid_utf8 []
| valid_rune s n : rune_len s = Some n -> valid_utf8 (drop n s) -> valid_utf8 s.

(** ** Values *)

#[warnings="-register-all"]
Inductive json : Type :=
| JNull
| JBool (b : bool)
| JNum (z : Z)
| JFloat (lit : gostring)
| JStr (s : gostring)
| JArr (l : list json)
| JObj (m : list (gostring * json)).

(** A Go [map[string]any]. *)
Abbreviation jmap := (list (gostring * json)) (only parsing).

Fixpoint jlookup {A} (k : gostring) (m : list (gostring * A)) : option A :=
  match m with
  | [] => None
  | (k', v) :: m' => if seqb k k' then Some v else jlookup k m'
  end.

(** [m[k] = v], keeping the bindings in key order. *)
Fixpoint jinsert {A} (k : gostring) (v : A) (m : list (gostring * A)) : list (gostring * A) :=
  match m with
  | [] => [(k, v)]
  | (k', v') :: m' =>
      if seqb k k' then (k, v) :: m'
      else if str_lt k k' then (k, v) :: (k', v') :: m'
      else (k', v') :: jinsert k v m'
  end.

(** ** Writing *)

Definition dquote : byte := Byte.x22.
Definition backslash : byte := Byte.x5c.

(** The bytes [htmlSafeSet] lets through. *)
Definition html_safe (b : byte) : bool :=
  in_range Byte.x20 Byte.x7f b &&
  negb (existsb (beq b) [dquote; backslash; "<"%byte; ">"%byte; "&"%byte]).

Definition escape (b : byte) : gostring :=
  if html_safe b then [b]
  else if beq b backslash || beq b dquote then [backslash; b]
  else if beq b Byte.x08 then [backslash; "b"%byte]
  else if beq b Byte.x0c then [backslash; "f"%byte]
  else if beq b Byte.x0a then [backslash; "n"%byte]
  else if beq b Byte.x0d then [backslash; "r"%byte]
  else if beq b Byte.x09 then [backslash; "t"%byte]
  else [backslash; "u"%byte; "0"%byte; "0"%byte;
        hex_digit (byte_nat b / 16); hex_digit (byte_nat b mod 16)].

Definition line_sep : gostring := [Byte.xe2; Byte.x80; Byte.xa8].
Definition para_sep : gostring := [Byte.xe2; Byte.x80; Byte.xa9].

Fixpoint quote_loop (fuel : nat) (s : gostring) : gostring :=
  match fuel, s with
  | S fuel', b :: s' =>
      if in_range Byte.x00 Byte.x7f b then escape b ++ quote_loop fuel' s'
      else match rune_len s with
           | None => backslash :: "ufffd" ++ quote_loop fuel' s'
           | Some n =>
               let chunk := take n s in
               (if bool_decide (chunk = line_sep) then backslash :: "u2028"
                else if bool_decide (chunk = para_sep) then backslash :: "u2029"
                else chunk) ++ quote_loop fuel' (drop n s)
           end
  | _, _ => []
  end.

(** A JSON string literal. *)
Definition quote (s : gostring) : gostring :=
  dquote :: quote_loop (length s) s ++ [dquote].

Fixpoint join (sep : gostring) (l : list gostring) : gostring :=
  match l with
  | [] => []
  | [x] => x
  | x :: l' => x ++ sep ++ join sep l'
  end.

(** [json.Marshal]. *)
Fixpoint Marshal (v : json) : gostring :=
  match v with
  | JNull => "null"
  | JBool true => "true"
  | JBool false => "false"
  | JNum z => Itoa z
  | JFloat lit => lit
  | JStr s => quote s
  | JArr l => "[" ++ join "," (map Marshal l) ++ "]"
  | JObj m =>
      "{" ++ join "," (map (fun '(k, v) => quote k ++ ":" ++ Marshal v) m) ++ "}"
  end.

(** ** Reading *)

Definition is_space (b : byte) : bool :=
  existsb (beq b) [Byte.x20; Byte.x09; Byte.x0d; Byte.x0a].

Fixpoint skip_ws (s : gostring) : gostring :=
  match s with
  | b :: s' => if is_space b then skip_ws s' else s
  | [] => []
  end.

(** Four hexadecimal digits. *)
Definition get_u4 (s : gostring) : option (N * gostring) :=
  match s with
  | a :: b :: c :: d :: s' =>
      a' ← hex_val a; b' ← hex_val b; c' ← hex_val c; d' ← hex_val d;
      Some (N.of_nat a' * 4096 + N.of_nat b' * 256 + N.of_nat c' * 16 + N.of_nat d', s')%N
  | _ => None
  end.

Definition is_surrogate (r : N) : bool := ((55296 <=? r) && (r <=? 57343))%N.

(** A [\u] escape; a high and a low surrogate make one rune, any other
    surrogate is replaced by [RuneError]. *)
Definition unquote_u (s : gostring) : option (gostring * gostring) :=
  u ← get_u4 s;
  let '(r, s1) := u in
  if is_surrogate r then
    match s1 with
    | x :: y :: s2 =>
        if beq x backslash && beq y "u"%byte then
          match get_u4 s2 with
          | Some (r2, s3) =>
              if ((r <=? 56319) && (56320 <=? r2) && (r2 <=? 57343))%N
              then Some (encode_rune ((r - 55296) * 1024 + (r2 - 56320) + 65536)%N, s3)
              else Some (rune_error, s1)
          | None => Some (rune_error, s1)
          end
        else Some (rune_error, s1)
    | _ => Some (rune_error, s1)
    end
  else Some (encode_rune r, s1).

(** What an escape [\c] stands for, other than [\u]. *)
Definition simple_escape (c : byte) : option byte :=
  if existsb (beq c) [dquote; backslash; "/"%byte] then Some c
  else if beq c "b"%byte then Some Byte.x08
  else if beq c "f"%byte then Some Byte.x0c
  else if beq c "n"%byte then Some Byte.x0a
  else if beq c "r"%byte then Some Byte.x0d
  else if beq c "t"%byte then Some Byte.x09
  else None.

(** The rest of a string literal, after the opening quote. *)
Fixpoint unquote_loop (fuel : nat) (s : gostring) : option (gostring * gostring) :=
  match fuel, s with
  | S fuel', b :: s' =>
      if beq b dquote then Some ([], s')
      else if beq b backslash then
        match s' with
        | c :: s2 =>
            if beq c "u"%byte then
              u ← unquote_u s2;
              r ← unquote_loop fuel' (snd u); Some (fst u ++ fst r, snd r)
            else
              x ← simple_escape c;
              r ← unquote_loop fuel' s2; Some (x :: fst r, snd r)
        | [] => None
        end
      else if in_range Byte.x00 Byte.x1f b then None
      else match rune_len s with
           | None => r ← unquote_loop fuel' s'; Some (rune_error ++ fst r, snd r)
           | Some n =>
               r ← unquote_loop fuel' (drop n s); Some (take n s ++ fst r, snd r)
           end
  | _, _ => None
  end.

Definition unquote (s : gostring) : option (gostring * gostring) :=
  unquote_loop (length s) s.

(** *** Numbers *)

Fixpoint digits_span (s : gostring) : gostring * gostring :=
  match s with
  | b :: s' => if is_digit b then let '(d, r) := digits_span s' in (b :: d, r) else ([], s)
  | [] => ([], [])
  end.

(** The integer part: [0], or digits that do not start with one. *)
Definition scan_int (s : gostring) : option (gostring * gostring) :=
  match s with
  | b :: s' =>
      if beq b "0"%byte then Some (["0"%byte], s')
      else if is_digit b then Some (digits_span s) else None
  | [] => None
  end.

Definition scan_frac (s : gostring) : option (gostring * gostring) :=
  match s with
  | b :: s' =>
      if beq b "."%byte then
        match digits_span s' with
        | ([], _) => None
        | (d, r) => Some (b :: d, r)
        end
      else Some ([], s)
  | [] => Some ([], [])
  end.

Definition scan_exp (s : gostring) : option (gostring * gostring) :=
  match s with
  | b :: s' =>
      if beq b "e"%byte || beq b "E"%byte then
        let '(sign, s2) := match s' with
                           | c :: s2 => if beq c "+"%byte || beq c "-"%byte
                                        then ([c], s2) else ([], s')
                           | [] => ([], s')
                           end in
        match digits_span s2 with
        | ([], _) => None
        | (d, r) => Some (b :: sign ++ d, r)
        end
      else Some ([], s)
  | [] => Some ([], [])
  end.

(** The value of a literal with the given parts. *)
Definition number_value (neg : bool) (int frac exp : gostring) : json :=
  let lit := (if neg then ["-"%byte] else []) ++ int ++ frac ++ exp in
  match frac ++ exp, parse_digits 0 int with
  | [], Some n =>
      if (n <=? 2 ^ 53)%N && negb (neg && (n =? 0)%N)
      then JNum (if neg then - Z.of_N n else Z.of_N n)
      else JFloat lit
  | _, _ => JFloat lit
  end.

Definition scan_number (s : gostring) : option (json * gostring) :=
  let neg := HasPrefix s "-" in
  i ← scan_int (if neg then drop 1 s else s);
  f ← scan_frac (snd i);
  e ← scan_exp (snd f);
  Some (number_value neg (fst i) (fst f) (fst e), snd e).

(** *** Values *)

Fixpoint parse_value (fuel : nat) (s : gostring) : option (json * gostring) :=
  match fuel with
  | O => None
  | S fuel' =>
      match skip_ws s with
      | [] => None
      | b :: s' =>
          if beq b dquote then r ← unquote s'; Some (JStr (fst r), snd r)
          else if beq b "["%byte then
            match skip_ws s' with
            | c :: s2 => if beq c "]"%byte then Some (JArr [], s2)
                         else r ← parse_elems fuel' (c :: s2); Some (JArr (fst r), snd r)
            | [] => None
            end
          else if beq b "{"%byte then
            match skip_ws s' with
            | c :: s2 => if beq c "}"%byte then Some (JObj [], s2)
                         else r ← parse_members fuel' (c :: s2);
                              Some (JObj (fst r), snd r)
            | [] => None
            end
          else if HasPrefix (b :: s') "null" then Some (JNull, drop 4 (b :: s'))
          else if HasPrefix (b :: s') "true" then Some (JBool true, drop 4 (b :: s'))
          else if HasPrefix (b :: s') "false" then Some (JBool false, drop 5 (b :: s'))
          else scan_number (b :: s')
      end
  end
with parse_elems (fuel : nat) (s : gostring) : option (list json * gostring) :=
  match fuel with
  | O => None
  | S fuel' =>
      v ← parse_value fuel' s;
      match skip_ws (snd v) with
      | c :: s2 =>
          if beq c ","%byte then
            r ← parse_elems fuel' s2; Some (fst v :: fst r, snd r)
          else if beq c "]"%byte then Some ([fst v], s2)
          else None
      | [] => None
      end
  end
with parse_members (fuel : nat) (s : gostring) : option (list (gostring * json) * gostring) :=
  match fuel with
  | O => None
  | S fuel' =>
      match skip_ws s with
      | q :: s1 =>
          if beq q dquote then
            k ← unquote s1;
            match skip_ws (snd k) with
            | c :: s2 =>
                if beq c ":"%byte then
                  v ← parse_value fuel' s2;
                  match skip_ws (snd v) with
                  | d :: s3 =>
                      if beq d ","%byte then
                        r ← parse_members fuel' s3; Some ((fst k, fst v) :: fst r, snd r)
                      else if beq d "}"%byte then Some ([(fst k, fst v)], s3)
                      else None
                  | [] => None
                  end
                else None
            | [] => None
            end
          else None
      | [] => None
      end
  end.

(** A whole text as one value, its objects with their members as written. *)
Definition Parse (s : gostring) : option json :=
  r ← parse_value (S (length s)) s;
  match skip_ws (snd r) with [] => Some (fst r) | _ => None end.

(** [Decoder.Decode] on an object, an array, a string or a literal: what
    follows the value is left unread. *)
Definition ParsePrefix (s : gostring) : option json :=
  fst <$> parse_value (S (length s)) s.

(** Objects as Go maps: the last member with a key wins. *)
Fixpoint normalize (v : json) : json :=
  match v with
  | JArr l => JArr (map normalize l)
  | JObj m => JObj (foldl (fun acc kv => jinsert (fst kv) (snd kv) acc) []
                          (map (fun '(k, v) => (k, normalize v)) m))
  | _ => v
  end.

(** [json.Unmarshal] into an [any]; [None] is an error. *)
Definition Unmarshal (s : gostring) : option json := normalize <$> Parse s.

Example Marshal_obj :
  Marshal (JObj [("a", JArr [JNum (-3); JNull]); ("b<", JStr [Byte.x0a; Byte.xff])]) =
  "{" ++ quote "a" ++ ":[-3,null]," ++ quote "b<" ++ ":" ++
  [dquote; backslash; "n"%byte; backslash] ++ "ufffd" ++ [dquote; "}"%byte].
Proof. vm_compute. reflexivity. Qed.

Example Unmarshal_obj :
  Unmarshal (" { " ++ quote "k" ++ " : [ 1 , true,1.50 ] } ") =
  Some (JObj [("k", JArr [JNum 1; JBool true; JFloat "1.50"])]).
Proof. vm_compute. reflexivity. Qed.
