(* ===== verification/JsonSpec.v ===== *)
(** * JSON round trips

    [Unmarshal] of what [Marshal] writes gives the value back, for every value
    that [Unmarshal] can return; what [Unmarshal] returns is always such a
    value, so writing and reading is a normal form ([canonical_idem]).  The
    encoding of a string is injective on valid UTF-8. *)

From S2P Require Import Prelude GoStd Json.

(** ** Strings *)

Lemma unquote_escape f b t :
  in_range Byte.x00 Byte.x7f b = true ->
  unquote_loop (S f) (escape b ++ t) =
  (r ← unquote_loop f t; Some (b :: fst r, snd r)).
Proof. destruct b; intros H; try discriminate H; reflexivity. Qed.

Lemma escape_nonempty b : 0 < length (escape b).
Proof. unfold escape. repeat case_match; simpl; lia. Qed.

(** The two separators that are written as escapes. *)
Lemma unquote_line_sep f t :
  unquote_loop (S f) ((backslash :: "u2028") ++ t) =
  (r ← unquote_loop f t; Some (line_sep ++ fst r, snd r)).
Proof. reflexivity. Qed.

Lemma unquote_para_sep f t :
  unquote_loop (S f) ((backslash :: "u2029") ++ t) =
  (r ← unquote_loop f t; Some (para_sep ++ fst r, snd r)).
Proof. reflexivity. Qed.

Lemma in_range_false_lt lo hi b : byte_nat hi < byte_nat b -> in_range lo hi b = false.
Proof. intros H. apply not_true_is_false. rewrite in_range_spec. lia. Qed.

(** A valid encoding is recognised whatever follows it. *)
Lemma rune_len_app s n t :
  rune_len s = Some n -> n <= length s /\ 0 < n /\ rune_len (take n s ++ t) = Some n.
Proof.
  intros H. destruct s as [|a s]; [done|]. cbn [rune_len] in H.
  destruct (in_range Byte.x00 Byte.x7f a) eqn:Ea.
  { injection H as <-. cbn [take app rune_len]. rewrite Ea. simpl. split; [lia|]. split; [lia|done]. }
  destruct (in_range Byte.xc2 Byte.xdf a) eqn:Ea2.
  { destruct s as [|b s]; [done|]. destruct (cont b) eqn:Eb; [|done].
    injection H as <-. cbn [take app rune_len]. rewrite Ea, Ea2, Eb. simpl.
    split; [lia|]. split; [lia|done]. }
  destruct (in_range Byte.xe0 Byte.xef a) eqn:Ea3.
  { destruct s as [|b [|c s]]; [done|done|].
    destruct (in_range _ _ b && cont c) eqn:Eb in H; [|done].
    injection H as <-. cbn [take app rune_len]. rewrite Ea, Ea2, Ea3, Eb.
    simpl. split; [lia|]. split; [lia|done]. }
  destruct (in_range Byte.xf0 Byte.xf4 a) eqn:Ea4; [|done].
  destruct s as [|b [|c [|d s]]]; [done..|].
  destruct (in_range _ _ b && cont c && cont d) eqn:Eb in H; [|done].
  injection H as <-. cbn [take app rune_len]. rewrite Ea, Ea2, Ea3, Ea4, Eb.
  simpl. split; [lia|]. split; [lia|done].
Qed.

Lemma rune_len_ascii b s : in_range Byte.x00 Byte.x7f b = true -> rune_len (b :: s) = Some 1.
Proof. intros H. cbn [rune_len]. by rewrite H. Qed.

(** A chunk that is not ASCII is copied. *)
Lemma unquote_chunk f s n t :
  rune_len s = Some n -> (forall b, head s = Some b -> in_range Byte.x00 Byte.x7f b = false) ->
  unquote_loop (S f) (take n s ++ t) =
  (r ← unquote_loop f t; Some (take n s ++ fst r, snd r)).
Proof.
  intros Hn Ha. destruct (rune_len_app s n t Hn) as (Hle & Hpos & Happ).
  destruct s as [|b s]; [done|]. specialize (Ha b eq_refl).
  destruct n as [|n]; [lia|]. cbn [take app unquote_loop].
  assert (Hb : 127 < byte_nat b).
  { apply Nat.nlt_ge. intros Hlt. apply not_true_iff_false in Ha. apply Ha, in_range_spec.
    split; [simpl; lia|]. simpl. lia. }
  assert (beq b dquote = false) as ->.
  { apply not_true_is_false. rewrite beq_eq. intros ->. simpl in Hb. lia. }
  assert (beq b backslash = false) as ->.
  { apply not_true_is_false. rewrite beq_eq. intros ->. simpl in Hb. lia. }
  assert (in_range Byte.x00 Byte.x1f b = false) as ->
    by (apply in_range_false_lt; simpl; lia).
  cbn [take app] in Happ. rewrite Happ. cbn [take app].
  assert (Hl : length (take n s) = n) by (rewrite length_take; simpl in Hle; lia).
  cbn [drop]. by rewrite drop_app_length', take_app_length' by done.
Qed.

Lemma unquote_quote_loop s n f rest :
  valid_utf8 s -> length s <= n -> length (quote_loop n s) < f ->
  unquote_loop f (quote_loop n s ++ dquote :: rest) = Some (s, rest).
Proof.
  intros Hv. revert n f. induction Hv as [|s k Hk Hv IH]; intros n f Hn Hf.
  { destruct n; (destruct f; [simpl in Hf; lia|reflexivity]). }
  destruct (rune_len_app s k [] Hk) as (Hle & Hpos & _).
  destruct s as [|b s]; [done|]. destruct n as [|n]; [simpl in Hn; lia|].
  cbn [quote_loop] in *. destruct (in_range Byte.x00 Byte.x7f b) eqn:Eb.
  - rewrite rune_len_ascii in Hk by done. injection Hk as <-. change (drop 1 (b :: s)) with (drop 0 s) in *. rewrite drop_0 in *.
    pose proof (escape_nonempty b). rewrite length_app in Hf.
    destruct f as [|f]; [lia|]. rewrite <- app_assoc, unquote_escape by done.
    cbn [length] in Hn. rewrite IH by lia. done.
  - rewrite Hk in *. set (chunk := take k (b :: s)) in *.
    assert (Hstep : forall e, 0 < length e ->
      (forall f t, unquote_loop (S f) (e ++ t) =
                   (r ← unquote_loop f t; Some (chunk ++ fst r, snd r))) ->
      length (e ++ quote_loop n (drop k (b :: s))) < f ->
      unquote_loop f ((e ++ quote_loop n (drop k (b :: s))) ++ dquote :: rest) =
      Some (b :: s, rest)).
    { intros e He Hq Hl. rewrite length_app in Hl. destruct f as [|f]; [lia|].
      rewrite <- app_assoc, Hq, IH; cbn [mbind option_bind fst snd].
      - unfold chunk. by rewrite take_drop.
      - rewrite length_drop. cbn [length] in *. lia.
      - lia. }
    destruct (bool_decide (chunk = line_sep)) eqn:E1; [|destruct (bool_decide (chunk = para_sep)) eqn:E2];
      bool_to_prop.
    + apply Hstep; [simpl; lia| |done]. intros. by rewrite unquote_line_sep, E1.
    + apply Hstep; [simpl; lia| |done]. intros. by rewrite unquote_para_sep, E2.
    + apply Hstep; [unfold chunk; rewrite length_take; cbn [length] in *; lia| |done].
      intros. apply unquote_chunk; [done|]. by intros ? [= <-].
Qed.

Lemma unquote_quote s rest :
  valid_utf8 s -> unquote (quote_loop (length s) s ++ dquote :: rest) = Some (s, rest).
Proof.
  intros Hv. unfold unquote. apply unquote_quote_loop; [done|done|].
  rewrite length_app. simpl. lia.
Qed.

(** The literal of a string can be read off the front of any text. *)
Lemma quote_app_inj s t r r' :
  valid_utf8 s -> valid_utf8 t -> quote s ++ r = quote t ++ r' -> s = t /\ r = r'.
Proof.
  intros Hs Ht H. unfold quote in H. cbn [app] in H. injection H as H.
  rewrite <- !app_assoc in H. cbn [app] in H.
  pose proof (unquote_quote s r Hs) as Es. pose proof (unquote_quote t r' Ht) as Et.
  rewrite H, Et in Es. by injection Es as -> ->.
Qed.

(** ** Numbers *)

Definition head_in (P : byte -> bool) (r : gostring) : bool :=
  match r with b :: _ => P b | [] => false end.

Definition not_digit (r : gostring) : Prop := head_in is_digit r = false.
Definition is_dot (b : byte) : bool := beq b "."%byte.
Definition is_e (b : byte) : bool := beq b "e"%byte || beq b "E"%byte.

(** Text a number literal cannot run on into. *)
Definition num_stop (r : gostring) : Prop :=
  not_digit r /\ head_in is_dot r = false /\ head_in is_e r = false.

Lemma digits_span_spec s d t :
  digits_span s = (d, t) ->
  s = d ++ t /\ forall r, not_digit r -> digits_span (d ++ r) = (d, r).
Proof.
  revert d t. induction s as [|b s IH]; intros d t; simpl.
  - intros [= <- <-]. split; [done|]. intros [|c r] Hr; [done|].
    unfold not_digit in Hr. simpl in Hr |- *. by rewrite Hr.
  - destruct (is_digit b) eqn:Eb.
    + destruct (digits_span s) as [d' t'] eqn:E. intros [= <- <-].
      destruct (IH _ _ eq_refl) as [-> Hd]. split; [done|].
      intros r Hr. simpl. by rewrite Eb, Hd.
    + intros [= <- <-]. split; [done|]. intros [|c r] Hr; [done|].
      unfold not_digit in Hr. simpl in Hr |- *. by rewrite Hr.
Qed.

Lemma scan_int_spec s x t :
  scan_int s = Some (x, t) ->
  s = x ++ t /\ (forall r, not_digit r -> scan_int (x ++ r) = Some (x, r)) /\
  HasPrefix x "-" = false.
Proof.
  destruct s as [|b s]; [done|]. cbn [scan_int].
  destruct (beq b "0"%byte) eqn:E0.
  - apply beq_eq in E0 as ->. intros [= <- <-]. split; [done|]. by split.
  - destruct (is_digit b) eqn:Eb; [|done]. intros [= H].
    destruct (digits_span_spec (b :: s) _ _ H) as [Hs Hd].
    destruct x as [|c x].
    { simpl in H. rewrite Eb in H. destruct (digits_span s). done. }
    cbn [app] in Hs. injection Hs as <- ->. split; [done|]. split.
    + intros r Hr. cbn [app scan_int]. rewrite E0, Eb. f_equal. by apply Hd.
    + cbn. assert (beq b "-"%byte = false) as ->; [|done].
      apply not_true_is_false. rewrite beq_eq. by intros ->.
Qed.

Lemma scan_frac_spec s x t :
  scan_frac s = Some (x, t) ->
  s = x ++ t /\
  (forall r, not_digit r -> head_in is_dot r = false -> scan_frac (x ++ r) = Some (x, r)) /\
  (forall r, not_digit r -> not_digit (x ++ r)).
Proof.
  assert (Hnil : forall r, head_in is_dot r = false -> scan_frac r = Some ([], r)).
  { intros [|c r]; [done|]. cbn. unfold is_dot. by intros ->. }
  destruct s as [|b s]; cbn [scan_frac].
  { intros [= <- <-]. split; [done|]. split; [|done]. intros r _. apply Hnil. }
  destruct (beq b "."%byte) eqn:E.
  - apply beq_eq in E as ->. destruct (digits_span s) as [[|c d] t'] eqn:Ed; [done|].
    intros [= <- <-]. destruct (digits_span_spec _ _ _ Ed) as [-> Hd].
    split; [done|]. split; [|by intros].
    intros r Hr _. cbn [app scan_frac]. rewrite beq_refl.
    change (c :: d ++ r) with ((c :: d) ++ r). by rewrite Hd.
  - intros [= <- <-]. split; [done|]. split; [|done]. intros r _. apply Hnil.
Qed.

Lemma scan_exp_spec s x t :
  scan_exp s = Some (x, t) ->
  s = x ++ t /\
  (forall r, not_digit r -> head_in is_e r = false -> scan_exp (x ++ r) = Some (x, r)) /\
  (forall r, not_digit r -> not_digit (x ++ r)) /\
  (forall r, head_in is_dot r = false -> head_in is_dot (x ++ r) = false).
Proof.
  assert (Hnil : forall r, head_in is_e r = false -> scan_exp r = Some ([], r)).
  { intros [|c r]; [done|]. cbn. unfold is_e. by intros ->. }
  destruct s as [|b s]; cbn [scan_exp].
  { intros [= <- <-]. split; [done|]. split; [|done]. intros r _. apply Hnil. }
  destruct (beq b "e"%byte || beq b "E"%byte) eqn:E.
  - destruct (match s with
              | [] => ([], s)
              | c :: s2 => if beq c "+"%byte || beq c "-"%byte then ([c], s2) else ([], s)
              end) as [sign s2] eqn:Es.
    destruct (digits_span s2) as [[|c d] t'] eqn:Ed; [done|].
    intros [= <- <-]. destruct (digits_span_spec _ _ _ Ed) as [-> Hd].
    assert (Hb : forall r, not_digit (b :: r) /\ head_in is_dot (b :: r) = false).
    { intros r. unfold not_digit, is_dot. cbn.
      rewrite orb_true_iff, !beq_eq in E. by destruct E as [-> | ->]. }
    split; [|split; [|split; [intros; apply Hb|intros; apply Hb]]].
    + destruct s as [|c' s]; [by simplify_eq/=|].
      by destruct (beq c' "+"%byte || beq c' "-"%byte); simplify_eq/=.
    + intros r Hr _. rewrite <- app_comm_cons, <- app_assoc. cbn [scan_exp]. rewrite E.
      destruct s as [|c' s]; [by simplify_eq/=|].
      destruct (beq c' "+"%byte || beq c' "-"%byte) eqn:Ec.
      * injection Es as <- Hs. cbn [app]. rewrite Ec.
        change (c :: d ++ r) with ((c :: d) ++ r). by rewrite Hd.
      * injection Es as <- -> Hs. cbn [app]. rewrite Ec.
        change (c :: d ++ r) with ((c :: d) ++ r). by rewrite Hd.
  - intros [= <- <-]. split; [done|]. split; [|done]. intros r _. apply Hnil.
Qed.

(** A literal is recognised again by itself and before any text it cannot run
    on into; its value is an exact integer or the literal itself. *)
Lemma scan_number_spec s v t :
  scan_number s = Some (v, t) ->
  exists lit, s = lit ++ t /\
    (forall r, num_stop r -> scan_number (lit ++ r) = Some (v, r)) /\
    (v = JFloat lit \/ exists z, v = JNum z /\ (Z.abs z <= 2 ^ 53)%Z).
Proof.
  unfold scan_number. set (neg := HasPrefix s "-").
  destruct (scan_int _) as [[i s1]|] eqn:Ei; [|done]. cbn [mbind option_bind fst snd].
  destruct (scan_frac s1) as [[f s2]|] eqn:Ef; [|done]. cbn [mbind option_bind fst snd].
  destruct (scan_exp s2) as [[e s3]|] eqn:Ee; [|done]. cbn [mbind option_bind fst snd].
  intros [= <- <-].
  destruct (scan_int_spec _ _ _ Ei) as (Hi & Hi' & Hneg).
  destruct (scan_frac_spec _ _ _ Ef) as (-> & Hf' & Hf).
  destruct (scan_exp_spec _ _ _ Ee) as (-> & He' & He & He2).
  set (pre := if neg then ["-"%byte] else []).
  exists (pre ++ i ++ f ++ e). split; [|split].
  - rewrite <- !app_assoc, <- Hi. unfold pre. destruct neg eqn:En; [|done].
    unfold neg in En. apply HasPrefix_spec in En as [u ->]. done.
  - clearbody neg. intros r (H1 & H2 & H3).
    assert (HasPrefix ((pre ++ i ++ f ++ e) ++ r) "-" = neg) as ->.
    { unfold pre. destruct neg; [apply HasPrefix_spec; by eexists|]. cbn [app].
      destruct i as [|c i]; [by specialize (Hi' [] eq_refl)|].
      cbn in Hneg |- *. by destruct (beq c "-"%byte); [destruct i|]. }
    assert ((if neg then drop 1 ((pre ++ i ++ f ++ e) ++ r) else (pre ++ i ++ f ++ e) ++ r)
            = i ++ f ++ e ++ r) as ->
      by (unfold pre; destruct neg; cbn [app drop]; by rewrite ?drop_0, <- ?app_assoc).
    rewrite Hi' by auto. cbn [mbind option_bind fst snd].
    rewrite Hf' by auto. cbn [mbind option_bind fst snd].
    rewrite He' by auto. done.
  - unfold number_value. fold pre. destruct (f ++ e) eqn:Efe; [|by left].
    destruct (parse_digits 0 i) as [n|]; [|by left].
    destruct (N.leb_spec n (2 ^ 53)) as [Hn|]; [|by left].
    destruct (negb _); [|by left]. right. eexists. split; [done|]. destruct neg; lia.
Qed.

Lemma all_digits_span d : Forall (fun b => is_digit b = true) d -> digits_span d = (d, []).
Proof. induction 1 as [|b d Hb Hd IH]; simpl; [done|]. by rewrite Hb, IH. Qed.

(** No number but zero is written with a leading zero. *)
Lemma format_loop_head fuel n acc :
  (n < 2 ^ N.of_nat fuel)%N -> n <> 0%N ->
  exists b l, format_loop (S fuel) n acc = b :: l /\ b <> "0"%byte.
Proof.
  revert n acc. induction fuel as [|fuel IH]; intros n acc Hn H0; [simpl in Hn; lia|].
  change (format_loop (S (S fuel)) n acc) with
    (let acc' := digit_byte (N.to_nat (n mod 10)) :: acc in
     if (n <? 10)%N then acc' else format_loop (S fuel) (n / 10) acc').
  cbv zeta. destruct (N.ltb_spec n 10) as [Hs|Hs].
  - rewrite N.mod_small by done. eexists _, _. split; [done|].
    intros E%(f_equal digit_val). rewrite digit_val_byte in E by lia. cbn in E. lia.
  - apply IH.
    + rewrite Nat2N.inj_succ, N.pow_succ_r' in Hn. apply N.Div0.div_lt_upper_bound. lia.
    + intros E. apply N.div_small_iff in E; lia.
Qed.

Lemma scan_int_FormatUint n : scan_int (FormatUint n) = Some (FormatUint n, []).
Proof.
  destruct (decide (n = 0%N)) as [->|H0]; [done|].
  destruct (format_loop_head (N.size_nat n) n []) as (b & l & E & Hb); [|done|].
  { rewrite size_nat_size. apply N.size_gt. }
  pose proof (FormatUint_digits n) as Hd. unfold FormatUint in Hd |- *. rewrite E in Hd |- *.
  cbn [scan_int]. destruct (beq b "0"%byte) eqn:E0; [by apply beq_eq in E0|].
  pose proof Hd as Hd'. apply Forall_cons in Hd' as [-> _]. f_equal. by apply all_digits_span.
Qed.

Lemma scan_number_Itoa z :
  (Z.abs z <= 2 ^ 53)%Z -> scan_number (Itoa z) = Some (JNum z, []).
Proof.
  intros Hz. unfold scan_number, Itoa.
  assert (Hh : HasPrefix (FormatUint (Z.abs_N z)) "-" = false).
  { pose proof (scan_int_FormatUint (Z.abs_N z)) as E.
    by destruct (scan_int_spec _ _ _ E) as (_ & _ & ?). }
  destruct (Z.ltb_spec z 0) as [Hneg|Hneg].
  - assert (HasPrefix ("-"%byte :: FormatUint (Z.abs_N z)) "-" = true) as ->
      by (apply HasPrefix_spec; by eexists).
    cbn [drop]. rewrite drop_0, scan_int_FormatUint. cbn [mbind option_bind fst snd scan_frac scan_exp].
    unfold number_value. cbn [app]. rewrite FormatUint_parse.
    destruct (N.leb_spec (Z.abs_N z) (2 ^ 53)); [|lia].
    destruct (N.eqb_spec (Z.abs_N z) 0); [lia|]. cbn. do 3 f_equal. lia.
  - rewrite Hh, scan_int_FormatUint. cbn [mbind option_bind fst snd scan_frac scan_exp].
    unfold number_value. cbn [app]. rewrite FormatUint_parse.
    destruct (N.leb_spec (Z.abs_N z) (2 ^ 53)); [|lia]. cbn. do 3 f_equal. lia.
Qed.

(** ** What the reader produces *)

Lemma valid_app s t : valid_utf8 s -> valid_utf8 t -> valid_utf8 (s ++ t).
Proof.
  intros Hs Ht. induction Hs as [|s n Hn Hv IH]; [done|].
  destruct (rune_len_app s n (drop n s ++ t) Hn) as (Hle & _ & Happ).
  rewrite app_assoc, take_drop in Happ.
  apply valid_rune with n; [done|]. by rewrite drop_app_le.
Qed.

Lemma valid_chunk s n : rune_len s = Some n -> valid_utf8 (take n s).
Proof.
  intros Hn. destruct (rune_len_app s n [] Hn) as (Hle & _ & Happ).
  rewrite app_nil_r in Happ. apply valid_rune with n; [done|].
  rewrite drop_ge by (rewrite length_take; lia). constructor.
Qed.

Lemma valid_bytes s : rune_len s = Some (length s) -> valid_utf8 s.
Proof. intros H. pose proof (valid_chunk _ _ H) as Hv. by rewrite take_ge in Hv by done. Qed.

Lemma in_range_of_nat lo hi n :
  n < 256 -> byte_nat lo <= n <= byte_nat hi -> in_range lo hi (byte_of_nat n) = true.
Proof. intros Hn H. apply in_range_spec. by rewrite byte_nat_of_nat. Qed.

Lemma in_range_of_nat_out lo hi n :
  n < 256 -> n < byte_nat lo \/ byte_nat hi < n -> in_range lo hi (byte_of_nat n) = false.
Proof.
  intros Hn H. apply not_true_is_false. rewrite in_range_spec, byte_nat_of_nat by done. lia.
Qed.

Lemma beq_of_nat n b : n < 256 -> beq (byte_of_nat n) b = (n =? byte_nat b).
Proof.
  intros Hn. apply eq_true_iff_eq. rewrite beq_eq, Nat.eqb_eq. split.
  - intros <-. by rewrite byte_nat_of_nat.
  - intros ->. apply byte_of_nat_nat.
Qed.

Ltac byte_cases :=
  repeat first
    [ rewrite in_range_of_nat_out by (simpl; lia)
    | rewrite in_range_of_nat by (simpl; lia) ].

Lemma valid_two a b : 194 <= a <= 223 -> 128 <= b <= 191 ->
  valid_utf8 [byte_of_nat a; byte_of_nat b].
Proof.
  intros Ha Hb. apply valid_bytes. cbn [rune_len]. unfold cont. by byte_cases.
Qed.

Lemma valid_three a b c :
  224 <= a <= 239 -> 128 <= b <= 191 -> 128 <= c <= 191 ->
  (a = 224 -> 160 <= b) -> (a = 237 -> b <= 159) ->
  valid_utf8 [byte_of_nat a; byte_of_nat b; byte_of_nat c].
Proof.
  intros Ha Hb Hc H1 H2. apply valid_bytes. cbn [rune_len]. unfold cont.
  rewrite !beq_of_nat by lia. change (byte_nat Byte.xe0) with 224.
  change (byte_nat Byte.xed) with 237. byte_cases.
  destruct (Nat.eqb_spec a 224), (Nat.eqb_spec a 237); byte_cases; try done; lia.
Qed.

Lemma valid_four a b c d :
  240 <= a <= 244 -> 128 <= b <= 191 -> 128 <= c <= 191 -> 128 <= d <= 191 ->
  (a = 240 -> 144 <= b) -> (a = 244 -> b <= 143) ->
  valid_utf8 [byte_of_nat a; byte_of_nat b; byte_of_nat c; byte_of_nat d].
Proof.
  intros Ha Hb Hc Hd H1 H2. apply valid_bytes. cbn [rune_len]. unfold cont.
  rewrite !beq_of_nat by lia. change (byte_nat Byte.xf0) with 240.
  change (byte_nat Byte.xf4) with 244. byte_cases.
  destruct (Nat.eqb_spec a 240), (Nat.eqb_spec a 244); byte_cases; try done; lia.
Qed.

Lemma valid_rune_error : valid_utf8 rune_error.
Proof. by apply valid_bytes. Qed.

Lemma encode_rune_valid r : valid_utf8 (encode_rune r).
Proof.
  unfold encode_rune. cbv zeta.
  pose proof (N.div_mod r 64 ltac:(lia)). pose proof (N.mod_lt r 64 ltac:(lia)).
  pose proof (N.div_mod (r / 64) 64 ltac:(lia)). pose proof (N.mod_lt (r / 64) 64 ltac:(lia)).
  assert (E1 : (r / 64 / 64 = r / 4096)%N) by (rewrite N.Div0.div_div; done).
  pose proof (N.div_mod (r / 4096) 64 ltac:(lia)). pose proof (N.mod_lt (r / 4096) 64 ltac:(lia)).
  assert (E2 : (r / 4096 / 64 = r / 262144)%N) by (rewrite N.Div0.div_div; done).
  rewrite E1 in *. rewrite E2 in *. clear E1 E2.
  set (m := (r mod 64)%N) in *. set (m2 := ((r / 64) mod 64)%N) in *.
  set (m3 := ((r / 4096) mod 64)%N) in *. set (q := (r / 64)%N) in *.
  set (q2 := (r / 4096)%N) in *. set (q3 := (r / 262144)%N) in *.
  clearbody m m2 m3 q q2 q3.
  destruct (N.ltb_spec r 128).
  { apply valid_bytes. cbn [rune_len length]. by byte_cases. }
  destruct (N.ltb_spec r 2048); [apply valid_two; lia|].
  destruct (N.leb_spec 55296 r), (N.leb_spec r 57343); cbn [andb];
    try apply valid_rune_error;
    (destruct (N.ltb_spec r 65536); [apply valid_three; lia|]);
    (destruct (N.ltb_spec r 1114112); [apply valid_four; lia|apply valid_rune_error]).
Qed.

Lemma unquote_u_valid s x r : unquote_u s = Some (x, r) -> valid_utf8 x.
Proof.
  unfold unquote_u. destruct (get_u4 s) as [[u s1]|]; [|done]. cbn [mbind option_bind].
  repeat case_match; intros; simplify_eq; auto using encode_rune_valid, valid_rune_error.
Qed.

Lemma simple_escape_ascii c x : simple_escape c = Some x -> in_range Byte.x00 Byte.x7f x = true.
Proof. by destruct c; intros [= <-]. Qed.

Lemma valid_cons_ascii b s :
  in_range Byte.x00 Byte.x7f b = true -> valid_utf8 s -> valid_utf8 (b :: s).
Proof. intros Hb Hs. apply valid_rune with 1; [by apply rune_len_ascii|]. by rewrite <- drop_0 in Hs. Qed.

Lemma unquote_loop_valid f s x r : unquote_loop f s = Some (x, r) -> valid_utf8 x.
Proof.
  revert s x r. induction f as [|f IH]; intros s x r; [done|].
  destruct s as [|b s]; [done|]. cbn [unquote_loop].
  assert (Hrec : forall pre t, valid_utf8 pre ->
    (y ← unquote_loop f t; Some (pre ++ fst y, snd y)) = Some (x, r) -> valid_utf8 x).
  { intros pre t Hp. destruct (unquote_loop f t) as [[y u]|] eqn:E; [|done].
    intros [= <- <-]. apply valid_app; [done|by eapply IH]. }
  destruct (beq b dquote); [intros [= <- <-]; constructor|].
  destruct (beq b backslash).
  - destruct s as [|c s]; [done|]. destruct (beq c "u"%byte).
    + destruct (unquote_u s) as [[u s1]|] eqn:Eu; [|done]. apply Hrec.
      by eapply unquote_u_valid.
    + destruct (simple_escape c) as [e|] eqn:Ee; [|done].
      apply (Hrec [e]). apply valid_cons_ascii; [by eapply simple_escape_ascii|constructor].
  - destruct (in_range Byte.x00 Byte.x1f b); [done|].
    destruct (rune_len (b :: s)) as [n|] eqn:En; apply Hrec;
      [by apply valid_chunk|apply valid_rune_error].
Qed.

(** Bindings in strictly increasing key order, as a Go map is listed. *)
Definition keys_sorted {A} (m : list (gostring * A)) : Prop :=
  StronglySorted (fun x y => str_lt (fst x) (fst y) = true) m.

(** The values [Unmarshal] can return. *)
Fixpoint wf (v : json) : Prop :=
  match v with
  | JNull | JBool _ => True
  | JNum z => (Z.abs z <= 2 ^ 53)%Z
  | JFloat lit => scan_number lit = Some (JFloat lit, [])
  | JStr s => valid_utf8 s
  | JArr l => fold_right (fun v P => wf v /\ P) True l
  | JObj m => keys_sorted m /\
      fold_right (fun '(k, v) P => (valid_utf8 k /\ wf v) /\ P) True m
  end.

Definition wf_binding (x : gostring * json) : Prop := valid_utf8 (fst x) /\ wf (snd x).

Lemma wf_arr l : wf (JArr l) <-> Forall wf l.
Proof.
  cbn [wf]. induction l as [|v l IH]; cbn [fold_right].
  - split; [constructor|done].
  - by rewrite IH, Forall_cons.
Qed.

Lemma wf_obj m : wf (JObj m) <-> keys_sorted m /\ Forall wf_binding m.
Proof.
  cbn [wf]. f_equiv. induction m as [|[k v] m IH]; cbn [fold_right].
  - split; [constructor|done].
  - by rewrite IH, Forall_cons.
Qed.

(** Induction on values with the hypothesis for every part. *)
Lemma json_parts_ind (P : json -> Prop) :
  (forall v, match v with JArr _ | JObj _ => False | _ => True end -> P v) ->
  (forall l, Forall P l -> P (JArr l)) ->
  (forall m, Forall (fun kv => P (snd kv)) m -> P (JObj m)) -> forall v, P v.
Proof.
  intros Hs Ha Ho. fix IH 1. intros [|b|z|lit|s|l|m]; try by apply Hs.
  - apply Ha. induction l as [|v l IHl]; constructor; [apply IH|exact IHl].
  - apply Ho. induction m as [|[k v] m IHm]; constructor; [apply IH|exact IHm].
Qed.

(** A syntax tree: as [wf], but the members of an object in any order and with
    repeated keys. *)
Fixpoint written (v : json) : Prop :=
  match v with
  | JArr l => fold_right (fun v P => written v /\ P) True l
  | JObj m => fold_right (fun '(k, v) P => (valid_utf8 k /\ written v) /\ P) True m
  | _ => wf v
  end.

Lemma written_arr l : written (JArr l) <-> Forall written l.
Proof.
  cbn [written]. induction l as [|v l IH]; cbn [fold_right].
  - split; [constructor|done].
  - by rewrite IH, Forall_cons.
Qed.

Definition written_binding (x : gostring * json) : Prop := valid_utf8 (fst x) /\ written (snd x).

Lemma written_obj m : written (JObj m) <-> Forall written_binding m.
Proof.
  cbn [written]. induction m as [|[k v] m IH]; cbn [fold_right].
  - split; [constructor|done].
  - by rewrite IH, Forall_cons.
Qed.

Lemma wf_written v : wf v -> written v.
Proof.
  induction v as [v Hv|l IH|m IH] using json_parts_ind.
  - by destruct v.
  - rewrite wf_arr, written_arr. intros Hl.
    induction IH as [|v l Hv IH IHl]; [constructor|]. apply Forall_cons in Hl as [? ?].
    constructor; auto.
  - rewrite wf_obj, written_obj. intros [_ Hm].
    induction IH as [|[k v] m Hv IH IHm]; [constructor|].
    apply Forall_cons in Hm as [[Hk Hw] ?]. constructor; [split; auto|auto].
Qed.

(** ** Writing and reading back *)

(** Text that ends a value: nothing, a separator, or the end of the line. *)
Definition stop (r : gostring) : Prop :=
  r = [] \/ exists b t, r = b :: t /\ (b = ","%byte \/ b = "]"%byte \/ b = "}"%byte \/ b = Byte.x0a).

Lemma stop_num r : stop r -> num_stop r.
Proof. intros [-> | (b & t & -> & [-> | [-> | [-> | ->]]])]; done. Qed.

(** The bytes a value can start with. *)
Definition value_head (b : byte) : bool :=
  is_digit b || existsb (beq b) ["-"%byte; dquote; "["%byte; "{"%byte; "n"%byte; "t"%byte; "f"%byte].

Lemma value_head_plain b :
  value_head b = true -> is_space b = false /\ b <> "]"%byte /\ b <> "}"%byte /\ b <> ","%byte.
Proof. by destruct b; intros [=]. Qed.

Lemma number_head s v r :
  scan_number s = Some (v, r) ->
  exists b t, s = b :: t /\ (is_digit b || beq b "-"%byte) = true.
Proof.
  unfold scan_number. destruct (HasPrefix s "-") eqn:Hm.
  - apply HasPrefix_spec in Hm as [t ->]. intros _. by exists "-"%byte, t.
  - destruct (scan_int s) as [[i s1]|] eqn:E; [|done]. intros _.
    destruct s as [|b s]; [done|]. exists b, s. split; [done|]. cbn [scan_int] in E.
    destruct (beq b "0"%byte) eqn:E0; [apply beq_eq in E0 as ->; done|].
    by destruct (is_digit b).
Qed.

(** A number is read as such. *)
Lemma parse_number f s v r :
  scan_number s = Some (v, r) -> parse_value (S f) s = Some (v, r).
Proof.
  intros H. destruct (number_head _ _ _ H) as (b & t & -> & Hb).
  cbn [parse_value skip_ws].
  destruct b; try discriminate Hb; cbn; exact H.
Qed.

Lemma written_number_scan v r :
  written v -> stop r ->
  match v with
  | JNum _ | JFloat _ => scan_number (Marshal v ++ r) = Some (v, r)
  | _ => True
  end.
Proof.
  intros Hv Hr%stop_num. destruct v; try done; cbn [written wf Marshal] in *.
  - pose proof (scan_number_Itoa z Hv) as H.
    destruct (scan_number_spec _ _ _ H) as (l & -> & Hl & _).
    rewrite app_nil_r. by apply Hl.
  - destruct (scan_number_spec _ _ _ Hv) as (l & El & Hl & _).
    rewrite app_nil_r in El. subst lit. by apply Hl.
Qed.

Lemma Marshal_head v :
  written v -> exists b t, Marshal v = b :: t /\ value_head b = true.
Proof.
  destruct v as [|[]|z|lit|s|l|m]; cbn [written wf Marshal]; intros Hv; try (by eexists _, _).
  all: match goal with
       | H : (Z.abs _ <= _)%Z |- _ => apply scan_number_Itoa, number_head in H
       | H : scan_number _ = _ |- _ => apply number_head in H
       end.
  all: destruct Hv as (b & t & -> & Hb); exists b, t; split; [done|].
  all: revert Hb; by destruct b.
Qed.

Lemma skip_ws_head b t : is_space b = false -> skip_ws (b :: t) = b :: t.
Proof. intros H. cbn [skip_ws]. by rewrite H. Qed.

Lemma skip_ws_Marshal v r : written v -> skip_ws (Marshal v ++ r) = Marshal v ++ r.
Proof.
  intros Hv. destruct (Marshal_head v Hv) as (b & t & -> & [Hb _]%value_head_plain).
  by apply skip_ws_head.
Qed.

(** A key after all the others goes last. *)
Lemma jinsert_last {A} k (v : A) m :
  Forall (fun x => str_lt (fst x) k = true) m -> jinsert k v m = m ++ [(k, v)].
Proof.
  induction 1 as [|[k' v'] m Hk Hm IH]; [done|]. cbn [jinsert fst] in *.
  rewrite (proj2 (str_lt_seqb _ _ Hk)), (str_lt_asym _ _ Hk). by rewrite IH.
Qed.

Lemma keys_sorted_app {A} (m m' : list (gostring * A)) :
  keys_sorted (m ++ m') ->
  keys_sorted m /\ keys_sorted m' /\
  forall x y, x ∈ m -> y ∈ m' -> str_lt (fst x) (fst y) = true.
Proof.
  unfold keys_sorted. induction m as [|x m IH]; cbn [app].
  - intros H. split; [constructor|]. split; [done|]. by intros ?? ?%elem_of_nil.
  - intros [H Hx]%StronglySorted_inv. destruct (IH H) as (H1 & H2 & H3).
    apply Forall_app in Hx as [Hx1 Hx2]. split; [by constructor|]. split; [done|].
    intros x' y [->|Hx']%elem_of_cons Hy; [|by apply H3].
    rewrite Forall_forall in Hx2. by apply Hx2.
Qed.

Lemma jinsert_snoc {A} k (v : A) m m' :
  keys_sorted (m ++ (k, v) :: m') -> jinsert k v m = m ++ [(k, v)].
Proof.
  intros (_ & _ & H)%keys_sorted_app. apply jinsert_last.
  apply Forall_forall. intros x Hx. apply (H x (k, v)); [done|]. by left.
Qed.

Definition binding_text (x : gostring * json) : gostring :=
  quote (fst x) ++ ":" ++ Marshal (snd x).

Lemma Marshal_JObj m : Marshal (JObj m) = "{" ++ join "," (map binding_text m) ++ "}".
Proof. cbn [Marshal]. do 3 f_equal. apply map_ext. by intros [k v]. Qed.

Lemma join_cons (sep x : gostring) l :
  join sep (x :: l) = x ++ match l with [] => [] | _ => sep ++ join sep l end.
Proof. destruct l; [|done]. cbn. by rewrite app_nil_r. Qed.

Section round_trip.
Variable f : nat.
Hypothesis IHv : forall v r, written v -> stop r -> length (Marshal v) < f ->
  parse_value f (Marshal v ++ r) = Some (v, r).
Hypothesis IHe : forall l r, Forall written l -> l <> [] ->
  length (join "," (map Marshal l)) + 1 < f ->
  parse_elems f (join "," (map Marshal l) ++ "]"%byte :: r) = Some (l, r).
Hypothesis IHm : forall m r, Forall written_binding m -> m <> [] ->
  length (join "," (map binding_text m)) + 1 < f ->
  parse_members f (join "," (map binding_text m) ++ "}"%byte :: r) = Some (m, r).

Lemma elems_step l r : Forall written l -> l <> [] ->
  length (join "," (map Marshal l)) + 1 < S f ->
  parse_elems (S f) (join "," (map Marshal l) ++ "]"%byte :: r) = Some (l, r).
Proof using IHv IHe.
  intros Hl Hne Hlen. destruct l as [|v l]; [done|].
  apply Forall_cons in Hl as [Hv Hl]. cbn [map] in Hlen |- *. rewrite join_cons in Hlen |- *.
  rewrite length_app in Hlen. rewrite <- app_assoc. cbn [parse_elems].
  destruct l as [|v' l].
  - cbn [map app]. rewrite IHv; [|done| |lia].
    + done.
    + right. eexists _, _. eauto.
  - set (k := join "," (map Marshal (v' :: l))) in *.
    change (match map Marshal (v' :: l) with [] => [] | _ => "," ++ k end)
      with (","%byte :: k) in *.
    cbn [app]. rewrite IHv; [|done| |lia].
    + cbn [mbind option_bind fst snd length] in *. rewrite skip_ws_head by done.
      pose proof (IHe (v' :: l) r Hl ltac:(done)) as He. fold k in He.
      rewrite beq_refl, He by lia. done.
    + right. eexists _, _. eauto.
Qed.

Lemma members_step m r : Forall written_binding m -> m <> [] ->
  length (join "," (map binding_text m)) + 1 < S f ->
  parse_members (S f) (join "," (map binding_text m) ++ "}"%byte :: r) = Some (m, r).
Proof using IHv IHm.
  intros Hm Hne Hlen. destruct m as [|[k v] m]; [done|].
  apply Forall_cons in Hm as [[Hk Hv] Hm]. cbn [fst snd] in Hk, Hv.
  cbn [map] in Hlen |- *. rewrite join_cons in Hlen |- *.
  unfold binding_text at 1 in Hlen. unfold binding_text at 1. cbn [fst snd] in Hlen |- *.
  unfold quote in Hlen |- *. rewrite !length_app in Hlen. cbn [length] in Hlen.
  rewrite <- !app_assoc. cbn [app]. cbn [parse_members skip_ws]. rewrite <- !app_assoc.
  cbn [app]. change (is_space dquote) with false. cbn match. rewrite beq_refl.
  rewrite unquote_quote by done. cbn [mbind option_bind fst snd].
  rewrite skip_ws_head by done. rewrite beq_refl.
  destruct m as [|[k' v'] m].
  - cbn [map app]. rewrite IHv; [| done | |lia].
    + cbn [mbind option_bind fst snd]. rewrite skip_ws_head by done.
      done.
    + right. eexists _, _. eauto.
  - set (t := join "," (map binding_text ((k', v') :: m))) in *.
    change (match map binding_text ((k', v') :: m) with [] => [] | _ => "," ++ t end)
      with (","%byte :: t) in *.
    cbn [map app]. rewrite IHv; [|done| |lia].
    + cbn [mbind option_bind fst snd length] in *. rewrite skip_ws_head by done.
      pose proof (IHm ((k', v') :: m) r Hm ltac:(done)) as He. fold t in He.
      rewrite beq_refl, He by lia. done.
    + right. eexists _, _. eauto.
Qed.

Lemma value_step v r : written v -> stop r -> length (Marshal v) < S f ->
  parse_value (S f) (Marshal v ++ r) = Some (v, r).
Proof using IHv IHe IHm.
  intros Hv Hr Hlen.
  pose proof (written_number_scan v r Hv Hr) as Hnum.
  destruct v as [|[]|z|lit|s|l|m]; try (by destruct r); try (by apply parse_number).
  - cbn [Marshal written wf] in *. unfold quote. cbn [app parse_value skip_ws].
    change (is_space dquote) with false. cbn match. rewrite beq_refl, <- app_assoc.
    cbn [app]. by rewrite unquote_quote.
  - rewrite written_arr in Hv. destruct l as [|v l]; [done|]. cbn [Marshal] in *.
    rewrite !length_app in Hlen. cbn [length] in Hlen.
    rewrite <- !app_assoc. cbn [app].
    assert (Hh : exists b t, join "," (map Marshal (v :: l)) = b :: t /\ value_head b = true).
    { apply Forall_cons in Hv as [Hv _]. destruct (Marshal_head v Hv) as (b & t & E & Hb).
      cbn [map]. rewrite join_cons, E. by eexists _, _. }
    destruct Hh as (b & t & E & (Hb1 & Hb2 & _)%value_head_plain).
    cbn [parse_value]. rewrite skip_ws_head by done. cbn match.
    change (beq "["%byte dquote) with false. change (beq "["%byte "["%byte) with true. cbn match.
    pose proof (IHe (v :: l) r Hv ltac:(done) ltac:(lia)) as He.
    rewrite E in He |- *. cbn [app] in He |- *. rewrite skip_ws_head by done.
    destruct (beq b "]"%byte) eqn:Eb; [by apply beq_eq in Eb|]. by rewrite He.
  - rewrite written_obj in Hv. rename Hv into Hm. destruct m as [|[k v] m]; [done|].
    rewrite Marshal_JObj in Hlen |- *. rewrite !length_app in Hlen. cbn [length] in Hlen.
    rewrite <- !app_assoc. cbn [app].
    pose proof (IHm ((k, v) :: m) r Hm ltac:(done) ltac:(lia)) as He.
    cbn [parse_value]. rewrite skip_ws_head by done. cbn match.
    change (beq "{"%byte dquote) with false. change (beq "{"%byte "["%byte) with false.
    change (beq "{"%byte "{"%byte) with true. cbn match.
    assert (exists t, join "," (map binding_text ((k, v) :: m)) = dquote :: t) as [t E].
    { cbn [map]. rewrite join_cons. unfold binding_text at 1, quote. cbn. by eexists. }
    rewrite E in He |- *. cbn [app] in He |- *. rewrite skip_ws_head by done.
    change (beq dquote "}"%byte) with false. cbn match. by rewrite He.
Qed.
End round_trip.

Lemma parse_Marshal f :
  (forall v r, written v -> stop r -> length (Marshal v) < f ->
    parse_value f (Marshal v ++ r) = Some (v, r)) /\
  (forall l r, Forall written l -> l <> [] ->
    length (join "," (map Marshal l)) + 1 < f ->
    parse_elems f (join "," (map Marshal l) ++ "]"%byte :: r) = Some (l, r)) /\
  (forall m r, Forall written_binding m -> m <> [] ->
    length (join "," (map binding_text m)) + 1 < f ->
    parse_members f (join "," (map binding_text m) ++ "}"%byte :: r) = Some (m, r)).
Proof.
  induction f as [|f (IHv & IHe & IHm)]; [by repeat split; intros; lia|].
  split; [|split].
  - by apply value_step.
  - by apply elems_step.
  - by apply members_step.
Qed.

(** *** Values as written, and as maps *)

Lemma foldl_jinsert_sorted {A} (m acc : list (gostring * A)) :
  keys_sorted (acc ++ m) -> foldl (fun acc kv => jinsert (fst kv) (snd kv) acc) acc m = acc ++ m.
Proof.
  revert acc. induction m as [|[k v] m IH]; intros acc H; [by rewrite app_nil_r|].
  cbn [foldl fst snd]. rewrite (jinsert_snoc _ _ _ _ H), IH; by rewrite <- app_assoc.
Qed.

Lemma normalize_wf v : wf v -> normalize v = v.
Proof.
  induction v as [v Hv|l IH|m IH] using json_parts_ind.
  - by destruct v.
  - rewrite wf_arr. intros Hl. cbn [normalize]. f_equal.
    induction IH as [|v l Hv IH IHl]; [done|]. apply Forall_cons in Hl as [? ?].
    cbn [map]. by rewrite Hv, IHl.
  - rewrite wf_obj. intros [Hs Hm]. cbn [normalize]. f_equal.
    assert (map (fun '(k, v) => (k, normalize v)) m = m) as ->.
    { clear Hs. induction IH as [|[k v] m Hv IH IHm]; [done|]. apply Forall_cons in Hm as [[_ Hw] ?].
      cbn [map snd] in *. by rewrite Hv, IHm. }
    by apply foldl_jinsert_sorted.
Qed.

(** Reading what was written gives the value. *)
Lemma Parse_Marshal v : written v -> Parse (Marshal v) = Some v.
Proof.
  intros Hv. unfold Parse.
  destruct (parse_Marshal (S (length (Marshal v)))) as [H _].
  specialize (H v [] Hv ltac:(by left) ltac:(lia)). rewrite app_nil_r in H. by rewrite H.
Qed.

Lemma Unmarshal_Marshal v : wf v -> Unmarshal (Marshal v) = Some v.
Proof.
  intros Hv. unfold Unmarshal. rewrite Parse_Marshal by (by apply wf_written).
  cbn. by rewrite normalize_wf.
Qed.

Lemma Marshal_inj v w : wf v -> wf w -> Marshal v = Marshal w -> v = w.
Proof.
  intros Hv Hw E. pose proof (Unmarshal_Marshal v Hv) as H.
  rewrite E, Unmarshal_Marshal in H by done. by injection H.
Qed.

(** ** What is read can be written *)

Lemma jinsert_elem {A} k (v : A) m x : x ∈ jinsert k v m -> x = (k, v) \/ x ∈ m.
Proof.
  induction m as [|[k' v'] m IH]; cbn [jinsert].
  - rewrite list_elem_of_singleton. auto.
  - destruct (seqb k k'); [|destruct (str_lt k k')]; rewrite !elem_of_cons; tauto.
Qed.

Lemma jinsert_sorted {A} k (v : A) m : keys_sorted m -> keys_sorted (jinsert k v m).
Proof.
  unfold keys_sorted. induction 1 as [|[k' v'] m Hm IH Hk]; cbn [jinsert].
  - repeat constructor.
  - destruct (seqb k k') eqn:E1; [|destruct (str_lt k k') eqn:E2].
    + apply seqb_eq in E1 as ->. by constructor.
    + constructor; [by constructor|]. apply Forall_cons. split; [done|].
      eapply Forall_impl; [exact Hk|]. intros x Hx. cbn [fst] in *. by eapply str_lt_trans.
    + constructor; [done|]. apply Forall_forall. intros x [-> | Hx]%jinsert_elem.
      * cbn [fst]. apply seqb_neq in E1.
        destruct (str_lt_total k k') as [H1 | [H1 | H1]]; [congruence|done|done].
      * rewrite Forall_forall in Hk. by apply Hk.
Qed.

Lemma jlookup_jinsert {A} k k' (v : A) m :
  jlookup k (jinsert k' v m) = if seqb k k' then Some v else jlookup k m.
Proof.
  induction m as [|[k2 v2] m IH]; cbn [jinsert jlookup]; [done|].
  destruct (seqb k' k2) eqn:E1; [|destruct (str_lt k' k2)]; cbn [jlookup].
  - apply seqb_eq in E1 as <-. by destruct (seqb k k').
  - done.
  - rewrite IH. destruct (seqb k k2) eqn:E2; [|done].
    apply seqb_eq in E2 as ->. destruct (seqb k2 k') eqn:E3; [|done].
    apply seqb_eq in E3 as ->. by rewrite seqb_refl in E1.
Qed.

Lemma scan_number_wf s v r : scan_number s = Some (v, r) -> wf v.
Proof.
  intros H. destruct (scan_number_spec _ _ _ H) as (lit & -> & Hl & [-> | (z & -> & Hz)]).
  - cbn [wf]. rewrite <- (app_nil_r lit) at 1. by apply Hl.
  - done.
Qed.

Ltac parse_cases :=
  repeat first
    [ progress (cbn [mbind option_bind fst snd])
    | match goal with
      | |- (match ?x with _ => _ end = _) -> _ => destruct x eqn:?; try done
      | |- (match ?x with _ => _ end ≫= _ = _) -> _ => destruct x eqn:?; try done
      | |- (?x ≫= _ = Some _) -> _ => destruct x as [[? ?]|] eqn:?; [|done]
      end ].

Lemma scan_number_written s v r : scan_number s = Some (v, r) -> written v.
Proof.
  intros H. pose proof (scan_number_wf _ _ _ H) as Hw.
  destruct (scan_number_spec _ _ _ H) as (lit & _ & _ & [-> | (z & -> & _)]); exact Hw.
Qed.

Lemma parse_written f :
  (forall s v r, parse_value f s = Some (v, r) -> written v) /\
  (forall s l r, parse_elems f s = Some (l, r) -> Forall written l) /\
  (forall s m r, parse_members f s = Some (m, r) -> Forall written_binding m).
Proof.
  induction f as [|f (IHv & IHe & IHm)]; [done|]. split; [|split].
  - intros s v r. cbn [parse_value]. parse_cases; intros H; simplify_eq; try done.
    + by eapply unquote_loop_valid.
    + apply written_arr. by eapply IHe.
    + apply written_obj. by eapply IHm.
    + by eapply scan_number_written.
  - intros s l r. cbn [parse_elems]. parse_cases; intros H; simplify_eq; eauto.
  - intros s m r. cbn [parse_members]. parse_cases; intros H; simplify_eq.
    all: constructor; [split; [by eapply unquote_loop_valid|by eapply IHv]|]; eauto.
Qed.

Lemma foldl_jinsert_keeps (P : gostring * json -> Prop) m acc :
  keys_sorted acc -> Forall P acc -> Forall P m ->
  let m' := foldl (fun acc kv => jinsert (fst kv) (snd kv) acc) acc m in
  keys_sorted m' /\ Forall P m'.
Proof.
  revert acc. induction m as [|[k v] m IH]; intros acc Hs Ha Hm; [done|].
  apply Forall_cons in Hm as [Hk Hm]. cbn [foldl fst snd]. apply IH; [by apply jinsert_sorted| |done].
  apply Forall_forall. intros x [-> | Hx]%jinsert_elem; [done|].
  rewrite Forall_forall in Ha. by apply Ha.
Qed.

Lemma normalize_written v : written v -> wf (normalize v).
Proof.
  induction v as [v Hv|l IH|m IH] using json_parts_ind.
  - by destruct v.
  - rewrite written_arr. intros Hl. cbn [normalize]. apply wf_arr.
    induction IH as [|v l Hv IH IHl]; [constructor|]. apply Forall_cons in Hl as [? ?].
    cbn [map]. constructor; auto.
  - rewrite written_obj. intros Hm. cbn [normalize]. apply wf_obj.
    apply foldl_jinsert_keeps; [constructor|constructor|].
    induction IH as [|[k v] m Hv IH IHm]; [constructor|].
    apply Forall_cons in Hm as [[Hk Hw] ?]. cbn [map fst snd] in *.
    constructor; [split; auto|auto].
Qed.

Lemma Parse_written s v : Parse s = Some v -> written v.
Proof.
  unfold Parse. destruct (parse_value _ s) as [[w r]|] eqn:E; [|done].
  cbn [mbind option_bind fst snd]. destruct (skip_ws r); [|done]. intros [= <-].
  by eapply (proj1 (parse_written _)).
Qed.

Lemma Unmarshal_wf s v : Unmarshal s = Some v -> wf v.
Proof.
  unfold Unmarshal. destruct (Parse s) as [w|] eqn:E; [|done]. intros [= <-].
  by apply normalize_written, Parse_written with s.
Qed.

(** ** Documents without repeated keys *)

Fixpoint unique_keys (v : json) : Prop :=
  match v with
  | JArr l => fold_right (fun v P => unique_keys v /\ P) True l
  | JObj m => NoDup (m.*1) /\ fold_right (fun '(_, v) P => unique_keys v /\ P) True m
  | _ => True
  end.

Lemma keys_sorted_NoDup {A} (m : list (gostring * A)) : keys_sorted m -> NoDup (m.*1).
Proof.
  induction 1 as [|[k v] m Hm IH Hk]; [constructor|]. rewrite fmap_cons. constructor; [|done].
  intros (x & E & Hx)%list_elem_of_fmap. rewrite Forall_forall in Hk. apply Hk in Hx.
  cbn [fst] in *. rewrite <- E, str_lt_irrefl in Hx. done.
Qed.

Lemma wf_unique_keys v : wf v -> unique_keys v.
Proof.
  induction v as [v Hv|l IH|m IH] using json_parts_ind.
  - by destruct v.
  - rewrite wf_arr. intros Hl. cbn [unique_keys].
    induction IH as [|v l Hv IH IHl]; [done|]. apply Forall_cons in Hl as [? ?].
    cbn [fold_right]. auto.
  - rewrite wf_obj. intros [Hs Hm]. cbn [unique_keys]. split; [by apply keys_sorted_NoDup|].
    clear Hs. induction IH as [|[k v] m Hv IH IHm]; [done|]. apply Forall_cons in Hm as [[Hk Hw] ?].
    cbn [fold_right]. auto.
Qed.

Lemma jinsert_perm {A} k (v : A) m : k ∉ m.*1 -> jinsert k v m ≡ₚ (k, v) :: m.
Proof.
  induction m as [|[k' v'] m IH]; cbn [jinsert]; [done|].
  rewrite fmap_cons, not_elem_of_cons. cbn [fst]. intros [Hk Hm].
  destruct (seqb k k') eqn:E; [by apply seqb_eq in E|]. destruct (str_lt k k'); [done|].
  rewrite IH by done. apply Permutation_swap.
Qed.

Lemma foldl_jinsert_perm {A} (m acc : list (gostring * A)) :
  NoDup ((acc ++ m).*1) ->
  foldl (fun acc kv => jinsert (fst kv) (snd kv) acc) acc m ≡ₚ acc ++ m.
Proof.
  revert acc. induction m as [|[k v] m IH]; intros acc H; [by rewrite app_nil_r|].
  assert (Hp : jinsert k v acc ≡ₚ acc ++ [(k, v)]).
  { rewrite jinsert_perm; [apply Permutation_cons_append|].
    rewrite fmap_app, fmap_cons in H. apply NoDup_app in H as (_ & H & _).
    intros Hk. apply (H k Hk). left. }
  cbn [foldl fst snd]. rewrite IH, Hp, <- app_assoc; [done|].
  rewrite fmap_app, Hp, <- fmap_app, <- app_assoc. done.
Qed.

(** A document without repeated keys has the members of its map, in some order. *)
Lemma normalize_obj_perm m m' :
  NoDup (m.*1) -> normalize (JObj m) = JObj m' ->
  (fun '(k, v) => (k, normalize v)) <$> m ≡ₚ m'.
Proof.
  intros Hm [= <-]. rewrite foldl_jinsert_perm; [done|]. cbn [app].
  assert (E : forall l : list (gostring * json), (map (fun '(k, v) => (k, normalize v)) l).*1 = l.*1).
  { induction l as [|[k v] l IH]; [done|]. cbn [map]. rewrite !fmap_cons. by rewrite IH. }
  by rewrite E.
Qed.
