(* ===== verification/Corpus.v ===== *)
(** * The generators of the test corpora (internal/detect/corpus_gen.go, realistic_gen.go)

    Lines of log with values that the detectors must find, and values that look like
    them and must be left alone, drawn from a pseudo-random source with a fixed seed.
    The source is the one of the Go package [math/rand/v2]: PCG with a state of 128
    bits and the DXSM output function. *)

From S2P Require Import Prelude GoStd Json Detect Checksum.

Module Corpus.

Definition KindNone : Kind := "".

(** A corpusSpan has the fields of a [Span]. *)
Record corpusLine := MkLine { Text : gostring; Spans : list Span }.

(** What ends a generator early: the rejection loops have no bound in the code, here
    they have [fuel]; an index that is out of range or a panic of its own. *)
Inductive gen_error := OutOfFuel | Panic | NearMissShortfall | PositiveShortfall (k : Kind).

(** ** The source *)

#[local] Open Scope Z_scope.

(** Two words make a number of 128 bits. *)
Definition wide (hi lo : Z) : Z := hi * 2 ^ 64 + lo.

Definition pcg_mul : Z := wide 2549297995355413924 4865540595714422341.
Definition pcg_inc : Z := wide 6364136223846793005 1442695040888963407.
Definition cheapMul : Z := 15750249268501108917.

Definition NewPCG (seed1 seed2 : Z) : Z := wide seed1 seed2.

Definition pcg_next (s : Z) : Z := (s * pcg_mul + pcg_inc) mod 2 ^ 128.

Definition dxsm (hi lo : Z) : Z :=
  let hi := Z.lxor hi (Z.shiftr hi 32) in
  let hi := (hi * cheapMul) mod 2 ^ 64 in
  let hi := Z.lxor hi (Z.shiftr hi 48) in
  (hi * Z.lor lo 1) mod 2 ^ 64.

Abbreviation gen := (io Z gen_error).

Definition Uint64 : gen Z := fun s =>
  let s := pcg_next s in (s, Ok (dxsm (Z.shiftr s 64) (s mod 2 ^ 64))).

Definition of_option {A} (o : option A) : gen A := match o with Some a => ret a | None => throw Panic end.

(** [for i := 0; i < n; i++] *)
Fixpoint times {A} (n : nat) (m : gen A) : gen (list A) :=
  match n with O => ret [] | S n => x <- m ;; xs <- times n m ;; ret (x :: xs) end.

Section generators.
Context (fuel : nat).

(** The high word of a product; low words under the threshold are drawn again. *)
Fixpoint bounded (fuel : nat) (n : Z) (x : Z) : gen Z :=
  if (x * n) mod 2 ^ 64 <? (2 ^ 64 - n) mod n then
    match fuel with
    | O => throw OutOfFuel
    | S fuel => y <- Uint64 ;; bounded fuel n y
    end
  else ret ((x * n) / 2 ^ 64).

Definition IntN (n : Z) : gen Z :=
  if n <=? 0 then throw Panic
  else
    x <- Uint64 ;;
    if Z.land n (n - 1) =? 0 then ret (Z.land x (n - 1)) else bounded fuel n x.

Definition pick (set : gostring) : gen byte :=
  i <- IntN (glen set) ;; of_option (set !! Z.to_nat i).

Definition digits : gostring := "0123456789".
Definition letters : gostring := "ABCDEFGHIJKLMNOPQRSTUVWXYZ".

(** ** Values *)

(** Another check digit than the right one. *)
Fixpoint other_digit (fuel : nat) (check : byte) : gen byte :=
  match fuel with
  | O => throw OutOfFuel
  | S fuel => alt <- pick digits ;; if beq alt check then other_digit fuel check else ret alt
  end.

Definition aadhaarDigits (valid : bool) : gen gostring :=
  first <- pick "23456789" ;;
  rest <- times 10 (pick digits) ;;
  let buf := first :: rest in
  check <- of_option (verhoeffCheck buf) ;;
  check <- (if valid then ret check else other_digit fuel check) ;;
  ret (buf ++ [check]).

(** [s[i:j]] of a text that is long enough. *)
Definition cut (s : gostring) (i j : nat) : gostring := take (j - i) (drop i s).

Definition formatAadhaar (d : gostring) (form : nat) : gostring :=
  match form with
  | 1%nat => cut d 0 4 ++ " " ++ cut d 4 8 ++ " " ++ cut d 8 12
  | 2%nat => cut d 0 4 ++ "-" ++ cut d 4 8 ++ "-" ++ cut d 8 12
  | _ => d
  end.

Definition panDigits (valid : bool) : gen gostring :=
  abc <- times 3 (pick letters) ;;
  d <- pick (if valid then "ABCFGHLJPT" else "DEIKMOQRSUVWXYZ") ;;
  e <- pick letters ;;
  n <- times 4 (pick digits) ;;
  z <- pick letters ;;
  ret (abc ++ [d; e] ++ n ++ [z]).

Definition phoneIN (valid : bool) (form : nat) : gen gostring :=
  a <- pick (if valid then "6789" else "12345") ;;
  r <- times 9 (pick digits) ;;
  let d := a :: r in
  ret (if valid then
         match form with
         | 1%nat => "+91 " ++ cut d 0 5 ++ " " ++ cut d 5 10
         | 2%nat => "0" ++ d
         | 3%nat => cut d 0 5 ++ "-" ++ cut d 5 10
         | _ => d
         end
       else d).

Definition ssnNum : gen gostring :=
  a <- times 3 (pick digits) ;;
  b <- times 2 (pick digits) ;;
  c <- times 4 (pick digits) ;;
  ret (a ++ "-" ++ b ++ "-" ++ c).

Definition emailAt (n : nat) : gostring := "user" ++ Itoa (Z.of_nat n) ++ "@example.com".

Definition phoneUS (form : nat) : gen gostring :=
  a <- pick "2345" ;;
  area <- times 2 (pick digits) ;;
  mid <- times 3 (pick digits) ;;
  last <- times 4 (pick digits) ;;
  let area := a :: area in
  ret match form with
      | 1%nat => area ++ "-" ++ mid ++ "-" ++ last
      | 2%nat => "+1 " ++ area ++ " " ++ mid ++ " " ++ last
      | 3%nat => area ++ " " ++ mid ++ " " ++ last
      | _ => "(" ++ area ++ ") " ++ mid ++ "-" ++ last
      end.

(** ** The synthetic corpus *)

Definition wrap (value : gostring) (kind : Kind) : corpusLine :=
  MkLine ("note " ++ value ++ " end")
    (if seqb kind [] then [] else [MkSpan kind 5 (5 + glen value)]).

(** The nine lines of a turn of the loop. *)
Definition corpus_round (i : nat) : gen (list corpusLine) :=
  a <- aadhaarDigits true ;;
  a' <- aadhaarDigits false ;;
  p <- panDigits true ;;
  p' <- panDigits false ;;
  m <- phoneIN true (i mod 4) ;;
  m' <- phoneIN false 0 ;;
  u <- phoneUS (i mod 3) ;;
  s <- ssnNum ;;
  ret [wrap (formatAadhaar a (i mod 3)) KindAadhaar; wrap (formatAadhaar a' (i mod 3)) KindNone;
       wrap p KindPAN; wrap p' KindNone; wrap m KindPhoneIN; wrap m' KindNone;
       wrap (emailAt i) KindEmail; wrap u KindPhoneUS; wrap s KindSSN].

(** The turns from [i]. *)
Fixpoint corpus_rounds (n i : nat) : gen (list corpusLine) :=
  match n with
  | O => ret []
  | S n => ls <- corpus_round i ;; more <- corpus_rounds n (S i) ;; ret (ls ++ more)
  end.

Definition span_json (sp : Span) : json :=
  JObj [("kind", JStr (sp_kind sp)); ("start", JNum (sp_start sp)); ("end", JNum (sp_end sp))]%go.

(** [enc.Encode] *)
Definition encode_line (l : corpusLine) : gostring :=
  Marshal (JObj [("text", JStr (Text l)); ("spans", JArr (span_json <$> Spans l))]%go) ++ [Byte.x0a].

Definition encode (ls : list corpusLine) : gostring := concat (encode_line <$> ls).

Definition GenerateCorpus (seed : Z) : result gen_error gostring :=
  match (corpus_rounds 200 0 (NewPCG seed seed)).2 with Ok ls => Ok (encode ls) | Err e => Err e end.

(** ** The realistic corpus *)

Definition realisticPosPerKind : nat := 120.
Definition realisticNearMiss : nat := 320.

Definition kinds : list Kind := [KindEmail; KindPhoneUS; KindPhoneIN; KindSSN; KindAadhaar; KindPAN].

Definition selfLabelFromScan (text : gostring) (got : list Span) : corpusLine := MkLine text got.

Definition hasKind (spans : list Span) (kind : Kind) : bool := existsb (fun sp => seqb (sp_kind sp) kind) spans.

Definition realisticValue (kind : Kind) (n : nat) : gen gostring :=
  if seqb kind KindEmail then
    ret (if (n mod 5 =? 4)%nat then "user" ++ Itoa (Z.of_nat n) ++ "%40example.test" else "user" ++ Itoa (Z.of_nat n) ++ "@example.test")
  else if seqb kind KindPhoneUS then phoneUS (n mod 4)
  else if seqb kind KindPhoneIN then phoneIN true (n mod 4)
  else if seqb kind KindSSN then ssnNum
  else if seqb kind KindAadhaar then d <- aadhaarDigits true ;; ret (formatAadhaar d (n mod 3))
  else if seqb kind KindPAN then panDigits true
  else ret "x"%go.

Definition quote : gostring := [Byte.x22].

(** A line of log around a value. *)
Definition realisticShape (value : gostring) (n : nat) : gen gostring :=
  match (n mod 6)%nat with
  | 0%nat =>
      k <- IntN 90000 ;;
      ret ("{" ++ quote ++ "ts" ++ quote ++ ":" ++ Itoa (1700000000 + k) ++ "," ++ quote ++ "level" ++ quote ++ ":" ++
           quote ++ "info" ++ quote ++ "," ++ quote ++ "field" ++ quote ++ ":" ++ quote ++ value ++ quote ++ "," ++
           quote ++ "ok" ++ quote ++ ":true}")
  | 1%nat => ret ("GET /v1/lookup?q=" ++ value ++ "&page=1 HTTP/1.1")
  | 2%nat =>
      k <- IntN 200 ;;
      ret ("10.0.0." ++ Itoa (1 + k) ++ " - - [23/Sep/2026:08:00:00 +0000] " ++ quote ++ "GET /x HTTP/1.1" ++ quote ++
           " 200 512 " ++ quote ++ "-" ++ quote ++ " " ++ quote ++ value ++ quote)
  | 3%nat =>
      k <- IntN 80 ;;
      ret ("java.lang.IllegalStateException: bad input at com.ex.App.run(App.java:" ++ Itoa (10 + k) ++ ") detail=" ++ value)
  | 4%nat => k <- IntN 1000000 ;; ret ("req_id=" ++ Itoa k ++ " status=ok value=" ++ value ++ " region=us")
  | _ =>
      b <- IntN 2 ;;
      k <- IntN 100000 ;;
      ret (if b =? 0 then "id," ++ Itoa k ++ "," ++ value ++ ",active" else "id|" ++ Itoa k ++ "|" ++ value ++ "|active")
  end.

Definition realisticNearMissLine (n : nat) : gen gostring :=
  value <- match (n mod 8)%nat with
           | 0%nat => k <- IntN 899999999 ;; ret ("ORD-" ++ Itoa (1000000000 + k))
           | 1%nat => k <- IntN 200000000 ;; ret (Itoa (1600000000 + k))
           | 2%nat => d <- aadhaarDigits false ;; ret (formatAadhaar d (n mod 3))
           | 3%nat => panDigits false
           | 4%nat => phoneIN false 0
           | 5%nat => k <- IntN 90000 ;; ret ("build-" ++ Itoa (10000 + k))
           | 6%nat =>
               a <- IntN 9 ;; b <- IntN 20 ;; c <- IntN 100 ;;
               ret ("v" ++ Itoa (1 + a) ++ "." ++ Itoa b ++ "." ++ Itoa c)
           | _ => p <- panDigits false ;; ret ("SKU-" ++ p)
           end ;;
  realisticShape value n.

(** The loop for a kind, with the attempts that are left. *)
Fixpoint positives (tries attempt kept : nat) (kind : Kind) : gen (list corpusLine) :=
  match tries with
  | O => ret []
  | S tries =>
      if (kept <? realisticPosPerKind)%nat then
        value <- realisticValue kind attempt ;;
        text <- realisticShape value attempt ;;
        let got := Scan text kinds in
        if hasKind got kind
        then ls <- positives tries (S attempt) (S kept) kind ;; ret (selfLabelFromScan text got :: ls)
        else positives tries (S attempt) kept kind
      else ret []
  end.

Fixpoint near_misses (tries attempt kept : nat) : gen (list corpusLine) :=
  match tries with
  | O => ret []
  | S tries =>
      if (kept <? realisticNearMiss)%nat then
        text <- realisticNearMissLine attempt ;;
        match Scan text kinds with
        | [] => ls <- near_misses tries (S attempt) (S kept) ;; ret (MkLine text [] :: ls)
        | _ => near_misses tries (S attempt) kept
        end
      else ret []
  end.

Fixpoint all_positives (ks : list Kind) : gen (list corpusLine) :=
  match ks with
  | [] => ret []
  | k :: ks => ls <- positives (realisticPosPerKind * 40) 0 0 k ;; more <- all_positives ks ;; ret (ls ++ more)
  end.

(** The lines that have a kind. *)
Definition count_kind (kind : Kind) (lines : list corpusLine) : nat :=
  length (filter (fun l => hasKind (Spans l) kind = true) lines).

Definition realistic_lines (seed : Z) : result gen_error (list corpusLine) :=
  (bind (all_positives kinds) (fun pos =>
   bind (near_misses (realisticNearMiss * 40) 0 0) (fun near =>
   if (length near <? realisticNearMiss)%nat then throw NearMissShortfall
   else
     let lines := pos ++ near in
     match find (fun k => (count_kind k lines <? realisticPosPerKind)%nat) kinds with
     | Some k => throw (PositiveShortfall k)
     | None => ret lines
     end)) (NewPCG seed seed)).2.

Definition GenerateRealistic (seed : Z) : result gen_error gostring :=
  match realistic_lines seed with Ok ls => Ok (encode ls) | Err e => Err e end.
End generators.

(** The first lines of internal/detect/testdata/corpus.jsonl and of realistic.jsonl. *)
Example corpus_starts :
  (Text <$> match (corpus_rounds 8 1 0 (NewPCG 1 1)).2 with Ok ls => ls | Err _ => [] end) =
  ["note 218929815239 end"; "note 434081132267 end"; "note DJSTE5080C end"; "note DOUOG6235E end"; "note 9994584682 end";
   "note 1868512082 end"; "note user0@example.com end"; "note (437) 553-6950 end"; "note 519-71-3852 end"]%go.
Proof. vm_compute. reflexivity. Qed.

Example realistic_starts :
  (drop 1 (Text <$> match (positives 8 5 0 0 KindEmail (NewPCG 7 7)).2 with Ok ls => ls | Err _ => [] end)) =
  ["GET /v1/lookup?q=user1@example.test&page=1 HTTP/1.1";
   "10.0.0.4 - - [23/Sep/2026:08:00:00 +0000] " ++ quote ++ "GET /x HTTP/1.1" ++ quote ++ " 200 512 " ++ quote ++ "-" ++ quote ++
     " " ++ quote ++ "user2@example.test" ++ quote;
   "java.lang.IllegalStateException: bad input at com.ex.App.run(App.java:70) detail=user3@example.test";
   "req_id=149388 status=ok value=user4%40example.test region=us"]%go.
Proof. vm_compute. reflexivity. Qed.

End Corpus.
