(* ===== verification/CorpusSpec.v ===== *)
(** * The generators of the test corpora end, and label truly

    The rejection loops of the source have no bound; that they end rests on the period
    of PCG: a linear congruence modulo 2^128 whose multiplier is 1 modulo 4 and whose
    increment is odd visits every state before it comes back. *)

From S2P Require Import Prelude GoStd Json Detect Checksum DetectSpec Corpus.
Import Corpus.
#[local] Open Scope Z_scope.

(** ** The period *)

(** An injection of an initial segment into itself is onto. *)
Lemma inj_onto (f : nat -> nat) n :
  (forall i, (i < n)%nat -> (f i < n)%nat) -> (forall i j, (i < j < n)%nat -> f i <> f j) ->
  forall y, (y < n)%nat -> exists x, (x < n)%nat /\ f x = y.
Proof.
  intros Hf Hi y Hy.
  assert (Hn : NoDup (f <$> List.seq 0 n)).
  { apply NoDup_alt. intros i j x Ha Hb.
    apply list_lookup_fmap_Some in Ha as (a & -> & [-> Ha]%lookup_seq).
    apply list_lookup_fmap_Some in Hb as (b & E & [-> Hb]%lookup_seq). cbn in *.
    destruct (Nat.lt_trichotomy i j) as [Hl|[->|Hl]]; [|done|]; exfalso; [by apply (Hi i j)|by apply (Hi j i)]. }
  assert (Hs : (f <$> List.seq 0 n) ≡ₚ List.seq 0 n).
  { apply submseteq_length_Permutation; [|by rewrite length_fmap].
    apply NoDup_submseteq; [done|]. intros x (i & -> & Hx)%list_elem_of_fmap. apply elem_of_seq in Hx. apply elem_of_seq.
    pose proof (Hf i ltac:(lia)). lia. }
  assert (Hy' : y ∈ f <$> List.seq 0 n) by (rewrite Hs; apply elem_of_seq; lia).
  apply list_elem_of_fmap in Hy' as (x & -> & Hx). apply elem_of_seq in Hx. exists x. split; [lia|done].
Qed.

Lemma odd_factor j : forall x y, y mod 2 = 1 -> (2 ^ Z.of_nat j | x * y) -> (2 ^ Z.of_nat j | x).
Proof.
  induction j as [|j IH]; intros x y Hy Hd; [apply Z.divide_1_l|].
  rewrite Nat2Z.inj_succ, Z.pow_succ_r in * by lia.
  assert (Hx : x mod 2 = 0).
  { assert (H2 : (2 | x * y)) by (eapply Z.divide_trans; [|exact Hd]; by eexists; rewrite Z.mul_comm).
    apply Z.mod_divide in H2; [|lia]. rewrite Z.mul_mod, Hy, Z.mul_1_r, Z.mod_mod in H2 by lia. done. }
  apply Z.mod_divide in Hx as [z ->]; [|lia]. rewrite (Z.mul_comm z 2), <- Z.mul_assoc in *.
  apply Z.mul_divide_mono_l, (IH z y Hy). by apply Z.mul_divide_cancel_l in Hd; [|lia].
Qed.

Section lcg.
Context (a c : Z) (k : Z) (Hk : 0 <= k) (Ha : a mod 4 = 1) (Hc : c mod 2 = 1).

Definition step (s : Z) : Z := (s * a + c) mod 2 ^ k.

Fixpoint geo (n : nat) : Z := match n with O => 0 | S n => a * geo n + 1 end.

Lemma step_iter n s : exists q, Nat.iter n step s = s + geo n * ((a - 1) * s + c) + q * 2 ^ k.
Proof.
  induction n as [|n [q IH]]; cbn [Nat.iter nat_rect geo].
  - exists 0. lia.
  - change (nat_rect (fun _ => Z) s (fun _ => step) n) with (Nat.iter n step s). rewrite IH. unfold step at 1.
    pose proof (Z.div_mod ((s + geo n * ((a - 1) * s + c) + q * 2 ^ k) * a + c) (2 ^ k) ltac:(lia)) as E.
    exists (q * a - ((s + geo n * ((a - 1) * s + c) + q * 2 ^ k) * a + c) / 2 ^ k). lia.
Qed.

Lemma geo_pow n : a ^ Z.of_nat n = (a - 1) * geo n + 1.
Proof. induction n as [|n IH]; [cbn; lia|]. rewrite Nat2Z.inj_succ, Z.pow_succ_r by lia. cbn [geo]. rewrite IH. lia. Qed.

Lemma geo_add n m : geo (n + m) = geo n * a ^ Z.of_nat m + geo m.
Proof. rewrite geo_pow. induction n as [|n IH]; cbn [geo Nat.add]; [lia|]. rewrite IH. ring. Qed.

Lemma pow_odd n : a ^ Z.of_nat n mod 4 = 1.
Proof.
  induction n as [|n IH]; [done|]. rewrite Nat2Z.inj_succ, Z.pow_succ_r by lia.
  rewrite Z.mul_mod, Ha, IH by lia. done.
Qed.

(** A sum of powers is divisible by a power of two when the number of its terms is. *)
Lemma geo_val j : forall n, (0 < n)%nat -> (2 ^ Z.of_nat j | geo n) -> (2 ^ Z.of_nat j | Z.of_nat n).
Proof.
  induction j as [|j IH]; intros n Hn Hd; [apply Z.divide_1_l|].
  destruct (Nat.Even_or_Odd n) as [[m ->]|[m ->]].
  - replace (2 * m)%nat with (m + m)%nat in * by lia. rewrite geo_add in Hd.
    pose proof (pow_odd m) as Hp. set (p := a ^ Z.of_nat m) in *.
    assert (Hq : exists q, p = 4 * q + 1) by (exists (p / 4); pose proof (Z.div_mod p 4 ltac:(lia)); lia). destruct Hq as [q Hq].
    rewrite Nat2Z.inj_succ, Z.pow_succ_r in * by lia.
    replace (geo m * p + geo m) with (2 * (geo m * (2 * q + 1))) in Hd by (rewrite Hq; ring).
    apply Z.mul_divide_cancel_l in Hd; [|lia]. apply odd_factor in Hd.
    + rewrite Nat2Z.inj_add. replace (Z.of_nat m + Z.of_nat m) with (2 * Z.of_nat m) by lia.
      apply Z.mul_divide_mono_l, IH; [lia|]. exact Hd.
    + rewrite (Z.mul_comm 2), Z.add_comm, Z.mod_add by lia. done.
  - exfalso. assert (H2 : (2 | geo (2 * m + 1))).
    { eapply Z.divide_trans; [|exact Hd]. rewrite Nat2Z.inj_succ, Z.pow_succ_r by lia. by eexists; rewrite Z.mul_comm. }
    replace (2 * m + 1)%nat with (S (m + m)) in H2 by lia. cbn [geo] in H2. rewrite geo_add in H2.
    pose proof (pow_odd m) as Hp. set (p := a ^ Z.of_nat m) in *.
    assert (Hq : exists q, p = 4 * q + 1) by (exists (p / 4); pose proof (Z.div_mod p 4 ltac:(lia)); lia). destruct Hq as [q Hq].
    destruct H2 as [z Hz]. assert (E : a * (geo m * p + geo m) = 2 * (a * geo m * (2 * q + 1))) by (rewrite Hq; ring). lia.
Qed.

(** Within [2 ^ k] steps no state comes back, so that every one is visited. *)
Lemma step_range s : 0 <= step s < 2 ^ k.
Proof. apply Z.mod_pos_bound. lia. Qed.

Lemma step_apart s i j : 0 <= s < 2 ^ k -> (i < j)%nat -> Z.of_nat j < 2 ^ k -> Nat.iter i step s <> Nat.iter j step s.
Proof.
  intros Hs Hij Hj E. set (t := Nat.iter i step s) in *.
  replace j with ((j - i) + i)%nat in E by lia. rewrite Nat.iter_add in E. fold t in E.
  destruct (step_iter (j - i) t) as [q Hq]. rewrite <- E in Hq.
  assert (Hd : (2 ^ k | geo (j - i) * ((a - 1) * t + c))) by (exists (- q); lia).
  rewrite <- (Z2Nat.id k Hk) in Hd. apply odd_factor in Hd.
  - apply geo_val in Hd; [|lia]. rewrite (Z2Nat.id k Hk) in Hd. apply Z.divide_pos_le in Hd; lia.
  - assert (Hq2 : exists q, a = 4 * q + 1) by (exists (a / 4); pose proof (Z.div_mod a 4 ltac:(lia)); lia). destruct Hq2 as [r Hr].
    replace ((a - 1) * t + c) with (c + (2 * r * t) * 2) by (rewrite Hr; ring). by rewrite Z.mod_add by lia.
Qed.

Lemma step_visits s t : 0 <= s < 2 ^ k -> 0 <= t < 2 ^ k -> exists i, Z.of_nat i < 2 ^ k /\ Nat.iter i step s = t.
Proof.
  intros Hs Ht. destruct (inj_onto (fun i => Z.to_nat (Nat.iter i step s)) (Z.to_nat (2 ^ k))) with (y := Z.to_nat t) as (i & Hi & E).
  - intros i _. assert (0 <= Nat.iter i step s < 2 ^ k) by (destruct i; [done|apply step_range]). lia.
  - intros i j Hij E. apply (step_apart s i j); [done|lia|lia|].
    assert (0 <= Nat.iter i step s < 2 ^ k) by (destruct i; [done|apply step_range]).
    assert (0 <= Nat.iter j step s < 2 ^ k) by (destruct j; [done|apply step_range]). lia.
  - lia.
  - exists i. split; [lia|]. assert (0 <= Nat.iter i step s < 2 ^ k) by (destruct i; [done|apply step_range]). lia.
Qed.
End lcg.

(** ** Draws *)

Definition okst (s : Z) : Prop := 0 <= s < 2 ^ 128.
Definition out (s : Z) : Z := dxsm (Z.shiftr s 64) (s mod 2 ^ 64).

Lemma next_ok s : okst (pcg_next s).
Proof. apply Z.mod_pos_bound. reflexivity. Qed.

Lemma iter_ok n s : okst s -> okst (Nat.iter n pcg_next s).
Proof. destruct n; [done|]. intros _. apply next_ok. Qed.

Lemma out_range s : 0 <= out s < 2 ^ 64.
Proof. unfold out, dxsm. cbv zeta. apply Z.mod_pos_bound. reflexivity. Qed.

Lemma pcg_visits s t : okst s -> okst t -> exists i, Z.of_nat i < 2 ^ 128 /\ Nat.iter i pcg_next s = t.
Proof. apply (step_visits pcg_mul pcg_inc 128); [done|vm_compute; reflexivity|vm_compute; reflexivity]. Qed.

(** The first [n] draws are all bad. *)
Definition bad_run (bad : Z -> Prop) (n : nat) (s : Z) : Prop := forall j, (j < n)%nat -> bad (out (Nat.iter (S j) pcg_next s)).

Lemma bad_run_ends bad n s t : okst s -> okst t -> ~ bad (out t) -> 2 ^ 128 <= Z.of_nat n -> ~ bad_run bad n s.
Proof.
  intros Hs Ht Hb Hn Hr. destruct (pcg_visits (pcg_next s) t (next_ok s) Ht) as (i & Hi & E).
  apply Hb. rewrite <- E, <- Nat.iter_succ_r. apply Hr. lia.
Qed.

Lemma bad_run_app bad n m s : bad_run bad n s -> bad_run bad m (Nat.iter n pcg_next s) -> bad_run bad (n + m) s.
Proof.
  intros H1 H2 j Hj. destruct (decide (j < n)%nat); [by apply H1|].
  replace (S j) with (S (j - n) + n)%nat by lia. rewrite Nat.iter_add. apply H2. lia.
Qed.

(** *** Numbers below a bound *)

Definition rejected (n x : Z) : Prop := (x * n) mod 2 ^ 64 < (2 ^ 64 - n) mod n.

Lemma bounded_spec n f s :
  (exists m, bounded f n (out s) s = (Nat.iter m pcg_next s, Ok (out (Nat.iter m pcg_next s) * n / 2 ^ 64)) /\
     (forall j, (j < m)%nat -> rejected n (out (Nat.iter j pcg_next s))) /\ ~ rejected n (out (Nat.iter m pcg_next s))) \/
  (forall j, (j <= f)%nat -> rejected n (out (Nat.iter j pcg_next s))).
Proof.
  revert s. induction f as [|f IH]; intros s; cbn [bounded]; unfold rejected.
  - destruct (Z.ltb_spec ((out s * n) mod 2 ^ 64) ((2 ^ 64 - n) mod n)) as [Hr|Hr].
    + right. intros j Hj. by replace j with 0%nat by lia.
    + left. exists 0%nat. split; [done|]. split; [lia|]. cbn. lia.
  - destruct (Z.ltb_spec ((out s * n) mod 2 ^ 64) ((2 ^ 64 - n) mod n)) as [Hr|Hr].
    + io_run. cbn [Uint64]. change (dxsm _ _) with (out (pcg_next s)). destruct (IH (pcg_next s)) as [(m & E & Hm & Ha)|Hall].
      * left. exists (S m). rewrite Nat.iter_succ_r. split; [exact E|]. split; [|exact Ha].
        intros [|j] Hj; [exact Hr|]. rewrite Nat.iter_succ_r. apply Hm. lia.
      * right. intros [|j] Hj; [exact Hr|]. rewrite Nat.iter_succ_r. apply Hall. lia.
    + left. exists 0%nat. split; [done|]. split; [lia|]. cbn. lia.
Qed.

(** What a generator does from any state: it ends, with a value of the kind. *)
Definition yields {A} (P : A -> Prop) (m : gen A) : Prop := forall s, okst s -> exists s' a, m s = (s', Ok a) /\ okst s' /\ P a.

Lemma yields_ret {A} (P : A -> Prop) a : P a -> yields P (ret a).
Proof. intros Ha s Hs. by exists s, a. Qed.

Lemma yields_bind {A B} (P : A -> Prop) (Q : B -> Prop) (m : gen A) (k : A -> gen B) :
  yields P m -> (forall a, P a -> yields Q (k a)) -> yields Q (bind m k).
Proof.
  intros Hm Hk s Hs. io_run. destruct (Hm s Hs) as (s' & a & -> & Hs' & Ha). by apply Hk.
Qed.

Lemma yields_mono {A} (P Q : A -> Prop) (m : gen A) : (forall a, P a -> Q a) -> yields P m -> yields Q m.
Proof. intros Hpq Hm s Hs. destruct (Hm s Hs) as (s' & a & E & Hs' & Ha). exists s', a. auto. Qed.

Lemma yields_times {A} (P : A -> Prop) n (m : gen A) : yields P m -> yields (fun l => length l = n /\ Forall P l) (times n m).
Proof.
  intros Hm. induction n as [|n IH]; cbn [times]; [by apply yields_ret|].
  eapply yields_bind; [exact Hm|]. intros a Ha. eapply yields_bind; [exact IH|]. intros l [Hl Hf].
  apply yields_ret. cbn. split; [lia|by constructor].
Qed.

Lemma seed_ok seed : 0 <= seed < 2 ^ 64 -> okst (NewPCG seed seed).
Proof. unfold okst, NewPCG, wide. lia. Qed.

(** The label of a wrapped value is where the value is. *)
Lemma wrap_labels value kind : kind <> [] ->
  Spans (wrap value kind) = [MkSpan kind 5 (5 + glen value)] /\
  slice (Text (wrap value kind)) 5 (5 + glen value) = Some value.
Proof.
  intros Hk. apply seqb_neq in Hk. unfold wrap. rewrite Hk. cbn [Spans Text]. split; [done|].
  unfold glen in *. rewrite slice_Some; [|lia|unfold glen; rewrite !length_app; cbn; lia].
  f_equal. replace (Z.to_nat (5 + Z.of_nat (length value) - 5)) with (length value) by lia. change (Z.to_nat 5) with 5%nat.
  change (drop 5 ("note " ++ value ++ " end")) with (value ++ " end"). apply take_app_length.
Qed.

Section generators.
Context (fuel : nat) (Hfuel : 2 ^ 128 <= Z.of_nat fuel).

(** A state whose output is accepted for [n]. *)
Definition accepts (t n : Z) : bool := (0 <=? t) && (t <? 2 ^ 128) && negb ((out t * n) mod 2 ^ 64 <? (2 ^ 64 - n) mod n).

Lemma accepts_ok t n : accepts t n = true -> okst t /\ ~ rejected n (out t).
Proof.
  unfold accepts, okst, rejected. intros [[Ht1%Z.leb_le Ht2%Z.ltb_lt]%andb_true_iff Hr%negb_true_iff%Z.ltb_ge]%andb_true_iff. lia.
Qed.

(** The draws of [IntN] for a bound that is not a power of two. *)
Lemma IntN_draws n s t : 0 < n -> (Z.land n (n - 1) =? 0) = false -> accepts t n = true -> okst s ->
  exists m, let s' := Nat.iter (S m) pcg_next s in
    IntN fuel n s = (s', Ok (out s' * n / 2 ^ 64)) /\ bad_run (rejected n) m s /\ ~ rejected n (out s').
Proof.
  intros Hn Hp [Ht Hacc]%accepts_ok Hs. unfold IntN. rewrite (proj2 (Z.leb_gt _ _) Hn). io_run. cbn [Uint64].
  change (dxsm _ _) with (out (pcg_next s)). rewrite Hp.
  destruct (bounded_spec n fuel (pcg_next s)) as [(m & E & Hm & Ha)|Hall].
  - exists m. cbv zeta. rewrite Nat.iter_succ_r. split; [exact E|]. split; [|exact Ha].
    intros j Hj. rewrite Nat.iter_succ_r. by apply Hm.
  - exfalso. apply (bad_run_ends (rejected n) fuel s t Hs Ht Hacc Hfuel). intros j Hj. rewrite Nat.iter_succ_r. apply Hall. lia.
Qed.

Definition powers : list Z := [2; 4; 8].

Lemma IntN_yields n t : 0 < n <= 2 ^ 32 -> (Z.land n (n - 1) =? 0) = bool_decide (n ∈ powers) -> accepts t n = true ->
  yields (fun v => 0 <= v < n) (IntN fuel n).
Proof.
  intros Hn Hp Ht s Hs. case_bool_decide as Hin.
  - unfold IntN. rewrite (proj2 (Z.leb_gt n 0)) by lia. io_run. cbn [Uint64]. rewrite Hp. eexists _, _. split; [reflexivity|].
    split; [apply next_ok|]. set (x := dxsm _ _). unfold powers in Hin. rewrite !list_elem_of_In in Hin. cbn in Hin.
    destruct Hin as [<-|[<-|[<-|[]]]]; [change (2 - 1) with (Z.ones 1)|change (4 - 1) with (Z.ones 2)|change (8 - 1) with (Z.ones 3)];
      rewrite Z.land_ones by lia; by apply Z.mod_pos_bound.
  - destruct (IntN_draws n s t) as (m & E & _ & _); [lia|done..|]. cbv zeta in E. eexists _, _. split; [exact E|].
    split; [by apply iter_ok|]. pose proof (out_range (Nat.iter (S m) pcg_next s)) as Ho. set (x := out _) in *.
    split; [apply Z.div_pos; nia|apply Z.div_lt_upper_bound; nia].
Qed.

(** *** Characters *)

Definition target : Z := 2 ^ 64.

(** A bound for which [IntN] ends. *)
Definition fair (n : Z) : bool :=
  (0 <? n) && (n <=? 2 ^ 32) && Bool.eqb (Z.land n (n - 1) =? 0) (bool_decide (n ∈ powers)) && accepts target n.

Lemma fair_yields n : fair n = true -> yields (fun v => 0 <= v < n) (IntN fuel n).
Proof.
  unfold fair. intros [[[H1%Z.ltb_lt H2%Z.leb_le]%andb_true_iff H3%eqb_prop]%andb_true_iff H4]%andb_true_iff.
  by apply (IntN_yields n target).
Qed.

Lemma pick_yields set : fair (glen set) = true -> yields (fun b => b ∈ set) (pick fuel set).
Proof.
  intros Hf. unfold pick. eapply yields_bind; [by apply fair_yields|]. intros v Hv. unfold glen in Hv.
  destruct (lookup_lt_is_Some_2 set (Z.to_nat v)) as [b Hb]; [lia|]. rewrite Hb. cbn [of_option].
  apply yields_ret. by eapply list_elem_of_lookup_2.
Qed.

(** Draws that give no digit other than [check]. *)
Definition useless (check : byte) (x : Z) : Prop := rejected 10 x \/ digits !! Z.to_nat (x * 10 / 2 ^ 64) = Some check.

Lemma other_digit_spec check f s : okst s ->
  (exists s' alt, other_digit fuel f check s = (s', Ok alt) /\ okst s' /\ alt ∈ digits /\ alt <> check) \/
  (exists n, (f <= n)%nat /\ bad_run (useless check) n s).
Proof.
  revert s. induction f as [|f IH]; intros s Hs; cbn [other_digit]; [right; exists 0%nat; split; [done|by intros j Hj; lia]|].
  destruct (IntN_draws 10 s target) as (m & E & Hbad & Hacc); [done|reflexivity|vm_compute; reflexivity|done|]. cbv zeta in E, Hacc.
  set (s' := Nat.iter (S m) pcg_next s) in *. assert (Hs' : okst s') by (by apply iter_ok).
  pose proof (out_range s') as Ho. assert (Hlt : 0 <= out s' * 10 / 2 ^ 64 < 10)
    by (split; [apply Z.div_pos; nia|apply Z.div_lt_upper_bound; nia]).
  destruct (lookup_lt_is_Some_2 digits (Z.to_nat (out s' * 10 / 2 ^ 64))) as [b Hb]; [change (length digits) with 10%nat; lia|].
  assert (Ep : pick fuel digits s = (s', Ok b)).
  { unfold pick. change (glen digits) with 10. io_run. rewrite E, Hb. done. }
  io_run. rewrite Ep. destruct (beq b check) eqn:Eb.
  - apply beq_eq in Eb as ->. destruct (IH s' Hs') as [Hl|(n & Hn & Hr)]; [by left|right].
    exists (S m + n)%nat. split; [lia|]. apply bad_run_app; [|done]. intros j Hj.
    destruct (decide (j = m)) as [->|]; [by right|left]. apply Hbad. lia.
  - left. exists s', b. split; [done|]. split; [done|]. split; [by eapply list_elem_of_lookup_2|].
    intros ->. by rewrite beq_refl in Eb.
Qed.

Lemma other_digit_yields check : yields (fun alt => alt ∈ digits /\ alt <> check) (other_digit fuel fuel check).
Proof.
  intros s Hs. destruct (other_digit_spec check fuel s Hs) as [(s' & alt & E & Hs' & Ha)|(n & Hn & Hr)]; [by exists s', alt|].
  exfalso.
  assert (Ht : exists t, okst t /\ ~ useless check (out t)).
  { destruct (decide (digits !! Z.to_nat (out target * 10 / 2 ^ 64) = Some check)) as [Hc|Hc].
    - exists (target + 2). assert (Ha : accepts (target + 2) 10 = true) by (vm_compute; reflexivity).
      apply accepts_ok in Ha as [Hok Hr']. split; [done|]. intros [?|E]; [done|]. rewrite <- Hc in E. revert E. vm_compute. discriminate.
    - exists target. assert (Ha : accepts target 10 = true) by (vm_compute; reflexivity).
      apply accepts_ok in Ha as [Hok Hr']. split; [done|]. by intros [?|?]. }
  destruct Ht as (t & Ht & Hbt). apply (bad_run_ends (useless check) n s t Hs Ht Hbt); [lia|done].
Qed.

(** ** Values *)

Lemma digit_is_digit b : b ∈ digits -> is_digit b = true.
Proof.
  intros Hb. assert (H : forallb is_digit digits = true) by reflexivity. rewrite forallb_forall in H.
  by apply H, list_elem_of_In.
Qed.

Lemma digits_digits_only l : Forall (fun b => b ∈ digits) l -> digits_only l.
Proof. intros H. eapply Forall_impl; [exact H|]. apply digit_is_digit. Qed.

(** Twelve digits, of which the first is at least 2 and the last is the check digit of
    the others, or another. *)
Definition aadhaar (valid : bool) (d : gostring) : Prop :=
  length d = 12%nat /\ digits_only d /\ (exists b r, d = b :: r /\ b ∈ ("23456789" : gostring)) /\ verhoeffOK d = Some valid.

(** [set_tac] picks from a set that is written out. *)
Lemma pick_digits : yields (fun b => b ∈ digits) (pick fuel digits).
Proof. apply pick_yields. vm_compute. reflexivity. Qed.
Lemma pick_letters : yields (fun b => b ∈ letters) (pick fuel letters).
Proof. apply pick_yields. vm_compute. reflexivity. Qed.

Lemma aadhaarDigits_yields valid : yields (aadhaar valid) (aadhaarDigits fuel valid).
Proof.
  unfold aadhaarDigits. eapply yields_bind; [apply pick_yields; vm_compute; reflexivity|]. intros b Hb.
  eapply yields_bind; [apply yields_times, pick_digits|]. intros r [Hl Hr]. cbv zeta.
  assert (Hd : digits_only (b :: r)).
  { constructor; [|by apply digits_digits_only]. assert (H : forallb is_digit "23456789" = true) by reflexivity.
    rewrite forallb_forall in H. by apply H, list_elem_of_In. }
  destruct (verhoeff_check_valid (b :: r) Hd) as (check & -> & Hc & Hall). cbn [of_option].
  eapply yields_bind; [by apply (yields_ret (fun x => x = check))|]. intros x ->.
  eapply (yields_bind (fun last => is_digit last = true /\ beq last check = valid)).
  - destruct valid; [apply yields_ret; by rewrite beq_refl|].
    eapply yields_mono; [|apply other_digit_yields]. intros alt [Ha Hn]. split; [by apply digit_is_digit|].
    destruct (beq alt check) eqn:E; [|done]. by apply beq_eq in E.
  - intros last [Hla Hv]. apply yields_ret. split; [|split; [|split]].
    + rewrite length_app. cbn. lia.
    + apply Forall_app. split; [done|by repeat constructor].
    + by exists b, (r ++ [last]).
    + rewrite Hall by done. by rewrite Hv.
Qed.

Definition pan (valid : bool) (p : gostring) : Prop := exists abc d e n z,
  p = abc ++ [d; e] ++ n ++ [z] /\ length abc = 3%nat /\ length n = 4%nat /\
  Forall (fun b => b ∈ letters) (abc ++ [e; z]) /\ Forall (fun b => b ∈ digits) n /\
  d ∈ (if valid then "ABCFGHLJPT" else "DEIKMOQRSUVWXYZ" : gostring).

Lemma panDigits_yields valid : yields (pan valid) (panDigits fuel valid).
Proof.
  unfold panDigits. eapply yields_bind; [apply yields_times, pick_letters|]. intros abc [Hl Ha].
  eapply yields_bind; [apply pick_yields; destruct valid; vm_compute; reflexivity|]. intros d Hd.
  eapply yields_bind; [apply pick_letters|]. intros e He.
  eapply yields_bind; [apply yields_times, pick_digits|]. intros n [Hn Hnd].
  eapply yields_bind; [apply pick_letters|]. intros z Hz. apply yields_ret.
  exists abc, d, e, n, z. split_and!; try done. apply Forall_app. split; [done|].
  apply Forall_cons_2; [done|]. apply Forall_cons_2; [done|constructor].
Qed.

(** Ten digits after what a form puts before and between. *)
Definition mobile (valid : bool) (form : nat) (p : gostring) : Prop := exists a r,
  a ∈ (if valid then "6789" else "12345" : gostring) /\ length r = 9%nat /\ Forall (fun b => b ∈ digits) r /\
  p = if valid then
        match form with
        | 1%nat => "+91 " ++ cut (a :: r) 0 5 ++ " " ++ cut (a :: r) 5 10
        | 2%nat => "0" ++ a :: r
        | 3%nat => cut (a :: r) 0 5 ++ "-" ++ cut (a :: r) 5 10
        | _ => a :: r
        end
      else a :: r.

Lemma phoneIN_yields valid form : yields (mobile valid form) (phoneIN fuel valid form).
Proof.
  unfold phoneIN. eapply yields_bind; [apply pick_yields; destruct valid; vm_compute; reflexivity|]. intros a Ha.
  eapply yields_bind; [apply yields_times, pick_digits|]. intros r [Hl Hr]. cbv zeta. apply yields_ret.
  by exists a, r.
Qed.

Lemma phoneUS_yields form : yields (fun _ => True) (phoneUS fuel form).
Proof.
  unfold phoneUS. eapply yields_bind; [apply pick_yields; vm_compute; reflexivity|]. intros a _.
  do 3 (eapply yields_bind; [apply yields_times, pick_digits|]; intros ? _). by apply yields_ret.
Qed.

Lemma ssnNum_yields : yields (fun _ => True) (ssnNum fuel).
Proof.
  unfold ssnNum. do 3 (eapply yields_bind; [apply yields_times, pick_digits|]; intros ? _). by apply yields_ret.
Qed.

(** ** The synthetic corpus *)

(** The lines of a turn: six with the values of the kinds, and three with values that
    fail the last check of the detector they are made for. *)
Definition round_ok (i : nat) (ls : list corpusLine) : Prop := exists a a' p p' m m' u s,
  ls = [wrap (formatAadhaar a (i mod 3)) KindAadhaar; wrap (formatAadhaar a' (i mod 3)) KindNone;
        wrap p KindPAN; wrap p' KindNone; wrap m KindPhoneIN; wrap m' KindNone;
        wrap (emailAt i) KindEmail; wrap u KindPhoneUS; wrap s KindSSN] /\
  aadhaar true a /\ aadhaar false a' /\ pan true p /\ pan false p' /\
  mobile true (i mod 4) m /\ mobile false 0 m'.

Lemma corpus_round_yields i : yields (round_ok i) (corpus_round fuel i).
Proof.
  unfold corpus_round. eapply yields_bind; [apply aadhaarDigits_yields|]. intros a Ha.
  eapply yields_bind; [apply aadhaarDigits_yields|]. intros a' Ha'. eapply yields_bind; [apply panDigits_yields|]. intros p Hp.
  eapply yields_bind; [apply panDigits_yields|]. intros p' Hp'. eapply yields_bind; [apply phoneIN_yields|]. intros m Hm.
  eapply yields_bind; [apply phoneIN_yields|]. intros m' Hm'. eapply yields_bind; [apply phoneUS_yields|]. intros u _.
  eapply yields_bind; [apply ssnNum_yields|]. intros s _. apply yields_ret. by exists a, a', p, p', m, m', u, s.
Qed.

Definition rounds_ok (n i : nat) (ls : list corpusLine) : Prop := exists rounds,
  ls = concat rounds /\ length rounds = n /\ forall j r, rounds !! j = Some r -> round_ok (i + j) r.

Lemma corpus_rounds_yields n i : yields (rounds_ok n i) (corpus_rounds fuel n i).
Proof.
  revert i. induction n as [|n IH]; intros i; cbn [corpus_rounds]; [apply yields_ret; by exists []|].
  eapply yields_bind; [apply corpus_round_yields|]. intros r Hr. eapply yields_bind; [apply IH|].
  intros more (rs & -> & Hl & Hrs). apply yields_ret. exists (r :: rs). split; [done|]. split; [cbn; lia|].
  intros [|j] x; cbn; [intros [= <-]; by rewrite Nat.add_0_r|]. intros Hx. apply Hrs in Hx. by replace (i + S j)%nat with (S i + j)%nat by lia.
Qed.

(** ** The realistic corpus *)

Lemma IntN_any n : fair n = true -> yields (fun _ => True) (IntN fuel n).
Proof. intros Hn. eapply yields_mono; [done|by apply fair_yields]. Qed.

(** [drawn] walks through a generator that draws numbers with fair bounds. *)
Ltac drawn := repeat first
  [ apply yields_ret; exact I
  | eapply (yields_bind (fun _ => True)); [apply IntN_any; vm_compute; reflexivity|intros ? _] ].

Lemma realisticShape_yields value n : yields (fun _ => True) (realisticShape fuel value n).
Proof. unfold realisticShape. destruct (n mod 6)%nat as [|[|[|[|[|?]]]]]; drawn. Qed.

Lemma realisticValue_yields kind n : yields (fun _ => True) (realisticValue fuel kind n).
Proof.
  unfold realisticValue. repeat (destruct (seqb kind _)).
  - by apply yields_ret.
  - apply phoneUS_yields.
  - eapply yields_mono; [done|apply phoneIN_yields].
  - apply ssnNum_yields.
  - eapply yields_bind; [apply aadhaarDigits_yields|]. intros d _. by apply yields_ret.
  - eapply yields_mono; [done|apply panDigits_yields].
  - by apply yields_ret.
Qed.

Lemma realisticNearMissLine_yields n : yields (fun _ => True) (realisticNearMissLine fuel n).
Proof.
  unfold realisticNearMissLine. eapply (yields_bind (fun _ => True)); [|intros v _; apply realisticShape_yields].
  destruct (n mod 8)%nat as [|[|[|[|[|[|[|?]]]]]]]; try drawn.
  - eapply yields_bind; [apply aadhaarDigits_yields|]. intros d _. by apply yields_ret.
  - eapply yields_mono; [done|apply panDigits_yields].
  - eapply yields_mono; [done|apply phoneIN_yields].
  - eapply yields_bind; [apply panDigits_yields|]. intros d _. by apply yields_ret.
Qed.

(** A line is labelled with what [Scan] finds in it. *)
Definition self_labelled (l : corpusLine) : Prop := Spans l = Scan (Text l) kinds.

Lemma positives_yields tries attempt kept kind :
  yields (fun ls => Forall (fun l => self_labelled l /\ hasKind (Spans l) kind = true) ls /\ (length ls <= realisticPosPerKind - kept)%nat)
    (positives fuel tries attempt kept kind).
Proof.
  revert attempt kept. induction tries as [|tries IH]; intros attempt kept; cbn [positives]; [apply yields_ret; split; [done|cbn [length]; unfold realisticPosPerKind, realisticNearMiss in *; lia]|].
  destruct (Nat.ltb_spec kept realisticPosPerKind); [|apply yields_ret; split; [done|cbn [length]; unfold realisticPosPerKind, realisticNearMiss in *; lia]].
  eapply yields_bind; [apply realisticValue_yields|]. intros v _. eapply yields_bind; [apply realisticShape_yields|]. intros text _.
  cbv zeta. destruct (hasKind (Scan text kinds) kind) eqn:Hk; [|apply IH].
  eapply yields_bind; [apply IH|]. intros ls [Hf Hl]. apply yields_ret. split; [|cbn [length]; unfold realisticPosPerKind, realisticNearMiss in *; lia]. constructor; [|done]. done.
Qed.

Lemma near_misses_yields tries attempt kept :
  yields (fun ls => Forall (fun l => self_labelled l /\ Spans l = []) ls /\ (length ls <= realisticNearMiss - kept)%nat)
    (near_misses fuel tries attempt kept).
Proof.
  revert attempt kept. induction tries as [|tries IH]; intros attempt kept; cbn [near_misses]; [apply yields_ret; split; [done|cbn [length]; unfold realisticPosPerKind, realisticNearMiss in *; lia]|].
  destruct (Nat.ltb_spec kept realisticNearMiss); [|apply yields_ret; split; [done|cbn [length]; unfold realisticPosPerKind, realisticNearMiss in *; lia]].
  eapply yields_bind; [apply realisticNearMissLine_yields|]. intros text _.
  destruct (Scan text kinds) as [|sp sps] eqn:Es; [|apply IH].
  eapply yields_bind; [apply IH|]. intros ls [Hf Hl]. apply yields_ret. split; [|cbn [length]; unfold realisticPosPerKind, realisticNearMiss in *; lia].
  constructor; [|done]. split; [|done]. unfold self_labelled. cbn [Spans Text]. by rewrite Es.
Qed.

Lemma all_positives_yields ks :
  yields (fun ls => Forall (fun l => self_labelled l /\ Spans l <> []) ls /\ (length ls <= realisticPosPerKind * length ks)%nat)
    (all_positives fuel ks).
Proof.
  induction ks as [|k ks IH]; cbn [all_positives]; [apply yields_ret; split; [done|cbn [length]; unfold realisticPosPerKind, realisticNearMiss in *; lia]|].
  eapply yields_bind; [apply positives_yields|]. intros ls [Hf Hl]. eapply yields_bind; [exact IH|]. intros more [Hf' Hl'].
  apply yields_ret. split; [|rewrite length_app; cbn [length]; rewrite Nat.mul_succ_r; lia].
  apply Forall_app. split; [|done]. eapply Forall_impl; [exact Hf|]. intros l [Hsl Hk]. split; [done|]. intros E. by rewrite E in Hk.
Qed.

End generators.

Lemma bind_run {A B} (m : gen A) (k : A -> gen B) s s' a : m s = (s', Ok a) -> bind m k s = k a s'.
Proof. intros E. io_run. by rewrite E. Qed.

(** The checks at the end of [GenerateRealistic]. *)
Definition checked (pos near : list corpusLine) : result gen_error (list corpusLine) :=
  if (length near <? realisticNearMiss)%nat then Err NearMissShortfall
  else match find (fun k => (count_kind k (pos ++ near) <? realisticPosPerKind)%nat) kinds with
       | Some k => Err (PositiveShortfall k)
       | None => Ok (pos ++ near)
       end.

Lemma realistic_lines_run fuel seed : 2 ^ 128 <= Z.of_nat fuel -> 0 <= seed < 2 ^ 64 ->
  exists pos near, realistic_lines fuel seed = checked pos near /\
    Forall (fun l => self_labelled l /\ Spans l <> []) pos /\
    Forall (fun l => self_labelled l /\ Spans l = []) near /\ (length near <= realisticNearMiss - 0)%nat.
Proof.
  intros Hf Hs. unfold realistic_lines. generalize (realisticNearMiss * 40)%nat as tries. intros tries.
  destruct (all_positives_yields fuel Hf kinds _ (seed_ok seed Hs)) as (s1 & pos & Ep & Hs1 & Hp & _).
  destruct (near_misses_yields fuel Hf tries 0 0 s1 Hs1) as (s2 & near & En & _ & Hn & Hln).
  exists pos, near. split; [|by split_and!]. rewrite (bind_run _ _ _ _ _ Ep), (bind_run _ _ _ _ _ En). unfold checked. cbv zeta.
  destruct (_ <? _)%nat; [done|]. by destruct (find _ kinds).
Qed.

Lemma checked_spec pos near :
  Forall (fun l => self_labelled l /\ Spans l <> []) pos ->
  Forall (fun l => self_labelled l /\ Spans l = []) near -> (length near <= realisticNearMiss - 0)%nat ->
  match checked pos near with
  | Ok ls => Forall self_labelled ls /\ (forall k, k ∈ kinds -> (120 <= count_kind k ls)%nat) /\
      length (filter (fun l => Spans l = []) ls) = 320%nat
  | Err e => e = NearMissShortfall \/ exists k, e = PositiveShortfall k
  end.
Proof.
  intros Hp Hn Hln. unfold checked. destruct (Nat.ltb_spec (length near) realisticNearMiss) as [|Hl]; [by left|].
  destruct (find _ kinds) as [k|] eqn:Ef; [right; by exists k|]. split; [|split].
  - apply Forall_app. split; eapply Forall_impl; try done; by intros l [? ?].
  - intros k Hk. pose proof (find_none _ _ Ef k) as Hc. cbv beta in Hc. apply list_elem_of_In in Hk.
    apply Hc in Hk. by apply Nat.ltb_ge in Hk.
  - rewrite filter_app, length_app.
    assert (Hpos : filter (fun l => Spans l = []) pos = []).
    { clear -Hp. induction Hp as [|l pos [_ Hl] Hp IH]; [done|]. by rewrite filter_cons_False. }
    assert (Hnear : filter (fun l => Spans l = []) near = near).
    { clear -Hn. induction Hn as [|l near [_ Hl] Hn IH]; [done|]. by rewrite filter_cons_True, IH. }
    rewrite Hpos, Hnear. unfold realisticNearMiss in *. cbn [length]. lia.
Qed.

Lemma GenerateRealistic_Ok fuel seed ls : realistic_lines fuel seed = Ok ls -> GenerateRealistic fuel seed = Ok (encode ls).
Proof. unfold GenerateRealistic. by intros ->. Qed.

Lemma GenerateCorpus_Ok fuel seed s ls : corpus_rounds fuel 200 0 (NewPCG seed seed) = (s, Ok ls) -> GenerateCorpus fuel seed = Ok (encode ls).
Proof. unfold GenerateCorpus. by intros ->. Qed.

(** C38 [corpora_labelled]: whatever the seed, the generator of the synthetic corpus ends,
    in 200 turns of nine lines: the numbers labelled aadhaar have the right check digit
    and those that look like them have a wrong one, the others have the letters and
    digits that their detectors ask for or do not, and a label is where the value is.
    The generator of the realistic corpus ends too, unless it finds too few lines; when
    it does not, every line is labelled with exactly what [Scan] finds, each of the six
    kinds is in at least 120 lines, and 320 lines have no label. *)
Theorem corpora_labelled fuel seed :
  2 ^ 128 <= Z.of_nat fuel -> 0 <= seed < 2 ^ 64 ->
  (exists ls, (corpus_rounds fuel 200 0 (NewPCG seed seed)).2 = Ok ls /\ GenerateCorpus fuel seed = Ok (encode ls) /\
     rounds_ok 200 0 ls) /\
  (forall value kind, kind <> [] -> exists sp, Spans (wrap value kind) = [sp] /\ sp_kind sp = kind /\
     slice (Text (wrap value kind)) (sp_start sp) (sp_end sp) = Some value) /\
  match realistic_lines fuel seed with
  | Ok ls => GenerateRealistic fuel seed = Ok (encode ls) /\ Forall self_labelled ls /\
      (forall k, k ∈ kinds -> (120 <= count_kind k ls)%nat) /\
      length (filter (fun l => Spans l = []) ls) = 320%nat
  | Err e => e = NearMissShortfall \/ exists k, e = PositiveShortfall k
  end.
Proof.
  intros Hf Hs. split; [|split].
  - destruct (corpus_rounds_yields fuel Hf 200 0 _ (seed_ok seed Hs)) as (s' & ls & E & _ & Hr). exists ls.
    split; [by rewrite E|]. split; [by eapply GenerateCorpus_Ok|done].
  - intros value kind Hk. destruct (wrap_labels value kind Hk) as [E1 E2]. by eexists.
  - destruct (realistic_lines_run fuel seed Hf Hs) as (pos & near & E & Hp & Hn & Hl).
    pose proof (checked_spec pos near Hp Hn Hl) as Hc. pose proof (GenerateRealistic_Ok fuel seed) as Hg.
    rewrite E in *. destruct (checked pos near); [|done]. by split; [apply Hg|].
Qed.

Lemma corpora_labelled_witness : exists fuel ls,
  2 ^ 128 <= Z.of_nat fuel /\ (corpus_rounds fuel 200 0 (NewPCG 1 1)).2 = Ok ls /\ rounds_ok 200 0 ls.
Proof.
  assert (Hf : exists fuel, 2 ^ 128 <= Z.of_nat fuel) by (exists (Z.to_nat (2 ^ 128)); lia).
  destruct Hf as [fuel Hf]. destruct (proj1 (corpora_labelled fuel 1 Hf ltac:(lia))) as (ls & E & _ & Hr).
  exact (ex_intro _ fuel (ex_intro _ ls (conj Hf (conj E Hr)))).
Defined.
