(* ===== verification/Ledger.v ===== *)
(** * The audit ledger (internal/ledger: ledger.go, verify.go)

    One hash chain per tenant.  The two tables are a list of rows and a map of
    heads; [Append] is the transaction body of the two Go functions of that
    name, an error meaning that the transaction is rolled back; [Verify] reads
    the rows back in order.  What Postgres does to a JSONB value between the
    two is a parameter. *)

From S2P Require Import Prelude GoStd GoTime Sha256 Json.

Module Ledger.

(** A [uuid.UUID]: an opaque value. *)
Abbreviation uuid := gostring (only parsing).

(** ** Hashing *)

Definition EntryHash (prev kind payload : gostring) (at_ : time) : gostring :=
  Sha256.Sum256 (prev ++ kind ++ payload ++ FormatRFC3339Nano at_).

Definition Zeros : gostring := replicate 32 Byte.x00.

Definition canonicalPayload (raw : gostring) : gostring :=
  match Unmarshal raw with
  | None => raw
  | Some v => Marshal v
  end.

Definition normalizeAt (at_ : time) : time := Truncate at_ Microsecond.

(** ** The tables *)

(** A row of [audit_ledger]. *)
Record row := Row {
  tenant_id : uuid;
  seq : Z;
  prev_hash : gostring;
  entry_hash : gostring;
  kind : gostring;
  payload : gostring;
  at_ : time;
}.

Record db := Db {
  tenants : list uuid;
  audit_ledger : list row;
  ledger_heads : gmap uuid (Z * gostring);
}.

Inductive sql_error := ForeignKey | DuplicateKey | InvalidJSON | OutOfRange | NoRows | BadText.

(** [int64] arithmetic wraps around. *)
Definition wrap64 (z : Z) : Z := ((z + 2 ^ 63) mod 2 ^ 64 - 2 ^ 63)%Z.

Section tables.
(** What a JSONB column gives back for a text written to it; [None] when
    Postgres rejects the text. *)
Context (jsonb : gostring -> option gostring).

(** [INSERT INTO ledger_heads ... VALUES ($1, 0, $2) ON CONFLICT DO NOTHING]. *)
Definition insert_head (tenant : uuid) (d : db) : result sql_error db :=
  match ledger_heads d !! tenant with
  | Some _ => Ok d
  | None =>
      if bool_decide (tenant ∈ tenants d)
      then Ok (Db (tenants d) (audit_ledger d) (<[tenant := (0%Z, Zeros)]> (ledger_heads d)))
      else Err ForeignKey
  end.

(** [INSERT INTO audit_ledger]: primary key (tenant_id, seq). *)
Definition insert_row (r : row) (d : db) : result sql_error db :=
  match jsonb (payload r) with
  | None => Err InvalidJSON
  | Some stored =>
      if existsb (fun x => seqb (tenant_id x) (tenant_id r) && (seq x =? seq r)%Z) (audit_ledger d)
      then Err DuplicateKey
      else if bool_decide (tenant_id r ∈ tenants d)
      then Ok (Db (tenants d)
                  (audit_ledger d ++
                   [Row (tenant_id r) (seq r) (prev_hash r) (entry_hash r) (kind r) stored (at_ r)])
                  (ledger_heads d))
      else Err ForeignKey
  end.

(** [UPDATE ledger_heads SET seq, hash WHERE tenant_id]. *)
Definition update_head (tenant : uuid) (n : Z) (h : gostring) (d : db) : db :=
  match ledger_heads d !! tenant with
  | None => d
  | Some _ => Db (tenants d) (audit_ledger d) (<[tenant := (n, h)]> (ledger_heads d))
  end.

Definition Append (tenant : uuid) (kind payload : gostring) (at_ : time) (d : db)
    : result sql_error db :=
  let at_ := normalizeAt at_ in
  let payload := canonicalPayload payload in
  d1 ← insert_head tenant d;
  match ledger_heads d1 !! tenant with
  | None => Err NoRows
  | Some (sq, prev) =>
      let prev := if (sq =? 0)%Z then Zeros else prev in
      let sum := EntryHash prev kind payload at_ in
      let next := wrap64 (sq + 1) in
      d2 ← insert_row (Row tenant next prev sum kind payload at_) d1;
      Ok (update_head tenant next sum d2)
  end.

(** The same statements, through [database/sql]. *)
Definition AppendSQL (tenant : uuid) (kind payload : gostring) (at_ : time) (d : db)
    : result sql_error db :=
  Append tenant kind payload at_ d.
End tables.

(** ** Verification *)

Inductive verify_error :=
| SeqMismatch (got want : Z)
| PrevMismatch (seq : Z)
| EntryMismatch (seq : Z)
| MissingHead
| HeadMismatch (seq : Z).

(** [SELECT ... WHERE tenant_id = $1 ORDER BY seq]. *)
Definition rows_of (tenant : uuid) (d : db) : list row :=
  sort_slice (fun x y => (seq x <? seq y)%Z)
    (filter (fun r => tenant_id r = tenant) (audit_ledger d)).

(** The local variables of the loop of [Verify]. *)
Record cursor := Cursor { prev : gostring; expect : Z; last : gostring; n : Z }.

Definition start : cursor := Cursor Zeros 1 [] 0.

(** The loop body. *)
Definition verify_row (c : cursor) (r : row) : result verify_error cursor :=
  if negb (seq r =? expect c)%Z then Err (SeqMismatch (seq r) (expect c))
  else if negb (seqb (prev_hash r) (prev c)) then Err (PrevMismatch (seq r))
  else
    let sum := EntryHash (prev c) (kind r) (canonicalPayload (payload r)) (normalizeAt (at_ r)) in
    if negb (seqb (entry_hash r) sum) then Err (EntryMismatch (seq r))
    else Ok (Cursor (entry_hash r) (wrap64 (expect c + 1)) (entry_hash r) (seq r)).

Fixpoint verify_rows (c : cursor) (rows : list row) : result verify_error cursor :=
  match rows with
  | [] => Ok c
  | r :: rows' => c' ← verify_row c r; verify_rows c' rows'
  end.

Definition Verify (tenant : uuid) (d : db) : result verify_error unit :=
  c ← verify_rows start (rows_of tenant d);
  match ledger_heads d !! tenant with
  | None => if (n c =? 0)%Z then Ok tt else Err MissingHead
  | Some (headSeq, headHash) =>
      if negb (headSeq =? n c)%Z || negb (seqb headHash (last c))
      then Err (HeadMismatch headSeq)
      else Ok tt
  end.

(** Two entries, and one of them altered. *)
Example ledger_run :
  let d0 := Db ["t"%go] [] ∅ in
  let d2 := d1 ← Append Some "t" "key_created" "{}" 1001 d0;
            Append Some "t" "key_revoked" "[1, 2]" 5000 d1 in
  match d2 with
  | Ok d =>
      (Verify "t" d, payload <$> rows_of "t" d,
       Verify "t" (Db (tenants d)
         ((fun r => if (seq r =? 2)%Z
                    then Row (tenant_id r) 2 (prev_hash r) (entry_hash r) (kind r) "[1]" (at_ r)
                    else r) <$> audit_ledger d) (ledger_heads d)))
  | Err _ => (Err MissingHead, [], Ok tt)
  end = (Ok tt, ["{}"; "[1,2]"]%go, Err (EntryMismatch 2)).
Proof. vm_compute. reflexivity. Qed.

End Ledger.
