(* ===== verification/LedgerSpec.v ===== *)
(** * What the audit ledger guarantees

    [Append] keeps every chain verifiable and changes one chain only; a
    verified chain is determined by its head, up to an explicit collision of
    SHA-256 in a named entry; what the hash of an entry does and does not
    separate; what [Verify] cannot see. *)

From S2P Require Import Prelude GoStd GoTime Sha256 Json JsonSpec Ledger.
Import Ledger.

(** ** The loop of [Verify] *)

Lemma verify_rows_app c l1 l2 :
  verify_rows c (l1 ++ l2) = c' ← verify_rows c l1; verify_rows c' l2.
Proof.
  revert c. induction l1 as [|r l1 IH]; intros c; [done|]. cbn [app verify_rows].
  destruct (verify_row c r) as [c'|e]; [apply IH|done].
Qed.

Lemma verify_row_Ok c r c' :
  verify_row c r = Ok c' <->
  seq r = expect c /\ prev_hash r = prev c /\
  entry_hash r = EntryHash (prev c) (kind r) (canonicalPayload (payload r)) (normalizeAt (at_ r)) /\
  c' = Cursor (entry_hash r) (wrap64 (expect c + 1)) (entry_hash r) (seq r).
Proof.
  unfold verify_row.
  destruct (Z.eqb_spec (seq r) (expect c)); cbn [negb]; [|split; [done|by intros []]].
  destruct (seqb (prev_hash r) (prev c)) eqn:E1; bool_to_prop; cbn [negb];
    [|split; [done|by intros (_ & ? & _)]].
  destruct (seqb (entry_hash r) _) eqn:E2; bool_to_prop; cbn [negb];
    [|split; [done|by intros (_ & _ & ? & _)]].
  split; [intros [= <-]; auto|by intros (_ & _ & _ & ->)].
Qed.

(** Where the loop ends after verifying the rows. *)
Definition cursor_after (rows : list row) : cursor :=
  match list.last rows with
  | None => start
  | Some r => Cursor (entry_hash r) (glen rows + 1) (entry_hash r) (glen rows)
  end.

Definition bounded (rows : list row) : Prop := (glen rows < 2 ^ 63 - 1)%Z.

Lemma wrap64_id z : (- 2 ^ 63 <= z < 2 ^ 63)%Z -> wrap64 z = z.
Proof. intros H. unfold wrap64. rewrite Z.mod_small; lia. Qed.

Lemma glen_snoc {A} (l : list A) x : glen (l ++ [x]) = (glen l + 1)%Z.
Proof. unfold glen. rewrite length_app. simpl. lia. Qed.

Lemma cursor_after_n rows : n (cursor_after rows) = glen rows /\ expect (cursor_after rows) = (glen rows + 1)%Z.
Proof.
  unfold cursor_after. destruct (list.last rows) eqn:E; [done|].
  apply last_None in E as ->. done.
Qed.

Lemma verified_cursor rows c :
  verify_rows start rows = Ok c -> bounded rows ->
  c = cursor_after rows /\ forall r, r ∈ rows -> (1 <= seq r <= glen rows)%Z.
Proof.
  revert c. induction rows as [|r rows IH] using rev_ind; intros c H Hb.
  - injection H as <-. split; [done|]. by intros r ?%elem_of_nil.
  - unfold bounded in *. rewrite glen_snoc in *.
    rewrite verify_rows_app in H. destruct (verify_rows start rows) as [c1|e]; [|done].
    destruct (IH c1 eq_refl ltac:(lia)) as [-> Hseq].
    cbn [mbind result_bind verify_rows] in H.
    destruct (verify_row (cursor_after rows) r) as [c2|e] eqn:Er; [|done].
    injection H as <-. apply verify_row_Ok in Er as (Hs & _ & _ & ->).
    destruct (cursor_after_n rows) as [_ He]. rewrite He in *.
    assert (0 <= glen rows)%Z by (unfold glen; lia).
    split.
    + unfold cursor_after at 1. rewrite last_snoc, glen_snoc, Hs. f_equal. apply wrap64_id. lia.
    + intros x [Hx | ->%list_elem_of_singleton]%elem_of_app; [apply Hseq in Hx|]; lia.
Qed.

(** ** Append *)

Lemma rows_of_elem t d r : r ∈ rows_of t d <-> r ∈ audit_ledger d /\ tenant_id r = t.
Proof. unfold rows_of. rewrite (sort_slice_perm _ _), list_elem_of_filter. tauto. Qed.

Lemma filter_snoc_ne (t : uuid) l r :
  tenant_id r <> t ->
  filter (fun x => tenant_id x = t) (l ++ [r]) = filter (fun x => tenant_id x = t) l.
Proof. intros H. rewrite filter_app, filter_cons_False, filter_nil, app_nil_r by done. done. Qed.

Lemma filter_snoc_eq (t : uuid) l r :
  tenant_id r = t ->
  filter (fun x => tenant_id x = t) (l ++ [r]) = filter (fun x => tenant_id x = t) l ++ [r].
Proof. intros H. by rewrite filter_app, filter_cons_True, filter_nil. Qed.

Lemma verified_head t d :
  Verify t d = Ok tt -> bounded (rows_of t d) ->
  verify_rows start (rows_of t d) = Ok (cursor_after (rows_of t d)) /\
  (forall r, r ∈ rows_of t d -> (1 <= seq r <= glen (rows_of t d))%Z) /\
  match ledger_heads d !! t with
  | None => rows_of t d = []
  | Some (s, h) => s = glen (rows_of t d) /\ h = last (cursor_after (rows_of t d))
  end.
Proof.
  unfold Verify. intros H Hb.
  destruct (verify_rows start (rows_of t d)) as [c|e] eqn:Ec; [|done].
  destruct (verified_cursor _ _ Ec Hb) as [-> Hs]. cbn [mbind result_bind] in H.
  destruct (cursor_after_n (rows_of t d)) as [Hn _]. rewrite Hn in H.
  split; [done|]. split; [done|].
  destruct (ledger_heads d !! t) as [[s h]|].
  - destruct (Z.eqb_spec s (glen (rows_of t d))), (seqb h (last (cursor_after (rows_of t d)))) eqn:E;
      try done. by bool_to_prop.
  - destruct (Z.eqb_spec (glen (rows_of t d)) 0) as [E|]; [|done].
    unfold glen in E. destruct (rows_of t d); [done|simpl in E; lia].
Qed.

(** The entry that [Append] adds. *)
Definition next_row (t : uuid) (k stored hashed : gostring) (at_ : time) (d : db) : row :=
  let c := cursor_after (rows_of t d) in
  Row t (glen (rows_of t d) + 1) (prev c) (EntryHash (prev c) k hashed (normalizeAt at_)) k stored
    (normalizeAt at_).

(** [Append] once the head row exists. *)
Definition append_to_head (jsonb : gostring -> option gostring) t k p at_ d1 : result sql_error db :=
  match ledger_heads d1 !! t with
  | None => Err NoRows
  | Some (sq, prev) =>
      let prev := if (sq =? 0)%Z then Zeros else prev in
      let sum := EntryHash prev k (canonicalPayload p) (normalizeAt at_) in
      let next := wrap64 (sq + 1) in
      d2 ← insert_row jsonb (Row t next prev sum k (canonicalPayload p) (normalizeAt at_)) d1;
      Ok (update_head t next sum d2)
  end.

Definition append_spec (jsonb : gostring -> option gostring) t k p at_ d : result sql_error db :=
  match jsonb (canonicalPayload p) with
  | None => Err InvalidJSON
  | Some stored =>
      let r := next_row t k stored (canonicalPayload p) at_ d in
      Ok (Db (tenants d) (audit_ledger d ++ [r]) (<[t := (seq r, entry_hash r)]> (ledger_heads d)))
  end.

Lemma append_to_head_Ok jsonb t k p at_ d d1 s h :
  bounded (rows_of t d) -> (forall r, r ∈ rows_of t d -> (1 <= seq r <= glen (rows_of t d))%Z) ->
  t ∈ tenants d -> ledger_heads d1 !! t = Some (s, h) ->
  audit_ledger d1 = audit_ledger d -> tenants d1 = tenants d ->
  s = glen (rows_of t d) -> (if (s =? 0)%Z then Zeros else h) = prev (cursor_after (rows_of t d)) ->
  (forall x, <[t := x]> (ledger_heads d1) = <[t := x]> (ledger_heads d)) ->
  append_to_head jsonb t k p at_ d1 = append_spec jsonb t k p at_ d.
Proof.
  intros Hb Hseq Ht Hd1 Ha Htn Hs Hp Hi. unfold append_to_head, append_spec.
  rewrite Hd1. cbv zeta. rewrite Hp, Hs.
  unfold bounded in Hb. assert (0 <= glen (rows_of t d))%Z by (unfold glen; lia).
  rewrite wrap64_id by lia. unfold insert_row. cbn [payload tenant_id seq].
  destruct (jsonb (canonicalPayload p)) as [stored|]; [|done]. rewrite Ha, Htn.
  replace (existsb _ (audit_ledger d)) with false.
  2: { symmetry. apply not_true_is_false. rewrite existsb_exists.
       intros (x & Hx & E). bool_to_prop. apply list_elem_of_In in Hx.
       assert (x ∈ rows_of t d) as Hin by (by apply rows_of_elem).
       apply Hseq in Hin. lia. }
  rewrite bool_decide_eq_true_2 by done. cbn [mbind result_bind]. unfold update_head.
  cbn [ledger_heads tenants audit_ledger]. by rewrite Hd1, Hi.
Qed.

Lemma Append_Ok jsonb t k p at_ d :
  Verify t d = Ok tt -> bounded (rows_of t d) -> t ∈ tenants d ->
  Append jsonb t k p at_ d = append_spec jsonb t k p at_ d.
Proof.
  intros Hv Hb Ht. destruct (verified_head t d Hv Hb) as (_ & Hseq & Hhead).
  change (Append jsonb t k p at_ d) with (d1 ← insert_head t d; append_to_head jsonb t k p at_ d1).
  unfold insert_head. destruct (ledger_heads d !! t) as [[s h]|] eqn:Eh.
  - destruct Hhead as [-> ->]. eapply append_to_head_Ok; try done.
    unfold cursor_after. destruct (list.last (rows_of t d)) as [r|] eqn:El.
    + cbn [prev last]. destruct (Z.eqb_spec (glen (rows_of t d)) 0) as [E|]; [|done].
      unfold glen in E. destruct (rows_of t d); [done|simpl in E; lia].
    + apply last_None in El as ->. done.
  - rewrite bool_decide_eq_true_2 by done.
    eapply (append_to_head_Ok _ _ _ _ _ _ _ 0%Z Zeros); try done; cbn [ledger_heads];
      rewrite ?Hhead; try done.
    + by rewrite lookup_insert_eq.
    + intros x. by rewrite insert_insert_eq.
Qed.

(** *** The chain stays verifiable *)

(** A value whose numbers are all integers of at most 2^53. *)
Fixpoint exact (v : json) : Prop :=
  match v with
  | JFloat _ => False
  | JArr l => fold_right (fun v P => exact v /\ P) True l
  | JObj m => fold_right (fun '(_, v) P => exact v /\ P) True m
  | _ => True
  end.

Lemma exact_arr l : exact (JArr l) <-> Forall exact l.
Proof.
  cbn [exact]. induction l as [|v l IH]; cbn [fold_right].
  - split; [constructor|done].
  - by rewrite IH, Forall_cons.
Qed.

Lemma exact_obj m : exact (JObj m) <-> Forall (fun kv => exact (snd kv)) m.
Proof.
  cbn [exact]. induction m as [|[k v] m IH]; cbn [fold_right].
  - split; [constructor|done].
  - by rewrite IH, Forall_cons.
Qed.

Lemma exact_normalize v : exact v -> exact (normalize v).
Proof.
  induction v as [v Hv|l IH|m IH] using json_parts_ind.
  - by destruct v.
  - rewrite exact_arr. intros Hl. cbn [normalize]. apply exact_arr.
    induction IH as [|v l Hv IH IHl]; [constructor|]. apply Forall_cons in Hl as [? ?].
    cbn [map]. constructor; auto.
  - rewrite exact_obj. intros Hm. cbn [normalize]. apply exact_obj.
    apply foldl_jinsert_keeps; [constructor|constructor|].
    induction IH as [|[k v] m Hv IH IHm]; [constructor|].
    apply Forall_cons in Hm as [Hw ?]. constructor; [by apply Hv|by apply IHm].
Qed.

(** What is relied on of the JSONB type: a document that is accepted is given
    back as some text for the same document, without repeated keys. *)
Definition jsonb_keeps (jsonb : gostring -> option gostring) : Prop :=
  forall x y v, Unmarshal x = Some v -> exact v -> jsonb x = Some y ->
    exists w, Json.Parse y = Some w /\ normalize w = v /\ unique_keys w.

Lemma jsonb_keeps_Unmarshal jsonb x y v :
  jsonb_keeps jsonb -> Unmarshal x = Some v -> exact v -> jsonb x = Some y -> Unmarshal y = Some v.
Proof.
  intros Hj Hx He Hy. destruct (Hj x y v Hx He Hy) as (w & Hw & <- & _).
  unfold Unmarshal. by rewrite Hw.
Qed.

(** A column that rewrites every document in the form [json.Marshal] gives it. *)
Definition jsonb_marshal (x : gostring) : option gostring := Marshal <$> Unmarshal x.

Lemma jsonb_marshal_keeps : jsonb_keeps jsonb_marshal.
Proof.
  intros x y v Hx _ Hy. unfold jsonb_marshal in Hy. rewrite Hx in Hy. injection Hy as <-.
  pose proof (Unmarshal_wf _ _ Hx) as Hw. exists v. split; [by apply Parse_Marshal, wf_written|].
  split; [by apply normalize_wf|by apply wf_unique_keys].
Qed.

Lemma rows_of_append t d r heads :
  tenant_id r = t -> (forall x, x ∈ rows_of t d -> (seq x < seq r)%Z) ->
  rows_of t (Db (tenants d) (audit_ledger d ++ [r]) heads) = rows_of t d ++ [r].
Proof.
  intros Ht Hs. unfold rows_of. cbn [audit_ledger]. rewrite filter_snoc_eq by done.
  apply sort_slice_snoc, Forall_forall. intros x Hx. apply Z.ltb_ge.
  enough (seq x < seq r)%Z by lia. apply Hs. unfold rows_of. by rewrite (sort_slice_perm _ _).
Qed.

Lemma canonicalPayload_Unmarshal p v :
  Unmarshal p = Some v -> Unmarshal (canonicalPayload p) = Some v.
Proof.
  intros Hp. unfold canonicalPayload. rewrite Hp. by eapply Unmarshal_Marshal, Unmarshal_wf.
Qed.

Lemma canonicalPayload_stored jsonb p v stored :
  jsonb_keeps jsonb -> Unmarshal p = Some v -> exact v ->
  jsonb (canonicalPayload p) = Some stored -> canonicalPayload stored = canonicalPayload p.
Proof.
  intros Hj Hp Hx Hst.
  pose proof (jsonb_keeps_Unmarshal _ _ _ _ Hj (canonicalPayload_Unmarshal _ _ Hp) Hx Hst) as Hu.
  unfold canonicalPayload. by rewrite Hp, Hu.
Qed.

Lemma append_chain jsonb (Hj : jsonb_keeps jsonb) t k p v stored at_ d :
  Verify t d = Ok tt -> bounded (rows_of t d) -> t ∈ tenants d ->
  Unmarshal p = Some v -> exact v -> jsonb (canonicalPayload p) = Some stored ->
  exists d', Append jsonb t k p at_ d = Ok d' /\
    Verify t d' = Ok tt /\
    (exists r, rows_of t d' = rows_of t d ++ [r] /\
       seq r = (glen (rows_of t d) + 1)%Z /\ kind r = k /\ Ledger.at_ r = normalizeAt at_ /\
       Unmarshal (payload r) = Some v /\
       prev_hash r = (match list.last (rows_of t d) with Some q => entry_hash q | None => Zeros end)) /\
    (forall t', t' <> t -> rows_of t' d' = rows_of t' d /\ Verify t' d' = Verify t' d).
Proof.
  intros Hv Hb Ht Hp Hx Hst. pose proof (Append_Ok jsonb t k p at_ d Hv Hb Ht) as HA.
  destruct (verified_head t d Hv Hb) as (Hrows & Hseq & _).
  unfold append_spec in HA. rewrite Hst in HA. cbv zeta in HA.
  set (r := next_row t k stored (canonicalPayload p) at_ d) in *.
  eexists. split; [exact HA|].
  assert (Hr : rows_of t (Db (tenants d) (audit_ledger d ++ [r])
                 (<[t:=(seq r, entry_hash r)]> (ledger_heads d))) = rows_of t d ++ [r]).
  { apply rows_of_append; [done|]. intros x Hx'. apply Hseq in Hx'. cbn [seq r next_row]. lia. }
  assert (Hstep : verify_row (cursor_after (rows_of t d)) r =
                  Ok (Cursor (entry_hash r) (wrap64 (glen (rows_of t d) + 1 + 1)) (entry_hash r) (seq r))).
  { apply verify_row_Ok. destruct (cursor_after_n (rows_of t d)) as [_ ->].
    split; [done|]. split; [done|]. split; [|done]. cbn [entry_hash r next_row payload Ledger.at_ kind].
    f_equal; [by erewrite <- canonicalPayload_stored|]. unfold normalizeAt. by rewrite Truncate_idem. }
  split; [|split].
  - unfold Verify. rewrite Hr, verify_rows_app, Hrows. cbn [mbind result_bind verify_rows].
    rewrite Hstep. cbn [mbind result_bind ledger_heads n last]. rewrite lookup_insert_eq.
    by rewrite Z.eqb_refl, seqb_refl.
  - exists r. split; [done|]. repeat split; try done.
    + cbn [payload r next_row].
      by apply (jsonb_keeps_Unmarshal jsonb (canonicalPayload p)), Hst; auto using canonicalPayload_Unmarshal.
    + cbn [prev_hash r next_row]. unfold cursor_after. by destruct (list.last (rows_of t d)).
  - intros t' Hne. assert (Ho : forall h, rows_of t' (Db (tenants d) (audit_ledger d ++ [r]) h) = rows_of t' d).
    { intros h. unfold rows_of. cbn [audit_ledger]. by rewrite filter_snoc_ne. }
    split; [apply Ho|]. unfold Verify. rewrite Ho. cbn [ledger_heads].
    by rewrite lookup_insert_ne.
Qed.

(** canonicalising a payload is idempotent, and
    two documents with the same value have the same canonical form, whatever
    their spacing, key order, escapes or repeated keys. *)
Lemma canonicalPayload_normal p :
  canonicalPayload (canonicalPayload p) = canonicalPayload p /\
  forall q v, Unmarshal p = Some v -> (Unmarshal q = Some v <-> canonicalPayload q = canonicalPayload p
                                                              /\ Unmarshal q <> None).
Proof.
  split.
  - destruct (Unmarshal p) as [v|] eqn:E.
    + pose proof (canonicalPayload_Unmarshal _ _ E) as Hc.
      unfold canonicalPayload in *. rewrite E in *. by rewrite Hc.
    + unfold canonicalPayload. rewrite E. by rewrite E.
  - intros q v Hp. unfold canonicalPayload. rewrite Hp. split.
    + by intros ->.
    + destruct (Unmarshal q) as [w|] eqn:Eq; [|by intros [_ []]]. intros [H _]. f_equal.
      apply Marshal_inj; [by eapply Unmarshal_wf..|done].
Qed.

(** C31 [append_keeps_chain]: appending to a verified ledger, of less than 2^63 - 1
    entries, succeeds whenever the tenant exists, Postgres accepts the payload and
    all numbers in it are integers of at most 2^53, written without a fraction, an
    exponent or a minus zero; the new database verifies, its chain is the old one
    plus one entry with the next number, linked to the old last entry and holding
    the same document, and no other tenant's chain or verdict changes.  (The
    condition on numbers is needed: [append_minus_zero].) *)
Theorem append_keeps_chain jsonb (Hj : jsonb_keeps jsonb) t k p v stored at_ d :
  Verify t d = Ok tt -> bounded (rows_of t d) -> t ∈ tenants d ->
  Unmarshal p = Some v -> exact v -> jsonb (canonicalPayload p) = Some stored ->
  exists d', Append jsonb t k p at_ d = Ok d' /\
    Verify t d' = Ok tt /\
    (exists r, rows_of t d' = rows_of t d ++ [r] /\
       seq r = (glen (rows_of t d) + 1)%Z /\ kind r = k /\ Ledger.at_ r = normalizeAt at_ /\
       Unmarshal (payload r) = Some v /\
       prev_hash r = (match list.last (rows_of t d) with Some q => entry_hash q | None => Zeros end)) /\
    (forall t', t' <> t -> rows_of t' d' = rows_of t' d /\ Verify t' d' = Verify t' d).
Proof. by apply append_chain. Qed.

Lemma append_keeps_chain_witness :
  exists d', Append jsonb_marshal "t" "key_created" "{}" 5 (Db ["t"%go] [] ∅) = Ok d' /\ Verify "t" d' = Ok tt.
Proof.
  destruct (append_keeps_chain jsonb_marshal jsonb_marshal_keeps "t" "key_created" "{}" (JObj []) "{}" 5
    (Db ["t"%go] [] ∅)) as (d' & H1 & H2 & _).
  - reflexivity.
  - reflexivity.
  - left.
  - vm_compute. reflexivity.
  - exact I.
  - vm_compute. reflexivity.
  - exists d'. exact (conj H1 H2).
Defined.

(** A payload that Postgres accepts and does not give back: its numbers have no minus
    zero, those of Go have. *)
Definition jsonb_numeric (x : gostring) : option gostring :=
  if seqb x (Marshal (JObj [("x", JFloat "-0")]%go)) then Some (Marshal (JObj [("x", JNum 0)]%go)) else jsonb_marshal x.

Lemma jsonb_numeric_keeps : jsonb_keeps jsonb_numeric.
Proof.
  intros x y v Hx He. unfold jsonb_numeric. destruct (seqb x _) eqn:E; [|by apply jsonb_marshal_keeps].
  apply seqb_eq in E as ->. vm_compute in Hx. injection Hx as <-. by destruct He.
Qed.

Example append_minus_zero :
  match Append jsonb_numeric "t" "k" (Marshal (JObj [("x", JFloat "-0")]%go)) 5 (Db ["t"%go] [] ∅) with
  | Ok d => Verify "t" d = Err (EntryMismatch 1)
  | Err _ => False
  end.
Proof. vm_compute. reflexivity. Qed.

(** ** A chain is determined by its head *)

(** The bytes whose hash an entry carries. *)
Definition preimage (r : row) : gostring :=
  prev_hash r ++ kind r ++ canonicalPayload (payload r) ++ FormatRFC3339Nano (normalizeAt (at_ r)).

Lemma verified_snoc l r c :
  verify_rows start (l ++ [r]) = Ok c -> bounded (l ++ [r]) ->
  verify_rows start l = Ok (cursor_after l) /\ bounded l /\
  prev_hash r = prev (cursor_after l) /\ entry_hash r = Sha256.Sum256 (preimage r) /\
  last c = entry_hash r.
Proof.
  intros H Hb. assert (Hl : bounded l) by (unfold bounded in *; rewrite glen_snoc in Hb; lia).
  rewrite verify_rows_app in H. destruct (verify_rows start l) as [c1|e] eqn:E; [|done].
  destruct (verified_cursor _ _ E Hl) as [-> _]. cbn [mbind result_bind verify_rows] in H.
  destruct (verify_row (cursor_after l) r) as [c2|e] eqn:Er; [|done]. injection H as <-.
  apply verify_row_Ok in Er as (_ & Hp & He & ->). unfold preimage.
  rewrite Hp at 2. done.
Qed.

Lemma cursor_prev_length l :
  verify_rows start l = Ok (cursor_after l) -> bounded l -> length (prev (cursor_after l)) = 32.
Proof.
  intros H Hb. destruct l as [|r l _] using rev_ind; [done|].
  destruct (verified_snoc _ _ _ H Hb) as (_ & _ & _ & He & _).
  unfold cursor_after. rewrite last_snoc. cbn [prev]. rewrite He. apply Sha256.Sum256_length.
Qed.

Lemma cursor_prev_last l l' :
  length l = length l' -> prev (cursor_after l) = prev (cursor_after l') ->
  last (cursor_after l) = last (cursor_after l').
Proof.
  intros Hl. destruct l as [|r l _] using rev_ind; destruct l' as [|r' l' _] using rev_ind;
    rewrite ?length_app in Hl; simpl in Hl; try lia; [done|].
  unfold cursor_after. by rewrite !last_snoc.
Qed.

(** Entries are numbered from one. *)
Lemma verified_seq rs c i r :
  verify_rows start rs = Ok c -> bounded rs -> rs !! i = Some r -> seq r = (Z.of_nat i + 1)%Z.
Proof.
  revert c. induction rs as [|x l IH] using rev_ind; intros c H Hb Hi; [done|].
  destruct (verified_snoc _ _ _ H Hb) as (Hl & Hbl & _).
  apply lookup_app_Some in Hi as [Hi|[Hge Hi]]; [by eapply IH|].
  apply list_lookup_singleton_Some in Hi as [Hi <-].
  rewrite verify_rows_app, Hl in H. cbn [mbind result_bind verify_rows] in H.
  destruct (verify_row (cursor_after l) x) as [c2|e] eqn:Er; [|done].
  apply verify_row_Ok in Er as (-> & _). destruct (cursor_after_n l) as [_ ->]. unfold glen. lia.
Qed.

(** The entry at which two chains part without their hashes parting. *)
Definition collision_at (rs rs' : list row) : Prop :=
  exists i r r', rs !! i = Some r /\ rs' !! i = Some r' /\
    preimage r <> preimage r' /\ Sha256.Sum256 (preimage r) = Sha256.Sum256 (preimage r').

Lemma chains_agree rs rs' c c' :
  verify_rows start rs = Ok c -> verify_rows start rs' = Ok c' -> bounded rs ->
  length rs = length rs' -> last c = last c' ->
  (forall i r r', rs !! i = Some r -> rs' !! i = Some r' ->
     prev_hash r = prev_hash r' /\ entry_hash r = entry_hash r' /\ preimage r = preimage r') \/
  collision_at rs rs'.
Proof.
  revert rs' c c'. induction rs as [|r l IH] using rev_ind; intros rs' c c' H H' Hb Hlen Hlast.
  { left. intros i r r' Hx; by rewrite lookup_nil in Hx. }
  destruct rs' as [|r' l' _] using rev_ind; [rewrite length_app in Hlen; simpl in Hlen; lia|].
  assert (Hb' : bounded (l' ++ [r'])) by (unfold bounded, glen in *; by rewrite <- Hlen).
  rewrite !length_app in Hlen. simpl in Hlen.
  destruct (verified_snoc _ _ _ H Hb) as (Hl & Hbl & Hp & He & Hc).
  destruct (verified_snoc _ _ _ H' Hb') as (Hl' & Hbl' & Hp' & He' & Hc').
  assert (Heq : entry_hash r = entry_hash r') by congruence.
  destruct (decide (preimage r = preimage r')) as [Hpre|Hpre].
  - assert (Hprev : prev_hash r = prev_hash r').
    { unfold preimage in Hpre. apply app_inj_1 in Hpre as [? _]; [done|].
      rewrite Hp, Hp', !cursor_prev_length by done. done. }
    destruct (IH l' _ _ Hl Hl' Hbl ltac:(lia)) as [Hall | (i & x & x' & Hx & Hx' & Hne)].
    { apply cursor_prev_last; [lia|congruence]. }
    + left. intros i x x' Hx Hx'.
      apply lookup_app_Some in Hx as [Hx|[Hi Hx]], Hx' as [Hx'|[Hi' Hx']].
      * by eapply Hall.
      * apply lookup_lt_Some in Hx. lia.
      * apply lookup_lt_Some in Hx'. lia.
      * apply list_lookup_singleton_Some in Hx as [_ <-], Hx' as [_ <-]. done.
    + right. exists i, x, x'. split; [by apply lookup_app_l_Some|]. split; [by apply lookup_app_l_Some|done].
  - right. exists (length l), r, r'. split; [by apply list_lookup_middle|].
    split; [apply list_lookup_middle; lia|]. split; [done|congruence].
Qed.

(** ** What an entry's hash separates *)

(** An entry of the shape the program writes: a JSON object, under a kind
    without a brace. *)
Definition object_entry (r : row) (m : list (gostring * json)) : Prop :=
  ("{"%byte ∉ kind r) /\ Unmarshal (payload r) = Some (JObj m).

Lemma split_first {A} (x : A) l1 l2 r1 r2 :
  x ∉ l1 -> x ∉ l2 -> l1 ++ x :: r1 = l2 ++ x :: r2 -> l1 = l2 /\ r1 = r2.
Proof.
  revert l2. induction l1 as [|a l1 IH]; intros [|b l2] H1 H2 E; cbn [app] in E; simplify_eq.
  - done.
  - destruct H2. left.
  - destruct H1. left.
  - rewrite not_elem_of_cons in H1, H2. destruct (IH l2) as [-> ->]; tauto.
Qed.

Lemma split_last {A} (x : A) l1 l2 r1 r2 :
  x ∉ r1 -> x ∉ r2 -> l1 ++ x :: r1 = l2 ++ x :: r2 -> l1 = l2 /\ r1 = r2.
Proof.
  intros H1 H2 E%(f_equal reverse). rewrite !reverse_app, !reverse_cons, <- !app_assoc in E.
  cbn [app] in E. apply split_first in E as [E1 E2]; [|by rewrite elem_of_reverse..].
  apply (inj reverse) in E1, E2. done.
Qed.

Definition stamp_byte (b : byte) : bool :=
  is_digit b || existsb (beq b) ["-"; ":"; "T"; "."; "Z"]%byte.

Lemma digits_stamp s :
  Forall (fun b => is_digit b = true) s -> Forall (fun b => stamp_byte b = true) s.
Proof. intros H. eapply Forall_impl; [exact H|]. intros b Hb. unfold stamp_byte. by rewrite Hb. Qed.

Lemma appendInt_stamp x w : Forall (fun b => stamp_byte b = true) (appendInt x w).
Proof.
  assert (H : appendInt x w = (if (x <? 0)%Z then ["-"%byte] else []) ++ digits_of x w) by done.
  rewrite H. apply Forall_app. split; [by destruct (x <? 0)%Z; repeat constructor|].
  apply digits_stamp, digits_of_digits.
Qed.

Lemma stamp_bytes t : Forall (fun b => stamp_byte b = true) (FormatRFC3339Nano t).
Proof.
  unfold FormatRFC3339Nano. cbv zeta.
  assert (Hf : forall z, Forall (fun b => stamp_byte b = true) (format_frac z)).
  { intros z. unfold format_frac.
    pose proof (digits_stamp _ (TrimRight_digits _ (fixed_digits_digits 9 (Z.to_N z)))) as Hd.
    destruct (TrimRight _ _); [constructor|]. by constructor. }
  repeat first [apply appendInt_stamp | apply Hf | apply Forall_app; split | by repeat constructor].
Qed.

Lemma brace_not_in_stamp t : "}"%byte ∉ FormatRFC3339Nano t.
Proof. intros H. pose proof (stamp_bytes t) as Hs. rewrite Forall_forall in Hs. by apply Hs in H. Qed.

Lemma preimage_separates r r' m m' :
  object_entry r m -> object_entry r' m' -> prev_hash r = prev_hash r' -> preimage r = preimage r' ->
  kind r = kind r' /\ m = m' /\ normalizeAt (at_ r) = normalizeAt (at_ r').
Proof.
  intros [Hk Hm] [Hk' Hm'] Hp H. unfold preimage in H. rewrite Hp in H. apply app_inv_head in H.
  unfold canonicalPayload in H. rewrite Hm, Hm' in H.
  pose proof (Unmarshal_wf _ _ Hm) as W. pose proof (Unmarshal_wf _ _ Hm') as W'.
  rewrite !Marshal_JObj, <- !app_assoc in H. cbn [app] in H.
  apply split_first in H as [-> H]; [|done..].
  apply split_last in H as [Hj Ht]; [|apply brace_not_in_stamp..].
  split; [done|]. split; [|by apply FormatRFC3339Nano_inj].
  assert (E : JObj m = JObj m'); [|by injection E].
  apply Marshal_inj; [done..|]. rewrite !Marshal_JObj. by rewrite Hj.
Qed.

(** C32 [ledger_tamper_evident]: two databases that both verify for a tenant and
    have the same head for it hold the same chain: entry by entry the same
    hashes, and for entries of the shape the program writes the same kind, the
    same document and the same instant.  The only way out is a collision of
    SHA-256 between the two versions of one entry. *)
Theorem ledger_tamper_evident t d d' h :
  Verify t d = Ok tt -> Verify t d' = Ok tt ->
  bounded (rows_of t d) -> bounded (rows_of t d') ->
  ledger_heads d !! t = Some h -> ledger_heads d' !! t = Some h ->
  length (rows_of t d) = length (rows_of t d') /\
  ((forall i r r', rows_of t d !! i = Some r -> rows_of t d' !! i = Some r' ->
      seq r = seq r' /\ prev_hash r = prev_hash r' /\ entry_hash r = entry_hash r' /\
      (forall m m', object_entry r m -> object_entry r' m' ->
         kind r = kind r' /\ m = m' /\ normalizeAt (at_ r) = normalizeAt (at_ r'))) \/
   collision_at (rows_of t d) (rows_of t d')).
Proof.
  intros Hv Hv' Hb Hb' Hh Hh'.
  destruct (verified_head t d Hv Hb) as (Hr & _ & Hhd), (verified_head t d' Hv' Hb') as (Hr' & _ & Hhd').
  rewrite Hh in Hhd. rewrite Hh' in Hhd'. destruct h as [s h].
  destruct Hhd as [-> Hl], Hhd' as [Hn Hl'].
  assert (Hlen : length (rows_of t d) = length (rows_of t d')) by (unfold glen in Hn; lia).
  split; [done|].
  destruct (chains_agree _ _ _ _ Hr Hr' Hb Hlen) as [Hall|?]; [congruence| |by right].
  left. intros i r r' Hi Hi'. destruct (Hall i r r' Hi Hi') as (Hp & He & Hpre).
  split; [|split; [done|split; [done|]]].
  - rewrite (verified_seq _ _ _ _ Hr Hb Hi), (verified_seq _ _ _ _ Hr' Hb' Hi'). done.
  - intros m m' Hm Hm'. by eapply preimage_separates.
Qed.

(** A ledger of two entries, as [Append] writes it. *)
Definition two_entries (k1 p1 k2 p2 : gostring) : db :=
  let d0 := Db ["t"%go] [] ∅ in
  match d1 ← Append jsonb_marshal "t" k1 p1 1001 d0; Append jsonb_marshal "t" k2 p2 5000 d1 with
  | Ok d => d
  | Err _ => d0
  end.

Lemma ledger_tamper_evident_witness :
  let d := two_entries "key_created" "{}" "key_revoked" "{}" in
  exists h, Verify "t" d = Ok tt /\ ledger_heads d !! "t"%go = Some h /\
    length (rows_of "t" d) = length (rows_of "t" d).
Proof.
  intros d.
  assert (Hv : Verify "t" d = Ok tt) by (vm_compute; reflexivity).
  assert (Hb : bounded (rows_of "t" d)) by (vm_compute; reflexivity).
  destruct (ledger_heads d !! "t"%go) as [h|] eqn:Hh; [|vm_compute in Hh; discriminate].
  exists h. split; [exact Hv|]. split; [reflexivity|].
  exact (proj1 (ledger_tamper_evident "t" d d h Hv Hv Hb Hb Hh Hh)).
Defined.

(** the fields are hashed without separators, so
    across kinds the hash does not tell where the kind ends: two ledgers that
    both verify, with the same head, record different kinds and documents. *)
Lemma entry_hash_ambiguous :
  exists d d', Verify "t" d = Ok tt /\ Verify "t" d' = Ok tt /\
    ledger_heads d !! "t"%go = ledger_heads d' !! "t"%go /\
    map kind (rows_of "t" d) <> map kind (rows_of "t" d') /\
    map payload (rows_of "t" d) <> map payload (rows_of "t" d').
Proof.
  exists (two_entries "job" "12" "end" "0"), (two_entries "job1" "2" "end" "0").
  vm_compute. repeat split; discriminate.
Qed.
