(* ===== verification/Merkle.v ===== *)
(** * Merkle roots and inclusion proofs (internal/ledger/merkle.go, cmd/verify)

    [MerkleRoot] and [VerifyInclusionProof] as the code computes them, the
    [proof] command of cmd/verify on top of them, and, as the specification
    of what a proof is, the path of siblings that leads from a leaf to the
    root. *)

From S2P Require Import Prelude GoStd Sha256 Json Ledger.
Import Ledger.

Module Merkle.

(** The inner loop of [MerkleRoot]: one level of the tree. *)
Fixpoint next_level (current : list gostring) : list gostring :=
  match current with
  | [] => []
  | [x] => [Sha256.Sum256 (x ++ x)]
  | x :: y :: rest => Sha256.Sum256 (x ++ y) :: next_level rest
  end.

(** The outer loop; every round halves the level, so its length is enough
    fuel. *)
Fixpoint root_loop (fuel : nat) (current : list gostring) : list gostring :=
  match fuel with
  | O => current
  | S fuel' => if 1 <? length current then root_loop fuel' (next_level current) else current
  end.

Definition MerkleRoot (leaves : list gostring) : gostring :=
  match leaves with
  | [] => Zeros
  | [x] => x
  | _ => default [] (head (root_loop (length leaves) leaves))
  end.

(** One step up a proof. *)
Definition proof_step (current : gostring) (s : gostring * bool) : gostring :=
  let '(sibling, onLeft) := s in
  if onLeft then Sha256.Sum256 (sibling ++ current) else Sha256.Sum256 (current ++ sibling).

Definition VerifyInclusionProof (leaf : gostring) (siblings : list gostring)
    (isLeft : list bool) (root : gostring) : bool :=
  if negb (length siblings =? length isLeft) then false
  else seqb (foldl proof_step leaf (zip siblings isLeft)) root.

(** ** The command [verify proof] *)

(** The siblings of [--siblings]; [None] is an invalid one. *)
Fixpoint parse_siblings (parts : list gostring) : option (list gostring) :=
  match parts with
  | [] => Some []
  | s :: rest =>
      match TrimSpace s with
      | [] => parse_siblings rest
      | s => b ← hex_decode s; bs ← parse_siblings rest; Some (b :: bs)
      end
  end.

Definition parse_directions (parts : list gostring) : list bool :=
  (fun d => seqb d "true") <$> filter (fun d => d <> []) (TrimSpace <$> parts).

(** [runProof], from the values of its flags to the exit status. *)
Definition runProof (leafHex rootHex siblingsHex directions : gostring) : Z :=
  if seqb leafHex [] || seqb rootHex [] then 2%Z
  else
    match hex_decode leafHex, hex_decode rootHex with
    | None, _ => 1%Z
    | _, None => 1%Z
    | Some leaf, Some root =>
        match (match siblingsHex with
               | [] => Some []
               | _ => parse_siblings (Split siblingsHex ","%byte)
               end) with
        | None => 1%Z
        | Some siblings =>
            let isLeft := match directions with
                          | [] => []
                          | _ => parse_directions (Split directions ","%byte)
                          end in
            if VerifyInclusionProof leaf siblings isLeft root then 0%Z else 1%Z
        end
    end.

(** ** Specification: paths *)

(** The sibling of node [i] of a level, and whether it is the left one.  The
    last node of a level of odd length is its own sibling. *)
Definition sibling (level : list gostring) (i : nat) : gostring * bool :=
  if Nat.even i then (default (default [] (level !! i)) (level !! S i), false)
  else (default [] (level !! pred i), true).

Fixpoint path (fuel : nat) (level : list gostring) (i : nat) : list (gostring * bool) :=
  match fuel with
  | O => []
  | S fuel' =>
      if 1 <? length level then sibling level i :: path fuel' (next_level level) (i / 2)
      else []
  end.

(** The path from leaf [i] of [leaves] to the root. *)
Definition inclusion_path (leaves : list gostring) (i : nat) : list (gostring * bool) :=
  path (length leaves) leaves i.

End Merkle.
