(* ===== verification/MerkleSpec.v ===== *)
(** * What a Merkle proof shows

    The path of every leaf verifies ([inclusion_complete]); a proof of the
    same shape for another leaf needs a collision of SHA-256
    ([inclusion_binding]); leaves are not told apart from inner nodes, and an
    odd last leaf from its repetition. *)

From S2P Require Import Prelude GoStd Sha256 Json JsonSpec Ledger Merkle.
Import Ledger Merkle.

(** ** Levels *)

Lemma pairs_ind (P : list gostring -> Prop) :
  P [] -> (forall x, P [x]) -> (forall x y l, P l -> P (x :: y :: l)) -> forall l, P l.
Proof.
  intros H0 H1 H2. fix IH 1. intros [|x [|y l]]; [done|apply H1|apply H2, IH].
Qed.

Lemma next_level_length l : length (next_level l) = (length l + 1) / 2.
Proof.
  induction l as [|x|x y l IH] using pairs_ind; [done..|]. cbn [next_level length]. rewrite IH.
  replace (S (S (length l)) + 1) with ((length l + 1) + 1 * 2) by lia.
  rewrite Nat.div_add by lia. lia.
Qed.

Lemma next_level_shrinks l : 1 < length l -> 0 < length (next_level l) < length l.
Proof.
  intros H. rewrite next_level_length. split.
  - apply Nat.div_str_pos. lia.
  - apply Nat.Div0.div_lt_upper_bound; lia.
Qed.

(** The parent of node [i] is the hash of the node and its sibling. *)
Lemma next_level_lookup l i x :
  l !! i = Some x -> next_level l !! (i / 2) = Some (proof_step x (sibling l i)).
Proof.
  revert i. induction l as [|y|y z l IH] using pairs_ind; intros i H; [done| |].
  - apply list_lookup_singleton_Some in H as [-> <-]. done.
  - destruct i as [|[|i]].
    + by injection H as ->.
    + by injection H as ->.
    + cbn [lookup list_lookup] in H. change (l !! i = Some x) in H.
      replace (S (S i)) with (i + 1 * 2) by lia. rewrite Nat.div_add by lia.
      replace (i / 2 + 1) with (S (i / 2)) by lia. cbn [next_level].
      change ((?a :: ?b) !! S ?n) with (b !! n). rewrite (IH i H). do 2 f_equal.
      unfold sibling. replace (i + 1 * 2) with (S (S i)) by lia. cbn [Nat.even].
      destruct (Nat.even i) eqn:E; [done|]. destruct i as [|i]; [done|]. done.
Qed.

(** The node that the loop ends with. *)
Definition top (fuel : nat) (l : list gostring) : option gostring := head (root_loop fuel l).

Lemma path_top fuel l i x :
  length l <= fuel -> l !! i = Some x ->
  top fuel l = Some (foldl proof_step x (path fuel l i)).
Proof.
  revert l i x. induction fuel as [|fuel IH]; intros l i x Hf H.
  - destruct l; [done|simpl in Hf; lia].
  - cbn [path root_loop]. unfold top. cbn [root_loop].
    destruct (Nat.ltb_spec 1 (length l)) as [Hl|Hl].
    + cbn [foldl]. apply IH.
      * pose proof (next_level_shrinks l Hl). lia.
      * by apply next_level_lookup.
    + destruct l as [|y [|z l]]; [done| |simpl in Hl; lia].
      apply list_lookup_singleton_Some in H as [-> <-]. done.
Qed.

Lemma MerkleRoot_top l : l <> [] -> top (length l) l = Some (MerkleRoot l).
Proof.
  intros H. destruct l as [|x [|y l]]; [done..|].
  assert (exists z, (x :: y :: l) !! 0 = Some z) as [z Hz] by (by eexists).
  pose proof (path_top _ _ _ _ (le_n _) Hz) as Ht. unfold top in *.
  cbn [MerkleRoot]. by rewrite Ht.
Qed.

Lemma VerifyInclusionProof_path leaf (p : list (gostring * bool)) root :
  VerifyInclusionProof leaf p.*1 p.*2 root = seqb (foldl proof_step leaf p) root.
Proof.
  unfold VerifyInclusionProof. rewrite !length_fmap, Nat.eqb_refl. cbn [negb].
  by rewrite zip_fst_snd.
Qed.

Lemma path_verifies leaves i leaf :
  leaves !! i = Some leaf ->
  let p := inclusion_path leaves i in
  VerifyInclusionProof leaf p.*1 p.*2 (MerkleRoot leaves) = true.
Proof.
  intros H p. rewrite VerifyInclusionProof_path. apply seqb_eq.
  assert (Hne : leaves <> []) by (by intros ->).
  pose proof (path_top _ _ _ _ (le_n _) H) as Ht. rewrite MerkleRoot_top in Ht by done.
  by injection Ht.
Qed.

(** for every leaf of a tree, the path of its siblings
    is a proof that [VerifyInclusionProof] accepts under [MerkleRoot]. *)
Lemma inclusion_complete leaves i leaf :
  leaves !! i = Some leaf ->
  let p := inclusion_path leaves i in
  VerifyInclusionProof leaf p.*1 p.*2 (MerkleRoot leaves) = true.
Proof. exact (path_verifies leaves i leaf). Qed.

(** ** Binding *)

Definition collision (x y : gostring) : Prop := x <> y /\ Sha256.Sum256 x = Sha256.Sum256 y.

(** The text that a proof step hashes. *)
Definition step_text (current : gostring) (s : gostring * bool) : gostring :=
  if s.2 then s.1 ++ current else current ++ s.1.

Lemma proof_step_text x s : proof_step x s = Sha256.Sum256 (step_text x s).
Proof. by destruct s as [s []]. Qed.

(** The two proofs hash different texts to the same value at one of their steps. *)
Definition proofs_collide (x y : gostring) (p q : list (gostring * bool)) : Prop :=
  exists k s t, p !! k = Some s /\ q !! k = Some t /\
    collision (step_text (foldl proof_step x (take k p)) s)
              (step_text (foldl proof_step y (take k q)) t).

Lemma step_text_inj x y s t :
  length x = 32 -> length y = 32 -> length s.1 = 32 -> length t.1 = 32 -> s.2 = t.2 ->
  step_text x s = step_text y t -> x = y /\ s = t.
Proof.
  destruct s as [s b], t as [t c]. unfold step_text. cbn [fst snd]. intros Hx Hy Hs Ht -> H.
  destruct c; apply app_inj_1 in H as [-> ->]; (lia || done).
Qed.

Lemma proof_binding x y p q :
  length x = 32 -> length y = 32 ->
  Forall (fun s => length s.1 = 32) p -> Forall (fun s => length s.1 = 32) q ->
  p.*2 = q.*2 -> foldl proof_step x p = foldl proof_step y q ->
  (x = y /\ p = q) \/ proofs_collide x y p q.
Proof.
  revert x y q. induction p as [|s p IH]; intros x y [|t q] Hx Hy Hp Hq Hd H; try done.
  { by left. }
  apply Forall_cons in Hp as [Hs Hp], Hq as [Ht Hq]. cbn [fmap list_fmap] in Hd.
  injection Hd as Hst Hd. cbn [foldl] in H.
  destruct (IH (proof_step x s) (proof_step y t) q) as [[Hstep ->] | (k & u & v & Hu & Hv & Hc)];
    [rewrite proof_step_text; apply Sha256.Sum256_length.. |done|done|done|done| |].
  - rewrite !proof_step_text in Hstep.
    destruct (decide (step_text x s = step_text y t)) as [E|E].
    + left. apply step_text_inj in E as [-> ->]; auto.
    + right. exists 0, s, t. done.
  - right. by exists (S k), u, v.
Qed.

Lemma path_directions fuel l l' i :
  length l = length l' -> (path fuel l i).*2 = (path fuel l' i).*2.
Proof.
  revert l l' i. induction fuel as [|fuel IH]; intros l l' i H; [done|]. cbn [path].
  rewrite H. destruct (1 <? length l'); [|done]. cbn [fmap list_fmap]. f_equal.
  - unfold sibling. by destruct (Nat.even i).
  - apply IH. by rewrite !next_level_length, H.
Qed.

Lemma next_level_hashes l :
  Forall (fun x => length x = 32) (next_level l).
Proof.
  induction l as [|x|x y l IH] using pairs_ind; cbn [next_level];
    repeat constructor; auto using Sha256.Sum256_length.
Qed.

Lemma path_hashes fuel l i :
  Forall (fun x => length x = 32) l -> i < length l ->
  Forall (fun s => length s.1 = 32) (path fuel l i).
Proof.
  revert l i. induction fuel as [|fuel IH]; intros l i Hl Hi; [constructor|]. cbn [path].
  destruct (Nat.ltb_spec 1 (length l)) as [H1|H1]; [|constructor].
  assert (Hat : forall j, j < length l -> length (default [] (l !! j)) = 32).
  { intros j Hj. destruct (lookup_lt_is_Some_2 l j Hj) as [x Hx]. rewrite Hx. cbn.
    by eapply (Forall_lookup_1 _ _ _ _ Hl). }
  constructor.
  - unfold sibling. destruct (Nat.even i) eqn:E; cbn [fst].
    + destruct (l !! S i) as [x|] eqn:Hx; cbn; [by eapply (Forall_lookup_1 _ _ _ _ Hl)|by apply Hat].
    + apply Hat. lia.
  - apply IH; [apply next_level_hashes|]. rewrite next_level_length.
    apply Nat.Div0.div_lt_upper_bound.
    pose proof (Nat.div_mod_eq (length l + 1) 2). pose proof (Nat.mod_upper_bound (length l + 1) 2).
    lia.
Qed.

(** C33 [inclusion_binding]: under the root of a tree of 32-byte leaves, a proof
    with the directions of position [i] and 32-byte siblings verifies for the
    leaf at [i] only, with its own path, unless it exhibits a collision of
    SHA-256 with a step of that path. *)
Theorem inclusion_binding leaves i leaf x siblings :
  Forall (fun l => length l = 32) leaves -> leaves !! i = Some leaf ->
  length x = 32 -> Forall (fun s => length s = 32) siblings ->
  let p := inclusion_path leaves i in
  VerifyInclusionProof x siblings p.*2 (MerkleRoot leaves) = true ->
  (x = leaf /\ siblings = p.*1) \/ proofs_collide x leaf (zip siblings p.*2) p.
Proof.
  intros Hl Hi Hx Hs p Hv.
  pose proof (path_verifies leaves i leaf Hi) as Hc. cbv zeta in Hc. fold p in Hc.
  rewrite VerifyInclusionProof_path in Hc. apply seqb_eq in Hc.
  unfold VerifyInclusionProof in Hv.
  destruct (Nat.eqb_spec (length siblings) (length p.*2)) as [Hlen|]; [|done].
  cbn [negb] in Hv. apply seqb_eq in Hv. rewrite <- Hc in Hv.
  assert (Hz1 : (zip siblings p.*2).*1 = siblings) by (apply fst_zip; lia).
  assert (Hz2 : (zip siblings p.*2).*2 = p.*2) by (apply snd_zip; lia).
  destruct (proof_binding x leaf (zip siblings p.*2) p) as [[-> E]|]; auto.
  - by eapply (Forall_lookup_1 _ _ _ _ Hl).
  - rewrite <- Hz1 in Hs. by apply Forall_fmap in Hs.
  - apply path_hashes; [done|]. by eapply lookup_lt_Some.
  - left. split; [done|]. by rewrite <- Hz1, E at 1.
Qed.

Lemma inclusion_binding_witness :
  let a := replicate 32 "a"%byte in let b := replicate 32 "b"%byte in
  VerifyInclusionProof b [a] [true] (MerkleRoot [a; b]) = true /\
  ((b = b /\ [a] = [a]) \/ proofs_collide b b (zip [a] [true]) [(a, true)]).
Proof.
  intros a b.
  assert (H : VerifyInclusionProof b [a] [true] (MerkleRoot [a; b]) = true)
    by (vm_compute; reflexivity).
  split; [exact H|].
  exact (inclusion_binding [a; b] 1 b b [a]
    ltac:(repeat constructor) eq_refl eq_refl ltac:(repeat constructor) H).
Defined.

(** ** What a root does not tell *)

Lemma root_loop_fuel f g l : length l <= f -> length l <= g -> root_loop f l = root_loop g l.
Proof.
  revert g l. induction f as [|f IH]; intros g l Hf Hg.
  - destruct l; [|simpl in Hf; lia]. by destruct g.
  - destruct g as [|g]; [destruct l; [done|simpl in Hg; lia]|]. cbn [root_loop].
    destruct (Nat.ltb_spec 1 (length l)) as [Hl|Hl]; [|done].
    pose proof (next_level_shrinks l Hl). apply IH; lia.
Qed.

Lemma MerkleRoot_next l :
  1 < length l -> MerkleRoot l = MerkleRoot (next_level l).
Proof.
  intros Hl. pose proof (next_level_shrinks l Hl) as Hn.
  assert (Ht : top (length l) l = top (length (next_level l)) (next_level l)).
  { unfold top. destruct (length l) as [|k] eqn:E; [lia|]. cbn [root_loop].
    rewrite E. destruct (Nat.ltb_spec 1 (S k)); [|lia]. f_equal. apply root_loop_fuel; lia. }
  rewrite !MerkleRoot_top in Ht; [by injection Ht|destruct (next_level l); simpl in *; [lia|done]|].
  destruct l; simpl in *; [lia|done].
Qed.

Lemma next_level_repeat l x :
  Nat.even (length l) = true -> next_level (l ++ [x]) = next_level (l ++ [x; x]).
Proof.
  induction l as [|y|y z l IH] using pairs_ind; intros H; [done..|].
  cbn [app next_level]. f_equal. by apply IH.
Qed.

(** the root does not determine the leaves: a tree
    with an odd number of leaves, at least three, has the root of the tree
    that repeats its last leaf, and an inner node verifies as if it were a
    leaf. *)
Lemma merkle_root_ambiguous (l : list gostring) x :
  Nat.even (length l) = true -> l <> [] ->
  MerkleRoot (l ++ [x]) = MerkleRoot (l ++ [x; x]) /\
  forall a b, VerifyInclusionProof (Sha256.Sum256 (a ++ b)) [] [] (MerkleRoot [a; b]) = true.
Proof.
  intros He Hl. split.
  - rewrite (MerkleRoot_next (l ++ [x])), (MerkleRoot_next (l ++ [x; x])).
    + by rewrite next_level_repeat.
    + rewrite length_app. simpl. lia.
    + rewrite length_app. destruct l; [done|simpl; lia].
  - intros a b. by apply seqb_eq.
Qed.

(** ** The command line *)

Definition bool_text (b : bool) : gostring := if b then "true" else "false".

Lemma Split_join (sep : byte) (l : list gostring) :
  l <> [] -> Forall (fun s => sep ∉ s) l -> Split (join [sep] l) sep = l.
Proof.
  intros Hl Hs. induction Hs as [|s l Hsep Hs IH]; [done|].
  destruct l as [|t l]; [by apply Split_no_sep|].
  change (join [sep] (s :: t :: l)) with (s ++ sep :: join [sep] (t :: l)).
  rewrite Split_app by done. by rewrite IH.
Qed.

Lemma is_hex_plain b : is_lower_hex b = true -> plain b = true /\ b <> ","%byte.
Proof. destruct b; by intros [=]. Qed.

Lemma hex_plain s : Forall (fun b => plain b = true) (hex_encode s) /\ ","%byte ∉ hex_encode s.
Proof.
  pose proof (hex_encode_hex s) as H. split.
  - eapply Forall_impl; [exact H|]. intros b Hb. by apply is_hex_plain.
  - intros Hc. rewrite Forall_forall in H. apply H in Hc. by apply (is_hex_plain _ Hc).
Qed.

Lemma parse_siblings_hex l :
  Forall (fun s => s <> []) l -> parse_siblings (hex_encode <$> l) = Some l.
Proof.
  induction 1 as [|s l Hs Hl IH]; [done|]. rewrite fmap_cons. cbn [parse_siblings].
  rewrite TrimSpace_plain by apply hex_plain.
  destruct (hex_encode s) eqn:E; [by destruct s|]. rewrite <- E, hex_decode_encode.
  cbn [mbind option_bind]. by rewrite IH.
Qed.

Lemma parse_directions_text l : parse_directions (bool_text <$> l) = l.
Proof.
  unfold parse_directions. induction l as [|b l IH]; [done|]. rewrite !fmap_cons.
  assert (TrimSpace (bool_text b) = bool_text b) as -> by (by destruct b).
  rewrite filter_cons_True by (by destruct b). rewrite fmap_cons, IH. by destruct b.
Qed.

Lemma join_nonempty sep l : Forall (fun s => s <> []) l -> l <> [] -> join sep l <> [].
Proof.
  intros H Hl. destruct H as [|s l Hs H]; [done|]. rewrite join_cons. by destruct s.
Qed.

Lemma proof_hash_length x q : length x = 32 -> length (foldl proof_step x q) = 32.
Proof.
  revert x. induction q as [|s q IH]; intros x Hx; [done|]. apply IH.
  rewrite proof_step_text. apply Sha256.Sum256_length.
Qed.

(** the command [verify proof] exits with status 0 when it
    is given, in the formats its flags document, a 32-byte leaf of a tree, the
    tree's root and the leaf's path. *)
Lemma runProof_honest leaves i leaf :
  Forall (fun l => length l = 32) leaves -> leaves !! i = Some leaf ->
  let p := inclusion_path leaves i in
  runProof (hex_encode leaf) (hex_encode (MerkleRoot leaves))
    (join "," (hex_encode <$> p.*1)) (join "," (bool_text <$> p.*2)) = 0%Z.
Proof.
  intros Hl Hi p.
  pose proof (path_verifies leaves i leaf Hi) as Hv. cbv zeta in Hv. fold p in Hv.
  assert (Hleaf : length leaf = 32) by (by eapply (Forall_lookup_1 _ _ _ _ Hl)).
  assert (Hroot : length (MerkleRoot leaves) = 32).
  { rewrite VerifyInclusionProof_path in Hv. apply seqb_eq in Hv. rewrite <- Hv.
    by apply proof_hash_length. }
  assert (Hp : Forall (fun s => s <> []) p.*1).
  { apply Forall_fmap. eapply Forall_impl; [eapply path_hashes; [exact Hl|by eapply lookup_lt_Some]|].
    intros s Hs E. cbn in Hs. by rewrite E in Hs. }
  assert (Hne : forall s, length s = 32 -> seqb (hex_encode s) [] = false).
  { intros s Hs. apply seqb_neq. intros E%(f_equal length). rewrite hex_encode_length in E. simpl in E. lia. }
  unfold runProof. rewrite !Hne by done. cbn [orb]. rewrite !hex_decode_encode.
  destruct p as [|s p']; [cbn [fmap list_fmap join] in Hv |- *; by rewrite Hv|]. set (q := s :: p') in *.
  assert (Hq1 : Forall (fun s => s <> []) (hex_encode <$> q.*1)).
  { apply Forall_fmap. eapply Forall_impl; [exact Hp|]. intros [|b u] Hs; [done|]. done. }
  assert (Hq2 : Forall (fun s => s <> []) (bool_text <$> q.*2))
    by (apply Forall_fmap, Forall_true; by intros []).
  pose proof (join_nonempty "," _ Hq1 ltac:(done)) as J1.
  pose proof (join_nonempty "," _ Hq2 ltac:(done)) as J2.
  destruct (join "," (hex_encode <$> q.*1)) as [|b1 u1] eqn:E1; [done|].
  destruct (join "," (bool_text <$> q.*2)) as [|b2 u2] eqn:E2; [done|].
  rewrite <- E1, <- E2. rewrite !Split_join; try done.
  - rewrite parse_siblings_hex, parse_directions_text by done. by rewrite Hv.
  - apply Forall_fmap, Forall_true. intros b. by apply (bool_decide_unpack _); destruct b.
  - apply Forall_fmap, Forall_true. intros x. apply hex_plain.
Qed.
