(* ===== verification/Decode.v ===== *)
(** * Decoding JSON into Go structs, as [encoding/json] does

    Which field a key names, and the decoding of the field types the program
    uses.  [None] is the [UnmarshalTypeError] (or, with
    [DisallowUnknownFields], the unknown-field error) that the call returns. *)

From S2P Require Import Prelude GoStd Json.

(** [foldName]: letters up to case, with the two other runes that fold to ASCII
    letters (the long s and the kelvin sign). *)
Fixpoint fold_name (s : gostring) : gostring :=
  match s with
  | [] => []
  | a :: s1 =>
      match s1 with
      | b :: s2 =>
          if beq a Byte.xc5 && beq b Byte.xbf then "s"%byte :: fold_name s2
          else match s2 with
               | c :: s3 =>
                   if beq a Byte.xe2 && beq b Byte.x84 && beq c Byte.xaa
                   then "k"%byte :: fold_name s3
                   else to_lower_byte a :: fold_name s1
               | [] => to_lower_byte a :: fold_name s1
               end
      | [] => to_lower_byte a :: fold_name s1
      end
  end.

(** The field that a key selects: the one of that name, or else the first one
    whose name is the same up to case. *)
Definition field_of (names : list gostring) (key : gostring) : option gostring :=
  if existsb (seqb key) names then Some key
  else find (fun n => seqb (fold_name n) (fold_name key)) names.

(** Decoding into a field that holds [cur]: [null] leaves it alone. *)
Definition set_string (cur : gostring) (v : json) : option gostring :=
  match v with JNull => Some cur | JStr s => Some s | _ => None end.

Definition set_int (cur : Z) (v : json) : option Z :=
  match v with JNull => Some cur | JNum z => Some z | JFloat lit => Atoi lit | _ => None end.

(** Decoding into a fresh slice of strings. *)
Definition set_strings (cur : list gostring) (v : json) : option (list gostring) :=
  match v with
  | JNull => Some []
  | JArr l => mapM (set_string []) l
  | _ => None
  end.

Section struct.
Context {A : Type} (names : list gostring) (set_field : gostring -> A -> json -> option A).

Fixpoint set_members (strict : bool) (cur : A) (m : list (gostring * json)) : option A :=
  match m with
  | [] => Some cur
  | (k, v) :: m' =>
      match field_of names k with
      | None => if strict then None else set_members strict cur m'
      | Some f => cur' ← set_field f cur v; set_members strict cur' m'
      end
  end.

(** Decoding a value into a struct that holds [cur]. *)
Definition set_struct (strict : bool) (cur : A) (v : json) : option A :=
  match v with
  | JNull => Some cur
  | JObj m => set_members strict cur m
  | _ => None
  end.
End struct.
