(* ===== verification/Policy.v ===== *)
(** * Tenant policies (internal/policy, internal/policystore)

    The policy document, its validation, and the store: one row per tenant
    whose version counts the writes, each write also an entry of the audit
    ledger. *)

From S2P Require Import Prelude GoStd GoTime Json Decode Detect Ledger.

Module Policy.

Record Doc := MkDoc {
  Version : Z;
  Detectors : list Kind;
  Mode : gostring;
  FailPolicy : gostring;
  MaxInlineBytes : Z;
}.

Definition Default : Doc :=
  MkDoc 0 [KindEmail; KindPhoneUS; KindSSN] ModeRedact "closed" 65536.

Definition knownKinds : list Kind :=
  [KindEmail; KindPhoneUS; KindPhoneIN; KindSSN; KindAadhaar; KindPAN].

(** ** JSON *)

Definition doc_fields : list gostring :=
  ["version"; "detectors"; "mode"; "failPolicy"; "maxInlineBytes"].

Definition set_doc_field (f : gostring) (d : Doc) (v : json) : option Doc :=
  if seqb f "version" then
    x ← set_int (Version d) v; Some (MkDoc x (Detectors d) (Mode d) (FailPolicy d) (MaxInlineBytes d))
  else if seqb f "detectors" then
    x ← set_strings (Detectors d) v; Some (MkDoc (Version d) x (Mode d) (FailPolicy d) (MaxInlineBytes d))
  else if seqb f "mode" then
    x ← set_string (Mode d) v; Some (MkDoc (Version d) (Detectors d) x (FailPolicy d) (MaxInlineBytes d))
  else if seqb f "failPolicy" then
    x ← set_string (FailPolicy d) v; Some (MkDoc (Version d) (Detectors d) (Mode d) x (MaxInlineBytes d))
  else
    x ← set_int (MaxInlineBytes d) v;
    Some (MkDoc (Version d) (Detectors d) (Mode d) (FailPolicy d) x).

Definition zero_doc : Doc := MkDoc 0 [] [] [] 0.

Definition decode_doc (strict : bool) (v : json) : option Doc :=
  set_struct doc_fields set_doc_field strict zero_doc v.

(** [json.Marshal(doc)]: the fields in the order of the struct. *)
Definition doc_json (d : Doc) : json :=
  JObj [("version", JNum (Version d)); ("detectors", JArr (JStr <$> Detectors d));
        ("mode", JStr (Mode d)); ("failPolicy", JStr (FailPolicy d));
        ("maxInlineBytes", JNum (MaxInlineBytes d))]%go.

(** ** [Parse] *)

(** [*FieldError]: the name of the offending field. *)
Definition FieldError := gostring.

Definition Parse (raw : gostring) : result FieldError Doc :=
  match v ← ParsePrefix raw; decode_doc true v with
  | None => Err "detectors"%go
  | Some doc =>
      if length (Detectors doc) =? 0 then Err "detectors"%go
      else if existsb (fun kind => negb (existsb (seqb kind) knownKinds)) (Detectors doc)
      then Err "detectors"%go
      else if negb (seqb (Mode doc) ModeRedact) && negb (seqb (Mode doc) ModePartial)
      then Err "mode"%go
      else if negb (seqb (FailPolicy doc) "closed") && negb (seqb (FailPolicy doc) "inline")
              && negb (seqb (FailPolicy doc) "open")
      then Err "failPolicy"%go
      else if (MaxInlineBytes doc <? 1)%Z then Err "maxInlineBytes"%go
      else Ok doc
  end.

(** ** The store *)

(** The row of [tenant_policies]: version and document. *)
Record store := Store {
  policies : gmap gostring (Z * gostring);
  audit : Ledger.db;
}.

Inductive store_error :=
| BadDocument
| Sql (e : Ledger.sql_error).

Section store.
Context (jsonb : gostring -> option gostring).

(** [Load]: the document, and whether the tenant has one. *)
Definition Load (s : store) (tenant : gostring) : result store_error (Doc * bool) :=
  match policies s !! tenant with
  | None => Ok (Default, false)
  | Some (version, raw) =>
      match v ← Json.Parse raw; decode_doc false v with
      | None => Err BadDocument
      | Some doc =>
          Ok (MkDoc version (Detectors doc) (Mode doc) (FailPolicy doc) (MaxInlineBytes doc), true)
      end
  end.

Definition with_version (version : Z) (d : Doc) : Doc :=
  MkDoc version (Detectors d) (Mode d) (FailPolicy d) (MaxInlineBytes d).

(** [Put], in a transaction; [now] is [time.Now()]. *)
Definition Put (tenant : gostring) (doc : Doc) (now : time) (s : store)
    : result store_error (Doc * store) :=
  let doc := with_version 0 doc in
  match jsonb (Marshal (doc_json doc)) with
  | None => Err (Sql Ledger.InvalidJSON)
  | Some body =>
      if negb (bool_decide (tenant ∈ Ledger.tenants (audit s))) then Err (Sql Ledger.ForeignKey)
      else
        let version := match policies s !! tenant with
                       | None => 1%Z
                       | Some (v, _) => (v + 1)%Z
                       end in
        if (2147483647 <? version)%Z then Err (Sql Ledger.OutOfRange) else
        let s1 := Store (<[tenant := (version, body)]> (policies s)) (audit s) in
        let doc := with_version version doc in
        match jsonb (Marshal (doc_json doc)) with
        | None => Err (Sql Ledger.InvalidJSON)
        | Some stored =>
            let s2 := Store (<[tenant := (version, stored)]> (policies s1)) (audit s1) in
            match Ledger.Append jsonb tenant "policy_changed" (Marshal (doc_json doc)) now (audit s2) with
            | Err e => Err (Sql e)
            | Ok l => Ok (doc, Store (policies s2) l)
            end
        end
  end.
End store.

Example Parse_example :
  Parse (Marshal (doc_json (MkDoc 7 [KindEmail; KindPAN] "partial" "open" 10)) ++ " trailing") =
  Ok (MkDoc 7 [KindEmail; KindPAN] "partial" "open" 10).
Proof. vm_compute. reflexivity. Qed.

End Policy.
