(* ===== verification/PolicySpec.v ===== *)
(** * Tenant policies: what is accepted and what is stored

    [Parse] accepts exactly the valid documents; what [Put] stores, [Load] gives
    back, under the next version number and with an entry in the tenant's
    chain. *)

From S2P Require Import Prelude GoStd GoTime Json JsonSpec Decode Detect Ledger LedgerSpec Policy.
Import Ledger Policy.

(** ** Validity *)

Definition valid_doc (d : Doc) : Prop :=
  Detectors d <> [] /\ Forall (fun k => k ∈ knownKinds) (Detectors d) /\
  (Mode d = ModeRedact \/ Mode d = ModePartial) /\
  (FailPolicy d = "closed"%go \/ FailPolicy d = "inline"%go \/ FailPolicy d = "open"%go) /\
  (1 <= MaxInlineBytes d)%Z.

Lemma existsb_seqb k l : existsb (seqb k) l = true <-> k ∈ l.
Proof.
  rewrite existsb_exists. split.
  - intros (x & Hx & ->%seqb_eq). by apply list_elem_of_In.
  - intros H. exists k. split; [by apply list_elem_of_In|apply seqb_refl].
Qed.

Lemma known_all l :
  existsb (fun kind => negb (existsb (seqb kind) knownKinds)) l = false <->
  Forall (fun k => k ∈ knownKinds) l.
Proof.
  induction l as [|k l IH]; [by split; constructor|]. cbn [existsb].
  rewrite orb_false_iff, IH, Forall_cons, negb_false_iff, existsb_seqb. done.
Qed.

(** Whatever decodes is checked as [valid_doc] says. *)
Lemma Parse_checks raw d :
  (v ← ParsePrefix raw; decode_doc true v) = Some d ->
  (exists f, Policy.Parse raw = Err f /\ ~ valid_doc d) \/ (Policy.Parse raw = Ok d /\ valid_doc d).
Proof.
  intros H. unfold Policy.Parse. rewrite H. unfold valid_doc.
  destruct (Nat.eqb_spec (length (Detectors d)) 0) as [E|E].
  { left. eexists. split; [done|]. intros [Hn _]. by destruct (Detectors d). }
  assert (Detectors d <> []) by (intros E'; apply E; by rewrite E').
  destruct (existsb _ (Detectors d)) eqn:Ek.
  { left. eexists. split; [done|]. intros (_ & Hk & _). apply known_all in Hk. congruence. }
  apply known_all in Ek.
  destruct (seqb (Mode d) ModeRedact) eqn:E1, (seqb (Mode d) ModePartial) eqn:E2; cbn [negb andb];
    bool_to_prop; try (left; eexists; split; [done|tauto]).
  all: destruct (seqb (FailPolicy d) "closed") eqn:E3, (seqb (FailPolicy d) "inline") eqn:E4,
      (seqb (FailPolicy d) "open") eqn:E5; cbn [negb andb]; bool_to_prop;
      try (left; eexists; split; [done|tauto]).
  all: destruct (Z.ltb_spec (MaxInlineBytes d) 1); [left; eexists; split; [done|]; lia|right; tauto].
Qed.

(** ** The JSON form *)

Lemma ascii_valid s : forallb (in_range Byte.x00 Byte.x7f) s = true -> valid_utf8 s.
Proof.
  induction s as [|b s IH]; [constructor|]. cbn [forallb]. intros [Hb Hs]%andb_true_iff.
  apply valid_cons_ascii; auto.
Qed.

Lemma known_valid k : k ∈ knownKinds -> valid_utf8 k.
Proof.
  intros H. apply ascii_valid. revert H. unfold knownKinds.
  rewrite !elem_of_cons, elem_of_nil. by intros [-> | [-> | [-> | [-> | [-> | [-> | []]]]]]].
Qed.

Definition small (d : Doc) : Prop :=
  (Z.abs (Version d) <= 2 ^ 53)%Z /\ (Z.abs (MaxInlineBytes d) <= 2 ^ 53)%Z.

Lemma doc_json_written d : valid_doc d -> small d -> written (doc_json d).
Proof.
  intros (_ & Hk & Hm & Hf & _) [Hv Hx]. unfold doc_json. apply written_obj.
  assert (valid_utf8 (Mode d)) by (apply ascii_valid; by destruct Hm as [-> | ->]).
  assert (valid_utf8 (FailPolicy d)) by (apply ascii_valid; by destruct Hf as [-> | [-> | ->]]).
  repeat constructor; cbn [fst snd]; try (by apply ascii_valid); try done.
  apply written_arr, Forall_fmap. eapply Forall_impl; [exact Hk|]. intros k. apply known_valid.
Qed.

Lemma set_strings_JStr ds cur : set_strings cur (JArr (JStr <$> ds)) = Some ds.
Proof.
  cbn [set_strings]. induction ds as [|d ds IH]; [done|]. rewrite fmap_cons. cbn [mapM set_string].
  cbn [mbind option_bind]. by rewrite IH.
Qed.

Lemma decode_doc_json strict d : decode_doc strict (doc_json d) = Some d.
Proof.
  unfold decode_doc, doc_json. cbn [set_struct]. destruct d as [v ds m f x].
  cbn [Version Detectors Mode FailPolicy MaxInlineBytes]. set (dets := JArr (JStr <$> ds)).
  assert (H : forall cur, set_strings cur dets = Some ds) by apply set_strings_JStr.
  assert (Hd : forall d, set_doc_field "detectors" d dets =
            Some (MkDoc (Version d) ds (Mode d) (FailPolicy d) (MaxInlineBytes d))).
  { intros d. change (set_doc_field "detectors" d dets) with
      (y ← set_strings (Detectors d) dets;
       Some (MkDoc (Version d) y (Mode d) (FailPolicy d) (MaxInlineBytes d))). by rewrite H. }
  clearbody dets.
  change ((y ← set_doc_field "detectors" (MkDoc v [] [] [] 0) dets;
    set_members doc_fields set_doc_field strict y
      [("mode", JStr m); ("failPolicy", JStr f); ("maxInlineBytes", JNum x)]%go) =
    Some (MkDoc v ds m f x)).
  by rewrite Hd.
Qed.

Lemma Parse_valid raw d : Policy.Parse raw = Ok d -> valid_doc d.
Proof.
  intros H. destruct (v ← ParsePrefix raw; decode_doc true v) as [d'|] eqn:E.
  - destruct (Parse_checks _ _ E) as [(f & Hf & _)|[Hd Hv]]; congruence.
  - unfold Policy.Parse in H. by rewrite E in H.
Qed.

(** The JSON form of a document is read back, whatever follows it. *)
Lemma Parse_doc_json d rest : valid_doc d -> small d -> stop rest -> Policy.Parse (Marshal (doc_json d) ++ rest) = Ok d.
Proof.
  intros Hv Hs Hr.
  assert (E : (v ← ParsePrefix (Marshal (doc_json d) ++ rest); decode_doc true v) = Some d).
  { unfold ParsePrefix. destruct (parse_Marshal (S (length (Marshal (doc_json d) ++ rest)))) as [H _].
    rewrite H; [apply decode_doc_json|by apply doc_json_written|done|].
    rewrite length_app. lia. }
  destruct (Parse_checks _ _ E) as [(f & _ & Hn)|[Hd _]]; [done|exact Hd].
Qed.

(** [Parse] accepts exactly the valid documents: it
    never returns a document with no or unknown detectors, a mode other than
    redact and partial, an unknown fail policy or a limit below one, and the
    JSON form of every valid document (of exactly representable numbers), with
    anything after it, parses to that document. *)
Lemma policy_parse_exact :
  (forall raw d, Policy.Parse raw = Ok d -> valid_doc d) /\
  (forall d rest, valid_doc d -> small d -> stop rest -> Policy.Parse (Marshal (doc_json d) ++ rest) = Ok d).
Proof.
  split; [exact Parse_valid|exact Parse_doc_json].
Qed.

(** no document that [Parse] accepts enables the
    credit-card or the IP detector, which [Scan] implements. *)
Lemma policy_never_cards raw d :
  Policy.Parse raw = Ok d -> (KindCreditCard ∉ Detectors d) /\ (KindIP ∉ Detectors d).
Proof.
  intros H. apply Parse_valid in H as (_ & Hk & _). rewrite Forall_forall in Hk.
  split; intros Hin%Hk; revert Hin; apply (bool_decide_unpack _); vm_compute; done.
Qed.

(** ** The order of members does not matter *)

Lemma field_of_known f : f ∈ doc_fields -> field_of doc_fields f = Some f.
Proof. intros H. unfold field_of. apply existsb_seqb in H. by rewrite H. Qed.

(** What decoding one member does to the document. *)
Inductive update :=
| UVersion (x : option Z)
| UDetectors (x : list gostring)
| UMode (x : option gostring)
| UFailPolicy (x : option gostring)
| UMaxInlineBytes (x : option Z).

Definition tag (u : update) : gostring :=
  match u with
  | UVersion _ => "version"
  | UDetectors _ => "detectors"
  | UMode _ => "mode"
  | UFailPolicy _ => "failPolicy"
  | UMaxInlineBytes _ => "maxInlineBytes"
  end.

Definition run_update (u : update) (d : Doc) : Doc :=
  let '(MkDoc v ds m f x) := d in
  match u with
  | UVersion y => MkDoc (default v y) ds m f x
  | UDetectors y => MkDoc v y m f x
  | UMode y => MkDoc v ds (default m y) f x
  | UFailPolicy y => MkDoc v ds m (default f y) x
  | UMaxInlineBytes y => MkDoc v ds m f (default x y)
  end.

Lemma run_update_comm u w d :
  tag u <> tag w -> run_update u (run_update w d) = run_update w (run_update u d).
Proof. by destruct u, w, d. Qed.

Definition int_value (v : json) : option (option Z) :=
  match v with
  | JNull => Some None | JNum z => Some (Some z) | JFloat lit => Some <$> Atoi lit | _ => None
  end.
Definition string_value (v : json) : option (option gostring) :=
  match v with JNull => Some None | JStr s => Some (Some s) | _ => None end.

Lemma set_int_value c v : set_int c v = default c <$> int_value v.
Proof. destruct v; try done. cbn. by destruct (Atoi lit). Qed.
Lemma set_string_value c v : set_string c v = default c <$> string_value v.
Proof. by destruct v. Qed.

Definition update_of (f : gostring) (v : json) : option update :=
  if seqb f "version" then UVersion <$> int_value v
  else if seqb f "detectors" then UDetectors <$> set_strings [] v
  else if seqb f "mode" then UMode <$> string_value v
  else if seqb f "failPolicy" then UFailPolicy <$> string_value v
  else UMaxInlineBytes <$> int_value v.

Lemma set_doc_field_update f d v :
  set_doc_field f d v = (fun u => run_update u d) <$> update_of f v.
Proof.
  unfold set_doc_field, update_of. destruct d as [x ds m p y].
  rewrite !set_int_value, !set_string_value.
  assert (set_strings ds v = set_strings [] v) as E by (by destruct v).
  cbn [Version Detectors Mode FailPolicy MaxInlineBytes]. rewrite E.
  repeat case_match; try (destruct (int_value v)); try (destruct (string_value v));
    try (destruct (set_strings [] v)); done.
Qed.

Lemma update_of_tag f v u : f ∈ doc_fields -> update_of f v = Some u -> tag u = f.
Proof.
  intros Hf. unfold doc_fields in Hf. rewrite !elem_of_cons, elem_of_nil in Hf.
  unfold update_of.
  destruct Hf as [-> | [-> | [-> | [-> | [-> | []]]]]]; cbn [seqb];
    repeat (rewrite (bool_decide_eq_false_2 (_ = _)) by discriminate);
    try (rewrite (bool_decide_eq_true_2 (_ = _)) by reflexivity).
  all: intros H; apply fmap_Some in H as (x & _ & ->); done.
Qed.

Lemma set_members_perm strict d m m' :
  Forall (fun f => f ∈ doc_fields) m.*1 -> NoDup m.*1 -> m ≡ₚ m' ->
  set_members doc_fields set_doc_field strict d m = set_members doc_fields set_doc_field strict d m'.
Proof.
  intros Hf Hd Hp. revert d Hf Hd.
  induction Hp as [|[f v] m m' Hp IH|[f v] [g w] m|m1 m2 m3 Hp1 IH1 Hp2 IH2]; intros d Hf Hd.
  - done.
  - rewrite fmap_cons in Hf, Hd. apply Forall_cons in Hf as [Hf Hm].
    apply NoDup_cons in Hd as [_ Hd]. cbn [set_members fst] in *.
    rewrite field_of_known by done. destruct (set_doc_field f d v) as [d'|]; [|done].
    cbn [mbind option_bind]. by apply IH.
  - rewrite !fmap_cons in Hf, Hd. apply Forall_cons in Hf as [Hg Hf], Hf as [Hf _].
    apply NoDup_cons in Hd as [Hne _]. cbn [fst] in *. rewrite not_elem_of_cons in Hne.
    cbn [set_members]. rewrite !field_of_known by done.
    rewrite !set_doc_field_update.
    destruct (update_of f v) as [u|] eqn:Eu, (update_of g w) as [x|] eqn:Ex; cbn; try done;
      rewrite !set_doc_field_update, ?Eu, ?Ex; cbn; try done.
    rewrite run_update_comm; [done|].
    rewrite (update_of_tag _ _ _ Hf Eu), (update_of_tag _ _ _ Hg Ex).
    destruct Hne as [Hne _]. congruence.
  - rewrite IH1 by done. apply IH2; by rewrite <- Hp1.
Qed.

Lemma update_of_normalize f v : update_of f (normalize v) = update_of f v.
Proof.
  unfold update_of. assert (int_value (normalize v) = int_value v) as -> by (by destruct v).
  assert (string_value (normalize v) = string_value v) as -> by (by destruct v).
  assert (set_strings [] (normalize v) = set_strings [] v) as ->; [|done].
  destruct v as [| | | | |l|]; try done. cbn [normalize set_strings].
  induction l as [|x l IH]; [done|]. cbn [map mapM].
  assert (set_string [] (normalize x) = set_string [] x) as -> by (by destruct x).
  by rewrite IH.
Qed.

Lemma set_members_normalize strict d m :
  set_members doc_fields set_doc_field strict d ((fun '(k, v) => (k, normalize v)) <$> m) =
  set_members doc_fields set_doc_field strict d m.
Proof.
  revert d. induction m as [|[k v] m IH]; intros d; [done|]. rewrite fmap_cons. cbn [set_members].
  destruct (field_of doc_fields k) as [f|]; [|by destruct strict].
  rewrite !set_doc_field_update, update_of_normalize.
  destruct (update_of f v) as [u|]; cbn; [apply IH|done].
Qed.

(** Any text for the same document decodes to the same policy. *)
Lemma decode_doc_same strict d w :
  normalize w = normalize (doc_json d) -> unique_keys w -> decode_doc strict w = Some d.
Proof.
  intros Hn Hu. rewrite <- (decode_doc_json strict d). unfold decode_doc, doc_json in *.
  set (m := [_; _; _; _; _]) in *.
  destruct w as [| | | | | |mw]; try done. cbn [set_struct].
  assert (Hm : NoDup m.*1) by (by apply (bool_decide_unpack _)).
  assert (Hf : Forall (fun f => f ∈ doc_fields) m.*1)
    by (apply Forall_forall; intros f Hf; exact Hf).
  destruct (normalize (JObj m)) as [| | | | | |r] eqn:Er; try done.
  pose proof (normalize_obj_perm _ _ (proj1 Hu) Hn) as P1.
  pose proof (normalize_obj_perm _ _ Hm Er) as P2. rewrite <- P2 in P1.
  assert (K : forall l : list (gostring * json), ((fun '(k, v) => (k, normalize v)) <$> l).*1 = l.*1).
  { induction l as [|[k v] l IH]; [done|]. rewrite !fmap_cons. by rewrite IH. }
  rewrite <- (set_members_normalize strict zero_doc mw), <- (set_members_normalize strict zero_doc m).
  symmetry. apply set_members_perm; rewrite ?K; done.
Qed.

(** ** The store *)

Lemma doc_json_Unmarshal d :
  valid_doc d -> small d -> Unmarshal (Marshal (doc_json d)) = Some (normalize (doc_json d)).
Proof.
  intros Hv Hs. unfold Unmarshal. rewrite Parse_Marshal by (by apply doc_json_written). done.
Qed.

Lemma doc_json_exact d : exact (doc_json d).
Proof.
  unfold doc_json. apply exact_obj. repeat constructor. cbn [snd]. apply exact_arr, Forall_fmap.
  by apply Forall_true.
Qed.

(** Reading back a stored document. *)
Lemma stored_decode jsonb d stored :
  jsonb_keeps jsonb -> valid_doc d -> small d -> jsonb (Marshal (doc_json d)) = Some stored ->
  (v ← Json.Parse stored; decode_doc false v) = Some d.
Proof.
  intros Hj Hv Hs Hst.
  destruct (Hj _ _ _ (doc_json_Unmarshal d Hv Hs) (exact_normalize _ (doc_json_exact d)) Hst)
    as (w & -> & Hn & Hu).
  by apply decode_doc_same.
Qed.

(** What a successful [Put] did. *)
Lemma Put_Ok jsonb t doc now s doc' s' :
  (forall v raw, policies s !! t = Some (v, raw) -> (0 <= v)%Z) -> Put jsonb t doc now s = Ok (doc', s') ->
  let version := (match policies s !! t with None => 1 | Some (v, _) => v + 1 end)%Z in
  doc' = with_version version doc /\ (1 <= version <= 2147483647)%Z /\ t ∈ tenants (audit s) /\
  (exists stored, jsonb (Marshal (doc_json doc')) = Some stored /\ policies s' = <[t := (version, stored)]> (policies s)) /\
  Append jsonb t "policy_changed" (Marshal (doc_json doc')) now (audit s) = Ok (audit s').
Proof.
  intros Hpos HP version. unfold Put in HP.
  destruct (jsonb (Marshal (doc_json (with_version 0 doc)))) as [body|]; [|done].
  destruct (bool_decide (t ∈ tenants (audit s))) eqn:Ht; [|done]. cbn [negb] in HP.
  fold version in HP. destruct (Z.ltb_spec 2147483647 version) as [|Hmax]; [done|]. cbv zeta in HP.
  change (with_version version (with_version 0 doc)) with (with_version version doc) in HP.
  destruct (jsonb (Marshal (doc_json (with_version version doc)))) as [stored|] eqn:Hst; [|done].
  cbn [policies audit] in HP. destruct (Append _ _ _ _ _ _) as [l|e] eqn:HA; [|done].
  injection HP as <- <-. cbn [policies audit]. rewrite insert_insert_eq. bool_to_prop.
  assert (1 <= version)%Z; [|by repeat split; [..|by exists stored|]].
  unfold version. destruct (policies s !! t) as [[v raw]|] eqn:E; [|lia]. specialize (Hpos v raw eq_refl). lia.
Qed.

(** storing a valid document gives it the next version of
    the tenant's policy (one for the first), [Load] then returns exactly that
    document, no other tenant's policy changes, and the tenant's audit chain
    still verifies and ends with an entry that records the stored document. *)
Lemma policy_put_load jsonb (Hj : jsonb_keeps jsonb) t doc now s doc' s' :
  valid_doc doc -> small doc ->
  (forall v raw, policies s !! t = Some (v, raw) -> (0 <= v)%Z) ->
  Put jsonb t doc now s = Ok (doc', s') ->
  let version := (match policies s !! t with None => 1 | Some (v, _) => v + 1 end)%Z in
  doc' = with_version version doc /\ (1 <= version <= 2147483647)%Z /\
  Load s' t = Ok (doc', true) /\
  (forall t', t' <> t -> Load s' t' = Load s t') /\
  (Verify t (audit s) = Ok tt -> bounded (rows_of t (audit s)) ->
   Verify t (audit s') = Ok tt /\
   exists r, rows_of t (audit s') = rows_of t (audit s) ++ [r] /\ kind r = "policy_changed"%go /\
     Unmarshal (payload r) = Some (normalize (doc_json doc'))).
Proof.
  intros Hv [_ Hx] Hpos HP version.
  destruct (Put_Ok _ _ _ _ _ _ _ Hpos HP) as (-> & Hver & Ht & (stored & Hst & Hpol) & HA). fold version in Hver, Hst, Hpol, HA |- *.
  set (d := with_version version doc) in *.
  assert (Hvd : valid_doc d) by exact Hv.
  assert (Hsd : small d) by (split; cbn; lia || exact Hx).
  split; [done|]. split; [done|]. split; [|split].
  - unfold Load. rewrite Hpol, lookup_insert_eq. by rewrite (stored_decode jsonb d stored).
  - intros t' Hne. unfold Load. by rewrite Hpol, lookup_insert_ne by done.
  - intros Hver' Hb.
    pose proof (doc_json_Unmarshal d Hvd Hsd) as Hu.
    pose proof (exact_normalize _ (doc_json_exact d)) as He.
    pose proof (Append_Ok jsonb t "policy_changed" (Marshal (doc_json d)) now (audit s) Hver' Hb Ht) as HO.
    rewrite HA in HO. unfold append_spec in HO.
    destruct (jsonb (canonicalPayload (Marshal (doc_json d)))) as [st|] eqn:Hc; [|done].
    destruct (append_chain jsonb Hj t "policy_changed" _ _ _ now (audit s) Hver' Hb Ht Hu He Hc)
      as (d' & HA' & Hok & (r & Hr & _ & Hk & _ & Hp & _) & _).
    rewrite HA in HA'. injection HA' as ->. split; [done|]. by exists r.
Qed.
