(* ===== verification/Runner.v ===== *)
(** * Job runners and their registry (internal/runner)

    What a job type is to the queue: a name and a function from an input map
    to an output map that may save and resume a checkpoint through a recorder.
    The effects [M] and the errors [E] of the recorder are those of its owner. *)

From S2P Require Import Prelude GoStd Json.

Module Runner.

Section runner.
Context {M : Type -> Type -> Type} `{Effects M} {E : Type}.

(** The two functions of a [CheckpointRecorder]; either may be nil. *)
Record CheckpointRecorder := MkRecorder {
  saved : option (M E (option (Z * list (gostring * json))));
  save : option (Z -> list (gostring * json) -> M E unit);
}.

Definition NewCheckpointRecorder saved save : CheckpointRecorder := MkRecorder (Some saved) (Some save).

(** [cp.Saved()], on a recorder that may be nil. *)
Definition Saved (c : option CheckpointRecorder) : M E (option (Z * list (gostring * json))) :=
  match c with
  | Some (MkRecorder (Some f) _) => f
  | _ => ret None
  end.

(** [cp.Save(step, partial)]. *)
Definition Save (c : option CheckpointRecorder) (step : Z) (partial : list (gostring * json))
    : M E unit :=
  match c with
  | Some (MkRecorder _ (Some f)) => f step partial
  | _ => ret tt
  end.

(** What [Run] can fail with: an error of its own, one of the recorder's or of
    another function it was given, or a panic. *)
Inductive run_error :=
| Message (text : gostring)
| Wrapped (e : E)
| Panic.

Definition lift {A} (m : M E A) : M run_error A := bind_err Wrapped m ret.

(** [some_or e o] fails with [e] where the Go code panics or returns. *)
Definition some_or {A} (e : run_error) (o : option A) : M run_error A :=
  match o with Some a => ret a | None => throw e end.

Record JobRunner := MkRunner {
  JobType : gostring;
  Run : list (gostring * json) -> option CheckpointRecorder -> M run_error (list (gostring * json));
}.

(** A [Registry] is its map from type names to runners. *)
Definition NewRegistry (runners : list JobRunner) : gmap gostring JobRunner :=
  foldl (fun r jr => <[JobType jr := jr]> r) ∅ runners.

(** [r.Get(jobType)], on a registry that may be nil. *)
Definition Get (r : option (gmap gostring JobRunner)) (jobType : gostring) : option JobRunner :=
  r ← r; r !! jobType.

Definition Types (r : option (gmap gostring JobRunner)) : list gostring :=
  match r with
  | None => []
  | Some r => sort_slice str_lt (map_to_list r).*1
  end.

(** The runner registered last under a name is the one that is found. *)
Lemma Get_NewRegistry runners jt :
  Get (Some (NewRegistry runners)) jt =
  list.last (filter (fun jr => JobType jr = jt) runners).
Proof.
  unfold Get, NewRegistry. cbn [mbind option_bind].
  induction runners as [|jr l IH] using rev_ind; [done|].
  rewrite foldl_snoc, filter_app. cbv beta. destruct (decide (JobType jr = jt)) as [<-|Hne].
  - rewrite lookup_insert_eq, filter_cons_True by done. rewrite filter_nil. by rewrite last_snoc.
  - rewrite lookup_insert_ne by done. rewrite filter_cons_False, filter_nil, app_nil_r by done. done.
Qed.
End runner.
Arguments CheckpointRecorder M E : clear implicits.
Arguments JobRunner M E : clear implicits.
Arguments run_error E : clear implicits.

End Runner.
