(* ===== verification/Redact.v ===== *)
(** * The redact and mask job types (internal/redact, internal/mask)

    Redaction in two windows with a checkpoint between them, the policy-driven
    variant, the JSON form of a result, and field masking. *)

From S2P Require Import Prelude GoStd Json Decode Detect Policy Runner.

Module Redact.
Import Runner.

Record RedactCounts := MkCounts {
  EmailsRedacted : Z;
  PhonesRedacted : Z;
  SSNRedacted : Z;
}.

Record RedactResult := MkResult {
  RedactedText : gostring;
  Counts : RedactCounts;
  PolicyVersion : Z;
}.

Definition no_counts : RedactCounts := MkCounts 0 0 0.

Definition stepKinds : list (list Kind) := [[KindEmail; KindPhoneUS]; [KindSSN]].

(** ** Redaction *)

Definition token (kind : Kind) : gostring :=
  if seqb kind KindEmail then "[EMAIL_REDACTED]"
  else if seqb kind KindPhoneUS then "[PHONE_REDACTED]"
  else if seqb kind KindSSN then "[SSN_REDACTED]"
  else "[" ++ ToUpper kind ++ "]".

Definition count_span (kind : Kind) (c : RedactCounts) : RedactCounts :=
  if seqb kind KindEmail
  then MkCounts (EmailsRedacted c + 1) (PhonesRedacted c) (SSNRedacted c)
  else if seqb kind KindPhoneUS
  then MkCounts (EmailsRedacted c) (PhonesRedacted c + 1) (SSNRedacted c)
  else if seqb kind KindSSN
  then MkCounts (EmailsRedacted c) (PhonesRedacted c) (SSNRedacted c + 1)
  else c.

Fixpoint apply_spans_loop (text b : gostring) (counts : RedactCounts) (spans : list Span) (prev : Z)
    : option (gostring * RedactCounts) :=
  match spans with
  | [] => rest ← slice text prev (glen text); Some (b ++ rest, counts)
  | sp :: spans' =>
      gap ← slice text prev (sp_start sp);
      apply_spans_loop text (b ++ gap ++ token (sp_kind sp)) (count_span (sp_kind sp) counts)
        spans' (sp_end sp)
  end.

(** [applySpans]; [None] is a slice out of range, which panics. *)
Definition applySpans (text : gostring) (counts : RedactCounts) (spans : list Span)
    : option (gostring * RedactCounts) :=
  apply_spans_loop text [] counts spans 0.

Definition applyClassWindow (input : RedactResult) (windowIndex : nat) : option RedactResult :=
  kinds ← stepKinds !! windowIndex;
  r ← applySpans (RedactedText input) (Counts input) (Scan (RedactedText input) kinds);
  Some (MkResult (fst r) (snd r) 0).

(** The loop of [RedactPII] over the windows. *)
Fixpoint redact_windows (windows : list (list Kind)) (text : gostring) (counts : RedactCounts)
    : option (gostring * RedactCounts) :=
  match windows with
  | [] => Some (text, counts)
  | kinds :: windows' =>
      r ← applySpans text counts (Scan text kinds);
      redact_windows windows' (fst r) (snd r)
  end.

Definition RedactPII (input : gostring) : option RedactResult :=
  r ← redact_windows stepKinds input no_counts; Some (MkResult (fst r) (snd r) 0).

(** ** The JSON form *)

Definition counts_json (c : RedactCounts) : json :=
  JObj [("emailsRedacted", JNum (EmailsRedacted c)); ("phonesRedacted", JNum (PhonesRedacted c));
        ("ssnRedacted", JNum (SSNRedacted c))]%go.

(** A struct is written in the order of its fields. *)
Definition result_json (r : RedactResult) : json :=
  JObj [("redactedText", JStr (RedactedText r)); ("counts", counts_json (Counts r));
        ("policyVersion", JNum (PolicyVersion r))]%go.

Definition MarshalResult (r : RedactResult) : gostring := Marshal (result_json r).

(** [MapResult]; [None] would be its panic. *)
Definition MapResult (r : RedactResult) : option (list (gostring * json)) :=
  match Unmarshal (MarshalResult r) with
  | Some (JObj m) => Some m
  | Some JNull => Some []
  | _ => None
  end.

Definition set_count (f : gostring) (c : RedactCounts) (v : json) : option RedactCounts :=
  if seqb f "emailsRedacted" then
    x ← set_int (EmailsRedacted c) v; Some (MkCounts x (PhonesRedacted c) (SSNRedacted c))
  else if seqb f "phonesRedacted" then
    x ← set_int (PhonesRedacted c) v; Some (MkCounts (EmailsRedacted c) x (SSNRedacted c))
  else
    x ← set_int (SSNRedacted c) v; Some (MkCounts (EmailsRedacted c) (PhonesRedacted c) x).

Definition set_result (f : gostring) (r : RedactResult) (v : json) : option RedactResult :=
  if seqb f "redactedText" then
    x ← set_string (RedactedText r) v; Some (MkResult x (Counts r) (PolicyVersion r))
  else if seqb f "counts" then
    x ← set_struct ["emailsRedacted"; "phonesRedacted"; "ssnRedacted"]%go set_count false (Counts r) v;
    Some (MkResult (RedactedText r) x (PolicyVersion r))
  else
    x ← set_int (PolicyVersion r) v; Some (MkResult (RedactedText r) (Counts r) x).

(** [json.Unmarshal] into a [RedactResult]. *)
Definition decode_result (raw : gostring) : option RedactResult :=
  v ← Parse raw;
  set_struct ["redactedText"; "counts"; "policyVersion"]%go set_result false (MkResult [] no_counts 0) v.

Definition resultFromMap (m : list (gostring * json)) : option RedactResult :=
  decode_result (Marshal (JObj m)).

(** ** The redact runner *)

Definition applyPolicy (text : gostring) (doc : Policy.Doc) : option RedactResult :=
  if seqb (Policy.Mode doc) ModePartial then
    r ← Apply text (Scan text (Policy.Detectors doc)) ModePartial;
    let n kind := default 0%Z (snd r !! kind) in
    Some (MkResult (fst r) (MkCounts (n KindEmail) (n KindPhoneUS) (n KindSSN)) (Policy.Version doc))
  else
    r ← applySpans text no_counts (Scan text (Policy.Detectors doc));
    Some (MkResult (fst r) (snd r) (Policy.Version doc)).

Section run.
Context {M : Type -> Type -> Type} `{Effects M} {E : Type}.

(** [Loader]: the tenant's policy and whether there is one. *)
Definition Loader := gostring -> M E (Policy.Doc * bool).

(** The part of [Run] after the policy: two windows, a checkpoint between. *)
Definition run_windows (text : gostring) (cp : option (CheckpointRecorder M E))
    : M (run_error E) (list (gostring * json)) :=
  sv <- lift (Saved cp) ;;
  partial <-
    match sv with
    | Some (step, m) =>
        if (1 <=? step)%Z then some_or (Message "bad checkpoint") (resultFromMap m)
        else
          partial <- some_or Panic (applyClassWindow (MkResult text no_counts 0) 0) ;;
          m <- some_or Panic (MapResult partial) ;;
          lift (Save cp 1 m) ;;; ret partial
    | None =>
        partial <- some_or Panic (applyClassWindow (MkResult text no_counts 0) 0) ;;
        m <- some_or Panic (MapResult partial) ;;
        lift (Save cp 1 m) ;;; ret partial
    end ;;
  done <- some_or Panic (applyClassWindow partial 1) ;;
  some_or Panic (MapResult done).

Definition Run (Load : option Loader) (input : list (gostring * json))
    (cp : option (CheckpointRecorder M E)) : M (run_error E) (list (gostring * json)) :=
  match jlookup "input" input with
  | Some (JStr text) =>
      let tenant := match jlookup "tenantId" input with Some (JStr t) => t | _ => [] end in
      match Load with
      | Some load =>
          if seqb tenant [] then run_windows text cp
          else
            bind (lift (load tenant)) (fun loaded : Policy.Doc * bool =>
              let '(doc, found) := loaded in
              if found
              then r <- some_or Panic (applyPolicy text doc) ;; some_or Panic (MapResult r)
              else run_windows text cp)
      | None => run_windows text cp
      end
  | _ => throw (Message "redact: input must be a string"%go)
  end.

Definition runner (Load : option Loader) : JobRunner M E := MkRunner "redact" (Run Load).
End run.
Arguments Loader M E : clear implicits.

(** ** Masking *)

Module Mask.
(** The loop over the field names. *)
Fixpoint mask_fields (raw : list json) (masked : list (gostring * json))
    : option (list (gostring * json)) :=
  match raw with
  | [] => Some masked
  | JStr name :: raw' =>
      mask_fields raw' (match jlookup name masked with
                        | Some _ => jinsert name (JStr "[MASKED]") masked
                        | None => masked
                        end)
  | _ :: _ => None
  end.

Definition Run {M} `{Effects M} {E} (input : list (gostring * json)) (cp : option (CheckpointRecorder M E))
    : M (run_error E) (list (gostring * json)) :=
  let fresh : M (run_error E) (list (gostring * json)) :=
    match jlookup "document" input with
    | Some (JObj doc) =>
        match jlookup "fields" input with
        | Some (JArr rawFields) =>
            masked <- some_or (Message "mask: field names must be strings") (mask_fields rawFields doc) ;;
            let out := [("document"%go, JObj masked)] in
            lift (Save cp 1 out) ;;; ret out
        | _ => throw (Message "mask: fields must be an array")
        end
    | _ => throw (Message "mask: document must be an object")
    end in
  sv <- lift (Saved cp) ;;
  match sv with
  | Some (step, partial) => if (1 <=? step)%Z then ret partial else fresh
  | None => fresh
  end.

Definition runner {M} `{Effects M} {E} : JobRunner M E := MkRunner "mask" Run.
End Mask.

Example RedactPII_example :
  RedactedText <$> RedactPII
    "Contact jane.doe@example.com or (555) 123-4567 for details. SSN on file: 123-45-6789." =
  Some "Contact [EMAIL_REDACTED] or [PHONE_REDACTED] for details. SSN on file: [SSN_REDACTED]."%go.
Proof. vm_compute. reflexivity. Qed.

End Redact.
