(* ===== verification/RedactSpec.v ===== *)
(** * What the redact and mask runners guarantee

    Redaction never panics and replaces exactly what each window's scan finds;
    a job that crashes after its checkpoint and is run again gives the result
    of an uninterrupted run; masking hides the named fields and no others. *)

From S2P Require Import Prelude GoStd Regexp Json JsonSpec Decode Detect DetectSpec Policy Runner Redact.
Import Runner Redact.
#[local] Open Scope Z_scope.

(** ** [applySpans] *)

(** The text with each span replaced by its token. *)
Definition redacted (s : gostring) (spans : list Span) : gostring :=
  interleave (gaps s 0 spans) (token ∘ sp_kind <$> spans).

Definition plus_counts (c : RedactCounts) (spans : list Span) : RedactCounts :=
  MkCounts (EmailsRedacted c + count_kind KindEmail spans)
           (PhonesRedacted c + count_kind KindPhoneUS spans)
           (SSNRedacted c + count_kind KindSSN spans).

Lemma plus_counts_cons c sp spans :
  plus_counts c (sp :: spans) = plus_counts (count_span (sp_kind sp) c) spans.
Proof.
  assert (KindEmail <> KindPhoneUS /\ KindEmail <> KindSSN /\ KindPhoneUS <> KindSSN)
    as (N1 & N2 & N3) by (split; [|split]; discriminate).
  unfold plus_counts, count_span. rewrite !count_kind_cons.
  destruct (seqb (sp_kind sp) KindEmail) eqn:E1; bool_to_prop;
    [|destruct (seqb (sp_kind sp) KindPhoneUS) eqn:E2; bool_to_prop;
      [|destruct (seqb (sp_kind sp) KindSSN) eqn:E3; bool_to_prop]];
    cbn [EmailsRedacted PhonesRedacted SSNRedacted];
    repeat destruct (decide _) as [?|?]; try congruence; f_equal; lia.
Qed.

Lemma apply_spans_loop_placed text b c spans prev :
  0 <= prev <= glen text -> placed text prev spans ->
  apply_spans_loop text b c spans prev =
  Some (b ++ interleave (gaps text prev spans) (token ∘ sp_kind <$> spans), plus_counts c spans).
Proof.
  revert b c prev. induction spans as [|sp spans IH]; intros b c prev Hp Hpl.
  - cbn [apply_spans_loop gaps fmap list_fmap interleave]. rewrite zslice by lia.
    cbn [mbind option_bind]. rewrite app_nil_r. unfold plus_counts. rewrite !count_kind_nil, !Z.add_0_r.
    by destruct c.
  - apply placed_cons in Hpl as (H1 & H2 & Hpl). cbn [apply_spans_loop].
    rewrite zslice by lia. cbn [mbind option_bind]. rewrite IH by (done || lia).
    rewrite plus_counts_cons. rewrite fmap_cons. cbn [gaps interleave compose].
    by rewrite <- !app_assoc.
Qed.

Lemma applySpans_Scan text c kinds :
  applySpans text c (Scan text kinds) =
  Some (redacted text (Scan text kinds), plus_counts c (Scan text kinds)).
Proof.
  unfold applySpans. rewrite apply_spans_loop_placed; [done|unfold glen; lia|apply scan_placed].
Qed.

Lemma scan_kinds t ks sp : sp ∈ Scan t ks -> sp_kind sp ∈ ks.
Proof.
  intros [Hc _]%(proj1 (proj2 (preferLonger_spec _))). by apply candidates_in in Hc as [_ Hk].
Qed.

(** One window. *)
Definition window (kinds : list Kind) (text : gostring) : gostring := redacted text (Scan text kinds).
Definition window1 : gostring -> gostring := window [KindEmail; KindPhoneUS].
Definition window2 : gostring -> gostring := window [KindSSN].

(** [RedactPII] never panics.  It replaces the spans
    that the first window's scan finds in the input by their tokens, then those
    that the second window's scan finds in the result, and nothing else; the
    counts are the numbers of spans of each kind, each kind counted by the one
    window that looks for it. *)
Lemma redactPII_windows text :
  let s1 := Scan text [KindEmail; KindPhoneUS] in
  let s2 := Scan (redacted text s1) [KindSSN] in
  RedactPII text =
  Some (MkResult (redacted (redacted text s1) s2)
         (MkCounts (count_kind KindEmail s1) (count_kind KindPhoneUS s1) (count_kind KindSSN s2)) 0).
Proof.
  intros s1 s2. unfold RedactPII, stepKinds. cbn [redact_windows].
  rewrite applySpans_Scan. cbn [mbind option_bind fst snd].
  rewrite applySpans_Scan. cbn [mbind option_bind fst snd]. subst s1 s2. do 2 f_equal.
  assert (Hk : forall t ks k, k ∉ ks -> count_kind k (Scan t ks) = 0).
  { intros t ks k Hk. unfold count_kind.
    destruct (filter _ _) as [|sp l] eqn:E; [done|].
    assert (Hsp : sp ∈ filter (fun sp => sp_kind sp = k) (Scan t ks)) by (rewrite E; left).
    apply list_elem_of_filter in Hsp as [<- Hsp].
    by apply scan_kinds in Hsp. }
  unfold plus_counts. cbn [EmailsRedacted PhonesRedacted SSNRedacted no_counts].
  rewrite (Hk text [KindEmail; KindPhoneUS] KindSSN), (Hk _ [KindSSN] KindEmail), (Hk _ [KindSSN] KindPhoneUS)
    by (apply (bool_decide_unpack _); by vm_compute).
  f_equal; lia.
Qed.

(** ** Text stays valid UTF-8 *)

(** The bytes after the first of an encoding are not ASCII. *)
Lemma rune_len_tail s n i b :
  rune_len s = Some n -> (0 < i < n)%nat -> s !! i = Some b -> is_ascii b = false.
Proof.
  assert (Hr : forall lo hi x, in_range lo hi x = true -> (127 < byte_nat lo)%nat -> is_ascii x = false).
  { intros lo hi x Hx Hlo. unfold is_ascii. apply not_true_is_false. rewrite in_range_spec.
    apply in_range_spec in Hx. change (byte_nat Byte.x7f) with 127%nat. lia. }
  intros H Hi Hb. destruct s as [|a s]; [done|]. cbn [rune_len] in H.
  destruct (in_range Byte.x00 Byte.x7f a); [injection H as <-; lia|].
  destruct i as [|i]; [lia|]. change (s !! i = Some b) in Hb. unfold cont in H.
  assert (Hc : forall x, in_range Byte.x80 Byte.xbf x = true -> is_ascii x = false)
    by (intros x Hx; apply (Hr _ _ _ Hx); cbn; lia).
  destruct (in_range Byte.xc2 Byte.xdf a).
  { destruct s as [|c s]; [done|]. destruct (in_range _ _ c) eqn:Ec in H; [|done].
    injection H as <-. destruct i as [|i]; [|lia]. injection Hb as ->. by apply Hc. }
  destruct (in_range Byte.xe0 Byte.xef a).
  { destruct s as [|c [|d s]]; [done|done|].
    destruct (in_range _ _ c && in_range _ _ d) eqn:E in H; [|done]. apply andb_true_iff in E as [E1 E2].
    injection H as <-. destruct i as [|[|i]]; [| |lia]; injection Hb as ->; [|by apply Hc].
    apply (Hr _ _ _ E1). case_match; cbn; lia. }
  destruct (in_range Byte.xf0 Byte.xf4 a); [|done].
  destruct s as [|c [|d [|e s]]]; [done..|].
  destruct (in_range _ _ c && in_range _ _ d && in_range _ _ e) eqn:E in H; [|done].
  rewrite !andb_true_iff in E. destruct E as [[E1 E2] E3].
  injection H as <-. destruct i as [|[|[|i]]]; [| | |lia]; injection Hb as ->; [|by apply Hc..].
  apply (Hr _ _ _ E1). case_match; cbn; lia.
Qed.

Lemma valid_ascii_split a x c :
  is_ascii x = true -> valid_utf8 (a ++ x :: c) -> valid_utf8 a /\ valid_utf8 c.
Proof.
  intros Hx. remember (a ++ x :: c) as s eqn:Es. intros Hv. revert a Es.
  induction Hv as [|s n Hn Hv IH]; intros a Es; [by destruct a|].
  destruct a as [|y a].
  - cbn [app] in Es. subst s. rewrite rune_len_ascii in Hn by done. injection Hn as <-.
    split; [constructor|]. by rewrite <- (drop_0 c).
  - destruct (decide (n <= length (y :: a))%nat) as [Hle|Hgt].
    + destruct (IH (drop n (y :: a))) as [Ha Hc].
      { by rewrite Es, drop_app_le. }
      split; [|done]. apply valid_rune with n; [|done].
      destruct (rune_len_app _ _ (drop n (y :: a)) Hn) as (_ & _ & Hr).
      by rewrite Es, take_app_le, take_drop in Hr by done.
    + exfalso. assert (is_ascii x = false); [|congruence].
      apply (rune_len_tail s n (length (y :: a)) x); [done|cbn [length] in *; lia|].
      rewrite Es. by apply list_lookup_middle.
Qed.

Lemma valid_cut s i x b :
  (i <= x)%nat -> s !! x = Some b -> is_ascii b = true -> valid_utf8 (drop i s) ->
  valid_utf8 (seg s i x) /\ valid_utf8 (drop (S x) s).
Proof.
  intros Hix Hb Ha Hv.
  assert (Hx : drop i s !! (x - i)%nat = Some b) by (rewrite lookup_drop; by replace (i + (x - i))%nat with x by lia).
  rewrite <- (take_drop_middle _ _ b Hx), drop_drop in Hv.
  apply valid_ascii_split in Hv; [|done].
  by replace (i + S (x - i))%nat with (S x) in Hv by lia.
Qed.

(** Every span covers ASCII bytes of the text, and its token is ASCII. *)
Definition ascii_span (s : gostring) (sp : Span) : Prop :=
  (exists b, s !! Z.to_nat (sp_start sp) = Some b /\ is_ascii b = true) /\
  (exists b, s !! Z.to_nat (sp_end sp - 1) = Some b /\ is_ascii b = true) /\
  valid_utf8 (token (sp_kind sp)).

Lemma valid_interleave s prev spans :
  0 <= prev <= glen s -> placed s prev spans -> Forall (ascii_span s) spans ->
  valid_utf8 (drop (Z.to_nat prev) s) ->
  valid_utf8 (interleave (gaps s prev spans) (token ∘ sp_kind <$> spans)).
Proof.
  revert prev. induction spans as [|sp spans IH]; intros prev Hp Hpl Ha Hv.
  - cbn. rewrite app_nil_r. unfold zseg, seg, glen. rewrite Nat2Z.id, take_ge; [done|].
    rewrite length_drop. lia.
  - apply placed_cons in Hpl as (H1 & H2 & Hpl).
    apply Forall_cons in Ha as [((b & Hb & Hab) & (c & Hc & Hac) & Ht) Ha].
    rewrite fmap_cons. cbn [gaps interleave compose].
    apply valid_app; [|apply valid_app; [done|]].
    + apply (valid_cut s (Z.to_nat prev) (Z.to_nat (sp_start sp)) b); auto; lia.
    + apply IH; [lia|done|done|].
      destruct (valid_cut s (Z.to_nat prev) (Z.to_nat (sp_end sp - 1)) c) as [_ H]; auto; [lia|].
      by replace (S (Z.to_nat (sp_end sp - 1))) with (Z.to_nat (sp_end sp)) in H by lia.
Qed.

Lemma ascii_bytes_valid s : forallb is_ascii s = true -> valid_utf8 s.
Proof.
  induction s as [|b s IH]; [constructor|]. cbn [forallb]. intros [Hb Hs]%andb_true_iff.
  apply valid_cons_ascii; auto.
Qed.

Lemma scan_ascii s kinds : Forall (ascii_span s) (Scan s kinds).
Proof.
  apply Forall_forall. intros sp [Hc _]%(proj1 (proj2 (preferLonger_spec _))).
  apply candidates_spec in Hc as (d & Hd & _ & Hf).
  pose proof (detectors_find _ _ _ Hd Hf) as (i & j & Hij & -> & Ha).
  unfold ascii_span, mk_span; cbn [sp_start sp_end sp_kind fst snd].
  replace (Z.to_nat (Z.of_nat j - 1)) with (j - 1)%nat by lia. rewrite Nat2Z.id.
  split; [apply Ha; lia|]. split; [apply Ha; lia|]. apply ascii_bytes_valid.
  revert Hd. clear. intros Hd.
  assert (H : forallb (fun d => forallb is_ascii (token (d_kind d))) detectors = true) by (vm_compute; reflexivity).
  rewrite forallb_forall in H. by apply H, list_elem_of_In.
Qed.

Lemma window_valid kinds s : valid_utf8 s -> valid_utf8 (window kinds s).
Proof.
  intros Hv. unfold window, redacted. apply valid_interleave.
  - unfold glen; lia.
  - apply scan_placed.
  - apply scan_ascii.
  - by rewrite drop_0.
Qed.

(** ** The JSON form of a result *)

Definition small_counts (c : RedactCounts) : Prop :=
  Z.abs (EmailsRedacted c) <= 2 ^ 53 /\ Z.abs (PhonesRedacted c) <= 2 ^ 53 /\
  Z.abs (SSNRedacted c) <= 2 ^ 53.

Definition wf_result (r : RedactResult) : Prop :=
  valid_utf8 (RedactedText r) /\ small_counts (Counts r) /\ Z.abs (PolicyVersion r) <= 2 ^ 53.

(** The map of a result: its fields in the order of their names. *)
Definition result_map (r : RedactResult) : list (gostring * json) :=
  [("counts", counts_json (Counts r)); ("policyVersion", JNum (PolicyVersion r));
   ("redactedText", JStr (RedactedText r))]%go.

Lemma ascii_key (k : gostring) : forallb is_ascii k = true -> valid_utf8 k.
Proof. apply ascii_bytes_valid. Qed.

(** Splits a claim about the bindings of an object into its keys and values. *)
Ltac each_binding :=
  repeat (apply Forall_cons_2; [split; cbn [fst snd]; [by apply ascii_key|]|]); [..|constructor].

Lemma counts_json_wf c : small_counts c -> wf (counts_json c).
Proof.
  intros (H1 & H2 & H3). apply wf_obj. split; [by repeat constructor|]. by each_binding.
Qed.

Lemma result_json_written r : wf_result r -> written (result_json r).
Proof.
  intros (Ht & Hc & Hv). apply written_obj. each_binding; [done| |done].
  by apply wf_written, counts_json_wf.
Qed.

Lemma result_map_wf r : wf_result r -> wf (JObj (result_map r)).
Proof.
  intros (Ht & Hc & Hv). apply wf_obj. split; [by repeat constructor|].
  each_binding; [|done|done]. by apply counts_json_wf.
Qed.

Lemma MapResult_map r : wf_result r -> MapResult r = Some (result_map r).
Proof.
  intros Hr. unfold MapResult, MarshalResult, Unmarshal.
  rewrite Parse_Marshal by (by apply result_json_written). by destruct r as [t [a b c] v].
Qed.

Lemma resultFromMap_map r : wf_result r -> resultFromMap (result_map r) = Some r.
Proof.
  intros Hr. unfold resultFromMap, decode_result.
  rewrite Parse_Marshal by (by apply wf_written, result_map_wf). by destruct r as [t [a b c] v].
Qed.

(** the map form of a result, which is what a
    checkpoint stores and a job returns, can be read back to the same result. *)
Lemma result_map_roundtrip r :
  wf_result r -> exists m, MapResult r = Some m /\ resultFromMap m = Some r.
Proof.
  intros Hr. exists (result_map r). split; [by apply MapResult_map|by apply resultFromMap_map].
Qed.

(** ** Crash and resume *)

Lemma count_kind_bounds k s prev spans :
  0 <= prev <= glen s -> placed s prev spans -> 0 <= count_kind k spans <= glen s - prev.
Proof.
  revert prev. induction spans as [|sp spans IH]; intros prev Hp Hpl.
  - rewrite count_kind_nil. lia.
  - apply placed_cons in Hpl as (H1 & H2 & Hpl). rewrite count_kind_cons.
    specialize (IH (sp_end sp) ltac:(lia) Hpl). destruct (decide _); lia.
Qed.

Lemma scan_count k s kinds : 0 <= count_kind k (Scan s kinds) <= glen s.
Proof.
  pose proof (count_kind_bounds k s 0 (Scan s kinds)) as H. rewrite Z.sub_0_r in H.
  apply H; [unfold glen; lia|apply scan_placed].
Qed.

(** The result of the first window on a fresh input. *)
Definition first_result (text : gostring) : RedactResult :=
  let s1 := Scan text [KindEmail; KindPhoneUS] in
  MkResult (redacted text s1) (plus_counts no_counts s1) 0.

Lemma window_result r i kinds :
  stepKinds !! i = Some kinds ->
  applyClassWindow r i =
  Some (MkResult (redacted (RedactedText r) (Scan (RedactedText r) kinds))
                 (plus_counts (Counts r) (Scan (RedactedText r) kinds)) 0).
Proof.
  intros H. unfold applyClassWindow. rewrite H. cbn [mbind option_bind].
  by rewrite applySpans_Scan.
Qed.

(** A text short enough for its counts to be exact in JSON. *)
Definition small_text (s : gostring) : Prop := glen s <= 2 ^ 48.

Lemma first_result_wf text : valid_utf8 text -> small_text text -> wf_result (first_result text).
Proof.
  intros Hv Hs. unfold small_text in Hs. split; [|split; [|done]].
  - by apply (window_valid [KindEmail; KindPhoneUS]).
  - unfold small_counts, first_result, plus_counts, no_counts.
    cbn [Counts EmailsRedacted PhonesRedacted SSNRedacted].
    pose proof (scan_count KindEmail text [KindEmail; KindPhoneUS]).
    pose proof (scan_count KindPhoneUS text [KindEmail; KindPhoneUS]).
    pose proof (scan_count KindSSN text [KindEmail; KindPhoneUS]). lia.
Qed.

Section resume.
Context {W E : Type}.
Implicit Types cp : option (CheckpointRecorder (io W) E).

(** What the second window makes of a checkpoint. *)
Definition finish_windows (r : RedactResult) : io W (run_error E) (list (gostring * json)) :=
  done <- some_or Panic (applyClassWindow r 1) ;; some_or Panic (MapResult done).

Lemma run_windows_fresh cp text w :
  valid_utf8 text -> small_text text -> Saved cp w = (w, Ok None) ->
  run_windows text cp w =
  match Save cp 1 (result_map (first_result text)) w with
  | (w', Ok _) => finish_windows (first_result text) w'
  | (w', Err e) => (w', Err (Wrapped e))
  end.
Proof.
  intros Hv Hs Hsv. unfold run_windows, lift. io_run. rewrite Hsv.
  rewrite (window_result _ 0 [KindEmail; KindPhoneUS]) by done.
  cbn [RedactedText Counts some_or]. fold (first_result text). io_run.
  rewrite MapResult_map by (by apply first_result_wf). cbn [some_or]. io_run.
  by destruct (Save cp 1 _ w) as [w' [[]|e]].
Qed.

Lemma run_windows_resume cp text w step :
  valid_utf8 text -> small_text text ->
  Saved cp w = (w, Ok (Some (step, result_map (first_result text)))) -> 1 <= step ->
  run_windows text cp w = finish_windows (first_result text) w.
Proof.
  intros Hv Hs Hsv Hstep. unfold run_windows, lift. io_run. rewrite Hsv.
  destruct (Z.leb_spec 1 step); [|lia].
  rewrite resultFromMap_map by (by apply first_result_wf). done.
Qed.
End resume.

(** *** The size of a redacted text *)

Lemma glen_app {A} (a b : list A) : glen (a ++ b) = glen a + glen b.
Proof. unfold glen. rewrite length_app. lia. Qed.

Lemma token_length s kinds sp : sp ∈ Scan s kinds -> glen (token (sp_kind sp)) <= 16.
Proof.
  intros [Hc _]%(proj1 (proj2 (preferLonger_spec _))).
  apply candidates_spec in Hc as (d & Hd & _ & Hf).
  pose proof (detectors_find _ _ _ Hd Hf) as (i & j & _ & -> & _). cbn [mk_span sp_kind].
  assert (H : forallb (fun d => glen (token (d_kind d)) <=? 16) detectors = true) by (vm_compute; reflexivity).
  rewrite forallb_forall in H. apply Z.leb_le, H. by apply list_elem_of_In.
Qed.

Lemma interleave_length s prev spans :
  0 <= prev <= glen s -> placed s prev spans ->
  (forall sp, sp ∈ spans -> glen (token (sp_kind sp)) <= 16) ->
  glen (interleave (gaps s prev spans) (token ∘ sp_kind <$> spans)) <= 16 * (glen s - prev).
Proof.
  revert prev. induction spans as [|sp spans IH]; intros prev Hp Hpl Ht.
  - cbn [gaps interleave fmap list_fmap]. rewrite app_nil_r. unfold glen in *.
    rewrite zseg_length by (unfold glen; lia). lia.
  - apply placed_cons in Hpl as (H1 & H2 & Hpl). rewrite fmap_cons. cbn [gaps interleave compose].
    rewrite !glen_app. pose proof (Ht sp ltac:(left)) as Hs.
    specialize (IH (sp_end sp) ltac:(lia) Hpl ltac:(intros; apply Ht; by right)).
    assert (glen (zseg s prev (sp_start sp)) = sp_start sp - prev); [|lia].
    unfold glen in *. rewrite zseg_length by (unfold glen; lia). lia.
Qed.

Lemma redacted_length s kinds : glen (redacted s (Scan s kinds)) <= 16 * glen s.
Proof.
  pose proof (interleave_length s 0 (Scan s kinds)) as H. rewrite Z.sub_0_r in H.
  apply H; [unfold glen; lia|apply scan_placed|intros sp; apply token_length].
Qed.

(** The result of both windows. *)
Definition final_result (text : gostring) : RedactResult :=
  let r1 := first_result text in
  let s2 := Scan (RedactedText r1) [KindSSN] in
  MkResult (redacted (RedactedText r1) s2) (plus_counts (Counts r1) s2) 0.

Lemma final_result_RedactPII text : RedactPII text = Some (final_result text).
Proof.
  unfold RedactPII, stepKinds. cbn [redact_windows]. rewrite applySpans_Scan.
  cbn [mbind option_bind fst snd]. by rewrite applySpans_Scan.
Qed.

Lemma final_result_wf text : valid_utf8 text -> small_text text -> wf_result (final_result text).
Proof.
  intros Hv Hs. pose proof (first_result_wf text Hv Hs) as (Hv1 & _ & _).
  unfold small_text in Hs. split; [|split; [|done]].
  - by apply (window_valid [KindSSN]).
  - unfold final_result. cbv zeta. set (t1 := RedactedText (first_result text)) in *.
    assert (Ht1 : glen t1 <= 16 * glen text) by apply redacted_length.
    unfold small_counts, first_result, plus_counts, no_counts.
    cbn [Counts EmailsRedacted PhonesRedacted SSNRedacted].
    pose proof (scan_count KindEmail text [KindEmail; KindPhoneUS]).
    pose proof (scan_count KindPhoneUS text [KindEmail; KindPhoneUS]).
    pose proof (scan_count KindSSN text [KindEmail; KindPhoneUS]).
    pose proof (scan_count KindEmail t1 [KindSSN]).
    pose proof (scan_count KindPhoneUS t1 [KindSSN]).
    pose proof (scan_count KindSSN t1 [KindSSN]). lia.
Qed.

Lemma finish_windows_Ok {W E} text (w : W) :
  valid_utf8 text -> small_text text ->
  finish_windows (E := E) (first_result text) w = (w, Ok (result_map (final_result text))).
Proof.
  intros Hv Hs. unfold finish_windows.
  rewrite (window_result _ 1 [KindSSN]) by done. cbn [some_or]. fold (final_result text). io_run.
  rewrite MapResult_map by (by apply final_result_wf). done.
Qed.

(** C39 [redact_resume]: the redact runner without a policy, on a text that is
    valid UTF-8.  A fresh run saves one checkpoint and returns the result of
    [RedactPII]; when saving fails it fails with that error.  A run that finds
    the checkpoint of a crashed one saves nothing and returns the same output,
    so a crash between the windows does not show. *)
Theorem redact_resume {W E} input text :
  jlookup "input" input = Some (JStr text) -> valid_utf8 text -> small_text text ->
  exists m out r,
    RedactPII text = Some r /\ MapResult r = Some out /\
    (forall (cp : option (CheckpointRecorder (io W) E)) w, Saved cp w = (w, Ok None) ->
       Redact.Run None input cp w =
       match Save cp 1 m w with
       | (w', Ok _) => (w', Ok out)
       | (w', Err e) => (w', Err (Wrapped e))
       end) /\
    (forall (cp : option (CheckpointRecorder (io W) E)) w step, 1 <= step -> Saved cp w = (w, Ok (Some (step, m))) ->
       Redact.Run None input cp w = (w, Ok out)).
Proof.
  intros Hi Hv Hs. exists (result_map (first_result text)), (result_map (final_result text)), (final_result text).
  split; [apply final_result_RedactPII|]. split; [by apply MapResult_map, final_result_wf|].
  unfold Redact.Run. rewrite Hi. split.
  - intros cp w Hsv. rewrite run_windows_fresh by done.
    destruct (Save cp 1 _ w) as [w' [[]|e]]; [|done]. by apply finish_windows_Ok.
  - intros cp w step Hstep Hsv. rewrite (run_windows_resume cp text w step) by done.
    by apply finish_windows_Ok.
Qed.

Lemma redact_resume_witness :
  let input := [("input"%go, JStr "a@b.co 123-45-6789")] in
  exists m out r, RedactPII "a@b.co 123-45-6789" = Some r /\ MapResult r = Some out /\
    Redact.Run (M := io unit) (E := unit) None input None tt = (tt, Ok out) /\
    Redact.Run (M := io unit) (E := unit) None input (Some (NewCheckpointRecorder (ret (Some (1, m))) (fun _ _ => ret tt))) tt
    = (tt, Ok out).
Proof.
  intros input.
  destruct (@redact_resume unit unit input "a@b.co 123-45-6789") as (m & out & r & H1 & H2 & H3 & H4).
  - reflexivity.
  - by apply ascii_key.
  - vm_compute. discriminate.
  - exists m, out, r. split; [exact H1|]. split; [exact H2|]. split.
    + exact (H3 None tt eq_refl).
    + exact (H4 (Some (NewCheckpointRecorder (ret (Some (1, m))) (fun _ _ => ret tt))) tt 1
               ltac:(lia) eq_refl).
Defined.

(** ** Masking *)

Definition field_names (raw : list json) : list gostring :=
  omap (fun v => match v with JStr s => Some s | _ => None end) raw.

Lemma mask_fields_spec raw m out :
  Mask.mask_fields raw m = Some out ->
  Forall (fun v => exists s, v = JStr s) raw /\
  forall k, jlookup k out =
    match jlookup k m with
    | Some v => Some (if bool_decide (k ∈ field_names raw) then JStr "[MASKED]" else v)
    | None => None
    end.
Proof.
  revert m. induction raw as [|v raw IH]; intros m H.
  - injection H as <-. split; [constructor|]. intros k. by destruct (jlookup k m).
  - cbn [Mask.mask_fields] in H. destruct v as [| | | |name| |]; try done.
    destruct (IH _ H) as [Hf Hk]. split; [constructor; eauto|]. intros k. rewrite Hk.
    change (field_names (JStr name :: raw)) with (name :: field_names raw).
    assert (E : jlookup k (match jlookup name m with
                           | Some _ => jinsert name (JStr "[MASKED]") m
                           | None => m
                           end) =
                match jlookup k m with
                | Some v => Some (if seqb k name then JStr "[MASKED]" else v)
                | None => None
                end).
    { destruct (jlookup name m) as [v|] eqn:En.
      - rewrite jlookup_jinsert. destruct (seqb k name) eqn:Ek.
        + apply seqb_eq in Ek as ->. by rewrite En.
        + by destruct (jlookup k m).
      - destruct (seqb k name) eqn:Ek; [apply seqb_eq in Ek as ->; by rewrite En|].
        by destruct (jlookup k m). }
    rewrite E. destruct (jlookup k m) as [v|]; [|done]. f_equal.
    destruct (seqb k name) eqn:Ek.
    + apply seqb_eq in Ek as ->. rewrite (bool_decide_eq_true_2 (name ∈ name :: field_names raw)) by left.
      by destruct (bool_decide _).
    + apply seqb_neq in Ek.
      by rewrite (bool_decide_ext (k ∈ name :: field_names raw) (k ∈ field_names raw))
        by (rewrite elem_of_cons; tauto).
Qed.

Lemma mask_fields_total raw m :
  Forall (fun v => exists s, v = JStr s) raw -> is_Some (Mask.mask_fields raw m).
Proof.
  intros H. revert m. induction H as [|v raw [s ->] Hr IH]; intros m; [by eexists|]. apply IH.
Qed.

(** the mask runner on a document and a list of field names
    saves its output as a checkpoint and returns it: the document in which
    every named field that exists is hidden, no field is added or removed, and
    every other field keeps its value; a run that finds a checkpoint returns
    it.  It fails, saving nothing, exactly when a name is not a string. *)
Lemma mask_exact {W E} input doc names :
  jlookup "document" input = Some (JObj doc) -> jlookup "fields" input = Some (JArr names) ->
  (Forall (fun v => exists s, v = JStr s) names ->
   exists masked,
     (forall k, jlookup k masked =
        match jlookup k doc with
        | Some v => Some (if bool_decide (k ∈ field_names names) then JStr "[MASKED]" else v)
        | None => None
        end) /\
     let out := [("document"%go, JObj masked)] in
     (forall (cp : option (CheckpointRecorder (io W) E)) w, Saved cp w = (w, Ok None) ->
        Mask.Run input cp w =
        match Save cp 1 out w with
        | (w', Ok _) => (w', Ok out)
        | (w', Err e) => (w', Err (Wrapped e))
        end) /\
     (forall (cp : option (CheckpointRecorder (io W) E)) w step, 1 <= step -> Saved cp w = (w, Ok (Some (step, out))) ->
        Mask.Run input cp w = (w, Ok out))) /\
  (~ Forall (fun v => exists s, v = JStr s) names ->
   forall (cp : option (CheckpointRecorder (io W) E)) w, Saved cp w = (w, Ok None) ->
     exists e, Mask.Run input cp w = (w, Err (Message e))).
Proof.
  intros Hd Hf. split.
  - intros Hn. destruct (mask_fields_total names doc Hn) as [masked Hm].
    destruct (mask_fields_spec _ _ _ Hm) as [_ Hk]. exists masked. split; [exact Hk|]. split.
    + intros cp w Hsv. unfold Mask.Run, lift. rewrite Hd, Hf, Hm. io_run. rewrite Hsv. cbn [some_or]. io_run.
      by destruct (Save cp 1 _ w) as [w' [[]|e]].
    + intros cp w step Hstep Hsv. unfold Mask.Run, lift. io_run. rewrite Hsv.
      by destruct (Z.leb_spec 1 step); [|lia].
  - intros Hn cp w Hsv. unfold Mask.Run. rewrite Hd, Hf.
    destruct (Mask.mask_fields names doc) as [masked|] eqn:Hm.
    + by destruct (mask_fields_spec _ _ _ Hm).
    + eexists. unfold lift. io_run. by rewrite Hsv.
Qed.
