(* ===== verification/Seal.v ===== *)
(** * Sealing, signing, job keys and purge receipts (internal/seal)

    The primitives (AES-GCM, Ed25519, the Vault transit service, UUID parsing)
    are operations of type classes whose laws are what their documentation
    promises.  On top of them: sealed payloads, the two signed messages, and
    the key and receipt stores, each as the interface of the Go code with its
    in-memory and its Postgres implementation. *)

From S2P Require Import Prelude GoStd GoTime Base64 Json Ledger.

Module Seal.

Abbreviation uuid := gostring (only parsing).

(** ** Primitives *)

Class AEAD := {
  gcm_seal : gostring -> gostring -> gostring -> gostring;
  gcm_open : gostring -> gostring -> gostring -> option gostring;
}.

(** [Open] undoes [Seal] under the same key and nonce; the ciphertext carries a
    tag of 16 bytes. *)
Class AEADLaws `{AEAD} := {
  gcm_open_seal k n p : gcm_open k n (gcm_seal k n p) = Some p;
  gcm_seal_length k n p : length (gcm_seal k n p) = length p + 16;
}.

Class Ed25519 := {
  ed_public : gostring -> gostring;
  ed_sign : gostring -> gostring -> gostring;
  ed_verify : gostring -> gostring -> gostring -> bool;
}.

(** Signatures, of 64 bytes, verify under the public half of their key, which is 32
    bytes. *)
Class Ed25519Laws `{Ed25519} := {
  ed_verify_sign k m : length k = 64 -> ed_verify (ed_public k) m (ed_sign k m) = true;
  ed_public_length k : length k = 64 -> length (ed_public k) = 32;
  ed_sign_length k m : length k = 64 -> length (ed_sign k m) = 64;
}.

Inductive seal_error :=
| BadSealed
| KeyDestroyed
| KeyWrongLength
| MissingSigningKey
| BadSigningKey
| BadPublicKey
| BadTenant
| SqlError (e : Ledger.sql_error).

(** ** Sealed payloads *)

Section payload.
Context `{AEAD}.

Definition nonceSize : nat := 12.

Definition sealWithNonce (key nonce plain : gostring) : result seal_error gostring :=
  if negb (length nonce =? nonceSize) then Err BadSealed
  else Ok (EncodeToString (nonce ++ gcm_seal key nonce plain)).

Definition Open (key sealed : gostring) : result seal_error gostring :=
  match DecodeString sealed with
  | None => Err BadSealed
  | Some raw =>
      if length raw <=? nonceSize then Err BadSealed
      else
        match gcm_open key (take nonceSize raw) (drop nonceSize raw) with
        | None => Err BadSealed
        | Some plain => Ok plain
        end
  end.
End payload.

(** ** Signed messages *)

(** [PurgePayload], written in the order of its fields. *)
Definition purge_json (jobID purgedAt : gostring) : json :=
  JObj [("jobId", JStr jobID); ("purgedAt", JStr purgedAt)]%go.

Definition PurgeMessage (jobID : gostring) (purgedAt : time) : gostring :=
  Marshal (purge_json jobID (FormatRFC3339Nano purgedAt)).

Definition output_json (jobID tenantID body : gostring) : json :=
  JObj [("jobId", JStr jobID); ("tenantId", JStr tenantID); ("body", JStr body)]%go.

Definition OutputMessage (jobID tenantID body : gostring) : gostring :=
  Marshal (output_json jobID tenantID body).

Definition SigningKeyID (pub : gostring) : gostring :=
  if length pub <? 8 then [] else hex_encode (take 8 pub).

Section sign.
Context `{Ed25519}.

Definition Sign (priv msg : gostring) : gostring := ed_sign priv msg.

Definition Verify (pub msg sig : gostring) : bool :=
  if negb (length pub =? 32) then false else ed_verify pub msg sig.

Definition ParsePrivateKey (b64 : gostring) : result seal_error gostring :=
  match DecodeString b64 with
  | None => Err BadSigningKey
  | Some raw => if negb (length raw =? 64) then Err BadSigningKey else Ok raw
  end.

Definition ParsePublicKey (b64 : gostring) : result seal_error gostring :=
  match DecodeString b64 with
  | None => Err BadPublicKey
  | Some raw => if negb (length raw =? 32) then Err BadPublicKey else Ok raw
  end.

(** [LoadSigningKey], from the value of the environment variable. *)
Definition LoadSigningKey (b64 : gostring) : result seal_error gostring :=
  if seqb b64 [] then Err MissingSigningKey else ParsePrivateKey b64.

(** [verifySig] of cmd/verify: the exit status. *)
Definition verifySig (pubB64 sigB64 msg : gostring) : Z :=
  match DecodeString sigB64 with
  | None => 1%Z
  | Some sig =>
      match ParsePublicKey pubB64 with
      | Err _ => 1%Z
      | Ok pub => if Verify pub msg sig then 0%Z else 1%Z
      end
  end.
End sign.

(** ** Key stores *)

(** What a store holds for a job. *)
Inductive key_view :=
| Absent
| Live (key : gostring)
| Destroyed (at_ : time).

(** The interface [KeyStore].  [Ensure] is given the random bytes it would
    draw. *)
Class KeyStore (S : Type) := {
  key_of : S -> uuid -> key_view;
  Ensure : gostring -> uuid -> S -> S * result seal_error gostring;
  Load : uuid -> S -> result seal_error (option gostring);
  Destroy : uuid -> time -> S -> S;
}.

(** What every implementation promises, in states that its operations can
    reach from an empty store. *)
Class KeyStoreLaws S `{KeyStore S} := {
  keys_ok : S -> Prop;
  Ensure_ok fresh id s : length fresh = 32 -> keys_ok s -> keys_ok (fst (Ensure fresh id s));
  Destroy_ok id at_ s : keys_ok s -> keys_ok (Destroy id at_ s);
  Ensure_spec fresh id s :
    length fresh = 32 -> keys_ok s ->
    snd (Ensure fresh id s) = match key_of s id with
                              | Live k => Ok k
                              | Destroyed _ => Err KeyDestroyed
                              | Absent => Ok fresh
                              end;
  Ensure_view fresh id s j :
    length fresh = 32 -> keys_ok s ->
    key_of (fst (Ensure fresh id s)) j =
    match key_of s id with
    | Absent => if decide (j = id) then Live fresh else key_of s j
    | _ => key_of s j
    end;
  Load_spec id s :
    keys_ok s ->
    Load id s = match key_of s id with
                | Live k => Ok (Some k)
                | Destroyed _ => Err KeyDestroyed
                | Absent => Ok None
                end;
  Destroy_view id at_ s j :
    keys_ok s ->
    key_of (Destroy id at_ s) j =
    match key_of s id with
    | Live _ => if decide (j = id) then Destroyed at_ else key_of s j
    | _ => key_of s j
    end;
}.

(** *** In memory *)

Record memoryKeyRow := MemoryKeyRow {
  material : gostring;
  destroyed : bool;
  destroyedAt : time;
}.

Definition MemoryKeyStore := gmap uuid memoryKeyRow.

Definition zero_key : gostring := replicate 32 Byte.x00.

#[export] Instance memory_keys : KeyStore MemoryKeyStore := {|
  key_of s id :=
    match (s : gmap uuid memoryKeyRow) !! id with
    | None => Absent
    | Some row => if destroyed row then Destroyed (destroyedAt row) else Live (material row)
    end;
  Ensure fresh id s :=
    match (s : gmap uuid memoryKeyRow) !! id with
    | Some row => if destroyed row then (s, Err KeyDestroyed) else (s, Ok (material row))
    | None => (<[id := MemoryKeyRow fresh false 0%Z]> s, Ok fresh)
    end;
  Load id s :=
    match (s : gmap uuid memoryKeyRow) !! id with
    | None => Ok None
    | Some row => if destroyed row then Err KeyDestroyed else Ok (Some (material row))
    end;
  Destroy id at_ s :=
    match (s : gmap uuid memoryKeyRow) !! id with
    | None => s
    | Some row => if destroyed row then s else <[id := MemoryKeyRow zero_key true at_]> s
    end;
|}.

Definition Has (s : MemoryKeyStore) (id : uuid) : bool :=
  match (s : gmap uuid memoryKeyRow) !! id with Some _ => true | None => false end.

(** *** In Postgres *)

(** The Vault transit service. *)
Class Vault := {
  wrapKey : gostring -> gostring;
  unwrapKey : gostring -> option gostring;
}.

(** A wrapped key is unwrapped to itself. *)
Class VaultLaws `{Vault} := { unwrap_wrap k : length k = 32 -> unwrapKey (wrapKey k) = Some k }.

(** A row of [job_keys]; the material is wrapped, or NULL. *)
Record keyRow := KeyRow { key_material : option gostring; destroyed_at : time }.

Definition pgKeyStore := gmap uuid keyRow.

Section pg_keys.
Context `{Vault}.

(** The check of [unwrapKey] on what Vault returns, and the copy into a
    [32]byte array. *)
Definition read_material (stored : gostring) : result seal_error gostring :=
  match unwrapKey stored with
  | None => Err KeyWrongLength
  | Some plain => if length plain =? 32 then Ok plain else Err KeyWrongLength
  end.

Definition select_key (id : uuid) (s : gmap uuid keyRow) : option (option gostring) :=
  key_material <$> s !! id.

Definition pg_Ensure (fresh : gostring) (id : uuid) (s : gmap uuid keyRow)
    : gmap uuid keyRow * result seal_error gostring :=
  let s1 := match s !! id with
            | None => <[id := KeyRow (Some (wrapKey fresh)) 0%Z]> s
            | Some _ => s
            end in
  match select_key id s1 with
  | None => (s1, Err (SqlError Ledger.NoRows))
  | Some None => (s1, Err KeyDestroyed)
  | Some (Some stored) => (s1, read_material stored)
  end.

Definition pg_Load (id : uuid) (s : gmap uuid keyRow) : result seal_error (option gostring) :=
  match select_key id s with
  | None => Ok None
  | Some None => Err KeyDestroyed
  | Some (Some stored) => k ← read_material stored; Ok (Some k)
  end.

Definition pg_Destroy (id : uuid) (at_ : time) (s : gmap uuid keyRow) : gmap uuid keyRow :=
  match s !! id with
  | Some (KeyRow (Some _) _) => <[id := KeyRow None at_]> s
  | _ => s
  end.

#[export] Instance pg_keys : KeyStore pgKeyStore := {|
  key_of s id :=
    match (s : gmap uuid keyRow) !! id with
    | None => Absent
    | Some (KeyRow None t) => Destroyed t
    | Some (KeyRow (Some stored) _) => Live (default [] (unwrapKey stored))
    end;
  Ensure := pg_Ensure;
  Load := pg_Load;
  Destroy := pg_Destroy;
|}.
End pg_keys.

(** ** Receipts *)

Record Receipt := MkReceipt {
  JobID : uuid;
  RedisJobID : gostring;
  PurgedAt : time;
  Signature : gostring;
  ReceiptKeyID : gostring;
  TenantID : gostring;
}.

(** The interface [ReceiptStore]. *)
Class ReceiptStore (S : Type) := {
  Insert : Receipt -> S -> S * result seal_error bool;
  Get : uuid -> S -> option Receipt;
}.

(** The stored form of a receipt may forget the tenant. *)
Definition same_receipt (r r' : Receipt) : Prop :=
  JobID r = JobID r' /\ RedisJobID r = RedisJobID r' /\ PurgedAt r = PurgedAt r' /\
  Signature r = Signature r' /\ ReceiptKeyID r = ReceiptKeyID r'.

(** [Insert] writes once, or fails and changes nothing; timestamps are kept to
    the microsecond. *)
Class ReceiptStoreLaws S `{ReceiptStore S} := {
  Insert_exists r s :
    Get (JobID r) s <> None ->
    snd (Insert r s) = Ok false /\ forall j, Get j (fst (Insert r s)) = Get j s;
  Insert_new r s :
    Get (JobID r) s = None -> Ledger.normalizeAt (PurgedAt r) = PurgedAt r ->
    match snd (Insert r s) with
    | Ok b => b = true /\ forall j,
        if decide (j = JobID r) then exists r', Get j (fst (Insert r s)) = Some r' /\ same_receipt r' r
        else Get j (fst (Insert r s)) = Get j s
    | Err _ => forall j, Get j (fst (Insert r s)) = Get j s
    end;
}.

(** *** In memory *)

Definition MemoryReceiptStore := gmap uuid Receipt.

#[export] Instance memory_receipts : ReceiptStore MemoryReceiptStore := {|
  Insert r s :=
    match (s : gmap uuid Receipt) !! JobID r with
    | Some _ => (s, Ok false)
    | None => (<[JobID r := r]> s, Ok true)
    end;
  Get id s := (s : gmap uuid Receipt) !! id;
|}.

(** *** In Postgres *)

(** [uuid.Parse]. *)
Class UUID := { uuid_parse : gostring -> option uuid }.

(** The tables [purge_receipts] and those of the audit ledger. *)
Record pgReceipts := PgReceipts {
  purge_receipts : gmap uuid Receipt;
  audit : Ledger.db;
}.

Section pg_receipts.
Context `{UUID} (jsonb : gostring -> option gostring).

(** The payload of the ledger entry: a Go map, written in key order. *)
Definition receipt_payload (r : Receipt) : json :=
  JObj [("jobId", JStr (RedisJobID r)); ("purgedAt", JStr (FormatRFC3339Nano (PurgedAt r)));
        ("signingKeyId", JStr (ReceiptKeyID r))]%go.

(** [pgReceiptStore.Insert]: one transaction, rolled back on an error. *)
Definition pg_Insert (r : Receipt) (s : pgReceipts) : pgReceipts * result seal_error bool :=
  match purge_receipts s !! JobID r with
  | Some _ => (s, Ok false)
  | None =>
      let stored := MkReceipt (JobID r) (RedisJobID r) (Ledger.normalizeAt (PurgedAt r)) (Signature r)
                      (ReceiptKeyID r) [] in
      let rows := <[JobID r := stored]> (purge_receipts s) in
      if seqb (TenantID r) [] then (PgReceipts rows (audit s), Ok true)
      else
        match uuid_parse (TenantID r) with
        | None => (s, Err BadTenant)
        | Some tenant =>
            match Ledger.AppendSQL jsonb tenant "purge_receipt" (Marshal (receipt_payload r))
                    (PurgedAt r) (audit s) with
            | Err e => (s, Err (SqlError e))
            | Ok l => (PgReceipts rows l, Ok true)
            end
        end
  end.

Definition pg_receipt_store : ReceiptStore pgReceipts := {|
  Insert := pg_Insert;
  Get id s := purge_receipts s !! id;
|}.
End pg_receipts.

End Seal.
