(* ===== verification/SealSpec.v ===== *)
(** * What sealing, signing and the key and receipt stores guarantee

    Opening undoes sealing; a signed message determines what was signed; the
    stores of the Go code implement their interfaces, and a destroyed key stays
    destroyed, whichever store holds it. *)

From S2P Require Import Prelude GoStd GoTime Sha256 Base64 Json JsonSpec Ledger LedgerSpec Seal.
Import Seal.

(** ** Sealed payloads *)

Lemma sealed_opens `{AEADLaws} key nonce plain :
  length nonce = nonceSize ->
  exists sealed, sealWithNonce key nonce plain = Ok sealed /\ Open key sealed = Ok plain.
Proof.
  unfold sealWithNonce. intros Hn. rewrite Hn. cbn [Nat.eqb negb nonceSize]. eexists. split; [done|].
  unfold Open. rewrite Decode_Encode, length_app, gcm_seal_length, Hn.
  destruct (Nat.leb_spec (nonceSize + (length plain + 16)) nonceSize); [lia|].
  by rewrite take_app_length', drop_app_length', gcm_open_seal by done.
Qed.

(** what [sealWithNonce] returns for a 12-byte nonce, [Open]
    turns back into the plain text, the empty one included; any other nonce is
    refused. *)
Lemma open_seal `{AEADLaws} key nonce plain :
  (length nonce = nonceSize ->
   exists sealed, sealWithNonce key nonce plain = Ok sealed /\ Open key sealed = Ok plain) /\
  (length nonce <> nonceSize -> sealWithNonce key nonce plain = Err BadSealed).
Proof.
  split; [apply sealed_opens|]. unfold sealWithNonce.
  intros Hn. by destruct (Nat.eqb_spec (length nonce) nonceSize).
Qed.

(** Toy primitives that satisfy the laws. *)
Definition toy_aead : AEAD := {|
  gcm_seal k n p := p ++ replicate 16 Byte.x00;
  gcm_open k n c := Some (take (length c - 16) c);
|}.

Definition toy_aead_laws : @AEADLaws toy_aead.
Proof.
  split; intros k n p; cbn.
  - f_equal. rewrite length_app. cbn. rewrite Nat.add_sub. by rewrite take_app_length'.
  - by rewrite length_app.
Defined.

Definition toy_ed25519 : Ed25519 := {|
  ed_public k := take 32 k;
  ed_sign k m := let h := Sha256.Sum256 (take 32 k ++ m) in h ++ h;
  ed_verify p m s := let h := Sha256.Sum256 (p ++ m) in seqb s (h ++ h);
|}.

Definition toy_ed25519_laws : @Ed25519Laws toy_ed25519.
Proof.
  split; intros k; cbn.
  - intros m _. apply seqb_refl.
  - intros Hk. rewrite length_take. lia.
  - intros m _. by rewrite length_app, Sha256.Sum256_length.
Defined.

(** ** Signed messages *)

Lemma Marshal_written_inj v w : written v -> written w -> Marshal v = Marshal w -> v = w.
Proof.
  intros Hv Hw E. pose proof (Parse_Marshal v Hv) as H. rewrite E, Parse_Marshal in H by done.
  by injection H.
Qed.

Lemma ascii_text_valid s : forallb (in_range Byte.x00 Byte.x7f) s = true -> valid_utf8 s.
Proof.
  induction s as [|b s IH]; [constructor|]. cbn [forallb]. intros [Hb Hs]%andb_true_iff.
  apply valid_cons_ascii; auto.
Qed.

Lemma stamp_valid t : valid_utf8 (FormatRFC3339Nano t).
Proof.
  apply ascii_text_valid, forallb_forall. intros b Hb. pose proof (stamp_bytes t) as H.
  rewrite Forall_forall in H. apply list_elem_of_In, H in Hb. revert Hb. clear. by destruct b.
Qed.

Lemma purge_json_written j t : valid_utf8 j -> written (purge_json j (FormatRFC3339Nano t)).
Proof.
  intros Hj. apply written_obj. repeat constructor; cbn [fst snd]; try (by apply ascii_text_valid).
  - exact Hj.
  - apply stamp_valid.
Qed.

Lemma output_json_written j t b :
  valid_utf8 j -> valid_utf8 t -> valid_utf8 b -> written (output_json j t b).
Proof.
  intros Hj Ht Hb. apply written_obj.
  repeat constructor; cbn [fst snd]; try (by apply ascii_text_valid); done.
Qed.

(** the bytes that are signed determine what is
    signed: a purge message its job and its instant, an output message its job,
    its tenant and its body, and no text is both a purge and an output message
    (identifiers and bodies being valid UTF-8). *)
Lemma signed_messages_distinct j j' tn tn' b b' t t' :
  valid_utf8 j -> valid_utf8 j' -> valid_utf8 tn -> valid_utf8 tn' -> valid_utf8 b -> valid_utf8 b' ->
  (PurgeMessage j t = PurgeMessage j' t' -> j = j' /\ t = t') /\
  (OutputMessage j tn b = OutputMessage j' tn' b' -> j = j' /\ tn = tn' /\ b = b') /\
  PurgeMessage j t <> OutputMessage j' tn b.
Proof.
  intros Hj Hj' Htn Htn' Hb Hb'. split; [|split].
  - intros E. apply Marshal_written_inj in E; auto using purge_json_written.
    injection E as -> E. split; [done|]. by apply FormatRFC3339Nano_inj.
  - intros E. apply Marshal_written_inj in E; auto using output_json_written. by injection E.
  - intros E. apply Marshal_written_inj in E; auto using purge_json_written, output_json_written.
    discriminate.
Qed.

(** for a 64-byte key in base 64, the tool that
    checks receipts and outputs accepts the signature that the worker makes,
    under the public key in base 64. *)
Lemma honest_signature_verifies `{Ed25519Laws} b64 priv msg :
  LoadSigningKey b64 = Ok priv ->
  verifySig (EncodeToString (ed_public priv)) (EncodeToString (Sign priv msg)) msg = 0%Z.
Proof.
  unfold LoadSigningKey, ParsePrivateKey. intros Hp. destruct (seqb b64 []); [done|].
  destruct (DecodeString b64) as [raw|]; [|done].
  destruct (Nat.eqb_spec (length raw) 64) as [Hl|]; [|done]. injection Hp as <-.
  unfold verifySig, ParsePublicKey, Verify, Sign. rewrite !Decode_Encode.
  rewrite ed_public_length by done. cbn [Nat.eqb negb]. by rewrite ed_public_length, ed_verify_sign.
Qed.

(** ** Key stores *)

#[export] Instance memory_keys_laws : KeyStoreLaws MemoryKeyStore.
Proof.
  refine {| keys_ok := fun s => True |}; try done.
  - intros fresh id s _ _. cbn.
    by destruct ((s : gmap uuid memoryKeyRow) !! id) as [[k [] t]|].
  - intros fresh id s j _ _. cbn.
    destruct ((s : gmap uuid memoryKeyRow) !! id) as [[k [] t]|] eqn:E; cbn; try done.
    destruct (decide (j = id)) as [->|]; [by rewrite lookup_insert_eq|by rewrite lookup_insert_ne].
  - intros id s _. cbn. by destruct ((s : gmap uuid memoryKeyRow) !! id) as [[k [] t]|].
  - intros id t s j _. cbn.
    destruct ((s : gmap uuid memoryKeyRow) !! id) as [[k [] t']|] eqn:E; cbn; try done.
    destruct (decide (j = id)) as [->|]; [by rewrite lookup_insert_eq|by rewrite lookup_insert_ne].
Defined.

Section pg.
Context `{VaultLaws}.

(** Every key of the table is a wrapped 32-byte key, or gone. *)
Definition pg_ok (s : gmap uuid keyRow) : Prop :=
  forall id stored t, s !! id = Some (KeyRow (Some stored) t) ->
    exists k, length k = 32 /\ stored = wrapKey k.

Lemma read_wrapped k : length k = 32 -> read_material (wrapKey k) = Ok k.
Proof. intros Hk. unfold read_material. rewrite unwrap_wrap, Hk by done. done. Qed.

#[export] Instance pg_keys_laws : KeyStoreLaws pgKeyStore.
Proof.
  refine {| keys_ok := pg_ok |}.
  - intros fresh id s Hf Hs j stored t. cbn. unfold pg_Ensure, select_key.
    destruct ((s : gmap uuid keyRow) !! id) as [[[m|] u]|] eqn:E.
    + rewrite E. cbn. apply Hs.
    + rewrite E. cbn. apply Hs.
    + rewrite lookup_insert_eq. cbn. destruct (decide (j = id)) as [->|Hne].
      * rewrite lookup_insert_eq. intros [= <- <-]. by exists fresh.
      * rewrite lookup_insert_ne by done. apply Hs.
  - intros id t s Hs j stored u. cbn. unfold pg_Destroy.
    destruct ((s : gmap uuid keyRow) !! id) as [[[m|] v]|] eqn:E; try apply Hs.
    destruct (decide (j = id)) as [->|Hne]; [by rewrite lookup_insert_eq|].
    rewrite lookup_insert_ne by done. apply Hs.
  - intros fresh id s Hf Hs. cbn. unfold pg_Ensure, select_key.
    destruct ((s : gmap uuid keyRow) !! id) as [[[m|] u]|] eqn:E.
    + rewrite E. cbn. destruct (Hs _ _ _ E) as (k & Hk & ->). by rewrite read_wrapped, unwrap_wrap by done.
    + rewrite E. done.
    + rewrite lookup_insert_eq. cbn. by apply read_wrapped.
  - intros fresh id s j Hf Hs. cbn. unfold pg_Ensure, select_key.
    destruct ((s : gmap uuid keyRow) !! id) as [[[m|] u]|] eqn:E.
    + by rewrite E.
    + by rewrite E.
    + rewrite lookup_insert_eq. cbn. destruct (decide (j = id)) as [->|Hne].
      * rewrite lookup_insert_eq. by rewrite unwrap_wrap by done.
      * by rewrite lookup_insert_ne by done.
  - intros id s Hs. cbn. unfold pg_Load, select_key.
    destruct ((s : gmap uuid keyRow) !! id) as [[[m|] u]|] eqn:E; cbn; try done.
    destruct (Hs _ _ _ E) as (k & Hk & ->). by rewrite read_wrapped, unwrap_wrap by done.
  - intros id t s j Hs. cbn. unfold pg_Destroy.
    destruct ((s : gmap uuid keyRow) !! id) as [[[m|] u]|] eqn:E; cbn; try done.
    destruct (decide (j = id)) as [->|Hne]; [by rewrite lookup_insert_eq|by rewrite lookup_insert_ne].
Defined.
End pg.

(** *** Any sequence of operations *)

Inductive key_op :=
| OpEnsure (fresh : gostring) (id : uuid)
| OpLoad (id : uuid)
| OpDestroy (id : uuid) (at_ : time).

Definition op_ok (o : key_op) : Prop :=
  match o with OpEnsure fresh _ => length fresh = 32 | _ => True end.

Section ops.
Context {S : Type} `{KeyStore S}.

Definition run_op (o : key_op) (s : S) : S * result seal_error (option gostring) :=
  match o with
  | OpEnsure fresh id => let '(s', r) := Ensure fresh id s in (s', k ← r; Ok (Some k))
  | OpLoad id => (s, Load id s)
  | OpDestroy id t => (Destroy id t s, Ok None)
  end.

Fixpoint run_ops (os : list key_op) (s : S) : S * list (result seal_error (option gostring)) :=
  match os with
  | [] => (s, [])
  | o :: os' =>
      let '(s1, r) := run_op o s in
      let '(s2, rs) := run_ops os' s1 in (s2, r :: rs)
  end.
End ops.

Lemma run_op_ok {S} `{KeyStoreLaws S} o s :
  op_ok o -> keys_ok s -> keys_ok (fst (run_op o s)).
Proof.
  destruct o as [fresh id|id|id t]; intros Ho Hs; cbn [run_op].
  - pose proof (Ensure_ok fresh id s Ho Hs). by destruct (Ensure fresh id s).
  - done.
  - by apply Destroy_ok.
Qed.

(** Two implementations whose contents agree answer alike and stay in
    agreement. *)
Lemma run_op_agree {S T} `{KeyStoreLaws S} `{KeyStoreLaws T} o (s : S) (t : T) :
  op_ok o -> keys_ok s -> keys_ok t -> (forall id, key_of s id = key_of t id) ->
  snd (run_op o s) = snd (run_op o t) /\
  forall id, key_of (fst (run_op o s)) id = key_of (fst (run_op o t)) id.
Proof.
  intros Ho Hs Ht Hst. destruct o as [fresh id|id|id u]; cbn [run_op].
  - pose proof (Ensure_spec fresh id s Ho Hs) as E1. pose proof (Ensure_spec fresh id t Ho Ht) as E2.
    pose proof (fun j => Ensure_view fresh id s j Ho Hs) as V1.
    pose proof (fun j => Ensure_view fresh id t j Ho Ht) as V2.
    destruct (Ensure fresh id s) as [s' r], (Ensure fresh id t) as [t' r']. cbn [fst snd] in *.
    subst r r'. rewrite Hst. split; [done|]. intros j. rewrite V1, V2, !Hst.
    by destruct (key_of t id), (decide (j = id)).
  - cbn [fst snd]. rewrite !Load_spec, Hst by done. done.
  - cbn [fst snd]. split; [done|]. intros j. rewrite !Destroy_view, !Hst by done. done.
Qed.

Lemma run_ops_agree {S T} `{KeyStoreLaws S} `{KeyStoreLaws T} os (s : S) (t : T) :
  Forall op_ok os -> keys_ok s -> keys_ok t -> (forall id, key_of s id = key_of t id) ->
  snd (run_ops os s) = snd (run_ops os t).
Proof.
  intros Ho. revert s t. induction Ho as [|o os Ho Hos IH]; intros s t Hs Ht Hst; [done|].
  destruct (run_op_agree o s t Ho Hs Ht Hst) as [Hr Hv].
  pose proof (run_op_ok o s Ho Hs) as Hs'. pose proof (run_op_ok o t Ho Ht) as Ht'.
  cbn [run_ops]. destruct (run_op o s) as [s1 r], (run_op o t) as [t1 r']. cbn [fst snd] in *. subst r'.
  specialize (IH s1 t1 Hs' Ht' Hv).
  destruct (run_ops os s1), (run_ops os t1). cbn [snd] in *. by subst.
Qed.

(** C29 [key_stores_refine]: the Postgres key store and the in-memory one
    implement the same interface: every sequence of operations, from empty
    stores, gives the same answers from both, errors included. *)
Theorem key_stores_refine `{VaultLaws} os :
  Forall op_ok os ->
  snd (run_ops (S := pgKeyStore) os (∅ : gmap uuid keyRow)) =
  snd (run_ops (S := MemoryKeyStore) os (∅ : gmap uuid memoryKeyRow)).
Proof.
  intros Ho. apply run_ops_agree; [done| |done|].
  - intros id stored t. by rewrite lookup_empty.
  - intros id. cbn. by rewrite !lookup_empty.
Qed.

Definition toy_vault : Vault := {| wrapKey k := k; unwrapKey := Some |}.
Definition toy_vault_laws : @VaultLaws toy_vault.
Proof. by split. Defined.

Lemma key_stores_refine_witness :
  let os := [OpEnsure (replicate 32 "k"%byte) "id"; OpDestroy "id" 7; OpLoad "id"]%go in
  snd (@run_ops pgKeyStore (@pg_keys toy_vault) os (∅ : gmap uuid keyRow)) =
  snd (run_ops (S := MemoryKeyStore) os (∅ : gmap uuid memoryKeyRow)).
Proof.
  intros os. apply (@key_stores_refine toy_vault toy_vault_laws os). repeat constructor.
Defined.

Lemma run_op_keeps_destroyed {S} `{KeyStoreLaws S} o s id t :
  op_ok o -> keys_ok s -> key_of s id = Destroyed t -> key_of (fst (run_op o s)) id = Destroyed t.
Proof.
  intros Ho Hs Hd. destruct o as [fresh j|j|j u]; cbn [run_op].
  - pose proof (Ensure_view fresh j s id Ho Hs) as V. destruct (Ensure fresh j s) as [s' r].
    cbn [fst] in *. rewrite V. destruct (key_of s j) eqn:E; try done.
    destruct (decide (id = j)); congruence.
  - done.
  - cbn [fst]. rewrite Destroy_view by done. destruct (key_of s j) eqn:E; try done.
    destruct (decide (id = j)); congruence.
Qed.

Lemma run_ops_keep_destroyed {S} `{KeyStoreLaws S} os s id t :
  Forall op_ok os -> keys_ok s -> key_of s id = Destroyed t ->
  key_of (fst (run_ops os s)) id = Destroyed t /\ keys_ok (fst (run_ops os s)).
Proof.
  intros Ho. revert s. induction Ho as [|o os Ho Hos IH]; intros s Hs Hd; [done|].
  pose proof (run_op_keeps_destroyed o s id t Ho Hs Hd) as Hd'.
  pose proof (run_op_ok o s Ho Hs) as Hs'. cbn [run_ops].
  destruct (run_op o s) as [s1 r]. cbn [fst] in *. specialize (IH s1 Hs' Hd').
  by destruct (run_ops os s1).
Qed.

(** in every store that implements the interface, a key
    that has been destroyed stays destroyed, with the time of its first
    destruction, whatever operations follow; from then on neither [Load] nor
    [Ensure] gives out a key for that job. *)
Lemma destroyed_forever {S} `{KeyStoreLaws S} s id t at_ os fresh k :
  keys_ok s -> Forall op_ok os -> length fresh = 32 -> key_of s id = Live k ->
  let s' := fst (run_ops os (Destroy id t (Destroy id at_ s))) in
  key_of s' id = Destroyed at_ /\ Load id s' = Err KeyDestroyed /\
  snd (Ensure fresh id s') = Err KeyDestroyed.
Proof.
  intros Hs Ho Hf Hl s'.
  assert (Hd : key_of (Destroy id at_ s) id = Destroyed at_).
  { rewrite Destroy_view, Hl by done. by destruct (decide (id = id)). }
  assert (Hd2 : key_of (Destroy id t (Destroy id at_ s)) id = Destroyed at_).
  { rewrite Destroy_view, Hd by (by apply Destroy_ok). done. }
  destruct (run_ops_keep_destroyed os _ id at_ Ho (Destroy_ok _ _ _ (Destroy_ok _ _ _ Hs)) Hd2) as [H1 H2].
  fold s' in H1, H2. split; [done|]. by rewrite Load_spec, Ensure_spec, H1 by done.
Qed.

(** ** Receipts *)

Lemma same_receipt_refl r : same_receipt r r.
Proof. done. Qed.

#[export] Instance memory_receipts_laws : ReceiptStoreLaws MemoryReceiptStore.
Proof.
  split.
  - intros r s Hg. cbn in *. by destruct ((s : gmap uuid Receipt) !! JobID r).
  - intros r s Hg _. cbn in *. rewrite Hg. cbn. split; [done|]. intros j.
    destruct (decide (j = JobID r)) as [->|Hne].
    + rewrite lookup_insert_eq. eexists. split; [done|apply same_receipt_refl].
    + by rewrite lookup_insert_ne.
Defined.

Definition pg_receipts_laws `{UUID} jsonb : @ReceiptStoreLaws pgReceipts (pg_receipt_store jsonb).
Proof.
  split.
  - intros r s Hg. cbn in *. unfold pg_Insert. by destruct (purge_receipts s !! JobID r).
  - intros r s Hg Hat. cbn in *. unfold pg_Insert. rewrite Hg.
    assert (Hrow : forall j,
      if decide (j = JobID r)
      then exists r', <[JobID r := MkReceipt (JobID r) (RedisJobID r) (Ledger.normalizeAt (PurgedAt r))
                        (Signature r) (ReceiptKeyID r) []]> (purge_receipts s) !! j = Some r' /\ same_receipt r' r
      else <[JobID r := MkReceipt (JobID r) (RedisJobID r) (Ledger.normalizeAt (PurgedAt r))
                        (Signature r) (ReceiptKeyID r) []]> (purge_receipts s) !! j = purge_receipts s !! j).
    { intros j. destruct (decide (j = JobID r)) as [->|Hne].
      - rewrite lookup_insert_eq. eexists. split; [done|]. by rewrite Hat.
      - by rewrite lookup_insert_ne. }
    destruct (seqb (TenantID r) []); [by split|].
    destruct (uuid_parse (TenantID r)) as [t|]; [|done].
    destruct (Ledger.AppendSQL _ _ _ _ _ _) as [l|e]; [by split|done].
Defined.

Lemma receipt_payload_wf r :
  valid_utf8 (RedisJobID r) -> valid_utf8 (ReceiptKeyID r) -> wf (receipt_payload r).
Proof.
  intros Hj Hk. apply wf_obj. split; [by repeat constructor|].
  repeat constructor; cbn [fst snd]; try (by apply ascii_text_valid); try done. apply stamp_valid.
Qed.

(** recording a purge receipt is all or nothing.
    Either nothing changes, because the job has a receipt or because of an
    error, or the receipt is stored and, for a job with a tenant, that tenant's
    audit chain still verifies and has gained exactly one entry, which records
    the job, the instant and the signing key. *)
Lemma receipt_insert_atomic `{UUID} jsonb (Hj : jsonb_keeps jsonb) r s :
  valid_utf8 (RedisJobID r) -> valid_utf8 (ReceiptKeyID r) ->
  let '(s', res) := pg_Insert jsonb r s in
  (s' = s /\ res <> Ok true) \/
  (res = Ok true /\ purge_receipts s !! JobID r = None /\
   (exists r', purge_receipts s' !! JobID r = Some r' /\ RedisJobID r' = RedisJobID r) /\
   (forall t, uuid_parse (TenantID r) = Some t -> TenantID r <> [] ->
      Ledger.Verify t (audit s) = Ok tt -> bounded (Ledger.rows_of t (audit s)) ->
      t ∈ Ledger.tenants (audit s) ->
      Ledger.Verify t (audit s') = Ok tt /\
      exists e, Ledger.rows_of t (audit s') = Ledger.rows_of t (audit s) ++ [e] /\
        Ledger.kind e = "purge_receipt"%go /\
        Unmarshal (Ledger.payload e) = Some (receipt_payload r))).
Proof.
  intros Hv Hk. unfold pg_Insert.
  destruct (purge_receipts s !! JobID r) as [old|] eqn:Eold; [by left|].
  destruct (seqb (TenantID r) []) eqn:Et.
  { right. split; [done|]. split; [done|]. cbn [purge_receipts]. rewrite lookup_insert_eq.
    split; [by eexists|]. apply seqb_eq in Et. congruence. }
  destruct (uuid_parse (TenantID r)) as [t|] eqn:Ep; [|by left].
  destruct (Ledger.AppendSQL _ _ _ _ _ _) as [l|e] eqn:El; [|by left].
  right. split; [done|]. split; [done|]. cbn [purge_receipts audit]. rewrite lookup_insert_eq.
  split; [by eexists|]. intros t' [= <-] _ Hver Hb Ht.
  pose proof (receipt_payload_wf r Hv Hk) as Hw.
  assert (Hu : Unmarshal (Marshal (receipt_payload r)) = Some (receipt_payload r))
    by (by apply Unmarshal_Marshal).
  assert (He : exact (receipt_payload r)) by done.
  unfold Ledger.AppendSQL in El.
  pose proof (Append_Ok jsonb t "purge_receipt" (Marshal (receipt_payload r)) (PurgedAt r) (audit s)
                Hver Hb Ht) as HO.
  rewrite El in HO. unfold append_spec in HO.
  destruct (jsonb (Ledger.canonicalPayload (Marshal (receipt_payload r)))) as [st|] eqn:Hc; [|done].
  destruct (append_chain jsonb Hj t "purge_receipt" _ _ _ (PurgedAt r) (audit s) Hver Hb Ht Hu He Hc)
    as (d' & HA & Hok & (e & Hr & _ & Hkd & _ & Hp & _) & _).
  rewrite El in HA. injection HA as <-. split; [done|]. by exists e.
Qed.

Definition toy_uuid : UUID := {| uuid_parse := Some |}.
