(* ===== verification/Vault.v ===== *)
(** * The Vault client (internal/seal/vault.go)

    Job keys are wrapped and unwrapped by the transit engine of a Vault server, over
    HTTP.  The server is a parameter; what the client relies on is that it decrypts
    what it has encrypted.  The key store sees the client through the interface
    [Seal.Vault], whose law is proved here. *)

From S2P Require Import Prelude GoStd Sha256 Base64 Json JsonSpec Decode Seal SealSpec.

Module Vault.

Inductive error :=
| NotConfigured
| NoAnswer
| Refused (path raw : gostring)
| BadAnswer
| EmptyToken
| EmptyCiphertext
| BadBase64
| KeyWrongLength (n : nat).

(** The environment, and what the [n]th POST is answered: the status and the body, or
    [None] when the URL is not one, the request fails or the body cannot be read. *)
Class Service := {
  Getenv : gostring -> gostring;
  exchange : nat -> gostring -> gostring -> gostring -> option (Z * gostring);
}.

(** [json.Unmarshal] into a struct with a [data] struct with one text. *)
Definition data_field (f raw : gostring) : option gostring :=
  v ← Json.Parse raw;
  set_struct ["data"%go] (fun _ cur v => set_struct [f] (fun _ cur v => set_string cur v) false cur v) false [] v.

Section client.
Context `{Service}.

Definition RequireVault : result error unit :=
  if seqb (Getenv "VAULT_ADDR") [] || seqb (Getenv "VAULT_TOKEN") [] then Err NotConfigured else Ok tt.

(** [n] tells the requests apart. *)
Definition vaultPost (n : nat) (path body : gostring) : result error gostring :=
  match exchange n (Getenv "VAULT_ADDR" ++ path) (Getenv "VAULT_TOKEN") body with
  | None => Err NoAnswer
  | Some (status, raw) => if (300 <=? status)%Z then Err (Refused path raw) else Ok raw
  end.

Definition answer {A} (o : option A) : result error A := match o with Some a => Ok a | None => Err BadAnswer end.

(** Without a server, a hash of the name and the data. *)
Definition Tokenize (n : nat) (keyName data : gostring) : result error gostring :=
  let keyName := if seqb keyName [] then "coldharbour"%go else keyName in
  match RequireVault with
  | Err _ => Ok ("tok_" ++ hex_encode (take 8 (Sha256.Sum256 (keyName ++ ":" ++ data))))
  | Ok _ =>
      raw ← vaultPost n ("/v1/transit/hmac/" ++ keyName) (Marshal (JObj [("input", JStr (EncodeToString data))]%go));
      hmac ← answer (data_field "hmac" raw);
      if seqb hmac [] then Err EmptyToken else Ok hmac
  end.

Definition wrapKey (n : nat) (plain : gostring) : result error gostring :=
  _ ← RequireVault;
  raw ← vaultPost n "/v1/transit/encrypt/coldharbour" (Marshal (JObj [("plaintext", JStr (EncodeToString plain))]%go));
  ciphertext ← answer (data_field "ciphertext" raw);
  if seqb ciphertext [] then Err EmptyCiphertext else Ok ciphertext.

Definition unwrapKey (n : nat) (stored : gostring) : result error gostring :=
  _ ← RequireVault;
  raw ← vaultPost n "/v1/transit/decrypt/coldharbour" (Marshal (JObj [("ciphertext", JStr stored)]%go));
  text ← answer (data_field "plaintext" raw);
  match DecodeString text with
  | None => Err BadBase64
  | Some plain => if length plain =? 32 then Ok plain else Err (KeyWrongLength (length plain))
  end.
End client.

(** ** What the client relies on *)

Section contract.
Context `{Service}.

Definition transit (n : nat) (op : gostring) (k v : gostring) : option (Z * gostring) :=
  exchange n (Getenv "VAULT_ADDR" ++ "/v1/transit/" ++ op ++ "/coldharbour") (Getenv "VAULT_TOKEN")
    (Marshal (JObj [(k, JStr v)])).

(** [c] was given out for [k]. *)
Definition given_out (n : nat) (k c : gostring) : Prop := exists st raw,
  transit n "encrypt" "plaintext" (EncodeToString k) = Some (st, raw) /\ (st < 300)%Z /\
  data_field "ciphertext" raw = Some c /\ c <> [].

(** When the server decrypts what it has given out, then or later, it gives back what
    it encrypted. *)
Class Transit : Prop := {
  decrypts n m k c st raw :
    given_out n k c -> transit m "decrypt" "ciphertext" c = Some (st, raw) -> (st < 300)%Z ->
    data_field "plaintext" raw = Some (EncodeToString k);
}.

(** A server that is there answers. *)
Class Up : Prop := {
  configured : RequireVault = Ok tt;
  encrypts n k : exists c, given_out n k c;
  answers n m k c : given_out n k c -> exists st raw, transit m "decrypt" "ciphertext" c = Some (st, raw) /\ (st < 300)%Z;
}.
End contract.

Section spec.
Context `{Service}.

Lemma vaultPost_Ok n path body raw : vaultPost n path body = Ok raw <->
  exists st, exchange n (Getenv "VAULT_ADDR" ++ path) (Getenv "VAULT_TOKEN") body = Some (st, raw) /\ (st < 300)%Z.
Proof.
  unfold vaultPost. destruct (exchange _ _ _ _) as [[st r]|]; [|split; [done|by intros (? & ? & _)]].
  destruct (Z.leb_spec 300 st); split; try done.
  - intros (? & [= <- <-] & ?). lia.
  - intros [= <-]. exists st. split; [done|lia].
  - by intros (? & [= <- <-] & _).
Qed.

Lemma wrapKey_Ok n k c : wrapKey n k = Ok c <-> RequireVault = Ok tt /\ given_out n k c.
Proof.
  unfold wrapKey, given_out. destruct RequireVault as [[]|e]; [|by split; [|intros [? _]]]. cbn [mbind result_bind].
  set (body := Marshal _). destruct (vaultPost n _ body) as [raw|e] eqn:E.
  - apply vaultPost_Ok in E as (st & E & Hst). cbn [mbind result_bind].
    change (transit n "encrypt" "plaintext" (EncodeToString k) = Some (st, raw)) in E. rewrite E.
    destruct (data_field "ciphertext" raw) as [c'|] eqn:Ec; cbn [answer mbind result_bind].
    + destruct (seqb c' []) eqn:Es; [apply seqb_eq in Es as ->|apply seqb_neq in Es].
      * split; [done|]. intros (_ & st2 & raw2 & [= <- <-] & _ & Ec2 & Hc). congruence.
      * split; [intros [= <-]; eauto 8|]. intros (_ & st2 & raw2 & [= <- <-] & _ & Ec2 & _). congruence.
    + split; [done|]. intros (_ & st2 & raw2 & [= <- <-] & _ & Ec2 & _). congruence.
  - split; [done|]. intros (_ & st & raw & Ht & Hst & _).
    assert (E' : vaultPost n "/v1/transit/encrypt/coldharbour" body = Ok raw) by (apply vaultPost_Ok; by exists st).
    rewrite E in E'. discriminate E'.
Qed.

(** What unwrapping a key that was given out comes to. *)
Lemma unwrapKey_given `{!Transit} n m k c : length k = 32 -> RequireVault = Ok tt -> given_out n k c ->
  unwrapKey m c = match vaultPost m "/v1/transit/decrypt/coldharbour" (Marshal (JObj [("ciphertext", JStr c)]%go)) with
                  | Ok _ => Ok k
                  | Err e => Err e
                  end.
Proof.
  intros Hk Hr Hc. unfold unwrapKey. rewrite Hr. cbn [mbind result_bind]. set (body := Marshal _).
  destruct (vaultPost m _ body) as [raw|e] eqn:E; [|done]. apply vaultPost_Ok in E as (st & E & Hst). cbn [mbind result_bind].
  change (transit m "decrypt" "ciphertext" c = Some (st, raw)) in E.
  rewrite (decrypts n m k c st raw Hc E Hst). cbn [answer mbind result_bind]. by rewrite Decode_Encode, Hk.
Qed.

Lemma unwrapKey_length n c k : unwrapKey n c = Ok k -> length k = 32.
Proof.
  unfold unwrapKey. destruct RequireVault; [|done]. cbn [mbind result_bind]. destruct (vaultPost _ _ _); [|done]. cbn [mbind result_bind].
  destruct (data_field _ _); [|done]. cbn [answer mbind result_bind]. destruct (DecodeString _) as [p|]; [|done].
  destruct (length p =? 32) eqn:E; [|done]. intros [= <-]. by apply Nat.eqb_eq.
Qed.

(** C30 [vault_key_roundtrip]: what [wrapKey] gives for a key of 32 bytes is unwrapped to
    that key, or the server does not answer or refuses: never to another key.  When
    the server is there, both succeed.  Without its address and its token neither key
    is sent.  Whatever the stored text and the answer, what [unwrapKey] gives is a key
    of 32 bytes. *)
Theorem vault_key_roundtrip `{!Transit} n m k :
  length k = 32 ->
  (forall c, wrapKey n k = Ok c ->
     unwrapKey m c = Ok k \/ unwrapKey m c = Err NoAnswer \/ exists path raw, unwrapKey m c = Err (Refused path raw)) /\
  (Up -> exists c, wrapKey n k = Ok c /\ unwrapKey m c = Ok k) /\
  (RequireVault = Err NotConfigured -> wrapKey n k = Err NotConfigured /\ forall c, unwrapKey m c = Err NotConfigured) /\
  (forall c p, unwrapKey m c = Ok p -> length p = 32).
Proof.
  intros Hk. split; [|split; [|split]].
  - intros c [Hr Hc]%wrapKey_Ok. rewrite (unwrapKey_given n m k c) by done. unfold vaultPost.
    destruct (exchange _ _ _ _) as [[st raw]|]; [|by right; left].
    destruct (300 <=? st)%Z; [right; right; by eexists _, _|by left].
  - intros Hup. destruct (encrypts n k) as [c Hc]. pose proof configured as Hr. exists c. split; [by apply wrapKey_Ok|].
    rewrite (unwrapKey_given n m k c) by done. destruct (answers n m k c Hc) as (st & raw & E & Hst).
    set (body := Marshal _).
    assert (E' : vaultPost m "/v1/transit/decrypt/coldharbour" body = Ok raw) by (apply vaultPost_Ok; by exists st).
    by rewrite E'.
  - intros Hr. unfold wrapKey, unwrapKey. by rewrite Hr.
  - apply unwrapKey_length.
Qed.

(** The interface that the key store was proved against. *)
Definition service_vault : Seal.Vault := {|
  Seal.wrapKey k := match wrapKey 0 k with Ok c => c | Err _ => [] end;
  Seal.unwrapKey c := match unwrapKey 1 c with Ok k => Some k | Err _ => None end;
|}.

Lemma service_vault_laws `{!Transit, !Up} : @Seal.VaultLaws service_vault.
Proof.
  split. intros k Hk. cbn. destruct (encrypts 0 k) as [c Hc]. pose proof configured as Hr.
  rewrite (proj2 (wrapKey_Ok 0 k c)) by done. rewrite (unwrapKey_given 0 1 k c) by done.
  destruct (answers 0 1 k c Hc) as (st & raw & E & Hst). set (body := Marshal _).
  assert (E' : vaultPost 1 "/v1/transit/decrypt/coldharbour" body = Ok raw) by (apply vaultPost_Ok; by exists st).
  by rewrite E'.
Qed.
End spec.

End Vault.

(** ** A server that prefixes *)

Lemma std_digit_ascii n : n < 64 -> in_range Byte.x00 Byte.x7f (b64_digit "+"%byte "/"%byte n) = true.
Proof.
  intros Hn. assert (H : forallb (fun i => in_range Byte.x00 Byte.x7f (b64_digit "+"%byte "/"%byte i)) (List.seq 0 64) = true)
    by (vm_compute; reflexivity).
  rewrite forallb_forall in H. apply H, in_seq. lia.
Qed.

Lemma EncodeToString_valid s : valid_utf8 (EncodeToString s).
Proof.
  apply ascii_text_valid, forallb_forall. intros b Hb. apply list_elem_of_In in Hb. revert b Hb. apply Forall_forall.
  by apply b64_encode_all; [apply std_digit_ascii|].
Qed.

Import Vault.

Definition toy_reply (f s : gostring) : gostring := Marshal (JObj [("data", JObj [(f, JStr s)])])%go.

Definition toy_service : Service := {|
  Getenv name := name;
  exchange _ url _ body :=
    match Unmarshal body with
    | Some (JObj [(_, JStr s)]) =>
        Some (200%Z, if HasSuffix url "/encrypt/coldharbour" then toy_reply "ciphertext" ("v1:" ++ s)
                     else toy_reply "plaintext" (drop 3 s))
    | _ => Some (400%Z, [])
    end;
|}.
#[local] Existing Instance toy_service.

Lemma data_field_reply f s : valid_utf8 f -> valid_utf8 s -> data_field f (toy_reply f s) = Some s.
Proof.
  intros Hf Hs. unfold data_field, toy_reply. rewrite Parse_Marshal.
  - cbn [mbind option_bind set_struct set_members]. change (field_of ["data"%go] "data"%go) with (Some "data"%go).
    cbn [mbind option_bind]. unfold field_of. cbn [existsb]. by rewrite seqb_refl.
  - apply written_obj, Forall_cons_2; [split; cbn [fst snd]; [by apply ascii_text_valid|]|constructor].
    apply written_obj, Forall_cons_2; [by split|constructor].
Qed.

Lemma toy_transit n op k v : valid_utf8 k -> valid_utf8 v ->
  transit n op k v = Some (200%Z, if HasSuffix ("VAULT_ADDR" ++ "/v1/transit/" ++ op ++ "/coldharbour") "/encrypt/coldharbour"
                                  then toy_reply "ciphertext" ("v1:" ++ v) else toy_reply "plaintext" (drop 3 v)).
Proof.
  intros Hk Hv. unfold transit. cbn [exchange toy_service Getenv]. rewrite Unmarshal_Marshal; [done|].
  apply wf_obj. split; [by repeat constructor|]. apply Forall_cons_2; [by split|constructor].
Qed.

Lemma toy_encrypt n k : transit n "encrypt" "plaintext" (EncodeToString k) =
  Some (200%Z, toy_reply "ciphertext" ("v1:" ++ EncodeToString k)).
Proof. apply toy_transit; [by apply ascii_text_valid|apply EncodeToString_valid]. Qed.

Lemma toy_ciphertext k : valid_utf8 ("v1:" ++ EncodeToString k).
Proof. do 3 (apply valid_cons_ascii; [done|]). apply EncodeToString_valid. Qed.

Lemma toy_given n k c : given_out n k c -> c = ("v1:" ++ EncodeToString k)%go.
Proof.
  intros (st & raw & E & _ & Ec & _). rewrite toy_encrypt in E. injection E as <- <-.
  rewrite data_field_reply in Ec; [by injection Ec|by apply ascii_text_valid|apply toy_ciphertext].
Qed.

Lemma toy_decrypt m k : transit m "decrypt" "ciphertext" ("v1:" ++ EncodeToString k) =
  Some (200%Z, toy_reply "plaintext" (EncodeToString k)).
Proof. apply toy_transit; [by apply ascii_text_valid|apply toy_ciphertext]. Qed.

#[local] Instance toy_transit_laws : Transit.
Proof.
  split. intros n m k c st raw ->%toy_given E _. rewrite toy_decrypt in E. injection E as <- <-.
  apply data_field_reply; [by apply ascii_text_valid|apply EncodeToString_valid].
Qed.

Lemma toy_up : Up.
Proof.
  split; [done| |].
  - intros n k. eexists. eexists _, _. split; [apply toy_encrypt|]. split; [done|].
    split; [apply data_field_reply; [by apply ascii_text_valid|apply toy_ciphertext]|done].
  - intros n m k c ->%toy_given. eexists _, _. by split; [apply toy_decrypt|].
Qed.

Lemma vault_key_roundtrip_witness : exists c,
  wrapKey 0 (replicate 32 Byte.x07) = Ok c /\ unwrapKey 1 c = Ok (replicate 32 Byte.x07).
Proof. exact (proj1 (proj2 (vault_key_roundtrip 0 1 (replicate 32 Byte.x07) eq_refl)) toy_up). Defined.
