(* ===== verification/Journal.v ===== *)
(** * The job journal (internal/journal)

    The durable record of finished jobs: one row per job, written once.  The
    interface [Journal] of the Go code, with its in-memory and its Postgres
    implementation, and what both are given: the state history of a job, the
    bytes of its body and their checksum. *)

From S2P Require Import Prelude GoStd GoTime Sha256 Json Decode Runner Redact.

Module Journal.

Abbreviation uuid := gostring (only parsing).
Abbreviation jmap := (list (gostring * json)) (only parsing).

(** ** History (history.go) *)

Inductive JobState := CREATED | RUNNING | COMPLETED | FAILED.

#[export] Instance JobState_eq_dec : EqDecision JobState.
Proof. solve_decision. Defined.

(** The text of a state, which is what the tables hold. *)
Definition state_text (s : JobState) : gostring :=
  match s with
  | CREATED => "CREATED" | RUNNING => "RUNNING" | COMPLETED => "COMPLETED" | FAILED => "FAILED"
  end.

Record Transition := MkTransition { From : JobState; To : JobState; At : time }.

Record JobResult := MkJobResult {
  ID : gostring;
  TenantID : gostring;
  JobType : gostring;
  Result : jmap;
  History : list Transition;
  Signature : gostring;
  SigningKeyID : gostring;
}.

Definition terminal (id : gostring) (result : jmap) (to : JobState) (now : time) : JobResult :=
  MkJobResult id [] [] result [MkTransition CREATED RUNNING now; MkTransition RUNNING to now] [] [].

Definition Succeed (id : gostring) (result : jmap) (now : time) : JobResult :=
  terminal id result COMPLETED now.

Definition Fail (id : gostring) (result : jmap) (now : time) : JobResult :=
  terminal id result FAILED now.

(** ** Identifiers, bodies and checksums *)

(** [uuid.NewSHA1] under the program's name space. *)
Class JobIDs := { DurableIDFor : gostring -> uuid }.

Definition BodyOf (result : jmap) : gostring :=
  let b := Marshal (JObj result) in
  match jlookup "redactedText" result with
  | None => b
  | Some _ =>
      match Redact.decode_result b with
      | None => b
      | Some rr => Redact.MarshalResult rr
      end
  end.

Definition ChecksumOf (result : jmap) : gostring := hex_encode (Sha256.Sum256 (BodyOf result)).

Definition FormatJobLine (result : JobResult) : gostring :=
  ID result ++ " " ++ BodyOf (Result result).

(** ** Rows *)

Record StoredJob := MkStored {
  stored_id : uuid;
  stored_type : gostring;
  FinalState : JobState;
  Checksum : gostring;
  CreatedAt : time;
  CompletedAt : time;
}.

Inductive journal_error :=
| NotTerminal
| MissingPickup
| JournalConflict
| UnknownStoredJob
| MissingTenant
| SqlError.

Section journal.
Context `{JobIDs}.

Definition parseTerminal (result : JobResult) : Prelude.result journal_error StoredJob :=
  match last (History result) with
  | None => Err NotTerminal
  | Some lst =>
      if negb (bool_decide (To lst = COMPLETED)) && negb (bool_decide (To lst = FAILED))
      then Err NotTerminal
      else
        match find (fun s => bool_decide (From s = CREATED) && bool_decide (To s = RUNNING))
                (History result) with
        | None => Err MissingPickup
        | Some pickup =>
            Ok (MkStored (DurableIDFor (ID result))
                  (if seqb (JobType result) [] then "redact" else JobType result)
                  (To lst) (ChecksumOf (Result result)) (At pickup) (At lst))
        end
  end.

Definition acceptExisting (existing incoming : StoredJob) : result journal_error unit :=
  if seqb (Checksum existing) (Checksum incoming)
     && bool_decide (FinalState existing = FinalState incoming)
  then Ok tt else Err JournalConflict.

(** A row of [outputs]. *)
Record storedOutput := MkOutput { out_state : JobState; Body : gostring; out_tenant : gostring }.

(** The interface [Journal]. *)
Class Store (S : Type) := {
  Record_ : JobResult -> S -> S * result journal_error unit;
  row_of : S -> uuid -> option StoredJob;
  output_of : S -> gostring -> option storedOutput;
}.

Definition Load {S} `{Store S} (redisJobID : gostring) (s : S) : result journal_error StoredJob :=
  match row_of s (DurableIDFor redisJobID) with
  | None => Err UnknownStoredJob
  | Some row => Ok row
  end.

Definition LoadOutput {S} `{Store S} (redisJobID : gostring) (s : S) : result journal_error gostring :=
  match output_of s redisJobID with
  | None => Err UnknownStoredJob
  | Some out => Ok (Body out)
  end.

(** *** In memory *)

Record MemoryJournal := MkMemory {
  rows : gmap uuid StoredJob;
  outputs : gmap gostring storedOutput;
}.

Definition memory_Record (result : JobResult) (j : MemoryJournal)
    : MemoryJournal * Prelude.result journal_error unit :=
  match parseTerminal result with
  | Err e => (j, Err e)
  | Ok row =>
      let body := BodyOf (Result result) in
      match rows j !! stored_id row with
      | None =>
          (MkMemory (<[stored_id row := row]> (rows j))
             (<[ID result := MkOutput (FinalState row) body (TenantID result)]> (outputs j)), Ok tt)
      | Some existing => (j, acceptExisting existing row)
      end
  end.

#[export] Instance memory_journal : Store MemoryJournal := {|
  Record_ := memory_Record;
  row_of j id := rows j !! id;
  output_of j id := outputs j !! id;
|}.

(** *** In Postgres *)

(** A row of [jobs]. *)
Record jobRow := MkJobRow {
  job : StoredJob;
  job_tenant : gostring;
  output_signature : option gostring;
  signing_key_id : option gostring;
}.

Record pgJournal := MkPg {
  jobs : gmap uuid jobRow;
  pg_outputs : gmap gostring storedOutput;
}.

(** Whether Postgres reads the text as a UUID, and as that of a tenant. *)
Context (tenant_valid tenant_exists : gostring -> bool).

(** Characters of a text, for the width of a [VARCHAR] column. *)
Definition char_count (s : gostring) : nat := length (filter (fun b => cont b = false) s).

Definition nonempty (s : gostring) : option gostring := if seqb s [] then None else Some s.

(** [pgJournal.Record]: one transaction, rolled back on an error.  The two
    inserts do nothing when their key exists; they fail when the tenant does
    not exist or, for [jobs], when the job type is wider than its column. *)
Definition pg_Record (result : JobResult) (j : pgJournal)
    : pgJournal * Prelude.result journal_error unit :=
  if seqb (TenantID result) [] then (j, Err MissingTenant)
  else
    match parseTerminal result with
    | Err e => (j, Err e)
    | Ok row =>
        let body := BodyOf (Result result) in
        if negb (tenant_valid (TenantID result)) then (j, Err SqlError) else
        match pg_outputs j !! ID result, tenant_exists (TenantID result) with
        | None, false => (j, Err SqlError)
        | old, _ =>
            let outs :=
              match old with
              | Some _ => pg_outputs j
              | None => <[ID result := MkOutput (FinalState row) body (TenantID result)]> (pg_outputs j)
              end in
            if 64 <? char_count (stored_type row) then (j, Err SqlError)
            else
              match jobs j !! stored_id row with
              | None =>
                  if tenant_exists (TenantID result)
                  then (MkPg (<[stored_id row := MkJobRow row (TenantID result)
                                  (nonempty (Signature result)) (nonempty (SigningKeyID result))]> (jobs j))
                          outs, Ok tt)
                  else (j, Err SqlError)
              | Some existing =>
                  match acceptExisting (job existing) row with
                  | Ok _ => (MkPg (jobs j) outs, Ok tt)
                  | Err e => (j, Err e)
                  end
              end
        end
    end.

Definition pg_journal : Store pgJournal := {|
  Record_ := pg_Record;
  row_of j id := job <$> jobs j !! id;
  output_of j id := pg_outputs j !! id;
|}.
End journal.

End Journal.
