(* ===== verification/JournalSpec.v ===== *)
(** * What the journal guarantees

    Both journals are write-once: a recorded job and its output never change,
    recording again what is there succeeds, recording something else is
    refused; and the checksum of a row is that of the stored body. *)

From S2P Require Import Prelude GoStd GoTime Sha256 Json Decode Runner Redact Journal.
Import Journal.

Section laws.
Context `{JobIDs}.

(** Every output belongs to a row with its state and its checksum. *)
Definition consistent {S} `{Store S} (s : S) : Prop :=
  forall j o, output_of s j = Some o ->
    exists row, row_of s (DurableIDFor j) = Some row /\ FinalState row = out_state o /\
      Checksum row = hex_encode (Sha256.Sum256 (Body o)).

(** What both implementations promise, in consistent states. *)
Class StoreLaws (S : Type) `{Store S} := {
  Record_consistent r s : consistent s -> consistent (fst (Record_ r s));
  (** Nothing that is stored changes. *)
  Record_keeps_row r s id row :
    consistent s -> row_of s id = Some row -> row_of (fst (Record_ r s)) id = Some row;
  Record_keeps_output r s j o :
    consistent s -> output_of s j = Some o -> output_of (fst (Record_ r s)) j = Some o;
  (** Success: the job has a row that agrees with what was recorded. *)
  Record_Ok r s :
    consistent s -> snd (Record_ r s) = Ok tt ->
    exists row stored, parseTerminal r = Ok row /\
      row_of (fst (Record_ r s)) (DurableIDFor (ID r)) = Some stored /\
      acceptExisting stored row = Ok tt /\
      (row_of s (DurableIDFor (ID r)) = None ->
         stored = row /\ exists o, output_of (fst (Record_ r s)) (ID r) = Some o);
  (** An error changes nothing. *)
  Record_Err r s e : snd (Record_ r s) = Err e -> fst (Record_ r s) = s;
  (** A job that is there is refused unless it agrees. *)
  Record_conflict r s row stored :
    consistent s -> parseTerminal r = Ok row -> row_of s (DurableIDFor (ID r)) = Some stored ->
    acceptExisting stored row <> Ok tt -> exists e, snd (Record_ r s) = Err e;
  (** Nothing else appears. *)
  Record_row r s id row :
    row_of (fst (Record_ r s)) id = Some row ->
    row_of s id = Some row \/ (id = DurableIDFor (ID r) /\ parseTerminal r = Ok row);
  Record_output r s j o :
    output_of (fst (Record_ r s)) j = Some o ->
    output_of s j = Some o \/
    (j = ID r /\ exists row, parseTerminal r = Ok row /\
       o = MkOutput (FinalState row) (BodyOf (Result r)) (TenantID r));
}.

Lemma parseTerminal_Ok r row :
  parseTerminal r = Ok row ->
  stored_id row = DurableIDFor (ID r) /\ Checksum row = ChecksumOf (Result r) /\
  (FinalState row = COMPLETED \/ FinalState row = FAILED).
Proof.
  unfold parseTerminal. destruct (list.last (History r)) as [t|]; [|done].
  destruct (bool_decide (To t = COMPLETED)) eqn:E1, (bool_decide (To t = FAILED)) eqn:E2;
    cbn [negb andb]; try done; bool_to_prop;
    (destruct (find _ (History r)); [|done]); intros [= <-]; auto.
Qed.

Lemma parseTerminal_terminal id m to now :
  to = COMPLETED \/ to = FAILED ->
  parseTerminal (terminal id m to now) =
  Ok (MkStored (DurableIDFor id) "redact" to (ChecksumOf m) now now).
Proof. by intros [-> | ->]. Qed.

Lemma acceptExisting_Ok a b :
  acceptExisting a b = Ok tt <-> Checksum a = Checksum b /\ FinalState a = FinalState b.
Proof.
  unfold acceptExisting. destruct (seqb (Checksum a) (Checksum b)) eqn:E1,
    (bool_decide (FinalState a = FinalState b)) eqn:E2; cbn [andb]; bool_to_prop;
    (split; [done|tauto]).
Qed.

Lemma acceptExisting_refl a : acceptExisting a a = Ok tt.
Proof. by apply acceptExisting_Ok. Qed.

(** *** The in-memory journal *)

#[export] Instance memory_journal_laws : StoreLaws MemoryJournal.
Proof.
  split; cbn [Record_ row_of output_of memory_journal].
  - intros r s Hs j o. cbn. unfold memory_Record.
    destruct (parseTerminal r) as [row|e] eqn:Er; [|apply Hs].
    destruct (rows s !! stored_id row) as [old|] eqn:Eo; [apply Hs|]. cbn.
    destruct (parseTerminal_Ok _ _ Er) as (Hid & Hc & _).
    destruct (decide (j = ID r)) as [->|Hne].
    + rewrite lookup_insert_eq. intros [= <-]. exists row.
      by rewrite <- Hid, lookup_insert_eq.
    + rewrite lookup_insert_ne by done. intros Hj.
      destruct (Hs j o Hj) as (row' & Hrow & ?). cbn in Hrow. exists row'.
      rewrite lookup_insert_ne; [done|]. intros E. cbn in E. congruence.
  - intros r s id row' Hs Hrow. unfold memory_Record.
    destruct (parseTerminal r) as [row|e] eqn:Er; [|done].
    destruct (rows s !! stored_id row) as [old|] eqn:Eo; [done|]. cbn.
    rewrite lookup_insert_ne; [done|congruence].
  - intros r s j o Hs Ho. unfold memory_Record.
    destruct (parseTerminal r) as [row|e] eqn:Er; [|done].
    destruct (rows s !! stored_id row) as [old|] eqn:Eo; [done|]. cbn.
    destruct (parseTerminal_Ok _ _ Er) as (Hid & _).
    rewrite lookup_insert_ne; [done|]. intros <-.
    destruct (Hs (ID r) o Ho) as (row' & Hrow & _). cbn in Hrow. congruence.
  - intros r s Hs. unfold memory_Record.
    destruct (parseTerminal r) as [row|e] eqn:Er; [|done].
    destruct (parseTerminal_Ok _ _ Er) as (Hid & _).
    destruct (rows s !! stored_id row) as [old|] eqn:Eo; cbn; intros Hr.
    + exists row, old. rewrite <- Hid, Eo. done.
    + exists row, row. rewrite <- Hid, !lookup_insert_eq.
      split; [done|]. split; [done|]. split; [apply acceptExisting_refl|]. by split; [|eexists].
  - intros r s e. unfold memory_Record.
    destruct (parseTerminal r) as [row|]; [|done]. by destruct (rows s !! stored_id row).
  - intros r s row stored Hs Er Hrow Hne. unfold memory_Record. rewrite Er.
    destruct (parseTerminal_Ok _ _ Er) as (Hid & _). rewrite Hid, Hrow. cbn.
    destruct (acceptExisting stored row) as [[]|e]; [done|by eexists].
  - intros r s id row'. unfold memory_Record.
    destruct (parseTerminal r) as [row|e] eqn:Er; [|auto].
    destruct (rows s !! stored_id row) as [old|] eqn:Eo; [auto|]. cbn.
    destruct (parseTerminal_Ok _ _ Er) as (Hid & _). intros [[<- <-]|[_ Hr]]%lookup_insert_Some; auto.
  - intros r s j o. unfold memory_Record.
    destruct (parseTerminal r) as [row|e] eqn:Er; [|auto].
    destruct (rows s !! stored_id row) as [old|] eqn:Eo; [auto|]. cbn.
    intros [[<- <-]|[_ Ho]]%lookup_insert_Some; eauto 6.
Defined.

(** *** The Postgres journal *)

Context (tenant_valid tenant_exists : gostring -> bool).

(** The outcome of the transaction, by cases. *)
Lemma pg_Record_cases r s :
  let '(s', res) := pg_Record tenant_valid tenant_exists r s in
  (s' = s /\ exists e, res = Err e) \/
  (res = Ok tt /\ exists row, parseTerminal r = Ok row /\
    pg_outputs s' = match pg_outputs s !! ID r with
                    | Some _ => pg_outputs s
                    | None => <[ID r := MkOutput (FinalState row) (BodyOf (Result r)) (TenantID r)]> (pg_outputs s)
                    end /\
    ((exists x, jobs s !! stored_id row = None /\ job x = row /\ jobs s' = <[stored_id row := x]> (jobs s)) \/
     (exists old, jobs s !! stored_id row = Some old /\ jobs s' = jobs s /\
        acceptExisting (job old) row = Ok tt))).
Proof.
  unfold pg_Record. destruct (seqb (TenantID r) []); [by left; eauto|].
  destruct (parseTerminal r) as [row|e]; [|by left; eauto].
  destruct (tenant_valid (TenantID r)); cbn [negb]; [|by left; eauto].
  assert (Hmain : forall outs,
    outs = match pg_outputs s !! ID r with
           | Some _ => pg_outputs s
           | None => <[ID r := MkOutput (FinalState row) (BodyOf (Result r)) (TenantID r)]> (pg_outputs s)
           end ->
    let '(s', res) :=
      if 64 <? char_count (stored_type row) then (s, Err SqlError)
      else match jobs s !! stored_id row with
           | None =>
               if tenant_exists (TenantID r)
               then (MkPg (<[stored_id row := MkJobRow row (TenantID r) (nonempty (Signature r))
                                (nonempty (SigningKeyID r))]> (jobs s)) outs, Ok tt)
               else (s, Err SqlError)
           | Some existing =>
               match acceptExisting (job existing) row with
               | Ok _ => (MkPg (jobs s) outs, Ok tt)
               | Err e => (s, Err e)
               end
           end in
    (s' = s /\ exists e, res = Err e) \/
    (res = Ok tt /\ exists row', row = row' /\ pg_outputs s' = outs /\
      ((exists x, jobs s !! stored_id row' = None /\ job x = row' /\ jobs s' = <[stored_id row' := x]> (jobs s)) \/
       (exists old, jobs s !! stored_id row' = Some old /\ jobs s' = jobs s /\
          acceptExisting (job old) row' = Ok tt)))).
  { intros outs Houts. destruct (64 <? char_count (stored_type row)); [by left; eauto|].
    destruct (jobs s !! stored_id row) as [old|] eqn:Eo.
    - destruct (acceptExisting (job old) row) as [[]|e] eqn:Ea; [|by left; eauto].
      right. split; [done|]. exists row. split; [done|]. split; [done|]. right. by exists old.
    - destruct (tenant_exists (TenantID r)); [|by left; eauto].
      right. split; [done|]. exists row. split; [done|]. split; [done|]. left. eexists. split; [done|]. split; [|reflexivity]. done. }
  specialize (Hmain _ eq_refl). revert Hmain. cbv zeta.
  destruct (pg_outputs s !! ID r) as [old|], (tenant_exists (TenantID r)); intros Hmain;
    try (by left; eauto);
    (match goal with |- let '(_, _) := ?X in _ => destruct X as [s' res] end);
    destruct Hmain as [Hl|(Hres & row' & <- & Ho & Hj)]; try (by left);
    right; (split; [done|]); exists row; done.
Qed.

Definition pg_store : Store pgJournal := pg_journal tenant_valid tenant_exists.

Lemma pg_row_kept r s id row :
  job <$> jobs s !! id = Some row ->
  job <$> jobs (fst (pg_Record tenant_valid tenant_exists r s)) !! id = Some row.
Proof.
  intros Hrow. pose proof (pg_Record_cases r s) as Hc.
  destruct (pg_Record _ _ r s) as [s' res]. cbn [fst].
  destruct Hc as [[-> _]|(_ & row' & _ & _ & [(x & Hn & _ & ->)|(old & _ & -> & _)])]; try done.
  rewrite lookup_insert_ne; [done|]. intros <-. by rewrite Hn in Hrow.
Qed.

Definition pg_journal_laws : @StoreLaws pgJournal pg_store.
Proof.
  split; cbn [Record_ row_of output_of pg_store pg_journal].
  - intros r s Hs j o. cbn. pose proof (pg_Record_cases r s) as Hc.
    pose proof (pg_row_kept r s) as Hk.
    destruct (pg_Record _ _ r s) as [s' res]. cbn [fst] in *.
    destruct Hc as [[-> _]|(_ & row & Er & Ho & Hj)]; [apply Hs|].
    destruct (parseTerminal_Ok _ _ Er) as (Hid & Hcs & _). intros Hout.
    assert (Hold : pg_outputs s !! j = Some o ->
      exists row0, job <$> jobs s' !! DurableIDFor j = Some row0 /\ FinalState row0 = out_state o /\
        Checksum row0 = hex_encode (Sha256.Sum256 (Body o))).
    { intros Hj'. destruct (Hs j o Hj') as (row0 & Hrow0 & ?). exists row0.
      split; [by apply Hk|done]. }
    rewrite Ho in Hout. destruct (pg_outputs s !! ID r) as [o'|] eqn:Eo; [by apply Hold|].
    destruct (decide (j = ID r)) as [->|Hne];
      [|rewrite lookup_insert_ne in Hout by done; by apply Hold].
    rewrite lookup_insert_eq in Hout. injection Hout as <-. rewrite <- Hid.
    destruct Hj as [(x & _ & <- & ->)|(old & Hold' & -> & Ha)].
    + rewrite lookup_insert_eq. by exists (job x).
    + apply acceptExisting_Ok in Ha as [H1 H2]. rewrite Hold'. exists (job old).
      split; [done|]. split; [done|]. rewrite H1. exact Hcs.
  - intros r s id row _ Hrow. by apply pg_row_kept.
  - intros r s j o _ Ho. pose proof (pg_Record_cases r s) as Hc.
    destruct (pg_Record _ _ r s) as [s' res]. cbn [fst].
    destruct Hc as [[-> _]|(_ & row & _ & Hout & _)]; [done|]. rewrite Hout.
    destruct (pg_outputs s !! ID r) as [o'|] eqn:Eo; [done|].
    rewrite lookup_insert_ne; [done|]. intros <-. congruence.
  - intros r s _ Hr. pose proof (pg_Record_cases r s) as Hc.
    destruct (pg_Record _ _ r s) as [s' res]. cbn [fst snd] in *.
    destruct Hc as [[_ [e He]]|(_ & row & Er & Hout & Hj)]; [congruence|].
    destruct (parseTerminal_Ok _ _ Er) as (Hid & _). rewrite <- Hid.
    destruct Hj as [(x & Hn & <- & ->)|(old & Hold & -> & Ha)].
    + exists (job x), (job x). rewrite lookup_insert_eq.
      split; [done|]. split; [done|]. split; [apply acceptExisting_refl|].
      intros _. split; [done|]. rewrite Hout.
      destruct (pg_outputs s !! ID r) as [o|] eqn:Eo; [by exists o|]. rewrite lookup_insert_eq. by eexists.
    + exists row, (job old). rewrite Hold. done.
  - intros r s e Hr. pose proof (pg_Record_cases r s) as Hc.
    destruct (pg_Record _ _ r s) as [s' res]. cbn [fst snd] in *.
    destruct Hc as [[-> _]|(Hok & _)]; [done|congruence].
  - intros r s row stored _ Er Hrow Hne. pose proof (pg_Record_cases r s) as Hc.
    destruct (pg_Record _ _ r s) as [s' res]. cbn [snd].
    destruct Hc as [[_ He]|(_ & row' & Er' & _ & Hj)]; [done|].
    rewrite Er in Er'. injection Er' as <-. destruct (parseTerminal_Ok _ _ Er) as (Hid & _).
    rewrite <- Hid in Hrow.
    destruct Hj as [(x & Hn & _)|(old & Hold & _ & Ha)].
    + by rewrite Hn in Hrow.
    + rewrite Hold in Hrow. injection Hrow as <-. done.
  - intros r s id row. pose proof (pg_Record_cases r s) as Hc.
    destruct (pg_Record _ _ r s) as [s' res]. cbn [fst].
    destruct Hc as [[-> _]|(_ & row' & Er & _ & Hj)]; [auto|].
    destruct (parseTerminal_Ok _ _ Er) as (Hid & _).
    destruct Hj as [(x & _ & <- & ->)|(old & _ & -> & _)]; [|auto].
    intros (y & [[<- <-]|[_ Hy]]%lookup_insert_Some & ->)%fmap_Some; [auto|].
    left. by rewrite Hy.
  - intros r s j o. pose proof (pg_Record_cases r s) as Hc.
    destruct (pg_Record _ _ r s) as [s' res]. cbn [fst].
    destruct Hc as [[-> _]|(_ & row & Er & -> & _)]; [auto|].
    destruct (pg_outputs s !! ID r); [auto|].
    intros [[<- <-]|[_ Ho]]%lookup_insert_Some; eauto 6.
Defined.
End laws.

(** ** Any sequence of records *)

Section records.
Context `{JobIDs} {S : Type} `{Store S} `{!StoreLaws S}.

Definition record_all (rs : list JobResult) (s : S) : S :=
  foldl (fun s r => fst (Record_ r s)) s rs.

Lemma record_all_keeps rs s :
  consistent s ->
  consistent (record_all rs s) /\
  (forall id row, row_of s id = Some row -> row_of (record_all rs s) id = Some row) /\
  (forall j o, output_of s j = Some o -> output_of (record_all rs s) j = Some o).
Proof.
  revert s. induction rs as [|r rs IH]; intros s Hs; [done|].
  destruct (IH (fst (Record_ r s)) (Record_consistent r s Hs)) as (H1 & H2 & H3).
  split; [exact H1|]. split.
  - intros id row Hr. by apply H2, Record_keeps_row.
  - intros j o Ho. by apply H3, Record_keeps_output.
Qed.
End records.

(** in every journal that implements the interface,
    whatever is recorded afterwards, the row and the output of a recorded job
    never change or disappear, and an output always has the state of its job's
    row and the SHA-256 that the row's checksum says. *)
Lemma journal_write_once `{JobIDs} {S : Type} `{Store S} `{!StoreLaws S} (rs rs' : list JobResult) (s : S) :
  consistent s ->
  let s1 := record_all rs s in
  let s2 := record_all rs' s1 in
  (forall id row, row_of s1 id = Some row -> row_of s2 id = Some row) /\
  (forall j o, output_of s1 j = Some o ->
     output_of s2 j = Some o /\
     exists row, row_of s2 (DurableIDFor j) = Some row /\ FinalState row = out_state o /\
       Checksum row = hex_encode (Sha256.Sum256 (Body o))).
Proof.
  intros Hs s1 s2. destruct (record_all_keeps rs s Hs) as (Hs1 & _).
  destruct (record_all_keeps rs' s1 Hs1) as (Hs2 & Hr & Ho). fold s1 in Hs1. fold s2 in Hs2, Hr, Ho.
  split; [exact Hr|]. intros j o Hj. apply Ho in Hj. split; [done|]. by apply Hs2.
Qed.

(** recording a finished job that has no row stores
    exactly the row and the body it was given; recording the same result again
    succeeds and changes nothing that is stored; recording a different outcome
    for the job fails and changes nothing. *)
Lemma journal_record_again `{JobIDs} {S : Type} `{Store S} `{!StoreLaws S} r r' (s : S) row row' :
  consistent s -> parseTerminal r = Ok row -> parseTerminal r' = Ok row' -> ID r' = ID r ->
  row_of s (DurableIDFor (ID r)) = None -> snd (Record_ r s) = Ok tt ->
  let s1 := fst (Record_ r s) in
  row_of s1 (DurableIDFor (ID r)) = Some row /\
  (Checksum row' <> Checksum row \/ FinalState row' <> FinalState row ->
   (exists e, snd (Record_ r' s1) = Err e) /\ fst (Record_ r' s1) = s1) /\
  (forall id x, row_of s1 id = Some x -> row_of (fst (Record_ r s1)) id = Some x) /\
  (forall j o, output_of s1 j = Some o -> output_of (fst (Record_ r s1)) j = Some o).
Proof.
  intros Hs Er Er' Hid Hn Hok s1. destruct (Record_Ok r s Hs Hok) as (row0 & st & E0 & Hst & _ & Hnew).
  rewrite Er in E0. injection E0 as <-. destruct (Hnew Hn) as [-> _]. fold s1 in Hst.
  pose proof (Record_consistent r s Hs) as Hs1. fold s1 in Hs1.
  split; [done|]. split; [|split].
  - intros Hd. assert (He : exists e, snd (Record_ r' s1) = Err e).
    { apply (Record_conflict r' s1 row' row); [done|done|by rewrite Hid|].
      intros Ha. apply acceptExisting_Ok in Ha as [? ?]. destruct Hd as [Hd|Hd]; congruence. }
    split; [done|]. destruct He as [e He]. by eapply Record_Err.
  - intros id x Hx. by apply Record_keeps_row.
  - intros j o Ho. by apply Record_keeps_output.
Qed.

Definition toy_ids : JobIDs := {| DurableIDFor j := "id:" ++ j |}%go.

Definition empty_memory : MemoryJournal := MkMemory ∅ ∅.

Lemma empty_consistent : @consistent toy_ids MemoryJournal (@memory_journal toy_ids) empty_memory.
Proof. intros j o Hj. cbn in Hj. rewrite lookup_empty in Hj. discriminate. Defined.
