(* ===== verification/Proc.v ===== *)
(** * Processes over a shared, unreliable world

    A process issues commands to services it shares with other processes and
    that may fail.  [proc] is its text: a tree of commands, so that a schedule
    can stop it between any two of them.  This file gives it the interface
    [Effects], runs it (alone, or interleaved with others while commands are
    refused and replies lost), and has the program logic with which the queue's
    invariants are proved: [wp] looks at one process only, under any
    interference that keeps the invariant and moves the world along a
    preorder, and [steps_safe] lifts it to every interleaving. *)

From S2P Require Import Prelude.

Module Proc.

Section proc.
Context {C : Type} {R : C -> Type} {X : Type}.

(** [Call c k] issues [c] and goes on with [k] on the reply. *)
Inductive proc (A : Type) : Type :=
| Done (a : A)
| Call (c : C) (k : result X (R c) -> proc A).
Arguments Done {A} a.
Arguments Call {A} c k.

Fixpoint andThen {A B} (p : proc A) (f : A -> proc B) : proc B :=
  match p with
  | Done a => f a
  | Call c k => Call c (fun r => andThen (k r) f)
  end.

(** A process with a variable of type [L] of its own, which may fail. *)
Definition act (L E A : Type) : Type := L -> proc (L * result E A).

#[export] Instance act_effects {L} : Effects (act L) := {|
  res E A r := fun l => Done (l, r);
  try E E' A B m k := fun l => andThen (m l) (fun lr => k lr.2 lr.1);
|}.

Definition ask {L} (c : C) : act L X (R c) := fun l => Call c (fun r => Done (l, r)).
Definition get {L E} : act L E L := fun l => Done (l, Ok l).
Definition put {L E} (l : L) : act L E unit := fun _ => Done (l, Ok tt).

(** ** Running *)

Section run.
Context {W T : Type} (exec : forall c, W -> W * result X (R c)) (fallible : C -> bool) (lost : T -> X).

(** What the network makes of a command. *)
Inductive outcome :=
| Served
| Refused (t : T)
| ReplyLost (t : T).

Definition perform (o : outcome) (c : C) (w : W) : W * result X (R c) :=
  if fallible c then
    match o with
    | Served => exec c w
    | Refused t => (w, Err (lost t))
    | ReplyLost t => (fst (exec c w), Err (lost t))
    end
  else exec c w.

(** A process alone, every command served. *)
Fixpoint run {A} (p : proc A) (w : W) : W * A :=
  match p with
  | Done a => (w, a)
  | Call c k => let wr := exec c w in run (k wr.2) wr.1
  end.

Definition arun {L E A} (m : act L E A) (l : L) (w : W) : W * (L * result E A) := run (m l) w.

(** A process alone on a network that does to its [n]th command what [o n] says. *)
Fixpoint run_under {A} (o : nat -> outcome) (n : nat) (p : proc A) (w : W) : W * A :=
  match p with
  | Done a => (w, a)
  | Call c k => let wr := perform (o n) c w in run_under o (S n) (k wr.2) wr.1
  end.

Lemma run_andThen {A B} (p : proc A) (f : A -> proc B) w :
  run (andThen p f) w = let wa := run p w in run (f wa.2) wa.1.
Proof. revert w. induction p as [a|c k IH]; intros w; cbn [andThen run]; [done|]. apply IH. Qed.

Lemma arun_res {L E A} (r : result E A) (l : L) w : arun (res r) l w = (w, (l, r)).
Proof. done. Qed.

Lemma arun_try {L E E' A B} (m : act L E A) (k : result E A -> act L E' B) l w :
  arun (try m k) l w = let x := arun m l w in arun (k x.2.2) x.2.1 x.1.
Proof. unfold arun. cbn [try act_effects]. by rewrite run_andThen. Qed.

Lemma arun_ask {L} c (l : L) w : arun (ask c) l w = ((exec c w).1, (l, (exec c w).2)).
Proof. done. Qed.

(** ** Interleaving

    One step of a process. *)
Definition advance {A} (o : outcome) (p : proc A) (w : W) : option (W * proc A) :=
  match p with
  | Done _ => None
  | Call c k => let wr := perform o c w in Some (wr.1, k wr.2)
  end.

Section interleaving.
Context (program : proc unit -> Prop).

(** A pool of processes: new ones start, any one takes a step with any outcome,
    any one is killed. *)
Inductive step : W * list (proc unit) -> W * list (proc unit) -> Prop :=
| step_start w ps p : program p -> step (w, ps) (w, ps ++ [p])
| step_advance w ps i p o w' p' :
    ps !! i = Some p -> advance o p w = Some (w', p') -> step (w, ps) (w', <[i := p']> ps)
| step_kill w ps i : step (w, ps) (w, delete i ps).

Definition reachable (w w' : W) : Prop := exists ps, rtc step (w, []) (w', ps).

Lemma reachable_run_under o w w' p : reachable w w' -> program p -> reachable w (run_under o 0 p w').1.
Proof.
  intros [ps Hps] Hp. assert (H : forall q n v, rtc step (w, []) (v, ps ++ [q]) ->
    exists qs, rtc step (w, []) ((run_under o n q v).1, qs)).
  { induction q as [a|c k IH]; intros n v Hv; [by eexists|]. cbn [run_under].
    apply IH. eapply rtc_r; [exact Hv|]. set (wr := perform (o n) c v).
    replace (ps ++ [k wr.2]) with (<[length ps := k wr.2]> (ps ++ [Call c k])).
    - by apply (step_advance _ _ _ (Call c k) (o n)); [apply list_lookup_middle|].
    - rewrite insert_app_r_alt by lia. by rewrite Nat.sub_diag. }
  apply H. eapply rtc_r; [exact Hps|]. by apply step_start.
Qed.

Lemma run_served {A} (p : proc A) n w : run_under (fun _ => Served) n p w = run p w.
Proof.
  revert n w. induction p as [a|c k IH]; intros n w; [done|]. cbn [run run_under].
  replace (perform Served c w) with (exec c w); [apply IH|]. unfold perform. by destruct (fallible c).
Qed.

Lemma reachable_run w w' p : reachable w w' -> program p -> reachable w (run p w').1.
Proof. rewrite <- (run_served p 0). apply reachable_run_under. Qed.

End interleaving.

(** ** Weakest preconditions under interference

    [Inv] and [mono] are what a process may assume of the world and of how the
    others move it; [need] is what it has to show of each step of its own.  Once
    that is shown, it may assume [given] of the step. *)

Section wp.
Context (Inv : W -> Prop) (mono need : W -> W -> Prop) `{!PreOrder mono}.

Definition given (w w' : W) : Prop := Inv w' /\ mono w w'.

Fixpoint wp {A} (p : proc A) (Q : A -> W -> Prop) (w : W) : Prop :=
  match p with
  | Done a => forall w', mono w w' -> Inv w' -> Q a w'
  | Call c k => forall w', mono w w' -> Inv w' ->
      need w' (exec c w').1 /\
      (given w' (exec c w').1 -> forall o, wp (k (perform o c w').2) Q (perform o c w').1)
  end.

Lemma wp_later {A} (p : proc A) Q w w1 : mono w w1 -> wp p Q w -> wp p Q w1.
Proof using All.
  intros Hm. destruct p as [a|c k]; cbn [wp]; intros H w' Hw'; apply H; by trans w1.
Qed.

Lemma perform_given o c w : Inv w -> given w (exec c w).1 -> given w (perform o c w).1.
Proof.
  intros Hi Hg. unfold perform. destruct (fallible c), o; try done; by split.
Qed.

Lemma wp_weaken {A} (p : proc A) (Q Q' : A -> W -> Prop) w :
  (forall a w', mono w w' -> Q a w' -> Q' a w') -> wp p Q w -> wp p Q' w.
Proof using All.
  revert w. induction p as [a|c k IH]; intros w HQ; cbn [wp].
  - intros H w' Hm Hi. apply HQ; [done|]. by apply H.
  - intros H w' Hm Hi. destruct (H w' Hm Hi) as [Hk Hr]. split; [done|]. intros Hg o.
    apply (IH _ _); [|by apply Hr]. intros a w'' Hm'. apply HQ. trans w'; [done|].
    etrans; [|exact Hm']. by apply perform_given.
Qed.

Lemma wp_andThen {A B} (p : proc A) (f : A -> proc B) Q w :
  wp p (fun a w' => wp (f a) Q w') w -> wp (andThen p f) Q w.
Proof using All.
  revert w. induction p as [a|c k IH]; intros w; cbn [wp andThen].
  - intros H. destruct (f a) as [b|c k] eqn:E; cbn [wp] in *;
      intros w' Hm Hi; specialize (H w' Hm Hi); by apply H.
  - intros H w' Hm Hi. destruct (H w' Hm Hi) as [Hk Hr]. split; [done|]. intros Hg o. by apply IH, Hr.
Qed.

(** *** For processes with a variable *)

Definition awp {L E A} (m : act L E A) (Q : L -> result E A -> W -> Prop) (l : L) (w : W) : Prop :=
  wp (m l) (fun lr => Q lr.1 lr.2) w.

Lemma awp_try {L E E' A B} (m : act L E A) (k : result E A -> act L E' B) Q l w :
  awp m (fun l' r w' => awp (k r) Q l' w') l w -> awp (try m k) Q l w.
Proof using All. unfold awp. apply wp_andThen. Qed.

Lemma awp_weaken {L E A} (m : act L E A) (Q Q' : L -> result E A -> W -> Prop) l w :
  (forall l' r w', mono w w' -> Q l' r w' -> Q' l' r w') -> awp m Q l w -> awp m Q' l w.
Proof using All. intros H. unfold awp. apply wp_weaken. intros [l' r] w'. apply H. Qed.

Lemma awp_later {L E A} (m : act L E A) Q (l : L) w w1 : mono w w1 -> awp m Q l w -> awp m Q l w1.
Proof using All. apply wp_later. Qed.

(** A command: it must be allowed in every world it can meet; what follows
    sees its reply in a world the others may have moved on, or an error of the
    network and no more than before. *)
Lemma awp_ask {L} c (Q : L -> result X (R c) -> W -> Prop) l w :
  (forall w', mono w w' -> Inv w' -> need w' (exec c w').1) ->
  (forall w' w2, mono w w' -> Inv w' -> given w' (exec c w').1 -> mono (exec c w').1 w2 -> Inv w2 ->
     Q l (exec c w').2 w2) ->
  (forall t w2, fallible c = true -> mono w w2 -> Inv w2 -> Q l (Err (lost t)) w2) ->
  awp (ask c) Q l w.
Proof using All.
  intros Hk Hok Herr w' Hm Hi. split; [by apply Hk|].
  intros Hg o w2 Hm2 Hi2. cbn [fst snd]. pose proof Hg as [Hg1 Hg2].
  unfold perform in *. destruct (fallible c) eqn:Hf; [|by eapply Hok].
  destruct o as [|t|t]; cbn [fst snd] in *.
  - by eapply Hok.
  - apply Herr; [done| |done]. by trans w'.
  - apply Herr; [done| |done]. trans w'; [done|]. by etrans.
Qed.
End wp.

(** Two proofs about one process: what the one has shown of a step, the other
    may assume. *)
Lemma wp_and (Inv Inv' : W -> Prop) (mono need need' : W -> W -> Prop) `{!PreOrder mono} {A} (p : proc A)
    (Q Q' : A -> W -> Prop) w :
  (forall v, Inv' v -> Inv v) ->
  (forall v v', need v v' -> given Inv mono v v') ->
  (forall v v', given Inv mono v v' -> need' v v' -> given Inv' mono v v') ->
  wp Inv mono need p Q w -> wp Inv' mono need' p Q' w ->
  wp Inv' mono (given Inv' mono) p (fun a w' => Q a w' /\ Q' a w') w.
Proof.
  intros Hinv Hneed Hgiven. revert w. induction p as [a|c k IH]; intros w; cbn [wp].
  - intros H H' w' Hm Hi. split; [apply H|apply H']; auto.
  - intros H H' w' Hm Hi. destruct (H w' Hm (Hinv _ Hi)) as [Hk Hr], (H' w' Hm Hi) as [Hk' Hr'].
    pose proof (Hgiven _ _ (Hneed _ _ Hk) Hk') as Hg. split; [done|]. intros _ o.
    apply IH; auto.
Qed.

Section adequacy.
Context (program : proc unit -> Prop) (Inv : W -> Prop) (mono : W -> W -> Prop) `{!PreOrder mono}.
Abbreviation wp := (wp Inv mono (given Inv mono)).

(** Every interleaving keeps the invariant and moves along [mono]. *)
Lemma steps_safe (x y : W * list (proc unit)) :
  (forall p w, program p -> Inv w -> wp p (fun _ _ => True) w) ->
  rtc (step program) x y ->
  (Inv x.1 /\ forall p, p ∈ x.2 -> wp p (fun _ _ => True) x.1) ->
  Inv y.1 /\ mono x.1 y.1 /\ forall p, p ∈ y.2 -> wp p (fun _ _ => True) y.1.
Proof.
  intros Hp. induction 1 as [x|x y z Hxy _ IH]; [intros [? ?]; by repeat split|].
  intros [Hi Hall]. assert (Hy : Inv y.1 /\ mono x.1 y.1 /\
      forall p, p ∈ y.2 -> wp p (fun _ _ => True) y.1).
  { destruct Hxy as [v qs p Hprog|v qs i p o v' p' Hlk Ha|v qs i]; cbn [fst snd] in *.
    - split; [done|]. split; [done|]. intros q [Hq|Hq]%elem_of_app; [by apply Hall|].
      apply list_elem_of_singleton in Hq as ->. by apply Hp.
    - destruct p as [?|c k]; [done|]. injection Ha as <- <-.
      destruct (Hall _ (list_elem_of_lookup_2 _ _ _ Hlk) v ltac:(done) Hi) as [Hk Hr].
      destruct (perform_given Inv mono o c v Hi Hk) as [Hi' Hm']. split; [done|]. split; [done|].
      intros q [j Hq]%list_elem_of_lookup_1. apply list_lookup_insert_Some in Hq as [(_ & <- & _)|[_ Hq]].
      + by apply Hr.
      + apply (wp_later _ _ _ _ _ v); [done|]. apply Hall. by apply list_elem_of_lookup_2 in Hq.
    - split; [done|]. split; [done|]. intros q Hq. apply Hall.
      by apply (elem_of_submseteq _ _ _ Hq), sublist_submseteq, sublist_delete. }
  destruct Hy as (Hiy & Hmy & Hally). destruct (IH (conj Hiy Hally)) as (H1 & H2 & H3).
  split; [done|]. split; [by trans y.1|done].
Qed.

End adequacy.

End run.
End proc.
Arguments proc {C} R X A.
Arguments act {C} R X L E A.
Arguments Done {C R X A} a.
Arguments Call {C R X A} c k.
Arguments outcome T : clear implicits.

End Proc.
