(* ===== verification/Queue.v ===== *)
(** * The job queue and its workers (internal/queue, internal/events)

    Jobs are entries of a Redis stream, read by a group of workers.  A worker
    opens the sealed input of an entry, runs the job's runner with a checkpoint
    kept in a Redis hash, records the result in the journal, purges the job
    (receipt, key, checkpoint), publishes the outcome and removes the entry.
    Entries that cannot be handled go to a stream of dead letters.

    Every exchange with Redis, the stores, the clock and the random source is a
    command ([cmd]); [exec] says what each does to the [world]; the Go functions
    are processes over these commands, in the order of the code. *)

From S2P Require Import Prelude GoStd GoTime Flag Json Ledger Policy Runner Redact Seal Journal Proc.
Import Proc.

Module Queue.

Abbreviation uuid := gostring (only parsing).
Abbreviation jmap := (list (gostring * json)) (only parsing).
Abbreviation fields := (gmap gostring gostring) (only parsing).

(** ** Stream entries (stream.go, job.go) *)

Record StreamID := MkStreamID { millis : N; seq : N }.

#[export] Instance StreamID_eq_dec : EqDecision StreamID.
Proof. solve_decision. Defined.

Definition StreamIDZero : StreamID := MkStreamID 0 0.

(** What the functions of the package fail with. *)
Inductive error :=
| ErrInvalidStreamID
| ErrMissingInput
| ErrMissingTenant
| ErrInputKeyMissing
| ErrMissingReceipt
| ErrSettle
| ErrSimulatedCrash
| ErrCanceled
| InfraError (err : error)
| SealError (err : Seal.seal_error)
| JournalError (err : Journal.journal_error)
| PolicyError
| RedisError (text : gostring)
| TransportError
| TimeoutError
| Text (text : gostring)
| Panicked.

(** [errors.Is(err, ErrSimulatedCrash)]: wrapped errors are looked into. *)
Fixpoint is_crash (e : error) : bool :=
  match e with
  | ErrSimulatedCrash => true
  | InfraError e' => is_crash e'
  | _ => false
  end.

(** [errors.As(err, &infra)]. *)
Definition is_infra (e : error) : bool :=
  match e with InfraError _ => true | _ => false end.

Definition ParseStreamID (s : gostring) : result error StreamID :=
  match Cut s "-"%byte with
  | None => Err ErrInvalidStreamID
  | Some (ms, sq) =>
      if seqb ms [] || seqb sq [] || Contains sq "-" then Err ErrInvalidStreamID
      else
        match ParseUint ms with
        | None => Err ErrInvalidStreamID
        | Some m =>
            match ParseUint sq with
            | None => Err ErrInvalidStreamID
            | Some n => Ok (MkStreamID m n)
            end
        end
  end.

Definition String (id : StreamID) : gostring := FormatUint (millis id) ++ "-" ++ FormatUint (seq id).

Record Job := MkJob { ID : gostring; Input : gostring; TenantID : gostring; JobType : gostring }.

(** [fields[k]], which is empty when there is no such key. *)
Definition field (k : gostring) (f : fields) : gostring := default [] (f !! k).

Definition parseJob (entryID : StreamID) (f : fields) : result error Job :=
  if seqb (field "input" f) [] then Err ErrMissingInput
  else
    let id := if seqb (field "id" f) [] then String entryID else field "id" f in
    if seqb (field "tenant_id" f) [] then Err ErrMissingTenant
    else Ok (MkJob id (field "input" f) (field "tenant_id" f) []).

(** A value of a Redis message, an [any]; [Other] carries its [fmt.Sprint]. *)
Inductive value := VString (s : gostring) | VBytes (s : gostring) | Other (printed : gostring).

Definition valuesToFields (values : gmap gostring value) : fields :=
  (fun v => match v with VString s => s | VBytes s => s | Other s => s end) <$> values.

(** ** Configuration (config.go) *)

Record WorkerConfig := MkConfig { Consumer : gostring; Idle : Z; Poll : Z }.

Inductive config_error := EmptyConsumer | IdleTooSmall | BadFlags | NoHostname.

Definition valid (c : WorkerConfig) : result config_error unit :=
  if seqb (Consumer c) [] then Err EmptyConsumer
  else if (Idle c <? Ledger.wrap64 (2 * Poll c))%Z then Err IdleTooSmall
  else Ok tt.

(** [loadWorkerConfigFrom]; [hostname] is [None] when the system does not tell. *)
Definition loadWorkerConfigFrom (args : list gostring) (getenv : gostring -> gostring) (hostname : option gostring)
    : result config_error WorkerConfig :=
  match Flag.Parse (Flag.texts ["consumer"%go]) args with
  | None => Err BadFlags
  | Some (vs, _) =>
      let name := Flag.value "consumer" vs in
      let consumer := if seqb name [] then getenv "CONSUMER"%go else name in
      consumer ← (if seqb consumer [] then
                    match hostname with None => Err NoHostname | Some host => Ok host end
                  else Ok consumer);
      let cfg := MkConfig consumer (30 * Second) (10 * Second) in
      _ ← valid cfg; Ok cfg
  end.

(** ** Job events (internal/events) *)

Record JobEvent := MkEvent { ev_tenant : gostring; ev_job : gostring; ev_status : gostring }.

Definition event_json (e : JobEvent) : json :=
  JObj [("tenantId", JStr (ev_tenant e)); ("jobId", JStr (ev_job e)); ("status", JStr (ev_status e))]%go.

(** ** Redis keys *)

Definition jobsStreamKey : gostring := "coldharbour:jobs".
Definition dlqStreamKey : gostring := "coldharbour:jobs:dlq".
Definition workerGroup : gostring := "worker-group".
Definition Channel : gostring := "coldharbour:events".
Definition memKey (jobID : gostring) : gostring := "job:" ++ jobID ++ ":mem".
Definition retryKey (jobID : gostring) : gostring := "retry:" ++ jobID.
Definition memFieldStep : gostring := "step".
Definition memFieldPartial : gostring := "partial_result".
Definition memFieldStep1 : gostring := "step1".

(** ** Redis

    What the commands the code uses do, as the Redis documentation has it, on
    the keys of this program. *)

Record Redis := MkRedis {
  stream : list (StreamID * fields);                    (* coldharbour:jobs, oldest first *)
  last_id : StreamID;                                   (* the last identifier given out *)
  group : option StreamID;                              (* the group's last delivered entry *)
  pending : list (StreamID * (gostring * time));        (* consumer and time of delivery *)
  dead : list fields;                                   (* coldharbour:jobs:dlq *)
  hashes : gmap gostring (gmap gostring gostring);
  strings : gmap gostring gostring;
  published : list gostring;                            (* on coldharbour:events *)
}.

Definition set_stream st lst r :=
  MkRedis st lst (group r) (pending r) (dead r) (hashes r) (strings r) (published r).
Definition set_group g pd r :=
  MkRedis (stream r) (last_id r) g pd (dead r) (hashes r) (strings r) (published r).
Definition set_dead d r :=
  MkRedis (stream r) (last_id r) (group r) (pending r) d (hashes r) (strings r) (published r).
Definition set_hashes h r :=
  MkRedis (stream r) (last_id r) (group r) (pending r) (dead r) h (strings r) (published r).
Definition set_strings st r :=
  MkRedis (stream r) (last_id r) (group r) (pending r) (dead r) (hashes r) st (published r).
Definition set_published p r :=
  MkRedis (stream r) (last_id r) (group r) (pending r) (dead r) (hashes r) (strings r) p.

Definition id_lt (a b : StreamID) : bool :=
  (millis a <? millis b)%N || ((millis a =? millis b)%N && (seq a <? seq b)%N).

(** How Redis chooses the identifier of an entry added with [*]: after the last
    one, as long as the two 64-bit halves have room. *)
Class StreamIDs := { auto_id : StreamID -> time -> option StreamID }.

Definition id_ok (i : StreamID) : Prop := (millis i < 2 ^ 64)%N /\ (seq i < 2 ^ 64)%N.

Class StreamIDsLaws `{StreamIDs} := {
  auto_id_after lst t i : auto_id lst t = Some i -> id_lt lst i = true /\ id_ok i
}.

Section redis.
Context `{StreamIDs}.

(** XADD coldharbour:jobs [*]. *)
Definition xadd (f : fields) (now : time) (r : Redis) : option Redis :=
  id ← auto_id (last_id r) now; Some (set_stream (stream r ++ [(id, f)]) id r).

(** XACK and XDEL. *)
Definition ack_del (entry : gostring) (r : Redis) : Redis :=
  let r := set_stream (filter (fun e => String e.1 <> entry) (stream r)) (last_id r) r in
  set_group (group r) (filter (fun e => String e.1 <> entry) (pending r)) r.

Definition message (e : StreamID * fields) : gostring * gmap gostring value :=
  (String e.1, VString <$> e.2).

(** XREADGROUP with [>]: the entries after the last one delivered, now pending
    on the consumer. *)
Definition xreadgroup (consumer : gostring) (now : time) (r : Redis)
    : Redis * option (list (gostring * gmap gostring value)) :=
  match group r with
  | None => (r, None)
  | Some delivered =>
      let new := filter (fun e => id_lt delivered e.1 = true) (stream r) in
      (set_group (Some (match last new with Some e => e.1 | None => delivered end))
         (pending r ++ ((fun e => (e.1, (consumer, now))) <$> new)) r,
       Some (message <$> new))
  end.

(** XAUTOCLAIM from [0-0]: up to a hundred pending entries that have been idle
    long enough change hands; those no longer in the stream are forgotten. *)
Definition xautoclaim (consumer : gostring) (min_idle : Z) (now : time) (r : Redis)
    : Redis * option (list (gostring * gmap gostring value)) :=
  match group r with
  | None => (r, None)
  | Some delivered =>
      let taken := (take 100 (filter (fun e => (min_idle <= now - e.2.2)%Z) (pending r))).*1 in
      let live := filter (fun e => e.1 ∈ taken) (stream r) in
      let pending' :=
        omap (fun e => if bool_decide (e.1 ∈ taken)
                       then if bool_decide (e.1 ∈ live.*1) then Some (e.1, (consumer, now)) else None
                       else Some e) (pending r) in
      (set_group (Some delivered) pending' r, Some (message <$> live))
  end.

(** What a command can answer. *)
#[warnings="-register-all"]
Inductive redis_reply := RInt (n : Z) | RString (s : gostring) | RArray (l : list redis_reply) | RNil.

Definition incr (key : gostring) (r : Redis) : Redis * option Z :=
  match Atoi (default "0"%go (strings r !! key)) with
  | None => (r, None)
  | Some n => (set_strings (<[key := Itoa (n + 1)]> (strings r)) r, Some (n + 1)%Z)
  end.

(** [settleScript]: [force] is ARGV[3], [args] are the fields from ARGV[4] on.
    A counter holds what INCR wrote, so that Lua's [tonumber] is [Atoi]. *)
Definition settleScript (key entry : gostring) (force : bool) (args : fields) (now : time) (r : Redis)
    : Redis * option redis_reply :=
  let '(r, n) :=
    if force then (r, Some 3%Z)
    else
      match strings r !! key ≫= Atoi with
      | Some n => if (3 <=? n)%Z then (r, Some n) else incr key r
      | None => incr key r
      end in
  match n with
  | None => (r, None)
  | Some n =>
      if negb force && (n <? 3)%Z then
        if bool_decide (args = ∅) then (r, None)
        else
          match xadd args now r with
          | None => (r, None)
          | Some r => (ack_del entry r, Some (RArray [RString "retry"; RInt n]))
          end
      else
        let fields := delete ("input" : gostring) args in
        let r := if bool_decide (fields = ∅) then r else set_dead (dead r ++ [fields]) r in
        let r := ack_del entry r in
        (set_strings (delete key (strings r)) r, Some (RArray [RString "bury"; RInt n]))
  end.

Definition hset (key : gostring) (fs : list (gostring * gostring)) (r : Redis) : Redis :=
  let h := default ∅ (hashes r !! key) in
  set_hashes (<[key := foldl (fun h kv => <[kv.1 := kv.2]> h) h fs]> (hashes r)) r.

(** MULTI; HINCRBY key field 1; HSET key fields; EXEC.  A failed HINCRBY does
    not stop the rest of a transaction. *)
Definition hincr_hset (key fld : gostring) (fs : list (gostring * gostring)) (r : Redis)
    : Redis * bool :=
  let h := default ∅ (hashes r !! key) in
  match Atoi (default "0"%go (h !! fld)) with
  | None => (hset key fs r, false)
  | Some n => (hset key ((fld, Itoa (n + 1)) :: fs) r, true)
  end.
End redis.

(** ** The world and its commands *)

(** Everything the processes share: Redis, the stores, what has been emitted,
    and how far the clock and the random source have been read. *)
Record world (K RS J : Type) := World {
  redis : Redis;
  keys : K;
  receipts : RS;
  journal : J;
  policies : Policy.store;
  emitted : list Journal.JobResult;
  ticks : nat;
  draws : nat;
}.
Arguments World {K RS J}.
Arguments redis {K RS J}.
Arguments keys {K RS J}.
Arguments receipts {K RS J}.
Arguments journal {K RS J}.
Arguments policies {K RS J}.
Arguments emitted {K RS J}.
Arguments ticks {K RS J}.
Arguments draws {K RS J}.

Inductive cmd :=
| CNow
| CRand (n : nat)
| CRecord (r : Journal.JobResult)
| CLoadJob (redisJobID : gostring)
| CEnsure (id : uuid)
| CLoadKey (id : uuid)
| CDestroy (id : uuid) (at_ : time)
| CInsert (r : Seal.Receipt)
| CGetReceipt (id : uuid)
| CLoadPolicy (tenant : gostring)
| CHGetAll (key : gostring)
| CHGet (key fld : gostring)
| CHSet (key : gostring) (fs : list (gostring * gostring))
| CIncrHSet (key fld : gostring) (fs : list (gostring * gostring))
| CDel (key : gostring)
| CGet (key : gostring)
| CXAdd (f : fields)
| CXLen
| CXAckDel (entry : gostring)
| CSettle (key entry : gostring) (force : bool) (args : fields)
| CPublish (payload : gostring)
| CGroupCreate
| CXAutoClaim (consumer : gostring) (min_idle : Z)
| CXReadGroup (consumer : gostring)
| CEmit (result : Journal.JobResult).

(** What a command returns. *)
Definition reply (c : cmd) : Type :=
  match c with
  | CNow => time
  | CRand _ => gostring
  | CLoadJob _ => Journal.StoredJob
  | CEnsure _ => gostring
  | CLoadKey _ => option gostring
  | CInsert _ => bool
  | CGetReceipt _ => option Seal.Receipt
  | CLoadPolicy _ => (Policy.Doc * bool)%type
  | CHGetAll _ => gmap gostring gostring
  | CHGet _ _ => option gostring
  | CGet _ => option gostring
  | CXLen => Z
  | CSettle _ _ _ _ => redis_reply
  | CXAutoClaim _ _ | CXReadGroup _ => list (gostring * gmap gostring value)
  | _ => unit
  end.

(** Commands that go over the network. *)
Definition fallible (c : cmd) : bool :=
  match c with CNow | CRand _ | CEmit _ => false | _ => true end.

(** How the network reports a failure. *)
Inductive transport := Broken | TimedOut.
Definition lost (t : transport) : error :=
  match t with Broken => TransportError | TimedOut => TimeoutError end.

(** The clock and the random source. *)
Class Sources := { clock : nat -> time; rand : nat -> nat -> gostring }.

Class SourcesLaws `{Sources} := { rand_length i n : length (rand i n) = n }.

Section exec.
Context `{StreamIDs, Sources, Journal.JobIDs, !Seal.UUID}.
Context {K RS J : Type} `{!Seal.KeyStore K, !Seal.ReceiptStore RS, !Journal.Store J}.
Implicit Types w : world K RS J.

Definition set_redis (r : Redis) w :=
  World r (keys w) (receipts w) (journal w) (policies w) (emitted w) (ticks w) (draws w).
Definition set_keys (k : K) w :=
  World (redis w) k (receipts w) (journal w) (policies w) (emitted w) (ticks w) (draws w).
Definition set_receipts (rs : RS) w :=
  World (redis w) (keys w) rs (journal w) (policies w) (emitted w) (ticks w) (draws w).
Definition set_journal (j : J) w :=
  World (redis w) (keys w) (receipts w) j (policies w) (emitted w) (ticks w) (draws w).
Definition emit_result r w :=
  World (redis w) (keys w) (receipts w) (journal w) (policies w) (emitted w ++ [r]) (ticks w) (draws w).
Definition tick w :=
  World (redis w) (keys w) (receipts w) (journal w) (policies w) (emitted w) (S (ticks w)) (draws w).
Definition draw w :=
  World (redis w) (keys w) (receipts w) (journal w) (policies w) (emitted w) (ticks w) (S (draws w)).
Definition now w : time := clock (ticks w).

Definition on_redis {A} (f : Redis -> Redis * A) w : world K RS J * A :=
  let ra := f (redis w) in (set_redis ra.1 w, ra.2).

Definition or_error {A} (e : error) (o : option A) : result error A :=
  match o with Some a => Ok a | None => Err e end.

Definition map_error {E A} (f : E -> error) (r : result E A) : result error A :=
  match r with Ok a => Ok a | Err e => Err (f e) end.

(** The policy loader that [main] of cmd/worker gives the redact runner. *)
Definition loadPolicy (tenant : gostring) w : result error (Policy.Doc * bool) :=
  match Seal.uuid_parse tenant with
  | None => Err PolicyError
  | Some id => map_error (fun _ => PolicyError) (Policy.Load (policies w) id)
  end.

Definition exec (c : cmd) w : world K RS J * result error (reply c) :=
  match c return world K RS J * result error (reply c) with
  | CNow => (tick w, Ok (now w))
  | CRand n => (draw w, Ok (rand (draws w) n))
  | CRecord r =>
      let jr := Journal.Record_ r (journal w) in (set_journal jr.1 w, map_error JournalError jr.2)
  | CLoadJob id => (w, map_error JournalError (Journal.Load id (journal w)))
  | CEnsure id =>
      let kr := Seal.Ensure (rand (draws w) 32) id (keys w) in
      (draw (set_keys kr.1 w), map_error SealError kr.2)
  | CLoadKey id => (w, map_error SealError (Seal.Load id (keys w)))
  | CDestroy id at_ => (set_keys (Seal.Destroy id at_ (keys w)) w, Ok tt)
  | CInsert r =>
      let rr := Seal.Insert r (receipts w) in (set_receipts rr.1 w, map_error SealError rr.2)
  | CGetReceipt id => (w, Ok (Seal.Get id (receipts w)))
  | CLoadPolicy tenant => (w, loadPolicy tenant w)
  | CHGetAll key => (w, Ok (default ∅ (hashes (redis w) !! key)))
  | CHGet key fld => (w, Ok (hashes (redis w) !! key ≫= (fun h => h !! fld)))
  | CHSet key fs => (set_redis (hset key fs (redis w)) w, Ok tt)
  | CIncrHSet key fld fs =>
      let x := on_redis (hincr_hset key fld fs) w in
      (x.1, if x.2 then Ok tt else Err (RedisError "hash value is not an integer"))
  | CDel key => (set_redis (set_hashes (delete key (hashes (redis w))) (redis w)) w, Ok tt)
  | CGet key => (w, Ok (strings (redis w) !! key))
  | CXAdd f =>
      match xadd f (now w) (redis w) with
      | None => (tick w, Err (RedisError "XADD"))
      | Some r => (tick (set_redis r w), Ok tt)
      end
  | CXLen => (w, Ok (Z.of_nat (length (stream (redis w)))))
  | CXAckDel entry => (set_redis (ack_del entry (redis w)) w, Ok tt)
  | CSettle key entry force args =>
      let x := on_redis (settleScript key entry force args (now w)) w in
      (tick x.1, or_error (RedisError "settle") x.2)
  | CPublish payload =>
      (set_redis (set_published (published (redis w) ++ [payload]) (redis w)) w, Ok tt)
  | CGroupCreate =>
      match group (redis w) with
      | Some _ => (w, Err (RedisError "BUSYGROUP Consumer Group name already exists"))
      | None => (set_redis (set_group (Some (last_id (redis w))) (pending (redis w)) (redis w)) w, Ok tt)
      end
  | CXAutoClaim consumer min_idle =>
      let x := on_redis (xautoclaim consumer min_idle (now w)) w in
      (tick x.1, or_error (RedisError "NOGROUP") x.2)
  | CXReadGroup consumer =>
      let x := on_redis (xreadgroup consumer (now w)) w in
      (tick x.1, or_error (RedisError "NOGROUP") x.2)
  | CEmit result => (emit_result result w, Ok tt)
  end.
End exec.

(** ** The processes

    [M E A] is the type of the functions of the package: processes over the
    commands above whose one variable is the checkpoint [st] of [handle]. *)

Record memState := MkMemState { ms_job : gostring; Step : Z; Partial : jmap }.

Definition M : Type -> Type -> Type := act reply error (option memState).

#[export] Instance M_effects : Effects M := act_effects.

Abbreviation runner := (Runner.JobRunner M error) (only parsing).

Definition of_result {E A} (f : E -> error) (r : result E A) : M error A :=
  match r with Ok a => ret a | Err e => throw (f e) end.

(** Where the Go code would dereference nil or convert to a wrong type. *)
Definition or_throw {A} (e : error) (o : option A) : M error A :=
  match o with Some a => ret a | None => throw e end.

(** *** The stream (stream.go, group.go) *)

Section stream.
Context `{Seal.AEAD, Journal.JobIDs}.

(** [seal.Seal]: with a fresh nonce. *)
Definition Seal_ (key plain : gostring) : M error gostring :=
  nonce <- ask (CRand Seal.nonceSize) ;;
  of_result SealError (Seal.sealWithNonce key nonce plain).

Definition optional (k v : gostring) (f : fields) : fields :=
  if seqb v [] then f else <[k := v]> f.

Definition enqueue (job : Job) : M error unit :=
  ask (CXAdd (optional "job_type" (JobType job)
          (optional "tenant_id" (TenantID job)
             (optional "id" (ID job) {["input"%go := Input job]})))).

(** [Add]; [has_keys] says that the key store is not nil. *)
Definition Add (has_keys : bool) (job : Job) : M error unit :=
  if negb has_keys then throw (Text "key store is required")
  else if seqb (ID job) [] then throw (Text "job id is required")
  else
    key <- ask (CEnsure (Journal.DurableIDFor (ID job))) ;;
    sealed <- Seal_ key (Input job) ;;
    enqueue (MkJob (ID job) sealed (TenantID job) (JobType job)).

Definition Len : M error Z := ask CXLen.

Definition JobRunning (jobID : gostring) : M error bool :=
  step <- ask (CHGet (memKey jobID) memFieldStep) ;;
  ret (match step with None => false | Some s => negb (seqb s []) end).

Definition finish (id : StreamID) : M error unit := ask (CXAckDel (String id)).

Definition ensureGroup : M error unit :=
  try (ask CGroupCreate) (fun r =>
    match r with
    | Ok _ => ret tt
    | Err (RedisError text) => if Contains text "BUSYGROUP" then ret tt else throw (RedisError text)
    | Err e => throw e
    end).

Definition PrepareGroup : M error unit := ensureGroup.

Definition Publish (e : JobEvent) : M error unit :=
  if seqb (ev_tenant e) [] then ret tt else ask (CPublish (Marshal (event_json e))).
End stream.

(** *** Checkpoints (memhash.go) *)

Section memhash.
Context `{Seal.AEAD, Journal.JobIDs}.

Definition jobKey (jobID : gostring) : M error gostring := ask (CEnsure (Journal.DurableIDFor jobID)).

(** [json.Unmarshal] into a [map[string]any]; null gives an empty map. *)
Definition decode_map (plain : gostring) : option jmap :=
  v ← Unmarshal plain;
  match v with JObj m => Some m | JNull => Some [] | _ => None end.

Definition load (jobID : gostring) : M error (option memState) :=
  fs <- ask (CHGetAll (memKey jobID)) ;;
  let stepRaw := default [] (fs !! memFieldStep) in
  if seqb stepRaw [] then ret None
  else
    n <- or_throw (Text "mem hash step") (Atoi stepRaw) ;;
    let raw := default [] (fs !! memFieldPartial) in
    if seqb raw [] then throw (Text "mem hash missing partial_result")
    else
      key <- jobKey jobID ;;
      plain <- of_result (fun _ => Text "mem hash partial_result") (Seal.Open key raw) ;;
      partial <- or_throw (Text "mem hash partial_result") (decode_map plain) ;;
      ret (Some (MkMemState jobID n partial)).

Definition sealPartial (jobID : gostring) (partial : jmap) : M error gostring :=
  let raw := Marshal (JObj partial) in
  key <- jobKey jobID ;;
  Seal_ key raw.

Definition save (st : memState) : M error unit :=
  sealed <- sealPartial (ms_job st) (Partial st) ;;
  ask (CHSet (memKey (ms_job st)) [(memFieldStep, Itoa (Step st)); (memFieldPartial, sealed)]).

Definition saveStep1 (st : memState) : M error unit :=
  sealed <- sealPartial (ms_job st) (Partial st) ;;
  ask (CIncrHSet (memKey (ms_job st)) memFieldStep1
         [(memFieldStep, Itoa (Step st)); (memFieldPartial, sealed)]).
End memhash.

(** *** Purging (purge.go) *)

Inductive CrashPoint := CrashNever | CrashAfterStep1 | CrashAfterRecord | CrashAfterKeyDestroy.

#[export] Instance CrashPoint_eq_dec : EqDecision CrashPoint.
Proof. solve_decision. Defined.

Section purge.
Context `{Seal.Ed25519, Journal.JobIDs} (priv : gostring).

Definition dropCheckpoint (redisJobID : gostring) (crash : CrashPoint) : M error unit :=
  if bool_decide (crash = CrashAfterKeyDestroy) then throw ErrSimulatedCrash
  else ask (CDel (memKey redisJobID)).

(** The receipt of a purge at a given time. *)
Definition receipt (redisJobID : gostring) (purgedAt : time) (tenantID : gostring) : Seal.Receipt :=
  Seal.MkReceipt (Journal.DurableIDFor redisJobID) redisJobID purgedAt
    (Seal.Sign priv (Seal.PurgeMessage redisJobID purgedAt))
    (Seal.SigningKeyID (Seal.ed_public priv)) tenantID.

(** [purger.run]. *)
Definition purge_run (redisJobID : gostring) (crash : CrashPoint) (tenantID : gostring) : M error unit :=
  let durable := Journal.DurableIDFor redisJobID in
  existing <- ask (CGetReceipt durable) ;;
  match existing with
  | Some r =>
      ask (CDestroy durable (Seal.PurgedAt r)) ;;;
      dropCheckpoint redisJobID crash
  | None =>
      now <- ask CNow ;;
      let purgedAt := Truncate now Microsecond in
      inserted <- ask (CInsert (receipt redisJobID purgedAt tenantID)) ;;
      purgedAt <- (if (inserted : bool) then ret purgedAt
                   else
                     existing <- ask (CGetReceipt durable) ;;
                     match existing with
                     | None => throw ErrMissingReceipt
                     | Some r => ret (Seal.PurgedAt r)
                     end) ;;
      ask (CDestroy durable purgedAt) ;;;
      dropCheckpoint redisJobID crash
  end.

Definition with_signature (r : Journal.JobResult) (sig keyID : gostring) : Journal.JobResult :=
  Journal.MkJobResult (Journal.ID r) (Journal.TenantID r) (Journal.JobType r) (Journal.Result r)
    (Journal.History r) sig keyID.

Definition signOutput (r : Journal.JobResult) : Journal.JobResult :=
  let body := Journal.BodyOf (Journal.Result r) in
  let msg := Seal.OutputMessage (Journal.ID r) (Journal.TenantID r) body in
  with_signature r (Seal.Sign priv msg) (Seal.SigningKeyID (Seal.ed_public priv)).

(** *** Claims and commits (group.go) *)

Record claimed := MkClaimed {
  entry : StreamID;
  job : Job;
  crash : CrashPoint;
  fail_ : bool;
  c_fields : fields;
}.

Definition parseClaim (e : StreamID) (f : fields) : result error claimed :=
  job ← parseJob e f; Ok (MkClaimed e job CrashNever false f).

Record Hooks := MkHooks {
  AfterStep1 : option (gostring -> bool);
  AfterRecord : option (gostring -> bool);
  AfterKeyDestroy : option (gostring -> bool);
  FailHook : option (gostring -> bool);
}.

Definition no_hooks : Hooks := MkHooks None None None None.

Definition hook (h : option (gostring -> bool)) (jobID : gostring) : bool :=
  match h with None => false | Some f => f jobID end.

Definition applyHooks (c : claimed) (h : Hooks) : claimed :=
  let id := ID (job c) in
  let crash := if hook (AfterStep1 h) id then CrashAfterStep1
               else if hook (AfterRecord h) id then CrashAfterRecord
               else if hook (AfterKeyDestroy h) id then CrashAfterKeyDestroy
               else crash c in
  MkClaimed (entry c) (job c) crash (fail_ c || hook (FailHook h) id) (c_fields c).

Definition commitJob (c : claimed) (r : Journal.JobResult) : M error unit :=
  ask (CRecord r) ;;;
  if bool_decide (crash c = CrashAfterRecord) then throw ErrSimulatedCrash
  else purge_run (ID (job c)) (crash c) (TenantID (job c)).

Definition finished_event (r : Journal.JobResult) (s : Journal.JobState) : JobEvent :=
  MkEvent (Journal.TenantID r) (Journal.ID r) (Journal.state_text s).

(** *** Dead letters (dlq.go) *)

Definition luaInt (v : redis_reply) : option Z :=
  match v with RInt n => Some n | RString s => Atoi s | _ => None end.

Definition parseSettle (raw : redis_reply) : result error (gostring * Z) :=
  match raw with
  | RArray [RString kind; v] =>
      if negb (seqb kind "retry") && negb (seqb kind "bury") then Err ErrSettle
      else match luaInt v with None => Err ErrSettle | Some n => Ok (kind, n) end
  | _ => Err ErrSettle
  end.

Definition settle (c : claimed) (force : bool) : M error (gostring * Z) :=
  raw <- ask (CSettle (retryKey (ID (job c))) (String (entry c)) force (c_fields c)) ;;
  of_result id (parseSettle raw).

Definition peek (jobID : gostring) : M error (option Z) :=
  raw <- ask (CGet (retryKey jobID)) ;;
  match raw with
  | None => ret None
  | Some s => n <- or_throw (Text "strconv.Atoi") (Atoi s) ;; ret (Some n)
  end.

Definition with_tenant_type (r : Journal.JobResult) (tenant jobType : gostring) : Journal.JobResult :=
  Journal.MkJobResult (Journal.ID r) tenant jobType (Journal.Result r) (Journal.History r)
    (Journal.Signature r) (Journal.SigningKeyID r).

(** [deadLetters.fail]. *)
Definition fail_job (c : claimed) (r : Journal.JobResult) : M error unit :=
  n <- peek (ID (job c)) ;;
  (match n with
   | Some n =>
       if (2 <=? n)%Z then
         let r := signOutput r in
         commitJob c r ;;; Publish (finished_event r Journal.FAILED)
       else ret tt
   | None => ret tt
   end) ;;;
  settle c false ;;; ret tt.

Definition bury (c : claimed) (jobType reason : gostring) : M error unit :=
  let jobType := if seqb jobType [] then "redact"%go else jobType in
  now <- ask CNow ;;
  let r := Journal.Fail (ID (job c)) [("error"%go, JStr reason)] now in
  let r := signOutput (with_tenant_type r (TenantID (job c)) jobType) in
  commitJob c r ;;;
  Publish (finished_event r Journal.FAILED) ;;;
  settle c true ;;; ret tt.
End purge.

(** *** Handling an entry (group.go) *)

Section worker.
Context `{Seal.AEAD, Seal.Ed25519, Journal.JobIDs} (priv : gostring).

Definition openJobInput (jobID raw : gostring) : M error gostring :=
  key <- ask (CLoadKey (Journal.DurableIDFor jobID)) ;;
  match key with
  | None => throw ErrInputKeyMissing
  | Some key => of_result SealError (Seal.Open key raw)
  end.

Definition jobInput (raw tenant : gostring) : jmap :=
  let input := match Unmarshal raw with
               | Some (JObj m) => m
               | _ => [("input"%go, JStr raw)]
               end in
  if seqb tenant [] then input else jinsert "tenantId"%go (JStr tenant) input.

(** [finishJournaled]: whether the job was in the journal already. *)
Definition finishJournaled (c : claimed) : M error bool :=
  try (ask (CLoadJob (ID (job c)))) (fun row =>
    match row with
    | Err (JournalError Journal.UnknownStoredJob) => ret false
    | Err e => throw e
    | Ok _ =>
        purge_run priv (ID (job c)) CrashNever (TenantID (job c)) ;;;
        finish (entry c) ;;;
        ret true
    end).

(** The recorder of [handle]; it reads and writes the variable [st]. *)
Definition saved_checkpoint : M error (option (Z * jmap)) :=
  st <- get ;;
  ret (match st with None => None | Some st => Some (Step st, Partial st) end).

Definition save_checkpoint (c : claimed) (step : Z) (partial : jmap) : M error unit :=
  let next := MkMemState (ID (job c)) step partial in
  bind_err InfraError (if (step =? 1)%Z then saveStep1 next else save next) (fun _ =>
  put (Some next) ;;;
  if (step =? 1)%Z then
    bind_err InfraError
      (Publish (MkEvent (TenantID (job c)) (ID (job c)) (Journal.state_text Journal.RUNNING)))
      (fun _ => if bool_decide (crash c = CrashAfterStep1) then throw ErrSimulatedCrash else ret tt)
  else ret tt).

Definition recorder (c : claimed) : Runner.CheckpointRecorder M error :=
  Runner.NewCheckpointRecorder saved_checkpoint (save_checkpoint c).

Definition with_input (c : claimed) (plain : gostring) : claimed :=
  MkClaimed (entry c) (MkJob (ID (job c)) plain (TenantID (job c)) (JobType (job c))) (crash c)
    (fail_ c) (c_fields c).

(** The result of the runner, handed on: [None] is an error to bury. *)
Definition ran {A} (m : M (Runner.run_error error) A) : M error (option A) :=
  try m (fun r =>
    match r with
    | Ok out => ret (Some out)
    | Err (Runner.Wrapped e) => if is_crash e || is_infra e then throw e else ret None
    | Err (Runner.Message _) => ret None
    | Err Runner.Panic => throw Panicked
    end).

Definition complete (c : claimed) (jobType : gostring) (out : jmap) : M error unit :=
  now <- ask CNow ;;
  let r := signOutput priv
             (with_tenant_type (Journal.Succeed (ID (job c)) out now) (TenantID (job c)) jobType) in
  commitJob priv c r ;;;
  Publish (finished_event r Journal.COMPLETED) ;;;
  ask (CEmit r) ;;;
  finish (entry c).

Definition handle (reg : option (gmap gostring runner)) (c : claimed) (hooks : Hooks) : M error unit :=
  let c := applyHooks c hooks in
  finished <- finishJournaled c ;;
  if (finished : bool) then ret tt
  else
    st <- load (ID (job c)) ;;
    put st ;;;
    let jobType := let t := field "job_type" (c_fields c) in if seqb t [] then "redact"%go else t in
    match Runner.Get reg jobType with
    | None => bury priv c jobType "unknown job_type"
    | Some jr =>
        try (openJobInput (ID (job c)) (Input (job c))) (fun plain =>
          match plain with
          | Err (SealError Seal.BadSealed) => bury priv c (Runner.JobType jr) "input is not sealed"
          | Err ErrInputKeyMissing => bury priv c (Runner.JobType jr) "input key missing"
          | Err e => throw e
          | Ok plain =>
              let c := with_input c plain in
              out <- ran (Runner.Run jr (jobInput (Input (job c)) (TenantID (job c)))
                            (Some (recorder c))) ;;
              match out with
              | None => bury priv c (Runner.JobType jr) "runner failed"
              | Some out =>
                  if fail_ c then
                    now <- ask CNow ;;
                    fail_job priv c
                      (with_tenant_type (Journal.Fail (ID (job c)) out now) (TenantID (job c))
                         (Runner.JobType jr))
                  else complete c (Runner.JobType jr) out
              end
          end)
    end.

Definition deadLetterMissingTenant (id : StreamID) (f : fields) : M error unit :=
  let jobID := if seqb (field "id" f) [] then String id else field "id" f in
  now <- ask CNow ;;
  ask (CDestroy (Journal.DurableIDFor jobID) now) ;;;
  settle (MkClaimed id (MkJob jobID [] [] []) CrashNever false f) true ;;;
  ret tt.

Definition dispatch (reg : option (gmap gostring runner)) (hooks : Hooks)
    (msg : gostring * gmap gostring value) : M error unit :=
  id <- of_result id (ParseStreamID msg.1) ;;
  let f := valuesToFields msg.2 in
  match parseClaim id f with
  | Err ErrMissingInput => finish id
  | Err ErrMissingTenant => deadLetterMissingTenant id f
  | Err e => throw e
  | Ok c => handle reg c hooks
  end.

(** *** The loop *)

Record Deps := MkDeps {
  HasJournal : bool;
  HasKeys : bool;
  HasReceipts : bool;
  Registry : option (gmap gostring runner);
  DepsHooks : Hooks;
}.

Definition ready (d : Deps) : option gostring :=
  if negb (HasJournal d) then Some "queue: Journal is required"%go
  else if negb (HasKeys d) then Some "queue: Keys is required"%go
  else if negb (HasReceipts d) then Some "queue: Receipts is required"%go
  else if negb (length priv =? 64) then Some "queue: SigningKey is required"%go
  else match Registry d with None => Some "queue: Registry is required"%go | Some _ => None end.

Fixpoint dispatch_all (reg : option (gmap gostring runner)) (hooks : Hooks)
    (msgs : list (gostring * gmap gostring value)) : M error unit :=
  match msgs with
  | [] => ret tt
  | msg :: msgs => dispatch reg hooks msg ;;; dispatch_all reg hooks msgs
  end.

(** One turn of the loop of [RunGroup]. *)
Definition turn (cfg : WorkerConfig) (d : Deps) : M error unit :=
  stolen <- ask (CXAutoClaim (Consumer cfg) (Idle cfg)) ;;
  dispatch_all (Registry d) (DepsHooks d) stolen ;;;
  try (ask (CXReadGroup (Consumer cfg))) (fun msgs =>
    match msgs with
    | Err TimeoutError => ret tt
    | Err e => throw e
    | Ok msgs => dispatch_all (Registry d) (DepsHooks d) msgs
    end).

(** The loop, stopped by its context after [n] turns. *)
Fixpoint loop (cfg : WorkerConfig) (d : Deps) (n : nat) : M error unit :=
  match n with
  | O => throw ErrCanceled
  | S n => turn cfg d ;;; loop cfg d n
  end.

Definition RunGroup (cfg : WorkerConfig) (d : Deps) (n : nat) : M error unit :=
  match ready d with
  | Some missing => throw (Text missing)
  | None =>
      match valid cfg with
      | Err EmptyConsumer => throw (Text "consumer name is required")
      | Err _ => throw (Text "idle must be at least 2x poll")
      | Ok _ => loop cfg d n
      end
  end.

(** The end of [main] of cmd/worker, once it has started. *)
Definition serve (cfg : WorkerConfig) (d : Deps) (n : nat) : M error unit := PrepareGroup ;;; RunGroup cfg d n.

(** The registry that [main] of cmd/worker builds. *)
Definition worker_registry : option (gmap gostring runner) :=
  Some (Runner.NewRegistry
          [Redact.runner (Some (fun tenant => ask (CLoadPolicy tenant))); Redact.Mask.runner]).
End worker.

End Queue.
