(* ===== verification/QueueSafe.v ===== *)
(** * The queue under interleaving and failure

    Any number of workers and producers, in any interleaving, with commands
    refused, replies lost and processes killed at any point: what still holds
    of the journal, the receipts, the keys and the stream.  The invariant
    [Inv] and the preorder [mono] of the world are shown to be kept by every
    command the processes issue where they issue it. *)

From S2P Require Import Prelude GoStd GoTime Json Ledger Policy Runner Redact Seal SealSpec Journal JournalSpec Proc Queue.
Import Proc Queue.

(** ** Entry identifiers *)

Lemma no_dash l : Forall (fun b => is_digit b = true) l -> "-"%byte ∉ l.
Proof. intros Hl Hin. rewrite Forall_forall in Hl. by specialize (Hl _ Hin). Qed.

Lemma Cut_String i : Cut (String i) "-"%byte = Some (FormatUint (millis i), FormatUint (seq i)).
Proof. apply Cut_Some. split; [done|]. apply no_dash, FormatUint_digits. Qed.

Lemma Parse_String i : id_ok i -> ParseStreamID (String i) = Ok i.
Proof.
  intros [Hm Hs]. unfold ParseStreamID. rewrite Cut_String.
  rewrite (proj2 (seqb_neq _ _)) by apply FormatUint_nonempty.
  rewrite (proj2 (seqb_neq _ _)) by apply FormatUint_nonempty.
  destruct (Contains (FormatUint (seq i)) "-") eqn:E.
  - apply Contains_spec in E as (a & b & E). destruct (no_dash _ (FormatUint_digits (seq i))).
    rewrite E, !elem_of_app. right. left. left.
  - cbn [orb]. rewrite !ParseUint_FormatUint by done. by destruct i.
Qed.

Lemma String_inj i j : id_ok i -> id_ok j -> String i = String j -> i = j.
Proof. intros Hi Hj E. apply Parse_String in Hi, Hj. rewrite E, Hj in Hi. by injection Hi. Qed.

Lemma id_lt_spec i j :
  id_lt i j = true <-> (millis i < millis j)%N \/ (millis i = millis j /\ (seq i < seq j)%N).
Proof. unfold id_lt. rewrite orb_true_iff, andb_true_iff, !N.ltb_lt, N.eqb_eq. done. Qed.

Lemma id_lt_irrefl i : id_lt i i = false.
Proof. apply not_true_iff_false. rewrite id_lt_spec. lia. Qed.

Lemma id_lt_not l i j : id_lt l i = true -> id_lt l j = false -> id_lt i j = false.
Proof. rewrite <- !not_true_iff_false, !id_lt_spec. lia. Qed.

Section safety.
Context `{!StreamIDs, !StreamIDsLaws, !Sources, !SourcesLaws, !Journal.JobIDs, !Seal.UUID}.
Context `{!Seal.AEAD, !Seal.Ed25519} (priv : gostring).
Context {K RS J : Type}.
Context `{!Seal.KeyStore K, !Seal.KeyStoreLaws K, !Seal.ReceiptStore RS, !Seal.ReceiptStoreLaws RS}.
Context `{!Journal.Store J, !StoreLaws J}.
Implicit Types w : world K RS J.

Abbreviation durable := Journal.DurableIDFor.

Definition row_at w (d : gostring) : option Journal.StoredJob := Journal.row_of (journal w) d.
Definition receipt_at w (d : gostring) : option Seal.Receipt := Seal.Get d (receipts w).
Definition key_at w (d : gostring) : Seal.key_view := Seal.key_of (keys w) d.
Definition has_row (d : gostring) w : Prop := is_Some (row_at w d).

(** An entry [Add] writes for a tenant. *)
Definition entry_ok (f : gmap gostring gostring) : Prop :=
  field "input" f <> [] /\ field "id" f <> [] /\ field "tenant_id" f <> [].

Definition job_of (f : gmap gostring gostring) : gostring := durable (field "id" f).

(** The job of an entry is in the journal. *)
Definition settled (f : gmap gostring gostring) w : Prop := entry_ok f -> has_row (job_of f) w.

(** ** How the world moves *)

Record mono w w' : Prop := {
  mono_row d row : row_at w d = Some row -> row_at w' d = Some row;
  mono_output j o : Journal.output_of (journal w) j = Some o -> Journal.output_of (journal w') j = Some o;
  mono_receipt d r : receipt_at w d = Some r -> receipt_at w' d = Some r;
  mono_key d : match key_at w d with
               | Seal.Absent => True
               | Seal.Live k => key_at w' d = Seal.Live k \/ exists t, key_at w' d = Seal.Destroyed t
               | Seal.Destroyed t => key_at w' d = Seal.Destroyed t
               end;
  mono_published : published (redis w) ⊆ published (redis w');
  mono_last i : id_lt (last_id (redis w)) i = false -> id_lt (last_id (redis w')) i = false;
  mono_new i f : (i, f) ∈ stream (redis w') ->
    (i, f) ∈ stream (redis w) \/ id_lt (last_id (redis w)) i = true;
  mono_entry i f : (i, f) ∈ stream (redis w) -> entry_ok f ->
    (exists i', (i', f) ∈ stream (redis w')) \/ has_row (job_of f) w';
}.

Lemma has_row_mono d w w' : mono w w' -> has_row d w -> has_row d w'.
Proof. intros Hm [row Hr]. exists row. by apply Hm. Qed.

#[export] Instance mono_preorder : PreOrder mono.
Proof.
  split.
  - intros w. split; eauto. intros d. destruct (key_at w d); auto.
  - intros w1 w2 w3 H12 H23. split.
    + intros d row Hr. by apply H23, H12.
    + intros d row Hr. by apply H23, H12.
    + intros d row Hr. by apply H23, H12.
    + intros d. pose proof (mono_key _ _ H12 d) as Ha. pose proof (mono_key _ _ H23 d) as Hb.
      destruct (key_at w1 d); [done| |].
      * destruct Ha as [Ha|[t Ha]]; rewrite Ha in Hb; eauto.
      * by rewrite Ha in Hb.
    + etrans; [apply H12|apply H23].
    + intros i Hi. by apply H23, H12.
    + intros i f Hf. apply H23 in Hf as [Hf|Hf]; [by apply H12|].
      right. destruct (id_lt (last_id (redis w1)) i) eqn:E; [done|].
      apply H12 in E. congruence.
    + intros i f Hf Hok. apply H12 in Hf as [[i' Hf]|Hr]; [|right; by eapply has_row_mono|done].
      by eapply H23.
Qed.

(** ** The invariant *)

(** A [COMPLETED] event is only published of a job with a completed row. *)
Definition event_ok w (p : gostring) : Prop :=
  exists e, p = Marshal (event_json e) /\
    (ev_status e = "COMPLETED"%go -> exists row, row_at w (durable (ev_job e)) = Some row /\
       Journal.FinalState row = Journal.COMPLETED).

Record Inv w : Prop := {
  inv_keys : Seal.keys_ok (keys w);
  inv_journal : consistent (journal w);
  (** A destroyed key has a receipt of that moment... *)
  inv_destroyed d t : key_at w d = Seal.Destroyed t ->
    exists r, receipt_at w d = Some r /\ Seal.PurgedAt r = t;
  (** ... and a job with a receipt is in the journal. *)
  inv_receipt d r : receipt_at w d = Some r -> has_row d w;
  inv_events p : p ∈ published (redis w) -> event_ok w p;
  inv_last i f : (i, f) ∈ stream (redis w) -> id_lt (last_id (redis w)) i = false;
  inv_ids i f : (i, f) ∈ stream (redis w) -> id_ok i;
  inv_functional i f f' : (i, f) ∈ stream (redis w) -> (i, f') ∈ stream (redis w) -> f = f';
  inv_tenant i f : (i, f) ∈ stream (redis w) -> field "input" f <> [] -> field "tenant_id" f <> [];
}.

Lemma event_ok_mono w w' p : mono w w' -> event_ok w p -> event_ok w' p.
Proof.
  intros Hm (e & He & Hc). exists e. split; [done|]. intros Hs.
  destruct (Hc Hs) as (row & Hr & Hf). exists row. split; [by apply Hm|done].
Qed.

(** *** Steps that touch one part of the world *)

(** What [Inv] and [mono] see of the world. *)
Definition same_view w w' : Prop :=
  stream (redis w) = stream (redis w') /\ last_id (redis w) = last_id (redis w') /\
  published (redis w) = published (redis w') /\ keys w = keys w' /\ receipts w = receipts w' /\
  journal w = journal w'.

Lemma same_view_keeps w w' : same_view w w' -> Inv w -> Inv w' /\ mono w w'.
Proof.
  intros (Hs & Hl & Hp & Hk & Hr & Hj) Hi. split.
  - destruct Hi; split; unfold key_at, receipt_at, has_row, row_at in *; rewrite <- ?Hk, <- ?Hr, <- ?Hj,
      <- ?Hs, <- ?Hl, <- ?Hp; try done.
    intros p Hin. destruct (inv_events0 p Hin) as (e & He & Hc). exists e. unfold row_at in *.
    by rewrite <- Hj.
  - split; unfold key_at, receipt_at, has_row, row_at; rewrite <- ?Hk, <- ?Hr, <- ?Hj, <- ?Hs, <- ?Hl, <- ?Hp;
      eauto. intros d. destruct (Seal.key_of (keys w) d); auto.
Qed.

Abbreviation keeps c w := (given Inv mono w (exec c w).1).

(** Commands that change nothing the invariant speaks of. *)
Definition quiet (c : cmd) : bool :=
  match c with
  | CRecord _ | CEnsure _ | CDestroy _ _ | CInsert _ | CXAdd _ | CXAckDel _ | CSettle _ _ _ _
  | CPublish _ => false
  | _ => true
  end.

Lemma quiet_keeps c w : quiet c = true -> Inv w -> keeps c w.
Proof.
  intros Hq. apply same_view_keeps. destruct c; try done.
  - cbn. unfold hincr_hset. by destruct (Atoi _).
  - cbn. by destruct (group (redis w)) eqn:E.
  - cbn. unfold xautoclaim. by destruct (group (redis w)).
  - cbn. unfold xreadgroup. by destruct (group (redis w)).
Qed.

(** The world with another key store. *)
Lemma keeps_keys w w' :
  redis w = redis w' -> receipts w = receipts w' -> journal w = journal w' ->
  Seal.keys_ok (keys w') ->
  (forall d, match key_at w d with
             | Seal.Absent => key_at w' d = Seal.Absent \/ exists k, key_at w' d = Seal.Live k
             | Seal.Live k => key_at w' d = Seal.Live k \/
                 exists t r, key_at w' d = Seal.Destroyed t /\ receipt_at w d = Some r /\ Seal.PurgedAt r = t
             | Seal.Destroyed t => key_at w' d = Seal.Destroyed t
             end) ->
  Inv w -> Inv w' /\ mono w w'.
Proof.
  intros Hr Hrc Hj Hok Hk Hi. split.
  - destruct Hi; split; unfold receipt_at, has_row, row_at in *; rewrite <- ?Hr, <- ?Hrc, <- ?Hj; try done.
    + intros d t Hd. specialize (Hk d). destruct (key_at w d) as [|k|t'] eqn:E.
      * destruct Hk as [Hk|[k Hk]]; congruence.
      * destruct Hk as [Hk|(t' & r & Hk & Hx)]; [congruence|].
        rewrite Hd in Hk. injection Hk as <-. exists r. exact Hx.
      * rewrite Hd in Hk. injection Hk as <-. by apply inv_destroyed0.
    + intros p Hin. destruct (inv_events0 p Hin) as (e & He & Hc). exists e. unfold row_at in *.
      by rewrite <- Hj.
  - split; unfold receipt_at, has_row, row_at; rewrite <- ?Hr, <- ?Hrc, <- ?Hj; eauto.
    intros d. specialize (Hk d). destruct (key_at w d); [done| |done].
    destruct Hk as [Hk|(t & r & Hk & _)]; eauto.
Qed.

Lemma ensure_keeps d w : Inv w -> keeps (CEnsure d) w.
Proof.
  intros Hi. pose proof (inv_keys _ Hi) as Hk. pose proof (rand_length (draws w) 32) as Hl.
  apply keeps_keys; try done.
  - by apply Seal.Ensure_ok.
  - intros j. unfold key_at. cbn [exec fst keys set_keys draw].
    rewrite (Seal.Ensure_view _ d _ j Hl Hk).
    destruct (Seal.key_of (keys w) d) eqn:Ed.
    + case_decide as Hj; [subst j; rewrite Ed; eauto|]. destruct (Seal.key_of (keys w) j); auto.
    + destruct (Seal.key_of (keys w) j); auto.
    + destruct (Seal.key_of (keys w) j); auto.
Qed.

Lemma destroy_keeps d t w :
  Inv w -> (exists r, receipt_at w d = Some r /\ Seal.PurgedAt r = t) -> keeps (CDestroy d t) w.
Proof.
  intros Hi (r & Hr & Ht). pose proof (inv_keys _ Hi) as Hk.
  apply keeps_keys; try done.
  - by apply Seal.Destroy_ok.
  - intros j. unfold key_at. cbn [exec fst keys set_keys].
    rewrite (Seal.Destroy_view d t _ j Hk).
    destruct (Seal.key_of (keys w) d) eqn:Ed.
    + destruct (Seal.key_of (keys w) j); auto.
    + case_decide as Hj; [subst j; rewrite Ed; eauto 6|]. destruct (Seal.key_of (keys w) j); auto.
    + destruct (Seal.key_of (keys w) j); auto.
Qed.

Lemma record_keeps r w : Inv w -> keeps (CRecord r) w.
Proof.
  intros Hi. pose proof (inv_journal _ Hi) as Hj.
  assert (Hm : mono w (exec (CRecord r) w).1).
  { split; cbn [exec fst]; unfold receipt_at, key_at, has_row, row_at; cbn [journal set_journal redis keys receipts];
      eauto.
    - intros d row. by apply Record_keeps_row.
    - intros j o. by apply Record_keeps_output.
    - intros d. destruct (Seal.key_of (keys w) d); auto. }
  split; [|done]. split; try apply Hi.
  - by apply Record_consistent.
  - intros d x Hx. eapply has_row_mono; [done|]. by eapply inv_receipt.
  - intros p Hp. eapply event_ok_mono; [done|]. by apply Hi.
Qed.

Lemma record_Ok r w :
  Inv w -> (exec (CRecord r) w).2 = Ok tt ->
  exists row stored, Journal.parseTerminal r = Ok row /\
    row_at (exec (CRecord r) w).1 (durable (Journal.ID r)) = Some stored /\
    Journal.acceptExisting stored row = Ok tt.
Proof.
  intros Hi. cbn [exec snd fst]. destruct (Journal.Record_ r (journal w)) as [j [[]|e]] eqn:E;
    cbn [fst snd map_error]; [|done]. intros _.
  destruct (Record_Ok r (journal w)) as (row & stored & Hp & Hs & Ha & _);
    [apply Hi|by rewrite E|]. rewrite E in Hs. by exists row, stored.
Qed.

Lemma Truncate_normal t : Ledger.normalizeAt (Truncate t Microsecond) = Truncate t Microsecond.
Proof.
  unfold Ledger.normalizeAt, Truncate, Microsecond.
  pose proof (Z.div_mod t 1000 ltac:(lia)) as E.
  replace (t - t mod 1000)%Z with (t / 1000 * 1000)%Z by lia. rewrite Z.mod_mul by lia. lia.
Qed.

(** After an insert the job has a receipt, of that moment if it was new. *)
Lemma insert_keeps r w :
  Inv w -> has_row (Seal.JobID r) w -> Ledger.normalizeAt (Seal.PurgedAt r) = Seal.PurgedAt r ->
  keeps (CInsert r) w /\
  match (exec (CInsert r) w).2 with
  | Ok true => exists r', receipt_at (exec (CInsert r) w).1 (Seal.JobID r) = Some r' /\
                 Seal.PurgedAt r' = Seal.PurgedAt r
  | _ => True
  end.
Proof.
  intros Hi Hrow Hn. unfold given. cbn [exec fst snd].
  pose proof (Seal.Insert_exists r (receipts w)) as Hex.
  pose proof (Seal.Insert_new r (receipts w)) as Hnew.
  destruct (Seal.Insert r (receipts w)) as [rs res] eqn:E. cbn [fst snd] in *.
  (* what the new store holds *)
  assert (Hget : (forall j, Seal.Get j rs = Seal.Get j (receipts w)) /\ res <> Ok true \/
                 (Seal.Get (Seal.JobID r) (receipts w) = None /\ exists r', Seal.Get (Seal.JobID r) rs = Some r' /\
                    Seal.PurgedAt r' = Seal.PurgedAt r /\
                    forall j, j <> Seal.JobID r -> Seal.Get j rs = Seal.Get j (receipts w))).
  { destruct (Seal.Get (Seal.JobID r) (receipts w)) as [r0|] eqn:Eg.
    - left. destruct Hex as [-> Hj]; [done|]. done.
    - specialize (Hnew eq_refl Hn). destruct res as [b|e].
      + right. destruct Hnew as [-> Hj]. split; [done|]. pose proof (Hj (Seal.JobID r)) as Hself.
        rewrite decide_True in Hself by done. destruct Hself as (r' & Hr' & Hs). exists r'.
        split; [done|]. split; [apply Hs|]. intros j Hne. specialize (Hj j).
        by rewrite decide_False in Hj by done.
      + left. done. }
  assert (Hm : mono w (set_receipts rs w)).
  { split; unfold receipt_at, key_at, has_row, row_at; cbn [journal set_receipts redis keys receipts]; eauto.
    - intros d x Hx. destruct Hget as [[Hg _]|(Hnone & r' & Hr' & _ & Hg)]; [by rewrite Hg|].
      rewrite Hg; [done|]. intros ->. congruence.
    - intros d. destruct (Seal.key_of (keys w) d); auto. }
  assert (Hrcpt : forall d x, receipt_at (set_receipts rs w) d = Some x -> has_row d w).
  { intros d x Hx. unfold receipt_at in Hx. cbn [receipts set_receipts] in Hx.
    destruct Hget as [[Hg _]|(Hnone & r' & Hr' & _ & Hg)].
    - rewrite Hg in Hx. by eapply inv_receipt.
    - destruct (decide (d = Seal.JobID r)) as [->|Hne]; [done|]. rewrite Hg in Hx by done.
      by eapply inv_receipt. }
  split; [split; [|done]|].
  - split; try solve [apply Hi]; [|exact Hrcpt].
    intros d t Hd. destruct (inv_destroyed _ Hi d t Hd) as (x & Hx & Ht). exists x.
    split; [|done]. by apply Hm.
  - destruct res as [[]|e]; cbn [map_error]; try done.
    destruct Hget as [[_ Hne]|(_ & r' & Hr' & Hp & _)]; [done|]. by exists r'.
Qed.

(** *** The stream *)

(** The world with another stream. *)
Lemma keeps_redis w r :
  (forall i f, (i, f) ∈ stream r ->
     (i, f) ∈ stream (redis w) \/
     (id_lt (last_id (redis w)) i = true /\ id_ok i /\
      (field "input" f <> [] -> field "tenant_id" f <> []) /\
      forall f', (i, f') ∈ stream r -> f = f')) ->
  (forall i f, (i, f) ∈ stream r -> id_lt (last_id r) i = false) ->
  (forall i, id_lt (last_id (redis w)) i = false -> id_lt (last_id r) i = false) ->
  (forall i f, (i, f) ∈ stream (redis w) -> (exists i', (i', f) ∈ stream r) \/ settled f w) ->
  published (redis w) ⊆ published r ->
  (forall p, p ∈ published r -> event_ok w p) ->
  Inv w -> Inv (set_redis r w) /\ mono w (set_redis r w).
Proof.
  intros Hin Hlast Hmono Hgone Hpub Hev Hi. split.
  - split; cbn [redis set_redis]; try solve [apply Hi]; try done.
    + intros i f Hf. apply Hin in Hf as [Hf|(_ & Hok & _)]; [by eapply inv_ids|done].
    + intros i f f' Hf Hf'. destruct (Hin _ _ Hf) as [Ho|(_ & _ & _ & Hall)]; [|by apply Hall].
      destruct (Hin _ _ Hf') as [Ho'|(_ & _ & _ & Hall)]; [by eapply inv_functional|].
      symmetry. by apply Hall.
    + intros i f Hf. apply Hin in Hf as [Hf|(_ & _ & Ht & _)]; [by eapply inv_tenant|done].
  - split; cbn [redis set_redis]; eauto.
    + intros d. destruct (key_at w d) eqn:E; eauto.
    + intros i f Hf. apply Hin in Hf as [Hf|(Hf & _)]; auto.
    + intros i f Hf Hok. apply Hgone in Hf as [Hf|Hf]; [by left|right; by apply Hf].
Qed.

Lemma tick_view w : same_view w (tick w).
Proof. done. Qed.

Lemma chain w w1 w2 :
  (Inv w -> Inv w1 /\ mono w w1) -> (Inv w1 -> Inv w2 /\ mono w1 w2) -> Inv w -> Inv w2 /\ mono w w2.
Proof.
  intros Ha Hb Hi. destruct (Ha Hi) as [Hi1 Hm1]. destruct (Hb Hi1) as [Hi2 Hm2].
  split; [done|]. by trans w1.
Qed.

Lemma xadd_keeps f w :
  (field "input" f <> [] -> field "tenant_id" f <> []) -> Inv w -> keeps (CXAdd f) w.
Proof.
  intros Hf Hi. unfold given. cbn [exec fst].
  unfold xadd. destruct (auto_id (last_id (redis w)) (now w)) as [i|] eqn:E; cbn [mbind option_bind fst].
  2: { apply same_view_keeps; [apply tick_view|done]. }
  apply auto_id_after in E as [Hlt Hok].
  eapply chain; [intros _|apply same_view_keeps, tick_view|exact Hi].
  assert (Hnew : forall g, (i, g) ∉ stream (redis w)).
  { intros g Hg. apply (inv_last _ Hi) in Hg. congruence. }
  apply keeps_redis; cbn [stream last_id published set_stream]; try done; try apply Hi.
  - intros j g [Hg|Hg]%elem_of_app; [by left|]. apply list_elem_of_singleton in Hg.
    injection Hg as -> ->. right. split; [done|]. split; [done|]. split; [done|].
    intros f' [Hf'|Hf']%elem_of_app; [by destruct (Hnew f')|].
    apply list_elem_of_singleton in Hf'. by injection Hf'.
  - intros j g [Hg|Hg]%elem_of_app.
    + apply (inv_last _ Hi) in Hg. by eapply id_lt_not.
    + apply list_elem_of_singleton in Hg. injection Hg as -> _. apply id_lt_irrefl.
  - intros j. by apply id_lt_not.
  - intros j g Hg. left. exists j. apply elem_of_app. by left.
Qed.

Lemma ack_del_keeps i w :
  id_ok i -> (forall f, (i, f) ∈ stream (redis w) -> settled f w) -> Inv w -> keeps (CXAckDel (String i)) w.
Proof.
  intros Hok Hs Hi. unfold given. cbn [exec fst].
  apply keeps_redis; cbn [stream last_id published set_stream set_group ack_del]; try done; try apply Hi.
  - intros j f [_ Hf]%list_elem_of_filter. by left.
  - intros j f [_ Hf]%list_elem_of_filter. by eapply inv_last.
  - intros j f Hf. destruct (decide (String j = String i)) as [E|E].
    + right. apply String_inj in E as ->; [by apply Hs|by eapply inv_ids|done].
    + left. exists j. by apply list_elem_of_filter.
Qed.

Lemma bury_view key e args w :
  same_view (exec (CXAckDel e) w).1 (exec (CSettle key e true args) w).1.
Proof. cbn. by destruct (bool_decide _). Qed.

Lemma bury_keeps key i args w :
  id_ok i -> (forall f, (i, f) ∈ stream (redis w) -> settled f w) -> Inv w ->
  keeps (CSettle key (String i) true args) w.
Proof.
  intros Hok Hs Hi. eapply chain; [|apply same_view_keeps, bury_view|exact Hi].
  intros _. by apply ack_del_keeps.
Qed.

Lemma publish_keeps e w :
  event_ok w (Marshal (event_json e)) -> Inv w -> keeps (CPublish (Marshal (event_json e))) w.
Proof.
  intros He Hi. unfold given. cbn [exec fst].
  apply keeps_redis; cbn [stream last_id published set_published]; try done; try apply Hi.
  - by left.
  - intros j f Hf. left. by exists j.
  - set_solver.
  - intros p [Hp|Hp]%elem_of_app; [by apply Hi|]. by apply list_elem_of_singleton in Hp as ->.
Qed.
End safety.
