(* ===== verification/QueueLogic.v ===== *)
(** * The program logic of [Proc] for the processes of the queue

    The rules of [wp] for the sequencing operators of [Effects] and for the
    commands of [Queue], for the preorder of [QueueSafe], any invariant and any
    obligation. *)

From S2P Require Import Prelude Json Redact Runner Seal Journal Policy Proc Queue QueueSafe.
Import Proc Queue.

Section logic.
Context `{!StreamIDs, !Sources, !Journal.JobIDs, !Seal.UUID}.
Context {K RS J : Type} `{!Seal.KeyStore K, !Seal.ReceiptStore RS, !Journal.Store J}.
Context (Inv : world K RS J -> Prop) (need : world K RS J -> world K RS J -> Prop).
Implicit Types w : world K RS J.

(** [okp m Q l w]: under interference every step of [m] meets its obligation,
    and if it succeeds it does so with [Q]. *)
Definition okp {E A} (m : M E A) (Q : option memState -> A -> world K RS J -> Prop)
    (l : option memState) w : Prop :=
  awp exec fallible lost Inv mono need m
    (fun l' r w' => match r with Ok a => Q l' a w' | Err _ => True end) l w.

Abbreviation safe m l w := (okp m (fun _ _ _ => True) l w).
Abbreviation given := (given Inv mono).

Lemma okp_weaken {E A} (m : M E A) (Q Q' : _ -> _ -> _ -> Prop) l w :
  (forall l' a w', mono w w' -> Q l' a w' -> Q' l' a w') -> okp m Q l w -> okp m Q' l w.
Proof. intros HQ. apply awp_weaken; [exact _|]. intros l' [a|e] w' Hm Hq; eauto. Qed.

Lemma okp_safe {E A} (m : M E A) Q l w : okp m Q l w -> safe m l w.
Proof. by apply okp_weaken. Qed.

Lemma okp_later {E A} (m : M E A) Q l w w1 : mono w w1 -> okp m Q l w -> okp m Q l w1.
Proof. apply awp_later, _. Qed.

Lemma okp_ret {E A} (a : A) (Q : _ -> _ -> _ -> Prop) l w :
  (forall w', mono w w' -> Inv w' -> Q l a w') -> okp (E:=E) (ret a) Q l w.
Proof. done. Qed.

Lemma okp_throw {E A} (e : E) (Q : _ -> A -> _ -> Prop) l w : okp (throw e) Q l w.
Proof. done. Qed.

Lemma okp_get {E} (Q : _ -> _ -> _ -> Prop) l w :
  (forall w', mono w w' -> Inv w' -> Q l l w') -> okp (E:=E) get Q l w.
Proof. done. Qed.

Lemma okp_put {E} l' (Q : _ -> _ -> _ -> Prop) l w :
  (forall w', mono w w' -> Inv w' -> Q l' tt w') -> okp (E:=E) (put l') Q l w.
Proof. done. Qed.

(** Where the outcome is looked at, only success says anything. *)
Lemma okp_try {E E' A B} (m : M E A) (k : result E A -> M E' B) Q l w :
  okp m (fun l' a w' => okp (k (Ok a)) Q l' w') l w ->
  (forall e l' w', mono w w' -> okp (k (Err e)) Q l' w') ->
  okp (try m k) Q l w.
Proof.
  intros Hok Herr. apply awp_try; [exact _|]. eapply awp_weaken; [exact _| |exact Hok].
  intros l' [a|e] w' Hm Hq; [exact Hq|by apply Herr].
Qed.

Lemma okp_bind {E A B} (m : M E A) (f : A -> M E B) Q l w :
  okp m (fun l' a w' => okp (f a) Q l' w') l w -> okp (bind m f) Q l w.
Proof. intros Hm. by apply okp_try. Qed.

Lemma okp_bind_err {E E' A B} (g : E -> E') (m : M E A) (f : A -> M E' B) Q l w :
  okp m (fun l' a w' => okp (f a) Q l' w') l w -> okp (bind_err g m f) Q l w.
Proof. intros Hm. by apply okp_try. Qed.

(** A step of which only the safety matters. *)
Lemma okp_seq {E A B} (m : M E A) (f : A -> M E B) Q l w :
  safe m l w -> (forall a l' w', mono w w' -> okp (f a) Q l' w') -> okp (bind m f) Q l w.
Proof.
  intros Hm Hf. apply okp_bind. eapply okp_weaken; [|exact Hm]. intros l' a w' Hmn _. by apply Hf.
Qed.

Lemma okp_ask c (Q : _ -> reply c -> _ -> Prop) l w :
  (forall w', mono w w' -> Inv w' -> need w' (exec c w').1) ->
  (forall w' w2 a, mono w w' -> Inv w' -> given w' (exec c w').1 -> (exec c w').2 = Ok a ->
     mono (exec c w').1 w2 -> Inv w2 -> Q l a w2) ->
  okp (ask c) Q l w.
Proof.
  intros Hk Hq. apply awp_ask; [exact _|exact Hk| |done].
  intros w' w2 Hm Hi Hkp Hm2 Hi2. destruct (exec c w').2 as [a|e] eqn:E; [|done]. by eapply Hq.
Qed.

(** The same for a client that needs no more than the reply. *)
Lemma okp_reply c (Q : _ -> reply c -> _ -> Prop) l w :
  (forall w', mono w w' -> Inv w' -> need w' (exec c w').1) ->
  (forall w' w2 a, mono w w' -> Inv w' -> (exec c w').2 = Ok a -> mono w' w2 -> Inv w2 -> Q l a w2) ->
  okp (ask c) Q l w.
Proof.
  intros Hk Hq. apply okp_ask; [done|].
  intros w' w2 a Hm Hi [_ Hg] E Hm2. apply (Hq w'); try done. by etrans.
Qed.

Lemma safe_ask c l w :
  (forall w', mono w w' -> Inv w' -> need w' (exec c w').1) -> safe (ask c) l w.
Proof. intros Hk. by apply okp_ask. Qed.

Lemma okp_of_result {E A} (g : E -> error) (r : result E A) (Q : _ -> _ -> _ -> Prop) l w :
  (forall a w', r = Ok a -> mono w w' -> Inv w' -> Q l a w') -> okp (of_result g r) Q l w.
Proof. intros HQ. destruct r; [|done]. apply okp_ret. intros. by apply HQ. Qed.

Lemma safe_or_throw {A} e (o : option A) l w : safe (or_throw e o) l w.
Proof. by destruct o. Qed.

Lemma lift_safe {A} (m : M error A) l w : safe m l w -> safe (Runner.lift m) l w.
Proof.
  intros Hm. apply okp_bind_err. eapply okp_weaken; [|exact Hm]. intros. by apply okp_ret.
Qed.

Lemma some_or_safe {A} (e : Runner.run_error error) (o : option A) l w : safe (Runner.some_or e o) l w.
Proof. by destruct o. Qed.

End logic.

(** What a client knows of the commands it need not look at. *)
Ltac safe_cmd := fail.

(** One step of a proof that a function is safe, where nothing is to be
    remembered of its parts. *)
Ltac safe_step :=
  lazymatch goal with
  | |- okp _ _ (bind _ _) _ _ _ => apply okp_seq; [|intros ? ? ? ?]
  | |- okp _ _ (ask _) _ _ _ => apply safe_ask; intros; safe_cmd
  | |- okp _ _ (ret _) _ _ _ => apply okp_ret; intros; exact I
  | |- okp _ _ (throw _) _ _ _ => apply okp_throw
  | |- okp _ _ (or_throw _ _) _ _ _ => apply safe_or_throw
  | |- okp _ _ (of_result _ _) _ _ _ => apply okp_of_result; intros; exact I
  | |- okp _ _ (Runner.lift _) _ _ _ => apply lift_safe
  | |- okp _ _ (Runner.some_or _ _) _ _ _ => apply some_or_safe
  | |- okp _ _ (if ?b then _ else _) _ _ _ => destruct b
  | |- okp _ _ (match ?o with _ => _ end) _ _ _ => destruct o
  end.


Section runners.
Context `{!StreamIDs, !Sources, !Journal.JobIDs, !Seal.UUID}.
Context {K RS J : Type} `{!Seal.KeyStore K, !Seal.ReceiptStore RS, !Journal.Store J}.
Context (Inv : world K RS J -> Prop) (need : world K RS J -> world K RS J -> Prop).
Implicit Types w : world K RS J.

Abbreviation okp := (okp Inv need).
Abbreviation safe m l w := (okp m (fun _ _ _ => True) l w).

(** ** Runners *)

Definition recorder_safe (cp : Runner.CheckpointRecorder M error) : Prop :=
  (forall l w, safe (Runner.Saved (Some cp)) l w) /\
  forall step m l w, safe (Runner.Save (Some cp) step m) l w.

(** A runner that touches the world through its recorder only, or as quietly. *)
Definition runner_safe (jr : Runner.JobRunner M error) : Prop :=
  forall input cp l w, recorder_safe cp -> safe (Runner.Run jr input (Some cp)) l w.

Lemma redact_safe load : 
  (forall f tenant l w, load = Some f -> safe (f tenant) l w) -> runner_safe (Redact.runner load).
Proof.
  intros Hload input cp l w [Hsv Hs]. cbn [Runner.Run Redact.runner]. unfold Redact.Run.
  assert (Hw : forall text l w, safe (Redact.run_windows text (Some cp)) l w).
  { intros text l0 w0. unfold Redact.run_windows.
    repeat safe_step; (apply Hs || apply Hsv). }
  destruct (jlookup "input" input) as [[| | | |text| |]|]; try apply okp_throw. cbv zeta.
  destruct load as [load|]; [|apply Hw]. destruct (seqb _ _); [apply Hw|].
  apply okp_seq; [by apply lift_safe, Hload|]. intros [doc []] l' w' _; [|apply Hw].
  repeat safe_step.
Qed.

Lemma mask_safe : runner_safe Redact.Mask.runner.
Proof.
  intros input cp l w [Hsv Hs]. cbn [Runner.Run Redact.Mask.runner]. unfold Redact.Mask.Run. cbv zeta.
  repeat safe_step; (apply Hs || apply Hsv).
Qed.

End runners.

(** ** A process alone

    [ex] is what becomes of its commands: [exec], or that on a network that refuses some. *)

Section alone.
Context {W : Type} {ex : forall c : cmd, W -> W * result error (reply c)}.
Implicit Types w : W.

Lemma arun_try' {E E' A B} (m : M E A) (k : result E A -> M E' B) l w :
  arun ex (try m k) l w = let x := arun ex m l w in arun ex (k x.2.2) x.2.1 x.1.
Proof. apply arun_try. Qed.

Lemma arun_bind {E A B} (m : M E A) (f : A -> M E B) l w :
  arun ex (bind m f) l w =
  match arun ex m l w with
  | (w', (l', Ok a)) => arun ex (f a) l' w'
  | (w', (l', Err e)) => (w', (l', Err e))
  end.
Proof. unfold bind. rewrite arun_try'. by destruct (arun ex m l w) as [w' [l' [a|e]]]. Qed.

Lemma arun_bind_err {E E' A B} (g : E -> E') (m : M E A) (f : A -> M E' B) l w :
  arun ex (bind_err g m f) l w =
  match arun ex m l w with
  | (w', (l', Ok a)) => arun ex (f a) l' w'
  | (w', (l', Err e)) => (w', (l', Err (g e)))
  end.
Proof. unfold bind_err. rewrite arun_try'. by destruct (arun ex m l w) as [w' [l' [a|e]]]. Qed.

Lemma arun_ret {E A} (a : A) l w : arun ex (ret a : M E A) l w = (w, (l, Ok a)).
Proof. done. Qed.

Lemma arun_throw {E A} (e : E) l w : arun ex (throw e : M E A) l w = (w, (l, Err e)).
Proof. done. Qed.

Lemma arun_get {E} l w : arun ex (get : M E (option memState)) l w = (w, (l, Ok l)).
Proof. done. Qed.

Lemma arun_put {E} l' l w : arun ex (put l' : M E unit) l w = (w, (l', Ok tt)).
Proof. done. Qed.
End alone.

(** A function running alone, one command at a time. *)
Ltac alone_step :=
  rewrite arun_bind || rewrite arun_bind_err ||
  match goal with |- context [arun ?ex (ask ?c) ?l ?w] =>
    change (arun ex (ask c) l w) with ((ex c w).1, (l, (ex c w).2)) end || rewrite arun_ret || rewrite arun_throw ||
  rewrite arun_get || rewrite arun_put || rewrite arun_try'.

(** *** Total correctness *)

Section total.
Context {W : Type} {ex : forall c : cmd, W -> W * result error (reply c)}.
Implicit Types w : W.

(** Total correctness of a process alone, on a network that serves its commands as [ex]
    says: it succeeds, and then [Q]. *)
Definition total_on {E A} (m : M E A) (Q : option memState -> A -> W -> Prop)
    (l : option memState) w : Prop :=
  match arun ex m l w with
  | (w', (l', Ok a)) => Q l' a w'
  | _ => False
  end.

Lemma total_weaken {E A} (m : M E A) (Q Q' : _ -> _ -> _ -> Prop) l w :
  (forall l' a w', Q l' a w' -> Q' l' a w') -> total_on m Q l w -> total_on m Q' l w.
Proof. intros HQ. unfold total_on. destruct (arun ex m l w) as [w' [l' [a|e]]]; auto. Qed.

Lemma total_ret {E A} (a : A) (Q : _ -> _ -> _ -> Prop) l w : Q l a w -> total_on (E := E) (ret a) Q l w.
Proof. done. Qed.

Lemma total_get {E} (Q : _ -> _ -> _ -> Prop) l w : Q l l w -> total_on (E := E) get Q l w.
Proof. done. Qed.

Lemma total_put {E} l' (Q : _ -> _ -> _ -> Prop) l w : Q l' tt w -> total_on (E := E) (put l') Q l w.
Proof. done. Qed.

Lemma total_reply c (Q : _ -> reply c -> _ -> Prop) l w a :
  (ex c w).2 = Ok a -> Q l a (ex c w).1 -> total_on (ask c) Q l w.
Proof. unfold total_on. alone_step. by intros ->. Qed.

Lemma total_bind {E A B} (m : M E A) (f : A -> M E B) Q l w :
  total_on m (fun l' a w' => total_on (f a) Q l' w') l w -> total_on (bind m f) Q l w.
Proof. unfold total_on. alone_step. by destruct (arun ex m l w) as [w' [l' [a|e]]]. Qed.

Lemma total_bind_err {E E' A B} (g : E -> E') (m : M E A) (f : A -> M E' B) Q l w :
  total_on m (fun l' a w' => total_on (f a) Q l' w') l w -> total_on (bind_err g m f) Q l w.
Proof. unfold total_on. alone_step. by destruct (arun ex m l w) as [w' [l' [a|e]]]. Qed.

Lemma total_try {E E' A B} (m : M E A) (k : result E A -> M E' B) Q l w :
  total_on m (fun l' a w' => total_on (k (Ok a)) Q l' w') l w -> total_on (try m k) Q l w.
Proof. unfold total_on. alone_step. by destruct (arun ex m l w) as [w' [l' [a|e]]]. Qed.

Lemma total_try_err {E' B} c (k : result error (reply c) -> M E' B) Q l w e :
  (ex c w).2 = Err e -> total_on (k (Err e)) Q l (ex c w).1 -> total_on (try (ask c) k) Q l w.
Proof. unfold total_on. do 2 alone_step. cbn [fst snd]. by intros ->. Qed.

Lemma total_run {A} (m : M error A) Q w :
  total_on m Q None w -> exists l a, arun ex m None w = ((arun ex m None w).1, (l, Ok a)) /\ Q l a (arun ex m None w).1.
Proof. unfold total_on. destruct (arun ex m None w) as [w' [l' [a|e]]]; [|done]. eauto. Qed.
End total.

(** When every command is served. *)
Abbreviation total := (total_on (ex := exec)).
Abbreviation total_ask := (total_reply (ex := exec)).
