(* ===== verification/QueueSpec.v ===== *)
(** * What the queue guarantees

    Safety of the functions of [Queue] under interference, by the program logic
    of [Proc] with the invariant of [QueueSafe], and the properties of every
    reachable state that follow. *)

From S2P Require Import Prelude GoStd GoTime Json Ledger Policy Runner Redact Seal SealSpec Journal JournalSpec Proc Queue QueueLogic QueueSafe.
Import Proc Queue.

Section safety.
Context `{!StreamIDs, !StreamIDsLaws, !Sources, !SourcesLaws, !Journal.JobIDs, !Seal.UUID}.
Context `{!Seal.AEAD, !Seal.Ed25519} (priv : gostring).
Context {K RS J : Type}.
Context `{!Seal.KeyStore K, !Seal.KeyStoreLaws K, !Seal.ReceiptStore RS, !Seal.ReceiptStoreLaws RS}.
Context `{!Journal.Store J, !StoreLaws J}.
Implicit Types w : world K RS J.

Abbreviation durable := Journal.DurableIDFor.
#[local] Ltac safe_cmd ::= first [by apply quiet_keeps|by apply ensure_keeps].

Abbreviation okp := (okp Inv (given Inv mono)).
Abbreviation safe m l w := (okp m (fun _ _ _ => True) l w).

(** ** The functions *)

Lemma Seal_safe key plain l w : safe (Seal_ key plain) l w.
Proof. unfold Seal_. repeat safe_step. Qed.

Lemma load_safe id l w : safe (load id) l w.
Proof. unfold load, jobKey. cbv zeta. repeat safe_step. Qed.

Lemma sealPartial_safe id m l w : safe (sealPartial id m) l w.
Proof. unfold sealPartial, jobKey. cbv zeta. repeat safe_step. apply Seal_safe. Qed.

Lemma save_safe st l w : safe (save st) l w.
Proof. unfold save. safe_step; [apply sealPartial_safe|]. safe_step. Qed.

Lemma saveStep1_safe st l w : safe (saveStep1 st) l w.
Proof. unfold saveStep1. safe_step; [apply sealPartial_safe|]. safe_step. Qed.

Lemma publish_safe e l w :
  (forall w', mono w w' -> Inv w' -> event_ok w' (Marshal (event_json e))) -> safe (Publish e) l w.
Proof.
  intros He. unfold Publish. destruct (seqb _ _); [safe_step|].
  apply okp_ask; [intros w' Hm Hi; by apply publish_keeps, Hi; apply He|done].
Qed.

(** An event that says nothing of completion. *)
Lemma publish_other e l w : ev_status e <> "COMPLETED"%go -> safe (Publish e) l w.
Proof. intros Hs. apply publish_safe. intros w' _ _. by exists e. Qed.

(** *** Purging *)

Lemma dropCheckpoint_safe id crash l w : safe (dropCheckpoint id crash) l w.
Proof. unfold dropCheckpoint. repeat safe_step. Qed.

Definition receipt_of (d : gostring) (t : time) w : Prop :=
  exists r, receipt_at w d = Some r /\ Seal.PurgedAt r = t.

Lemma receipt_of_mono d t w w' : mono w w' -> receipt_of d t w -> receipt_of d t w'.
Proof. intros Hm (r & Hr & Ht). exists r. split; [by apply Hm|done]. Qed.

Lemma okp_getReceipt d (Q : _ -> option Seal.Receipt -> _ -> Prop) l w :
  (forall w2 o, mono w w2 -> (forall r, o = Some r -> receipt_of d (Seal.PurgedAt r) w2) -> Q l o w2) ->
  okp (ask (CGetReceipt d)) Q l w.
Proof.
  intros HQ. apply okp_reply; [intros; safe_cmd|]. intros w' w2 o Hm Hi [= <-] Hm2 Hi2.
  apply HQ; [by trans w'|]. intros r Hr. eapply receipt_of_mono; [exact Hm2|]. by exists r.
Qed.

Lemma destroy_safe d t l w : receipt_of d t w -> safe (ask (CDestroy d t)) l w.
Proof.
  intros Hr. apply okp_ask; [|done]. intros w' Hm Hi. apply destroy_keeps; [done|].
  by eapply receipt_of_mono.
Qed.

Lemma destroy_drop_safe id t crash l w :
  receipt_of (durable id) t w -> safe (ask (CDestroy (durable id) t) ;;; dropCheckpoint id crash) l w.
Proof. intros Hr. safe_step; [by apply destroy_safe|apply dropCheckpoint_safe]. Qed.

Lemma okp_insert r (Q : _ -> bool -> _ -> Prop) l w :
  has_row (Seal.JobID r) w -> Ledger.normalizeAt (Seal.PurgedAt r) = Seal.PurgedAt r ->
  (forall w2 b, mono w w2 -> (b = true -> receipt_of (Seal.JobID r) (Seal.PurgedAt r) w2) -> Q l b w2) ->
  okp (ask (CInsert r)) Q l w.
Proof.
  intros Hrow Hn HQ. apply okp_ask.
  - intros w' Hm Hi. apply insert_keeps; [done|by eapply has_row_mono|done].
  - intros w' w2 b Hm Hi [_ Hk] E Hm2 Hi2. apply HQ; [trans w'; [done|by etrans]|]. intros ->.
    destruct (insert_keeps r w' Hi) as [_ Hr]; [by eapply has_row_mono|done|].
    rewrite E in Hr. destruct Hr as (r' & Hr & Ht). eapply receipt_of_mono; [exact Hm2|]. by exists r'.
Qed.

Lemma purge_run_safe id crash tenant l w :
  has_row (durable id) w -> safe (purge_run priv id crash tenant) l w.
Proof.
  intros Hrow. unfold purge_run. cbv zeta. apply okp_bind, okp_getReceipt.
  intros w1 [r|] Hm1 Hr; [by apply destroy_drop_safe, Hr|].
  apply okp_bind, okp_reply; [intros; safe_cmd|]. intros w' w2 t Hm' _ _ Hm2 _. clear Hr.
  assert (Hrow2 : has_row (durable id) w2) by (eapply has_row_mono; [|exact Hrow]; trans w1; [done|by trans w']).
  apply okp_bind, okp_insert; [done|apply Truncate_normal|].
  intros w3 b Hm3 Hb. apply okp_bind.
  apply (okp_weaken _ _ _ (fun _ t w' => receipt_of (durable id) t w')).
  { intros. by apply destroy_drop_safe. }
  destruct b.
  - apply okp_ret. intros w4 Hm4 _. eapply receipt_of_mono; [exact Hm4|]. by apply Hb.
  - apply okp_bind, okp_getReceipt. intros w4 [r|] Hm4 Hr; [|done].
    apply okp_ret. intros w5 Hm5 _. eapply receipt_of_mono; [exact Hm5|]. by apply Hr.
Qed.

(** *** Claims *)

(** What a worker knows of the entry it holds: nobody reuses its identifier. *)
Definition owned (i : StreamID) (f : gmap gostring gostring) w : Prop :=
  id_ok i /\ id_lt (last_id (redis w)) i = false /\
  forall f', (i, f') ∈ stream (redis w) -> f' = f.

Lemma owned_mono i f w w' : mono w w' -> owned i f w -> owned i f w'.
Proof.
  intros Hm (Hok & Hl & Hf). split; [done|]. split; [by apply Hm|].
  intros f' Hf'. apply Hm in Hf' as [Hf'|Hf']; [by apply Hf|congruence].
Qed.

Definition claim_ok (c : claimed) w : Prop :=
  owned (entry c) (c_fields c) w /\
  (entry_ok (c_fields c) -> field "id" (c_fields c) = ID (job c)).

Lemma claim_ok_mono c w w' : mono w w' -> claim_ok c w -> claim_ok c w'.
Proof. intros Hm [Ho Hj]. split; [by eapply owned_mono|done]. Qed.

Lemma claim_settled c w f :
  claim_ok c w -> has_row (durable (ID (job c))) w -> (entry c, f) ∈ stream (redis w) -> settled f w.
Proof.
  intros [(_ & _ & Hf) Hj] Hr Hin Hok. apply Hf in Hin as ->. unfold job_of. by rewrite Hj.
Qed.

Lemma finish_safe c l w :
  claim_ok c w -> has_row (durable (ID (job c))) w -> safe (finish (entry c)) l w.
Proof.
  intros Hc Hr. apply okp_ask; [|done]. intros w' Hm Hi.
  apply ack_del_keeps; [apply Hc| |done]. intros f Hf.
  eapply claim_settled; [by eapply claim_ok_mono|by eapply has_row_mono|exact Hf].
Qed.

Lemma settle_safe c l w :
  claim_ok c w -> has_row (durable (ID (job c))) w -> safe (settle c true) l w.
Proof.
  intros Hc Hr. unfold settle. apply okp_seq; [|intros; safe_step].
  apply okp_ask; [|done]. intros w' Hm Hi.
  apply bury_keeps; [apply Hc| |done]. intros f Hf.
  eapply claim_settled; [by eapply claim_ok_mono|by eapply has_row_mono|exact Hf].
Qed.

(** *** Commits *)

(** The row of a job, in the given state. *)
Definition row_in (s : Journal.JobState) (d : gostring) w : Prop :=
  exists row, row_at w d = Some row /\ Journal.FinalState row = s.

Lemma row_in_mono s d w w' : mono w w' -> row_in s d w -> row_in s d w'.
Proof. intros Hm (row & Hr & Hs). exists row. split; [by apply Hm|done]. Qed.

Lemma row_in_has s d w : row_in s d w -> has_row d w.
Proof. intros (row & Hr & _). by exists row. Qed.

(** A result whose history ends in [s]. *)
Definition ends_in (s : Journal.JobState) (r : Journal.JobResult) : Prop :=
  forall row, Journal.parseTerminal r = Ok row -> Journal.FinalState row = s.

Lemma okp_record s r (Q : _ -> unit -> _ -> Prop) l w :
  ends_in s r ->
  (forall w2, mono w w2 -> row_in s (durable (Journal.ID r)) w2 -> Q l tt w2) ->
  okp (ask (CRecord r)) Q l w.
Proof.
  intros Hs HQ. apply okp_ask; [intros; by apply record_keeps|].
  intros w' w2 [] Hm Hi [_ Hk] E Hm2 _. apply HQ; [trans w'; [done|by etrans]|].
  destruct (record_Ok r w' Hi E) as (row & stored & Hp & Hst & Ha).
  apply acceptExisting_Ok in Ha as [_ Ha]. exists stored. split; [by apply Hm2|].
  rewrite Ha. by apply Hs.
Qed.

Lemma okp_commitJob s c r (Q : _ -> unit -> _ -> Prop) l w :
  ends_in s r -> Journal.ID r = ID (job c) ->
  (forall l' w2, mono w w2 -> row_in s (durable (ID (job c))) w2 -> Q l' tt w2) ->
  okp (commitJob priv c r) Q l w.
Proof.
  intros Hs Hid HQ. unfold commitJob. apply okp_bind. apply (okp_record s); [done|].
  intros w2 Hm2 Hrow. rewrite Hid in Hrow. destruct (bool_decide _); [done|].
  eapply okp_weaken; [|by apply purge_run_safe, (row_in_has s)].
  intros l' [] w3 Hm3 _. apply HQ; [by trans w2|by eapply row_in_mono].
Qed.

Lemma ends_in_terminal s id m now tenant ty sig kid :
  s = Journal.COMPLETED \/ s = Journal.FAILED ->
  ends_in s (with_signature (with_tenant_type (Journal.terminal id m s now) tenant ty) sig kid).
Proof. intros [-> | ->] row; intros [= <-]; done. Qed.

Lemma bury_safe c ty reason l w : claim_ok c w -> safe (bury priv c ty reason) l w.
Proof.
  intros Hc. unfold bury. cbv zeta. apply okp_bind, okp_reply; [intros; safe_cmd|].
  intros w0 w1 now Hm0 _ _ Hm1 _. assert (Hm : mono w w1) by (by trans w0).
  eapply claim_ok_mono in Hc; [|exact Hm].
  apply okp_bind. apply (okp_commitJob Journal.FAILED); [apply ends_in_terminal; auto|done|].
  intros l2 w2 Hm2 Hrow%row_in_has. apply okp_seq; [by apply publish_other|].
  intros _ l3 w3 Hm3. apply okp_seq; [|intros; safe_step].
  apply settle_safe; [|by eapply has_row_mono].
  eapply claim_ok_mono; [|exact Hc]. by trans w2.
Qed.

Lemma complete_safe c ty out l w : claim_ok c w -> safe (complete priv c ty out) l w.
Proof.
  intros Hc. unfold complete. cbv zeta. apply okp_bind, okp_reply; [intros; safe_cmd|].
  intros w0 w1 now Hm0 _ _ Hm1 _. assert (Hm : mono w w1) by (by trans w0).
  eapply claim_ok_mono in Hc; [|exact Hm].
  apply okp_bind. apply (okp_commitJob Journal.COMPLETED); [apply ends_in_terminal; auto|done|].
  intros l2 w2 Hm2 Hrow. apply okp_seq.
  - apply publish_safe. intros w3 Hm3 _. eexists. split; [done|]. intros _. by eapply row_in_mono.
  - intros _ l3 w3 Hm3. apply okp_seq; [safe_step|]. intros _ l4 w4 Hm4.
    assert (Hm24 : mono w2 w4) by (by trans w3).
    apply finish_safe; [eapply claim_ok_mono; [|exact Hc]; by trans w2|].
    eapply has_row_mono; [exact Hm24|]. by eapply row_in_has.
Qed.

(** *** Runners *)

Abbreviation recorder_safe := (recorder_safe Inv (given Inv mono)).
Abbreviation runner_safe := (runner_safe Inv (given Inv mono)).

Definition registry_safe (reg : option (gmap gostring (Runner.JobRunner M error))) : Prop :=
  forall ty jr, Runner.Get reg ty = Some jr -> runner_safe jr.

Lemma worker_registry_safe : registry_safe worker_registry.
Proof.
  intros ty jr. unfold worker_registry. rewrite Runner.Get_NewRegistry. intros Hl.
  apply last_Some_elem_of, list_elem_of_filter in Hl as [_ Hl].
  apply elem_of_cons in Hl as [->|[->|[]%elem_of_nil]%elem_of_cons]; [|apply mask_safe].
  apply redact_safe. intros f tenant l w [= <-]. safe_step.
Qed.

(** *** Handling *)

Lemma recorder_of_claim_safe c : recorder_safe (recorder c).
Proof.
  split; [intros l w|intros stp m l w]; cbn [Runner.Saved Runner.Save recorder Runner.NewCheckpointRecorder].
  - unfold saved_checkpoint. apply okp_seq; [by apply okp_get|]. intros. safe_step.
  - unfold save_checkpoint. cbv zeta. apply okp_bind_err.
    eapply okp_weaken; [|destruct (stp =? 1)%Z; [apply saveStep1_safe|apply save_safe]].
    intros l' [] w' _ _. apply okp_seq; [by apply okp_put|]. intros _ l2 w2 _.
    destruct (stp =? 1)%Z; [|safe_step]. apply okp_bind_err.
    eapply okp_weaken; [|by apply publish_other]. intros l3 [] w3 _ _. repeat safe_step.
Qed.

Lemma ran_safe {A} (m : M (Runner.run_error error) A) l w : safe m l w -> safe (ran m) l w.
Proof.
  intros Hm. apply okp_try.
  - eapply okp_weaken; [|exact Hm]. intros. safe_step.
  - intros [t|e|] l' w' _; repeat safe_step.
Qed.

Lemma finishJournaled_safe c l w : claim_ok c w -> safe (finishJournaled priv c) l w.
Proof.
  intros Hc. unfold finishJournaled. apply okp_try.
  - apply okp_reply; [intros; safe_cmd|]. intros w1 w2 row Hm1 Hi E Hm2 _.
    assert (Hr : has_row (durable (ID (job c))) w2).
    { cbn [exec snd] in E. unfold Journal.Load in E. apply (has_row_mono _ w1); [done|].
      unfold has_row, row_at. destruct (Journal.row_of _ _); [by eexists|done]. }
    apply okp_seq; [by apply purge_run_safe|]. intros _ l3 w3 Hm3.
    apply okp_seq; [|intros; safe_step]. apply finish_safe; [|by eapply has_row_mono].
    eapply claim_ok_mono; [|exact Hc]. trans w1; [done|by trans w2].
  - intros e l' w' _. destruct e; try apply okp_throw. destruct err; try apply okp_throw. safe_step.
Qed.

Lemma openJobInput_safe id raw l w : safe (openJobInput id raw) l w.
Proof. unfold openJobInput. repeat safe_step. Qed.

Lemma handle_safe reg c hooks l w :
  registry_safe reg -> FailHook hooks = None -> fail_ c = false -> claim_ok c w ->
  safe (handle priv reg c hooks) l w.
Proof.
  intros Hreg Hh Hf Hc. unfold handle. cbv zeta. set (c1 := applyHooks c hooks).
  assert (Hf1 : fail_ c1 = false).
  { unfold c1, applyHooks. cbn [fail_]. by rewrite Hf, Hh. }
  change (claim_ok c w) with (claim_ok c1 w) in Hc. clearbody c1.
  assert (Hc' : forall w', mono w w' -> claim_ok c1 w') by (intros w' Hm; by eapply claim_ok_mono).
  apply okp_seq; [by apply finishJournaled_safe|]. intros [] l1 w1 Hm1; [safe_step|].
  apply okp_seq; [apply load_safe|]. intros st l2 w2 Hm2.
  apply okp_seq; [by apply okp_put|]. intros _ l3 w3 Hm3.
  assert (Hm : mono w w3) by (trans w1; [done|by trans w2]).
  destruct (Runner.Get reg _) as [jr|] eqn:Hjr; [|by apply bury_safe, Hc'].
  apply okp_try.
  - eapply okp_weaken; [|apply openJobInput_safe]. intros l4 plain w4 Hm4 _.
    assert (Hc4 : claim_ok c1 w4) by (apply Hc'; by trans w3).
    change (claim_ok c1 w4) with (claim_ok (with_input c1 plain) w4) in Hc4.
    change (fail_ c1) with (fail_ (with_input c1 plain)) in *.
    change (ID (job c1)) with (ID (job (with_input c1 plain))).
    set (c2 := with_input c1 plain) in *.
    apply okp_seq; [apply ran_safe, (Hreg _ _ Hjr), recorder_of_claim_safe|].
    intros [out|] l5 w5 Hm5; [|by eapply bury_safe, claim_ok_mono].
    rewrite Hf1. by eapply complete_safe, claim_ok_mono.
  - intros e l4 w4 Hm4. assert (Hc4 : claim_ok c1 w4) by (apply Hc'; by trans w3).
    destruct e; try apply okp_throw; [by apply bury_safe|].
    destruct err; try apply okp_throw. by apply bury_safe.
Qed.

(** *** Delivery *)

(** A message of the stream: its fields are those of its entry, and carry a
    tenant if there is an input. *)
Definition msg_ok (msg : gostring * gmap gostring value) w : Prop :=
  exists i f, msg = message (i, f) /\ owned i f w /\
    (field "input" f <> [] -> field "tenant_id" f <> []).

Lemma msg_ok_mono msg w w' : mono w w' -> msg_ok msg w -> msg_ok msg w'.
Proof.
  intros Hm (i & f & Hmsg & Ho & Ht). exists i, f. split; [done|]. split; [by eapply owned_mono|done].
Qed.

Lemma stream_msg_ok w i f : Inv w -> (i, f) ∈ stream (redis w) -> msg_ok (message (i, f)) w.
Proof.
  intros Hi Hin. exists i, f. split; [done|]. split; [|by eapply inv_tenant].
  split; [by eapply inv_ids|]. split; [by eapply inv_last|]. intros f' Hf'. by eapply inv_functional.
Qed.

Lemma valuesToFields_message i f : valuesToFields (message (i, f)).2 = f.
Proof. unfold valuesToFields, message. cbn [snd]. rewrite <- map_fmap_compose. apply map_fmap_id. Qed.

Lemma okp_messages c (Q : _ -> reply c -> _ -> Prop) (msgs : reply c -> list (gostring * gmap gostring value)) l w :
  quiet c = true ->
  (forall w' a, (exec c w').2 = Ok a -> forall msg, msg ∈ msgs a ->
     exists i f, (i, f) ∈ stream (redis w') /\ msg = message (i, f)) ->
  (forall w2 a, mono w w2 -> Forall (fun msg => msg_ok msg w2) (msgs a) -> Q l a w2) ->
  okp (ask c) Q l w.
Proof.
  intros Hc Hin HQ. apply okp_reply; [intros; safe_cmd|]. intros w' w2 a Hm Hi E Hm2 _.
  apply HQ; [by trans w'|]. apply Forall_forall. intros msg Hmsg.
  destruct (Hin w' a E msg Hmsg) as (i & f & Hf & ->).
  eapply msg_ok_mono; [exact Hm2|]. by apply stream_msg_ok.
Qed.

Lemma autoclaim_messages consumer idle w msgs :
  (exec (CXAutoClaim consumer idle) w).2 = Ok msgs ->
  forall msg, msg ∈ msgs -> exists i f, (i, f) ∈ stream (redis w) /\ msg = message (i, f).
Proof.
  cbn [exec]. unfold on_redis, xautoclaim. destruct (group (redis w)); cbn [fst snd or_error]; [|done].
  intros [= <-] msg Hm. apply list_elem_of_fmap in Hm as ([i f] & -> & Hm).
  apply list_elem_of_filter in Hm as [_ Hm]. by exists i, f.
Qed.

Lemma readgroup_messages consumer w msgs :
  (exec (CXReadGroup consumer) w).2 = Ok msgs ->
  forall msg, msg ∈ msgs -> exists i f, (i, f) ∈ stream (redis w) /\ msg = message (i, f).
Proof.
  cbn [exec]. unfold on_redis, xreadgroup. destruct (group (redis w)); cbn [fst snd or_error]; [|done].
  intros [= <-] msg Hm. apply list_elem_of_fmap in Hm as ([i f] & -> & Hm).
  apply list_elem_of_filter in Hm as [_ Hm]. by exists i, f.
Qed.

Lemma dispatch_safe reg hooks msg l w :
  registry_safe reg -> FailHook hooks = None -> msg_ok msg w -> safe (dispatch priv reg hooks msg) l w.
Proof.
  intros Hreg Hh (i & f & -> & Ho & Ht). unfold dispatch. cbv zeta.
  rewrite valuesToFields_message. cbn [fst message]. rewrite Parse_String by apply Ho.
  cbn [of_result]. apply okp_bind, okp_ret. intros w' Hm Hi. eapply owned_mono in Ho; [|exact Hm].
  unfold parseClaim, parseJob. destruct (seqb (field "input" f) []) eqn:Ein.
  - apply seqb_eq in Ein. cbn [mbind result_bind]. apply okp_ask; [|done]. intros w2 Hm2 Hi2.
    apply ack_del_keeps; [apply Ho| |done]. intros g Hg Hok.
    apply (owned_mono _ _ _ w2) in Ho; [|done]. apply Ho in Hg as ->. by destruct Hok.
  - apply seqb_neq, Ht in Ein. apply seqb_neq in Ein. rewrite Ein. cbn [mbind result_bind].
    apply handle_safe; [done..|]. split; [done|]. cbn [c_fields job ID]. intros (_ & Hid & _).
    apply seqb_neq in Hid. by rewrite Hid.
Qed.

Lemma dispatch_all_safe reg hooks msgs l w :
  registry_safe reg -> FailHook hooks = None -> Forall (fun msg => msg_ok msg w) msgs ->
  safe (dispatch_all priv reg hooks msgs) l w.
Proof.
  intros Hreg Hh. revert l w. induction msgs as [|msg msgs IH]; intros l w Hall; cbn [dispatch_all].
  { by apply okp_ret. }
  apply Forall_cons in Hall as [Hmsg Hall]. apply okp_seq; [by apply dispatch_safe|].
  intros _ l' w' Hm. apply IH. eapply Forall_impl; [exact Hall|]. intros m. by apply msg_ok_mono.
Qed.

Lemma turn_safe cfg d l w :
  registry_safe (Registry d) -> FailHook (DepsHooks d) = None -> safe (turn priv cfg d) l w.
Proof.
  intros Hreg Hh. unfold turn. apply okp_bind.
  apply (okp_messages (CXAutoClaim (Consumer cfg) (Idle cfg)) _ (fun msgs => msgs));
    [done|intros; by eapply autoclaim_messages|].
  intros w2 msgs _ Hall. apply okp_seq; [by apply dispatch_all_safe|]. intros _ l3 w3 _.
  apply okp_try.
  - apply (okp_messages (CXReadGroup (Consumer cfg)) _ (fun msgs => msgs));
      [done|intros; by eapply readgroup_messages|].
    intros w4 msgs' _ Hall'. by apply dispatch_all_safe.
  - intros e l4 w4 _. destruct e; try apply okp_throw. safe_step.
Qed.

Lemma RunGroup_safe cfg d n l w :
  registry_safe (Registry d) -> FailHook (DepsHooks d) = None -> safe (RunGroup priv cfg d n) l w.
Proof.
  intros Hreg Hh. unfold RunGroup. destruct (ready priv d); [apply okp_throw|].
  destruct (valid cfg) as [|[]]; try apply okp_throw. revert l w.
  induction n as [|n IH]; intros l w; cbn [loop]; [apply okp_throw|].
  apply okp_seq; [by apply turn_safe|]. intros. apply IH.
Qed.

Lemma optional_tenant (k v : gostring) f : k <> "tenant_id"%go ->
  field "tenant_id" (optional k v f) = field "tenant_id" f.
Proof. intros Hk. unfold optional. destruct (seqb v []); [done|]. unfold field. by rewrite lookup_insert_ne. Qed.

Lemma Add_safe has_keys job_ l w : TenantID job_ <> [] -> safe (Add has_keys job_) l w.
Proof.
  intros Ht. unfold Add. destruct has_keys; [|apply okp_throw]. cbn [negb].
  destruct (seqb _ _); [apply okp_throw|]. apply okp_seq; [safe_step|].
  intros key l1 w1 _. apply okp_seq; [apply Seal_safe|]. intros sealed l2 w2 _.
  apply okp_ask; [|done]. intros w3 _ Hi. apply xadd_keeps; [|done]. intros _. cbn [ID Input TenantID JobType].
  rewrite optional_tenant by done. unfold optional at 1.
  rewrite (proj2 (seqb_neq _ _) Ht). unfold field. by rewrite lookup_insert_eq.
Qed.

(** ** Every interleaving *)

Definition discard {E A} (m : M E A) : proc reply error unit := andThen (m None) (fun _ => Done tt).

(** The processes of the system: workers of any configuration, for any number
    of turns, without the hook that makes jobs fail; producers of jobs that
    belong to a tenant; and readers. *)
Inductive program : proc reply error unit -> Prop :=
| worker cfg d n :
    registry_safe (Registry d) -> FailHook (DepsHooks d) = None -> program (discard (RunGroup priv cfg d n))
| producer has_keys job_ : TenantID job_ <> [] -> program (discard (Add has_keys job_))
| reader jobID : program (discard (JobRunning jobID))
| preparer : program (discard PrepareGroup)
| server cfg d n :
    registry_safe (Registry d) -> FailHook (DepsHooks d) = None -> program (discard (serve priv cfg d n)).

Lemma PrepareGroup_safe l w : safe PrepareGroup l w.
Proof.
  unfold PrepareGroup, ensureGroup. apply okp_try.
  - eapply okp_weaken; [|by apply safe_ask; intros; safe_cmd]. intros. safe_step.
  - intros e l' w' _. destruct e; repeat safe_step.
Qed.

Lemma program_safe p w : program p -> wp exec fallible lost Inv mono (given Inv mono) p (fun _ _ => True) w.
Proof.
  assert (Hd : forall E A (m : M E A), safe m None w ->
    wp exec fallible lost Inv mono (given Inv mono) (discard m) (fun _ _ => True) w).
  { intros E A m Hm. apply wp_andThen; [exact _|]. eapply wp_weaken; [exact _| |exact Hm]. done. }
  intros [cfg d n Hreg Hh|has_keys job_ Ht|jobID| |cfg d n Hreg Hh]; apply Hd.
  - by apply RunGroup_safe.
  - by apply Add_safe.
  - unfold JobRunning. repeat safe_step.
  - apply PrepareGroup_safe.
  - apply okp_seq; [apply PrepareGroup_safe|]. intros. by apply RunGroup_safe.
Qed.

Abbreviation steps := (rtc (step exec fallible lost program)).

Lemma reach_safe w w' ps :
  Inv w -> steps (w, []) (w', ps) -> Inv w' /\ mono w w' /\
  forall w'' ps', steps (w', ps) (w'', ps') -> Inv w'' /\ mono w' w''.
Proof.
  intros Hi Hs. destruct (steps_safe exec fallible lost program Inv mono (w, []) (w', ps))
    as (Hi' & Hm & Hall); [intros; by apply program_safe|exact Hs| |].
  { split; [done|]. intros p Hp. by apply elem_of_nil in Hp. }
  split; [done|]. split; [done|]. intros w'' ps'' Hs'.
  destruct (steps_safe exec fallible lost program Inv mono (w', ps) (w'', ps''))
    as (Hi'' & Hm' & _); [intros; by apply program_safe|exact Hs'|done|done].
Qed.

(** A system in which nothing has happened yet. *)
Record fresh w : Prop := {
  fresh_keys : Seal.keys_ok (keys w);
  fresh_journal : consistent (journal w);
  fresh_destroyed d t : key_at w d <> Seal.Destroyed t;
  fresh_receipts d : receipt_at w d = None;
  fresh_published : published (redis w) = [];
  fresh_stream : stream (redis w) = [];
}.

Lemma fresh_Inv w : fresh w -> Inv w.
Proof.
  intros [Hk Hj Hd Hr Hp Hs]. split; rewrite ?Hp, ?Hs; try done.
  - intros d t E. by destruct (Hd d t).
  - intros d r E. congruence.
  - intros p E. by apply elem_of_nil in E.
  - intros i f E. by apply elem_of_nil in E.
  - intros i f E. by apply elem_of_nil in E.
  - intros i f f' E. by apply elem_of_nil in E.
  - intros i f E. by apply elem_of_nil in E.
Qed.

(** ** The claims *)

(** C3 [shred_after_record]: workers without the hook that makes jobs fail, producers
    that name a tenant for their jobs, and readers interleave in any way from a fresh
    system, commands are refused, replies are lost and processes are killed.  In
    every state they reach, a job key that has been destroyed has a purge receipt
    for exactly that moment, and the job it belonged to has its result in the
    journal: no key is shredded before the outcome is durable and the shredding is
    on record.  (For an entry without a tenant, which no producer of the program
    writes, the key is destroyed with neither: [tenantless_shredded].) *)
Theorem shred_after_record w0 w ps :
  fresh w0 -> steps (w0, []) (w, ps) ->
  forall d t, key_at w d = Seal.Destroyed t ->
  exists r row, receipt_at w d = Some r /\ Seal.PurgedAt r = t /\ row_at w d = Some row.
Proof.
  intros Hf Hs d t Hd. destruct (reach_safe w0 w ps (fresh_Inv _ Hf) Hs) as (Hi & _).
  destruct (inv_destroyed _ Hi d t Hd) as (r & Hr & Ht). destruct (inv_receipt _ Hi d r Hr) as [row Hrow].
  by exists r, row.
Qed.

(** C4 [no_job_lost]: with the processes of [shred_after_record], an entry that [Add]
    wrote for a job of a tenant, once in the stream, is at every later moment still
    there (under the same or, copied, another identifier) or its job is in the
    journal. *)
Theorem no_job_lost w0 w w' ps ps' i f :
  fresh w0 -> steps (w0, []) (w, ps) -> steps (w, ps) (w', ps') ->
  (i, f) ∈ stream (redis w) -> entry_ok f ->
  (exists i', (i', f) ∈ stream (redis w')) \/ exists row, row_at w' (job_of f) = Some row.
Proof.
  intros Hf Hs Hs' Hin Hok. destruct (reach_safe w0 w ps (fresh_Inv _ Hf) Hs) as (_ & _ & Hn).
  destruct (Hn _ _ Hs') as [_ Hm]. exact (mono_entry _ _ Hm i f Hin Hok).
Qed.

(** whoever receives an event that says COMPLETED
    finds a row of that job, in that state, in the journal. *)
Lemma completed_event_true w0 w ps p :
  fresh w0 -> steps (w0, []) (w, ps) -> p ∈ published (redis w) ->
  exists e, p = Marshal (event_json e) /\
    (ev_status e = "COMPLETED"%go -> exists row, row_at w (durable (ev_job e)) = Some row /\
       Journal.FinalState row = Journal.COMPLETED).
Proof.
  intros Hf Hs Hp. destruct (reach_safe w0 w ps (fresh_Inv _ Hf) Hs) as (Hi & _).
  by apply (inv_events _ Hi).
Qed.

(** C5 [durable_facts_stay]: a row, an output and a receipt, once written, never
    change or go away; a destroyed key stays destroyed, at the same moment, and
    a live one is never replaced; a published event stays published. *)
Theorem durable_facts_stay w0 w w' ps ps' :
  fresh w0 -> steps (w0, []) (w, ps) -> steps (w, ps) (w', ps') ->
  (forall d row, row_at w d = Some row -> row_at w' d = Some row) /\
  (forall j o, Journal.output_of (journal w) j = Some o -> Journal.output_of (journal w') j = Some o) /\
  (forall d r, receipt_at w d = Some r -> receipt_at w' d = Some r) /\
  (forall d t, key_at w d = Seal.Destroyed t -> key_at w' d = Seal.Destroyed t) /\
  (forall d k, key_at w d = Seal.Live k ->
     key_at w' d = Seal.Live k \/ exists t, key_at w' d = Seal.Destroyed t) /\
  published (redis w) ⊆ published (redis w').
Proof.
  intros Hf Hs Hs'. destruct (reach_safe w0 w ps (fresh_Inv _ Hf) Hs) as (_ & _ & Hn).
  destruct (Hn _ _ Hs') as [_ Hm]. split; [apply Hm|]. split; [apply Hm|]. split; [apply Hm|].
  split; [|split; [|apply Hm]].
  - intros d t E. pose proof (mono_key _ _ Hm d) as Hk. by rewrite E in Hk.
  - intros d k E. pose proof (mono_key _ _ Hm d) as Hk. by rewrite E in Hk.
Qed.
End safety.

(** ** A concrete system *)

#[export] Instance toy_streams : StreamIDs := {|
  auto_id l _ := if (seq l + 1 <? 2 ^ 64)%N && (millis l <? 2 ^ 64)%N
                 then Some (MkStreamID (millis l) (seq l + 1)) else None;
|}.
#[export] Instance toy_streams_laws : StreamIDsLaws.
Proof.
  split. intros l t i. cbn. destruct (_ && _) eqn:E; [|done]. intros [= <-].
  apply andb_true_iff in E as [E1%N.ltb_lt E2%N.ltb_lt].
  split; [apply id_lt_spec; cbn; lia|]. split; cbn [millis seq]; lia.
Qed.
#[export] Instance toy_sources : Sources := {|
  clock n := (Z.of_nat n * 1000000)%Z;
  rand _ n := replicate n Byte.x00;
|}.
#[export] Instance toy_sources_laws : SourcesLaws.
Proof. split. intros i n. apply length_replicate. Qed.

#[local] Existing Instance toy_ids.
#[local] Existing Instance toy_uuid.
#[local] Existing Instance toy_aead.
#[local] Existing Instance toy_ed25519.
#[local] Existing Instance Seal.memory_keys.
#[local] Existing Instance Seal.memory_receipts.
#[local] Existing Instance Journal.memory_journal.

Definition toy_world : Type := world Seal.MemoryKeyStore Seal.MemoryReceiptStore Journal.MemoryJournal.

Definition toy_key : gostring := replicate 64 Byte.x01.

Definition toy_start : toy_world :=
  World (MkRedis [] StreamIDZero (Some StreamIDZero) [] [] ∅ ∅ []) ∅ ∅ empty_memory
    (Policy.Store ∅ (Ledger.Db [] [] ∅)) [] 0 0.

Definition toy_deps : Deps := MkDeps true true true worker_registry no_hooks.
Definition toy_job : Job := MkJob "j1" "a@b.co" "t1" "redact".

(** A producer adds a job, a worker takes one turn. *)
Definition toy_added : toy_world := (run exec (discard (Add true toy_job)) toy_start).1.
Definition toy_done : toy_world :=
  (run exec (discard (RunGroup toy_key (MkConfig "w1" 3 1) toy_deps 1)) toy_added).1.

Abbreviation toy_steps := (rtc (step exec fallible lost (program toy_key))).

Lemma toy_fresh : fresh toy_start.
Proof. split; try done; apply empty_consistent. Qed.

Lemma toy_added_steps : exists ps, toy_steps (toy_start, []) (toy_added, ps).
Proof. apply reachable_run; [by exists []|]. by apply producer. Qed.

Lemma toy_done_steps : exists ps, toy_steps (toy_start, []) (toy_done, ps).
Proof. apply reachable_run; [apply toy_added_steps|]. apply worker; [apply worker_registry_safe|done]. Qed.

Lemma toy_done_key : key_at toy_done "id:j1" = Seal.Destroyed 4000000.
Proof. vm_compute. reflexivity. Qed.

(** The fields of the entry that was added. *)
Definition toy_fields : gmap gostring gostring := default ∅ (snd <$> head (stream (redis toy_added))).

Lemma toy_added_stream : (MkStreamID 0 1, toy_fields) ∈ stream (redis toy_added) /\ entry_ok toy_fields.
Proof.
  split; [apply (bool_decide_unpack _); vm_compute; exact I|].
  assert (H : forallb (fun k => negb (seqb (field k toy_fields) [])) ["input"; "id"; "tenant_id"]%go = true)
    by (vm_compute; reflexivity).
  cbn [forallb] in H. rewrite !andb_true_iff, !negb_true_iff, !seqb_neq in H. split; tauto.
Qed.

Lemma shred_after_record_witness :
  exists r row, receipt_at toy_done "id:j1" = Some r /\ Seal.PurgedAt r = 4000000%Z /\
    row_at toy_done "id:j1" = Some row.
Proof.
  destruct toy_done_steps as [ps Hs].
  exact (shred_after_record toy_key toy_start toy_done ps toy_fresh Hs "id:j1"%go 4000000%Z toy_done_key).
Defined.

Lemma no_job_lost_witness :
  (exists i', (i', toy_fields) ∈ stream (redis toy_added)) \/
  exists row, row_at toy_added (job_of toy_fields) = Some row.
Proof.
  destruct toy_added_steps as [ps Hs], toy_added_stream as [Hin Hok].
  exact (no_job_lost toy_key toy_start toy_added toy_added ps ps (MkStreamID 0 1) toy_fields toy_fresh Hs
           (rtc_refl _ _) Hin Hok).
Defined.

Lemma toy_done_event :
  Marshal (event_json (MkEvent "t1" "j1" "COMPLETED")) ∈ published (redis toy_done).
Proof. apply (bool_decide_unpack _). vm_compute. exact I. Qed.

Lemma durable_facts_stay_witness : published (redis toy_done) ⊆ published (redis toy_done).
Proof.
  destruct toy_done_steps as [ps Hs].
  destruct (durable_facts_stay toy_key toy_start toy_done toy_done ps ps toy_fresh Hs (rtc_refl _ _))
    as (_ & _ & _ & _ & _ & Hp).
  exact Hp.
Defined.
