(* ===== verification/QueueSigned.v ===== *)
(** * What the queue signs

    Every receipt and every result that a worker stores carries its signature, of the
    message that the offline verifier rebuilds.  What a process says is looked at
    without the world: [issues] ranges over the commands it can ever come to, and an
    invariant that those commands keep holds in every interleaving. *)

From S2P Require Import Prelude GoStd GoTime Json Ledger Policy Runner Redact Seal SealSpec Journal JournalSpec Proc Queue QueueSafe QueueSpec.
Import Proc Queue.

(** ** The commands of a process *)

Create HintDb issued.

Section issues.
Context {C : Type} {R : C -> Type} {X : Type}.
Context (answers : forall c, result X (R c) -> Prop) (P : C -> Prop).

(** Every command satisfies [P], as long as the replies are [answers]. *)
Fixpoint issues {A} (p : proc R X A) : Prop :=
  match p with
  | Done _ => True
  | Call c k => P c /\ forall r, answers c r -> issues (k r)
  end.

Lemma issues_andThen {A B} (p : proc R X A) (f : A -> proc R X B) :
  issues p -> (forall a, issues (f a)) -> issues (andThen p f).
Proof.
  intros Hp Hf. induction p as [a|c k IH]; cbn [andThen issues] in *; [done|].
  destruct Hp as [Hc Hk]. split; [done|]. intros r Hr. by apply IH, Hk.
Qed.

Definition issued {L E A} (m : act R X L E A) : Prop := forall l, issues (m l).

Lemma issued_try {L E E' A B} (m : act R X L E A) (k : result E A -> act R X L E' B) :
  issued m -> (forall r, issued (k r)) -> issued (try m k).
Proof. intros Hm Hk l. apply issues_andThen; [apply Hm|]. intros [l' r]. apply Hk. Qed.

Lemma issued_try_ask {L E' B} c (k : result X (R c) -> act R X L E' B) :
  P c -> (forall r, answers c r -> issued (k r)) -> issued (try (ask c) k).
Proof. intros Hc Hk l. split; [done|]. intros r Hr. by apply Hk. Qed.

Lemma issued_res {L E A} (r : result E A) : issued (L := L) (res r).
Proof. by intros l. Qed.

Lemma issued_bind {L E A B} (m : act R X L E A) (f : A -> act R X L E B) :
  issued m -> (forall a, issued (f a)) -> issued (bind m f).
Proof. intros Hm Hf. apply issued_try; [done|]. intros [a|e]; [apply Hf|apply issued_res]. Qed.

Lemma issued_bind_err {L E E' A B} (g : E -> E') (m : act R X L E A) (f : A -> act R X L E' B) :
  issued m -> (forall a, issued (f a)) -> issued (bind_err g m f).
Proof. intros Hm Hf. apply issued_try; [done|]. intros [a|e]; [apply Hf|apply issued_res]. Qed.

Lemma issued_bind_ask {L B} c (f : R c -> act R X L X B) :
  P c -> (forall a, answers c (Ok a) -> issued (f a)) -> issued (bind (ask c) f).
Proof. intros Hc Hf. apply issued_try_ask; [done|]. intros [a|e] Hr; [by apply Hf|apply issued_res]. Qed.

Lemma issued_ask {L} c : P c -> issued (L := L) (ask c).
Proof. intros Hc l. by split. Qed.

Lemma issued_get {L E} : issued (L := L) (E := E) get.
Proof. by intros l. Qed.
Lemma issued_put {L E} l : issued (L := L) (E := E) (put l).
Proof. by intros l'. Qed.

(** *** Every interleaving *)

Section interleaving.
Context {W T : Type} (exec : forall c, W -> W * result X (R c)) (fallible : C -> bool) (lost : T -> X).
Context (program : proc R X unit -> Prop) (Inv : W -> Prop).
Hypothesis program_issues : forall p, program p -> issues p.
Hypothesis exec_keeps : forall c w, P c -> Inv w -> Inv (exec c w).1.
Hypothesis exec_answers : forall c w, Inv w -> answers c (exec c w).2.
Hypothesis lost_answers : forall c t, fallible c = true -> answers c (Err (lost t)).

Lemma perform_issued o c w :
  P c -> Inv w -> Inv (perform exec fallible lost o c w).1 /\ answers c (perform exec fallible lost o c w).2.
Proof using All.
  intros Hc Hw. unfold perform. destruct (fallible c) eqn:E; [destruct o|]; cbn [fst snd]; auto.
Qed.

Lemma steps_issued x y :
  rtc (step exec fallible lost program) x y -> Inv x.1 -> Forall issues x.2 -> Inv y.1 /\ Forall issues y.2.
Proof using All.
  induction 1 as [x|x y z Hxy _ IH]; [done|]. intros Hi Hall. apply IH; clear IH;
    destruct Hxy as [v qs p Hp|v qs i p o v' p' Hlk Ha|v qs i]; cbn [fst snd] in *; try done.
  - destruct p as [?|c k]; [done|]. injection Ha as <- <-.
    apply (Forall_lookup_1 _ _ _ _ Hall) in Hlk as [Hc _]. by apply perform_issued.
  - apply Forall_app. split; [done|]. apply Forall_singleton. by apply program_issues.
  - destruct p as [?|c k]; [done|]. injection Ha as <- <-.
    apply (Forall_lookup_1 _ _ _ _ Hall) in Hlk as [Hc Hk]. apply Forall_insert; [done|].
    apply Hk. by apply perform_issued.
  - apply Forall_forall. intros q Hq. rewrite Forall_forall in Hall. apply Hall.
    by apply (elem_of_submseteq _ _ _ Hq), sublist_submseteq, sublist_delete.
Qed.
End interleaving.
End issues.

#[export] Hint Resolve issued_res issued_get issued_put : issued.

(** ** Signed receipts and results *)

(** A year of four digits: what the verifier can read. *)
Definition in_years (t : time) : Prop := (0 <= year (civil_from_days (t / Second / 86400)) <= 9999)%Z.

Lemma in_years_truncate t : in_years t -> in_years (Truncate t Microsecond).
Proof.
  unfold in_years, Truncate, Microsecond, Second. intros H.
  replace ((t - t mod 1000) / 1000000000)%Z with (t / 1000000000)%Z; [done|]. Z.div_mod_to_equations. lia.
Qed.

Section signed.
Context `{!StreamIDs, !Sources, !Journal.JobIDs, !Seal.UUID, !Seal.AEAD, !Seal.Ed25519} (priv : gostring).

Record receipt_signed (r : Seal.Receipt) : Prop := {
  rs_job : Seal.JobID r = Journal.DurableIDFor (Seal.RedisJobID r);
  rs_id : Seal.RedisJobID r <> [];
  rs_years : in_years (Seal.PurgedAt r);
  rs_micro : Ledger.normalizeAt (Seal.PurgedAt r) = Seal.PurgedAt r;
  rs_sig : Seal.Signature r = Seal.Sign priv (Seal.PurgeMessage (Seal.RedisJobID r) (Seal.PurgedAt r));
  rs_key : Seal.ReceiptKeyID r = Seal.SigningKeyID (Seal.ed_public priv);
}.

Record result_signed (r : Journal.JobResult) : Prop := {
  js_id : Journal.ID r <> [];
  js_sig : Journal.Signature r =
    Seal.Sign priv (Seal.OutputMessage (Journal.ID r) (Journal.TenantID r) (Journal.BodyOf (Journal.Result r)));
  js_key : Journal.SigningKeyID r = Seal.SigningKeyID (Seal.ed_public priv);
}.

Definition signed (c : cmd) : Prop :=
  match c with CInsert r => receipt_signed r | CRecord r => result_signed r | _ => True end.

Definition answers (c : cmd) (r : result error (reply c)) : Prop :=
  match c as c return result error (reply c) -> Prop with
  | CNow => fun r => forall t, r = Ok t -> in_years t
  | _ => fun _ => True
  end r.

Abbreviation ok m := (issued answers signed m).

Lemma ok_of_result {E A} (g : E -> error) (r : result E A) : ok (of_result g r).
Proof. destruct r; apply issued_res. Qed.
Lemma ok_or_throw {A} e (o : option A) : ok (or_throw e o).
Proof. destruct o; apply issued_res. Qed.
Lemma ok_lift {A} (m : M error A) : ok m -> ok (Runner.lift m).
Proof. intros Hm. apply issued_bind_err; [done|]. intros. apply issued_res. Qed.
Lemma ok_some_or {A} (e : Runner.run_error error) (o : option A) : ok (Runner.some_or e o).
Proof. destruct o; apply issued_res. Qed.
End signed.

#[export] Hint Resolve ok_of_result ok_or_throw ok_lift ok_some_or : issued.

(** Takes a process apart; what is left are the commands that must be signed. *)
Ltac issued_step :=
  first
    [ progress (intros; cbv zeta)
    | solve [eauto 3 with issued]
    | match goal with
      | |- issued _ _ (bind (ask ?c) ?f) => refine (issued_bind_ask _ _ c f I _)
      | |- issued _ _ (try (ask ?c) ?k) => refine (issued_try_ask _ _ c k I _)
      | |- issued _ _ (ask ?c) => refine (issued_ask _ _ c I)
      end
    | apply issued_bind
    | apply issued_bind_err
    | apply issued_try
    | match goal with
      | |- issued _ _ (match ?x with _ => _ end) => destruct x eqn:?
      | |- issued _ _ (if ?x then _ else _) => destruct x eqn:?
      end ].
Ltac issued := repeat issued_step.

Section processes.
Context `{!StreamIDs, !Sources, !Journal.JobIDs, !Seal.UUID, !Seal.AEAD, !Seal.Ed25519} (priv : gostring).
Abbreviation ok m := (issued answers (signed priv) m).

(** *** Purging and committing *)

Lemma ok_dropCheckpoint id crash : ok (dropCheckpoint id crash).
Proof. unfold dropCheckpoint. issued. Qed.

Lemma receipt_is_signed id t tenant : id <> [] -> in_years t ->
  receipt_signed priv (receipt priv id (Truncate t Microsecond) tenant).
Proof.
  intros Hid Ht. split; try done; cbn [Seal.PurgedAt receipt]; [by apply in_years_truncate|].
  unfold Ledger.normalizeAt. apply Truncate_idem.
Qed.

Lemma ok_purge_run id crash tenant : id <> [] -> ok (purge_run priv id crash tenant).
Proof.
  intros Hid. unfold purge_run. apply issued_bind_ask; [exact I|]. intros [r|] _.
  - apply issued_bind_ask; [exact I|]. intros. apply ok_dropCheckpoint.
  - apply issued_bind_ask; [exact I|]. intros t Ht. cbv zeta. apply issued_bind_ask.
    { apply receipt_is_signed; [done|]. by apply (Ht t). }
    intros b _. apply issued_bind; [issued|]. intros at_. apply issued_bind_ask; [exact I|].
    intros. apply ok_dropCheckpoint.
Qed.

Lemma signOutput_signed r : Journal.ID r <> [] -> result_signed priv (signOutput priv r).
Proof. intros Hid. by split. Qed.

Lemma ok_commitJob c r : ID (job c) <> [] -> Journal.ID r <> [] -> ok (commitJob priv c (signOutput priv r)).
Proof.
  intros Hc Hr. unfold commitJob. apply issued_bind_ask; [by apply signOutput_signed|]. intros _ _.
  destruct (bool_decide _); [apply issued_res|by apply ok_purge_run].
Qed.

Lemma ok_Publish e : ok (Publish e).
Proof. unfold Publish. issued. Qed.
Lemma ok_settle c force : ok (settle c force).
Proof. unfold settle. issued. Qed.
Lemma ok_peek id : ok (peek id).
Proof. unfold peek. issued. Qed.
Lemma ok_finish id : ok (finish id).
Proof. unfold finish. issued. Qed.

#[local] Hint Resolve ok_dropCheckpoint ok_purge_run ok_commitJob ok_Publish ok_settle ok_peek ok_finish : issued.

Lemma ok_fail_job c r : ID (job c) <> [] -> Journal.ID r <> [] -> ok (fail_job priv c r).
Proof. intros Hc Hr. unfold fail_job. issued. Qed.

Lemma ok_bury c jobType reason : ID (job c) <> [] -> ok (bury priv c jobType reason).
Proof. intros Hc. unfold bury. issued. Qed.

Lemma ok_complete c jobType out : ID (job c) <> [] -> ok (complete priv c jobType out).
Proof. intros Hc. unfold complete. issued. Qed.

(** *** Checkpoints and runners *)

Lemma ok_sealPartial id m : ok (sealPartial id m).
Proof. unfold sealPartial, jobKey, Seal_. issued. Qed.
#[local] Hint Resolve ok_sealPartial : issued.
Lemma ok_load id : ok (load id).
Proof. unfold load, jobKey. issued. Qed.
Lemma ok_save st : ok (save st).
Proof. unfold save. issued. Qed.
Lemma ok_saveStep1 st : ok (saveStep1 st).
Proof. unfold saveStep1. issued. Qed.
#[local] Hint Resolve ok_load ok_save ok_saveStep1 : issued.

Lemma ok_saved_checkpoint : ok saved_checkpoint.
Proof. unfold saved_checkpoint. issued. Qed.
Lemma ok_save_checkpoint c stp m : ok (save_checkpoint c stp m).
Proof. unfold save_checkpoint. issued. Qed.

Definition runner_ok (jr : Runner.JobRunner M error) : Prop :=
  forall input c, ok (Runner.Run jr input (Some (recorder c))).

Lemma redact_ok load : (forall f tenant, load = Some f -> ok (f tenant)) -> runner_ok (Redact.runner load).
Proof.
  intros Hload input c. cbn [Runner.Run Redact.runner]. unfold Redact.Run.
  assert (Hw : forall text, ok (Redact.run_windows text (Some (recorder c)))).
  { intros text. unfold Redact.run_windows. issued; (apply ok_lift; first [apply ok_saved_checkpoint|apply ok_save_checkpoint]). }
  destruct (jlookup "input" input) as [[| | | |text| |]|]; try apply issued_res. cbv zeta.
  destruct load as [f|]; [|apply Hw]. destruct (seqb _ _); [apply Hw|].
  apply issued_bind; [by apply ok_lift, Hload|]. intros [doc []]; [issued|apply Hw].
Qed.

Lemma mask_ok : runner_ok Redact.Mask.runner.
Proof.
  intros input c. cbn [Runner.Run Redact.Mask.runner]. unfold Redact.Mask.Run.
  issued; (apply ok_lift; first [apply ok_saved_checkpoint|apply ok_save_checkpoint]).
Qed.

Definition registry_ok (reg : option (gmap gostring (Runner.JobRunner M error))) : Prop :=
  forall ty jr, Runner.Get reg ty = Some jr -> runner_ok jr.

Lemma worker_registry_ok : registry_ok worker_registry.
Proof.
  intros ty jr. unfold worker_registry. rewrite Runner.Get_NewRegistry. intros Hl.
  apply last_Some_elem_of, list_elem_of_filter in Hl as [_ Hl].
  apply elem_of_cons in Hl as [->|[->|[]%elem_of_nil]%elem_of_cons]; [|apply mask_ok].
  apply redact_ok. intros f tenant [= <-]. issued.
Qed.

(** *** Handling *)

Lemma ok_openJobInput id raw : ok (openJobInput id raw).
Proof. unfold openJobInput. issued. Qed.

Lemma ok_finishJournaled c : ID (job c) <> [] -> ok (finishJournaled priv c).
Proof. intros Hc. unfold finishJournaled. issued. Qed.

Lemma applyHooks_job c hooks : job (applyHooks c hooks) = job c.
Proof. done. Qed.

#[local] Hint Resolve ok_openJobInput ok_finishJournaled ok_bury ok_complete ok_fail_job : issued.

Lemma ok_handle reg c hooks : registry_ok reg -> ID (job c) <> [] -> ok (handle priv reg c hooks).
Proof.
  intros Hreg Hc. unfold handle, ran. issued; first [by eapply Hreg|by apply ok_fail_job|idtac].
Qed.

Lemma String_nonempty i : String i <> [].
Proof. unfold String. intros [_ Hs]%app_eq_nil. discriminate Hs. Qed.

Lemma parseClaim_id i f c : parseClaim i f = Ok c -> ID (job c) <> [].
Proof.
  unfold parseClaim, parseJob. destruct (seqb (field "input" f) []); [done|].
  destruct (seqb (field "id" f) []) eqn:E; destruct (seqb (field "tenant_id" f) []); try done;
    intros [= <-]; cbn [job ID]; [apply String_nonempty|by apply seqb_neq].
Qed.

Lemma ok_dispatch reg hooks msg : registry_ok reg -> ok (dispatch priv reg hooks msg).
Proof.
  intros Hreg. unfold dispatch. apply issued_bind; [eauto with issued|]. intros i. cbv zeta.
  destruct (parseClaim _ _) as [c|e] eqn:E; [apply ok_handle; [done|by eapply parseClaim_id]|].
  unfold deadLetterMissingTenant. issued.
Qed.

Lemma ok_RunGroup cfg d n : registry_ok (Registry d) -> ok (RunGroup priv cfg d n).
Proof.
  intros Hreg. assert (Hall : forall msgs, ok (dispatch_all priv (Registry d) (DepsHooks d) msgs)).
  { induction msgs as [|msg msgs IH]; cbn [dispatch_all]; [issued|]. apply issued_bind; [by apply ok_dispatch|done]. }
  unfold RunGroup. issued. induction n as [|n IH]; cbn [loop]; [issued|].
  apply issued_bind; [|done]. unfold turn. issued.
Qed.

(** ** Every interleaving *)

(** Workers of any configuration with hooks of any kind, producers of any job,
    readers. *)
Inductive participant : proc reply error unit -> Prop :=
| p_worker cfg d n : Registry d = worker_registry -> participant (discard (RunGroup priv cfg d n))
| p_producer has_keys job_ : participant (discard (Add has_keys job_))
| p_reader jobID : participant (discard (JobRunning jobID))
| p_preparer : participant (discard PrepareGroup)
| p_server cfg d n : Registry d = worker_registry -> participant (discard (serve priv cfg d n)).

Lemma participant_issues p : participant p -> issues answers (signed priv) p.
Proof.
  assert (Hd : forall E A (m : M E A), ok m -> issues answers (signed priv) (discard m)).
  { intros E A m Hm. by apply issues_andThen. }
  assert (Hp : ok PrepareGroup) by (unfold PrepareGroup, ensureGroup; issued).
  intros [cfg d n Hreg|has_keys job_|jobID| |cfg d n Hreg]; apply Hd.
  - apply ok_RunGroup. rewrite Hreg. apply worker_registry_ok.
  - unfold Add, Seal_, enqueue. issued.
  - unfold JobRunning. issued.
  - done.
  - apply issued_bind; [done|]. intros _. apply ok_RunGroup. rewrite Hreg. apply worker_registry_ok.
Qed.
End processes.

(** ** The tables *)

Section tables.
Context `{!Journal.JobIDs, !Seal.Ed25519} (priv : gostring) (tenant_valid tenant_exists : gostring -> bool).
Abbreviation Record := (Journal.pg_Record tenant_valid tenant_exists).
#[local] Instance pg_here : Journal.Store Journal.pgJournal := Journal.pg_journal tenant_valid tenant_exists.
#[local] Instance pg_here_laws : StoreLaws Journal.pgJournal := pg_journal_laws tenant_valid tenant_exists.

(** A row that [Record] adds is that of the result, with its output beside it. *)
Lemma pg_Record_row r s d x :
  Journal.jobs (fst (Record r s)) !! d = Some x ->
  Journal.jobs s !! d = Some x \/
  exists row, Journal.parseTerminal r = Ok row /\ d = Journal.DurableIDFor (Journal.ID r) /\
    Journal.jobs s !! d = None /\ Journal.TenantID r <> [] /\
    x = Journal.MkJobRow row (Journal.TenantID r) (Journal.nonempty (Journal.Signature r))
          (Journal.nonempty (Journal.SigningKeyID r)) /\
    (Journal.pg_outputs s !! Journal.ID r = None ->
     Journal.pg_outputs (fst (Record r s)) !! Journal.ID r =
     Some (Journal.MkOutput (Journal.FinalState row) (Journal.BodyOf (Journal.Result r)) (Journal.TenantID r))).
Proof.
  unfold Journal.pg_Record. destruct (seqb (Journal.TenantID r) []) eqn:Et; [by left|].
  destruct (Journal.parseTerminal r) as [row|e] eqn:Er; [|by left]. cbv zeta.
  destruct (parseTerminal_Ok _ _ Er) as (Hid & _).
  destruct (tenant_valid _); [|by left]. cbn [negb].
  destruct (Journal.pg_outputs s !! Journal.ID r) as [o|] eqn:Eo;
    destruct (tenant_exists _); try (by left); (destruct (64 <? _); [by left|]);
    (destruct (Journal.jobs s !! Journal.stored_id row) as [old|] eqn:Ej;
      [destruct (Journal.acceptExisting _ _); by left|]); cbn [fst Journal.jobs Journal.pg_outputs]; try (by left);
    (intros [[<- <-]|[_ Hx]]%lookup_insert_Some; [|by left]); right; exists row; rewrite <- Hid;
    apply seqb_neq in Et; do 5 (split; [done|]); intros E; [congruence|by rewrite lookup_insert_eq].
Qed.

(** A row of [jobs] carries the signature of an output that is there. *)
Definition row_signed (s : Journal.pgJournal) (d : gostring) (x : Journal.jobRow) : Prop :=
  exists id o res, d = Journal.DurableIDFor id /\ id <> [] /\ Journal.pg_outputs s !! id = Some o /\
    Journal.out_tenant o = Journal.job_tenant x /\ Journal.out_tenant o <> [] /\ Journal.Body o = Journal.BodyOf res /\
    Journal.output_signature x =
      Journal.nonempty (Seal.Sign priv (Seal.OutputMessage id (Journal.out_tenant o) (Journal.Body o))).

Definition journal_signed (s : Journal.pgJournal) : Prop :=
  consistent s /\ forall d x, Journal.jobs s !! d = Some x -> row_signed s d x.

Lemma pg_Record_signed r s : result_signed priv r -> journal_signed s -> journal_signed (fst (Record r s)).
Proof.
  intros Hr [Hc Hs]. split; [exact (Record_consistent r s Hc)|]. intros d x Hx.
  assert (Hkeep : forall id o, Journal.pg_outputs s !! id = Some o -> Journal.pg_outputs (fst (Record r s)) !! id = Some o)
    by (intros id o Ho; exact (Record_keeps_output r s id o Hc Ho)).
  apply pg_Record_row in Hx as [Hx|(row & Er & Hd & Hn & Ht & Hx & Ho)].
  - destruct (Hs d x Hx) as (id & o & res & H1 & H2 & H3 & H4). exists id, o, res. auto.
  - assert (Hout : Journal.pg_outputs s !! Journal.ID r = None).
    { destruct (Journal.pg_outputs s !! Journal.ID r) as [o|] eqn:Eo; [|done].
      destruct (Hc _ _ Eo) as (row' & Hrow & _). cbn in Hrow. rewrite <- Hd, Hn in Hrow. done. }
    eexists (Journal.ID r), _, (Journal.Result r). split; [exact Hd|]. split; [apply Hr|]. split; [by apply Ho|].
    subst x. cbn [Journal.out_tenant Journal.Body Journal.job_tenant Journal.output_signature].
    repeat split; try done. by rewrite (js_sig priv r Hr).
Qed.
End tables.

(** *** The world *)

Section world.
Context `{!StreamIDs, !Sources, !Journal.JobIDs, !Seal.UUID, !Seal.AEAD, !Seal.Ed25519} (priv : gostring).
Context {K RS : Type} `{!Seal.KeyStore K, !Seal.ReceiptStore RS, !Seal.ReceiptStoreLaws RS}.
Context (tenant_valid tenant_exists : gostring -> bool).
#[local] Instance pg_journal_here : Journal.Store Journal.pgJournal := Journal.pg_journal tenant_valid tenant_exists.
Implicit Types w : world K RS Journal.pgJournal.

Record world_signed w : Prop := {
  ws_receipts d r : Seal.Get d (receipts w) = Some r -> receipt_signed priv r /\ Seal.JobID r = d;
  ws_journal : journal_signed priv tenant_valid tenant_exists (journal w);
}.

Lemma same_receipt_signed r r' : Seal.same_receipt r' r -> receipt_signed priv r -> receipt_signed priv r'.
Proof. intros (E1 & E2 & E3 & E4 & E5) [? ? ? ? ? ?]. split; by rewrite ?E1, ?E2, ?E3, ?E4, ?E5. Qed.

Lemma Insert_signed r (s : RS) d r' :
  receipt_signed priv r -> (forall d r', Seal.Get d s = Some r' -> receipt_signed priv r' /\ Seal.JobID r' = d) ->
  Seal.Get d (fst (Seal.Insert r s)) = Some r' -> receipt_signed priv r' /\ Seal.JobID r' = d.
Proof.
  intros Hr Hs Hg. destruct (Seal.Get (Seal.JobID r) s) as [old|] eqn:E.
  - destruct (Seal.Insert_exists r s) as [_ Hsame]; [congruence|]. rewrite Hsame in Hg. by apply Hs.
  - pose proof (Seal.Insert_new r s E (rs_micro _ _ Hr)) as Hnew. destruct (snd (Seal.Insert r s)) as [b|e].
    + destruct Hnew as [_ Hnew]. specialize (Hnew d). destruct (decide (d = Seal.JobID r)) as [->|].
      * destruct Hnew as (r2 & E2 & Hsame). rewrite E2 in Hg. injection Hg as ->.
        split; [by eapply same_receipt_signed|apply Hsame].
      * rewrite Hnew in Hg. by apply Hs.
    + rewrite Hnew in Hg. by apply Hs.
Qed.

Lemma world_signed_same w w' :
  receipts w' = receipts w -> journal w' = journal w -> world_signed w -> world_signed w'.
Proof. intros Er Ej [Hr Hj]. split; [by rewrite Er|by rewrite Ej]. Qed.

Lemma exec_signed c w : signed priv c -> world_signed w -> world_signed (exec c w).1.
Proof.
  intros Hc Hw. destruct c; cbn [exec signed] in *;
    try (apply (world_signed_same w); [done|done|exact Hw]).
  - split; [apply Hw|]. apply pg_Record_signed; [done|apply Hw].
  - split; [|apply Hw]. intros d r'. apply Insert_signed; [done|apply Hw].
  - destruct (xadd _ _ _); by apply (world_signed_same w).
  - destruct (group _); by apply (world_signed_same w).
Qed.

(** From a system whose tables hold signed rows, or none, workers lead to signed rows
    only. *)
Lemma reach_signed w0 w ps :
  (forall n, in_years (clock n)) -> world_signed w0 ->
  rtc (step exec fallible lost (participant priv)) (w0, []) (w, ps) -> world_signed w.
Proof.
  intros Hy H0' Hs.
  enough (world_signed w /\ Forall (issues answers (signed priv)) ps) by tauto.
  refine (steps_issued answers (signed priv) exec fallible lost (participant priv) world_signed _ _ _ _ _ _ Hs _ _);
    try done; clear Hs.
  - apply participant_issues.
  - intros c v. apply exec_signed.
  - intros c v _. destruct c; try done. intros t [= <-]. apply Hy.
  - by intros [] t Hf.
Qed.
End world.
