(* ===== verification/QueueOnce.v ===== *)
(** * One job, one result

    A redaction job under any interleaving and failure: however often its entry
    is delivered, by however many workers, the journal gets one result, and
    that is the result of [RedactPII] on the input (or, when the tenant's policy
    could not be loaded, the failure the code then records).  The invariant
    [Job_inv] of that job is proved on top of [QueueSpec]'s, with the same logic
    and a smaller obligation. *)

From S2P Require Import Prelude GoStd GoTime Json JsonSpec Ledger Policy Runner Redact RedactSpec Seal SealSpec Journal JournalSpec Proc Queue QueueSafe QueueLogic QueueSpec.
Import Proc Queue.

(** ** Keys of the checkpoints *)

Lemma memKey_inj a b : memKey a = memKey b -> a = b.
Proof. unfold memKey. intros H%app_inv_head. by apply app_inv_tail in H. Qed.

(** ** The processes

    Those of [QueueSpec], the workers with the registry of cmd/worker, the
    producers busy with jobs other than the one in question. *)

Section processes.
Context `{!Journal.JobIDs, !Seal.UUID, !Seal.AEAD, !Seal.Ed25519} (priv : gostring).

Inductive program_of (d : gostring) : proc reply error unit -> Prop :=
| a_worker cfg dp n :
    Registry dp = worker_registry -> FailHook (DepsHooks dp) = None ->
    program_of d (discard (RunGroup priv cfg dp n))
| a_producer has_keys job_ :
    TenantID job_ <> [] -> Journal.DurableIDFor (ID job_) <> d -> program_of d (discard (Add has_keys job_))
| a_reader jobID : program_of d (discard (JobRunning jobID))
| a_preparer : program_of d (discard PrepareGroup)
| a_server cfg dp n :
    Registry dp = worker_registry -> FailHook (DepsHooks dp) = None -> program_of d (discard (serve priv cfg dp n)).
End processes.

Section once.
Context `{!StreamIDs, !StreamIDsLaws, !Sources, !SourcesLaws, !Journal.JobIDs, !Seal.UUID}.
Context `{!Seal.AEAD, !Seal.AEADLaws, !Seal.Ed25519} (priv : gostring).
Context {K RS J : Type}.
Context `{!Seal.KeyStore K, !Seal.KeyStoreLaws K, !Seal.ReceiptStore RS, !Seal.ReceiptStoreLaws RS}.
Context `{!Journal.Store J, !StoreLaws J}.
Implicit Types w : world K RS J.

Abbreviation durable := Journal.DurableIDFor.

(** The entry of the job, its key, the tenant's identifier and the text that is
    redacted. *)
Record the_job := {
  j_fields : gmap gostring gostring;
  j_key : gostring;
  j_plain : gostring;
  j_text : gostring;
  j_uuid : uuid;
}.
Definition j_id (j : the_job) : gostring := field "id" (j_fields j).
Definition j_tenant (j : the_job) : gostring := field "tenant_id" (j_fields j).

Definition j_out (j : the_job) : list (gostring * json) := result_map (final_result (j_text j)).
Definition j_mid (j : the_job) : list (gostring * json) := result_map (first_result (j_text j)).

(** The entry is a redaction job of a tenant, sealed under the key. *)
Record job_wf (j : the_job) : Prop := {
  wf_entry : entry_ok (j_fields j);
  wf_type : field "job_type" (j_fields j) = [] \/ field "job_type" (j_fields j) = "redact"%go;
  wf_sealed : Seal.Open (j_key j) (field "input" (j_fields j)) = Ok (j_plain j);
  wf_input : jlookup "input" (jobInput (j_plain j) (j_tenant j)) = Some (JStr (j_text j));
  wf_uuid : Seal.uuid_parse (j_tenant j) = Some (j_uuid j);
  wf_utf8 : valid_utf8 (j_text j);
  wf_small : small_text (j_text j);
}.

Definition failed_result : list (gostring * json) := [("error", JStr "runner failed")]%go.

(** The two results the journal may get. *)
Definition right_result (j : the_job) (s : Journal.JobState) (m : list (gostring * json)) : Prop :=
  (s = Journal.COMPLETED /\ m = j_out j) \/ (s = Journal.FAILED /\ m = failed_result).

Context (j : the_job) (Hwf : job_wf j).
Abbreviation d := (durable (j_id j)).

Record Job_inv w : Prop := {
  job_entry i f : (i, f) ∈ stream (redis w) ->
    field "id" f <> [] /\ (job_of f = d -> f = j_fields j);
  job_key : key_at w d = Seal.Live (j_key j) \/ exists t, key_at w d = Seal.Destroyed t;
  job_mem h : hashes (redis w) !! memKey (j_id j) = Some h ->
    h !! memFieldStep = Some "1"%go /\
    exists s, h !! memFieldPartial = Some s /\ Seal.Open (j_key j) s = Ok (Marshal (JObj (j_mid j)));
  job_row row : row_at w d = Some row -> exists s m, right_result j s m /\
    Journal.FinalState row = s /\ Journal.Checksum row = Journal.ChecksumOf m;
  job_output o : Journal.output_of (journal w) (j_id j) = Some o -> exists s m, right_result j s m /\
    Journal.out_state o = s /\ Journal.Body o = Journal.BodyOf m;
  job_policy : Policy.policies (policies w) !! j_uuid j = None;
}.

Definition Inv2 w : Prop := Inv w /\ Job_inv w.
Definition need2 (_ w : world K RS J) : Prop := Job_inv w.

(** ** Steps *)

(** What [Job_inv] sees of the world besides the parts named in its fields. *)
Definition free (c : cmd) : bool :=
  match c with
  | CRecord _ | CHSet _ _ | CIncrHSet _ _ _ | CXAdd _ | CSettle _ _ false _ => false
  | _ => true
  end.

Lemma job_key_ensure k0 w : Inv2 w ->
  key_at (exec (CEnsure k0) w).1 d = Seal.Live (j_key j) \/ exists t, key_at (exec (CEnsure k0) w).1 d = Seal.Destroyed t.
Proof.
  intros [Hi Hj]. destruct (ensure_keeps k0 w Hi) as [_ Hm].
  pose proof (mono_key _ _ Hm d) as Hk. destruct (job_key _ Hj) as [E|[t E]]; rewrite E in Hk; eauto.
Qed.

Lemma job_key_destroy k0 t0 w : Inv2 w ->
  key_at (exec (CDestroy k0 t0) w).1 d = Seal.Live (j_key j) \/
  exists t, key_at (exec (CDestroy k0 t0) w).1 d = Seal.Destroyed t.
Proof.
  intros [Hi Hj]. unfold key_at. cbn [exec fst keys set_keys].
  rewrite (Seal.Destroy_view k0 t0 _ d (inv_keys _ Hi)).
  pose proof (job_key _ Hj) as Hk. unfold key_at in Hk.
  destruct (Seal.key_of (keys w) k0) eqn:E; try exact Hk.
  case_decide; [eauto|exact Hk].
Qed.

Lemma free_keeps c w : free c = true -> Inv2 w -> need2 w (exec c w).1.
Proof.
  intros Hf Hi2. pose proof Hi2 as [Hi Hj]. unfold need2.
  assert (Hdel : forall e, Job_inv (exec (CXAckDel e) w).1).
  { intros e. split; try apply Hj. cbn. intros i f [_ Hin]%list_elem_of_filter. by eapply job_entry. }
  destruct c; try done; try (by split; apply Hj).
  - split; try apply Hj. by apply job_key_ensure.
  - split; try apply Hj. by apply job_key_destroy.
  - split; try apply Hj. cbn. intros h. rewrite lookup_delete_Some. intros [_ Hh]. by apply Hj.
  - destruct force; [|done]. specialize (Hdel entry0). cbn in *. destruct (bool_decide _); split; apply Hdel.
  - cbn. destruct (group (redis w)); split; apply Hj.
  - cbn. unfold xautoclaim. destruct (group (redis w)); split; apply Hj.
  - cbn. unfold xreadgroup. destruct (group (redis w)); split; apply Hj.
Qed.

Lemma record_free r w :
  (durable (Journal.ID r) = d -> forall row, Journal.parseTerminal r = Ok row ->
     right_result j (Journal.FinalState row) (Journal.Result r)) ->
  Inv2 w -> need2 w (exec (CRecord r) w).1.
Proof.
  intros Hr [Hi Hj]. split; try apply Hj; cbn [exec fst].
  - intros row [Hrow|[Hd Hp]]%Record_row; [by apply Hj|].
    destruct (parseTerminal_Ok _ _ Hp) as (_ & Hc & _). symmetry in Hd.
    eexists _, _. split; [by apply Hr|]. done.
  - intros o [Ho|(Hid & row & Hp & ->)]%Record_output; [by apply Hj|].
    eexists _, _. split; [apply (Hr ltac:(by rewrite <- Hid) row Hp)|]. done.
Qed.

Lemma xadd_free f w :
  field "id" f <> [] -> job_of f <> d -> Inv2 w -> need2 w (exec (CXAdd f) w).1.
Proof.
  intros Hf Hne [Hi Hj]. unfold need2. cbn [exec]. unfold xadd.
  destruct (auto_id _ _) as [i|]; cbn [mbind option_bind fst]; [|by split; apply Hj].
  split; try apply Hj. cbn. intros i' f' [Hin|Hin]%elem_of_app; [by eapply job_entry|].
  apply list_elem_of_singleton in Hin as [= -> ->]. done.
Qed.

(** A checkpoint of this job holds its first window. *)
Definition step1_ok (id : gostring) (stp : Z) (sealed : gostring) : Prop :=
  id = j_id j -> stp = 1%Z /\ Seal.Open (j_key j) sealed = Ok (Marshal (JObj (j_mid j))).

Lemma hset_job id extra stp sealed (r : Redis) w :
  step1_ok id stp sealed -> Forall (fun kv => kv.1 = memFieldStep1) extra ->
  Job_inv w -> redis w = r ->
  Job_inv (set_redis (hset (memKey id) (extra ++ [(memFieldStep, Itoa stp); (memFieldPartial, sealed)]) r) w).
Proof.
  intros Hs _ Hj <-. split; try apply Hj. cbn. intros h [[Hk <-]|[_ Hh]]%lookup_insert_Some; [|by apply Hj].
  apply memKey_inj in Hk. destruct (Hs Hk) as [-> Hopen]. rewrite foldl_app. cbn [foldl fst snd].
  rewrite lookup_insert_ne, lookup_insert_eq by done. split; [done|].
  exists sealed. by rewrite lookup_insert_eq.
Qed.

Lemma hset_free id stp sealed w :
  step1_ok id stp sealed -> Inv2 w ->
  need2 w (exec (CHSet (memKey id) [(memFieldStep, Itoa stp); (memFieldPartial, sealed)]) w).1.
Proof. intros Hs [_ Hj]. by apply (hset_job id [] stp sealed (redis w) w Hs). Qed.

Lemma incr_hset_free id stp sealed w :
  step1_ok id stp sealed -> Inv2 w ->
  need2 w (exec (CIncrHSet (memKey id) memFieldStep1
                   [(memFieldStep, Itoa stp); (memFieldPartial, sealed)]) w).1.
Proof.
  intros Hs [_ Hj]. unfold need2. cbn [exec]. unfold on_redis, hincr_hset.
  destruct (Atoi _) as [n|]; cbn [fst].
  - by apply (hset_job id [(memFieldStep1, Itoa (n + 1))] stp sealed (redis w) w Hs); [repeat constructor| |].
  - by apply (hset_job id [] stp sealed (redis w) w Hs).
Qed.

(** ** The functions, once more *)

#[local] Ltac safe_cmd ::= by apply free_keeps.

Abbreviation okp := (okp Inv2 need2).
Abbreviation safe m l w := (okp m (fun _ _ _ => True) l w).

Lemma okp_Seal key plain l w : okp (Seal_ key plain) (fun _ s _ => Seal.Open key s = Ok plain) l w.
Proof.
  unfold Seal_. apply okp_bind, okp_reply; [intros; safe_cmd|].
  intros w' w2 nonce _ _ [= <-] _ _. apply okp_of_result. intros s w3 E _ _.
  destruct (sealed_opens key (rand (draws w') Seal.nonceSize) plain (rand_length _ _)) as (s' & E' & Ho).
  congruence.
Qed.

Lemma Ensure_job w key :
  Inv2 w -> (exec (CEnsure d) w).2 = Ok key -> key = j_key j.
Proof.
  intros [Hi Hj]. cbn [exec snd]. rewrite (Seal.Ensure_spec _ d (keys w)) by (apply rand_length || apply Hi).
  pose proof (job_key _ Hj) as Hk. unfold key_at in Hk.
  destruct Hk as [E|[t E]]; rewrite E; cbn [map_error]; congruence.
Qed.

Lemma okp_jobKey id l w : okp (jobKey id) (fun _ key _ => id = j_id j -> key = j_key j) l w.
Proof.
  unfold jobKey. apply okp_reply; [intros; safe_cmd|].
  intros w' w2 key _ Hi E _ _ ->. by eapply Ensure_job.
Qed.

Lemma okp_sealPartial id m l w :
  okp (sealPartial id m) (fun _ s _ => id = j_id j -> Seal.Open (j_key j) s = Ok (Marshal (JObj m))) l w.
Proof.
  unfold sealPartial. cbv zeta. apply okp_bind. eapply okp_weaken; [|apply okp_jobKey].
  intros l1 key w1 _ Hk. eapply okp_weaken; [|apply okp_Seal]. intros l2 s w2 _ Ho Hid.
  by rewrite <- Hk.
Qed.

(** Saving a checkpoint is allowed if it is the first window's. *)
Definition checkpoint_ok (id : gostring) (stp : Z) (m : list (gostring * json)) : Prop :=
  id = j_id j -> stp = 1%Z /\ m = j_mid j.

Lemma save_safe2 st l w : checkpoint_ok (ms_job st) (Step st) (Partial st) -> safe (save st) l w.
Proof.
  intros Hc. unfold save. apply okp_bind. eapply okp_weaken; [|apply okp_sealPartial].
  intros l1 s w1 _ Hs. apply safe_ask. intros w2 _. apply hset_free.
  intros Hid. destruct (Hc Hid) as [? Hm]. rewrite Hm in Hs. auto.
Qed.

Lemma saveStep1_safe2 st l w : checkpoint_ok (ms_job st) (Step st) (Partial st) -> safe (saveStep1 st) l w.
Proof.
  intros Hc. unfold saveStep1. apply okp_bind. eapply okp_weaken; [|apply okp_sealPartial].
  intros l1 s w1 _ Hs. apply safe_ask. intros w2 _. apply incr_hset_free.
  intros Hid. destruct (Hc Hid) as [? Hm]. rewrite Hm in Hs. auto.
Qed.

Lemma publish_safe2 e l w : safe (Publish e) l w.
Proof. unfold Publish. repeat safe_step. Qed.

Lemma save_checkpoint_safe2 c stp m l w :
  checkpoint_ok (ID (job c)) stp m -> safe (save_checkpoint c stp m) l w.
Proof.
  intros Hc. unfold save_checkpoint. cbv zeta. apply okp_bind_err.
  eapply okp_weaken; [|destruct (stp =? 1)%Z; [by apply saveStep1_safe2|by apply save_safe2]].
  intros l' [] w' _ _. apply okp_seq; [by apply okp_put|]. intros _ l2 w2 _.
  destruct (stp =? 1)%Z; [|safe_step]. apply okp_bind_err.
  eapply okp_weaken; [|apply publish_safe2]. intros l3 [] w3 _ _. repeat safe_step.
Qed.

Lemma mid_wf : wf (JObj (j_mid j)).
Proof. apply result_map_wf, first_result_wf; apply Hwf. Qed.

Lemma okp_load id l w :
  okp (load id) (fun _ st _ => id = j_id j ->
    st = None \/ st = Some (MkMemState id 1 (j_mid j))) l w.
Proof.
  unfold load. apply okp_bind, okp_reply; [intros; safe_cmd|].
  intros w' w2 h _ [_ Hj] [= Eh] _ _. cbv zeta.
  change (reply (CHGetAll (memKey id))) with (gmap gostring gostring) in *.
  assert (Hh : id = j_id j -> h = ∅ \/ (h !! memFieldStep = Some "1"%go /\
    exists s, h !! memFieldPartial = Some s /\ Seal.Open (j_key j) s = Ok (Marshal (JObj (j_mid j))))).
  { intros ->. rewrite <- Eh. destruct (hashes (redis w') !! memKey (j_id j)) as [h'|] eqn:E; [|by left].
    right. by apply Hj. }
  clear Eh. destruct (decide (id = j_id j)) as [Hid|Hid].
  2: { apply (okp_weaken _ _ _ (fun _ _ _ => True)); [by intros l1 st w1 _ _ Hne|].
       unfold jobKey. repeat safe_step. }
  destruct (Hh Hid) as [->|(Hs & s & Hp & Ho)].
  { rewrite (lookup_empty (M := gmap gostring) memFieldStep). apply okp_ret. by left. }
  rewrite Hs, Hp. cbn [from_option Datatypes.id]. change (seqb "1" []) with false. cbv iota.
  change (Atoi "1") with (Some 1%Z). apply okp_bind, okp_ret. intros w3 _ _.
  destruct (seqb s []); [apply okp_throw|]. apply okp_bind. eapply okp_weaken; [|apply okp_jobKey].
  intros l4 key w4 _ Hk. rewrite (Hk Hid), Ho. cbn [of_result]. apply okp_bind, okp_ret. intros w5 _ _.
  unfold decode_map. rewrite Unmarshal_Marshal by apply mid_wf.
  apply okp_bind, okp_ret. intros w6 _ _. apply okp_ret. by right.
Qed.

(** The input of this job opens to its plain text, or its key is gone; it is
    never taken for unsealed or without a key. *)
Lemma openJobInput_job l w :
  awp exec fallible lost Inv2 mono need2 (openJobInput (j_id j) (field "input" (j_fields j)))
    (fun l' r _ => match r with
                   | Ok plain => plain = j_plain j /\ l' = l
                   | Err e => e <> SealError Seal.BadSealed /\ e <> ErrInputKeyMissing
                   end) l w.
Proof.
  unfold openJobInput. apply awp_try; [exact _|].
  apply awp_ask; [exact _|intros; safe_cmd| |].
  - intros w' w2 _ [Hi Hj] _ _ _. cbn [exec snd]. rewrite Seal.Load_spec by apply Hi.
    pose proof (job_key _ Hj) as Hk. unfold key_at in Hk.
    destruct Hk as [E|[t E]]; rewrite E; cbn [map_error].
    + rewrite (wf_sealed _ Hwf). intros w3 _ _. done.
    + intros w3 _ _. done.
  - intros [] w2 _ _ _ w3 _ _; done.
Qed.

(** *** The runner on this job *)

Definition st_ok (st : option memState) : Prop :=
  st = None \/ st = Some (MkMemState (j_id j) 1 (j_mid j)).

Lemma run_windows_job c st w :
  ID (job c) = j_id j -> st_ok st ->
  okp (Redact.run_windows (E := error) (j_text j) (Some (recorder c))) (fun _ out _ => out = j_out j) st w.
Proof.
  intros Hid Hst. unfold Redact.run_windows.
  assert (Hmid : Redact.MapResult (first_result (j_text j)) = Some (j_mid j))
    by (apply MapResult_map, first_result_wf; apply Hwf).
  assert (Hres : Redact.resultFromMap (j_mid j) = Some (first_result (j_text j)))
    by (apply resultFromMap_map, first_result_wf; apply Hwf).
  assert (Hout : Redact.MapResult (final_result (j_text j)) = Some (j_out j))
    by (apply MapResult_map, final_result_wf; apply Hwf).
  apply okp_bind, okp_bind_err. cbn [Runner.Saved recorder Runner.NewCheckpointRecorder].
  unfold saved_checkpoint. apply okp_bind, okp_get. intros w1 _ _. apply okp_ret. intros w2 _ _.
  apply okp_ret. intros w3 _ _. apply okp_bind.
  apply (okp_weaken _ _ _ (fun _ r _ => r = first_result (j_text j))).
  { intros l4 r w4 _ ->. rewrite (window_result _ 1 [Detect.KindSSN]) by done. cbn [Runner.some_or].
    fold (final_result (j_text j)). apply okp_bind, okp_ret. intros w5 _ _. rewrite Hout.
    apply okp_ret. done. }
  destruct Hst as [->| ->]; cbn [Step Partial].
  - rewrite (window_result _ 0 [Detect.KindEmail; Detect.KindPhoneUS]) by done.
    cbn [Runner.some_or Redact.RedactedText Redact.Counts]. fold (first_result (j_text j)).
    apply okp_bind, okp_ret. intros w5 _ _. rewrite Hmid.
    apply okp_bind, okp_ret. intros w6 _ _. apply okp_seq.
    + apply lift_safe. apply save_checkpoint_safe2. done.
    + intros _ l7 w7 _. by apply okp_ret.
  - cbn [Z.leb Z.compare]. rewrite Hres. by apply okp_ret.
Qed.

Lemma load_policy_job w r :
  Inv2 w -> (exec (CLoadPolicy (j_tenant j)) w).2 = Ok r -> r = (Policy.Default, false).
Proof.
  intros [_ Hj]. cbn [exec snd]. unfold loadPolicy. rewrite (wf_uuid _ Hwf).
  unfold Policy.Load. rewrite (job_policy _ Hj). cbn [map_error]. congruence.
Qed.

Lemma run_job c st w :
  ID (job c) = j_id j -> st_ok st ->
  okp (Runner.Run (Redact.runner (Some (fun tenant => ask (CLoadPolicy tenant))))
         (jobInput (j_plain j) (j_tenant j)) (Some (recorder c))) (fun _ out _ => out = j_out j) st w.
Proof.
  intros Hid Hst. cbn [Runner.Run Redact.runner]. unfold Redact.Run. rewrite (wf_input _ Hwf).
  assert (Ht : seqb (j_tenant j) [] = false) by (apply seqb_neq, (wf_entry _ Hwf)).
  assert (Htid : jlookup "tenantId" (jobInput (j_plain j) (j_tenant j)) = Some (JStr (j_tenant j))).
  { unfold jobInput. rewrite Ht. rewrite jlookup_jinsert. by rewrite seqb_refl. }
  rewrite Htid. cbv zeta. rewrite Ht. apply okp_bind, okp_bind_err, okp_reply; [intros; safe_cmd|].
  intros w1 w2 r _ Hi E _ _. apply okp_ret. intros w3 _ _.
  change (reply (CLoadPolicy (j_tenant j))) with (Policy.Doc * bool)%type in *.
  rewrite (load_policy_job w1 r Hi E). by apply run_windows_job.
Qed.

(** *** Claims of this job and of others *)

(** A claim of this job is of its entry. *)
Definition claim_job (c : claimed) : Prop :=
  durable (ID (job c)) = d ->
  c_fields c = j_fields j /\ ID (job c) = j_id j /\ TenantID (job c) = j_tenant j /\
  Input (job c) = field "input" (j_fields j).

Lemma purge_run_safe2 id crash tenant l w : safe (purge_run priv id crash tenant) l w.
Proof. unfold purge_run, dropCheckpoint. cbv zeta. repeat safe_step. Qed.

Lemma commitJob_safe2 c r l w :
  (durable (Journal.ID r) = d -> forall row, Journal.parseTerminal r = Ok row ->
     right_result j (Journal.FinalState row) (Journal.Result r)) ->
  safe (commitJob priv c r) l w.
Proof.
  intros Hr. unfold commitJob. apply okp_seq.
  - apply safe_ask. intros w' _. by apply record_free.
  - intros. safe_step; [apply okp_throw|apply purge_run_safe2].
Qed.

Lemma settle_safe2 c l w : safe (settle c true) l w.
Proof. unfold settle. repeat safe_step. Qed.

Lemma bury_safe2 c ty reason l w :
  (durable (ID (job c)) = d -> reason = "runner failed"%go) -> safe (bury priv c ty reason) l w.
Proof.
  intros Hc. unfold bury. cbv zeta. apply okp_seq; [safe_step|]. intros now l1 w1 _.
  apply okp_seq.
  { apply commitJob_safe2. intros Hd row [= <-]. right. by rewrite (Hc Hd). }
  intros _ l2 w2 _. apply okp_seq; [apply publish_safe2|]. intros _ l3 w3 _.
  apply okp_seq; [apply settle_safe2|]. intros. safe_step.
Qed.

Lemma complete_safe2 c ty out l w :
  (durable (ID (job c)) = d -> out = j_out j) -> safe (complete priv c ty out) l w.
Proof.
  intros Hc. unfold complete, finish. cbv zeta. apply okp_seq; [safe_step|]. intros now l1 w1 _.
  apply okp_seq.
  { apply commitJob_safe2. intros Hd row [= <-]. left. by rewrite (Hc Hd). }
  intros _ l2 w2 _. apply okp_seq; [apply publish_safe2|]. intros _ l3 w3 _.
  repeat safe_step.
Qed.

Lemma finishJournaled_safe2 c l w : safe (finishJournaled priv c) l w.
Proof.
  unfold finishJournaled, finish. apply okp_try.
  - eapply okp_weaken; [|by apply safe_ask; intros; safe_cmd]. intros l1 row w1 _ _.
    apply okp_seq; [apply purge_run_safe2|]. intros. repeat safe_step.
  - intros e l' w' _. destruct e; try apply okp_throw. destruct err; try apply okp_throw. safe_step.
Qed.

Lemma recorder_safe2 c : ID (job c) <> j_id j -> recorder_safe Inv2 need2 (recorder c).
Proof.
  intros Hne. split; [intros l w|intros stp m l w];
    cbn [Runner.Saved Runner.Save recorder Runner.NewCheckpointRecorder].
  - unfold saved_checkpoint. apply okp_seq; [by apply okp_get|]. intros. safe_step.
  - by apply save_checkpoint_safe2.
Qed.

Lemma worker_runner_safe2 ty jr : Runner.Get worker_registry ty = Some jr -> runner_safe Inv2 need2 jr.
Proof.
  unfold worker_registry. rewrite Runner.Get_NewRegistry. intros Hl.
  apply last_Some_elem_of, list_elem_of_filter in Hl as [_ Hl].
  apply elem_of_cons in Hl as [->|[->|[]%elem_of_nil]%elem_of_cons]; [|apply mask_safe].
  apply redact_safe. intros f tenant l w [= <-]. safe_step.
Qed.

(** The runner's outcome: its output, or an error that is buried. *)
Lemma ran_okp {A} (m : M (Runner.run_error error) A) (P : A -> Prop) l w :
  okp m (fun _ out _ => P out) l w ->
  okp (ran m) (fun _ out _ => forall a, out = Some a -> P a) l w.
Proof.
  intros Hm. apply okp_try.
  - eapply okp_weaken; [|exact Hm]. intros l' a w' _ Ha. apply okp_ret. by intros w2 _ _ b [= <-].
  - intros [t|e|] l' w' _; [by apply okp_ret| |apply okp_throw].
    destruct (_ || _); [apply okp_throw|by apply okp_ret].
Qed.

Lemma redact_registered : Runner.Get worker_registry "redact" =
  Some (Redact.runner (Some (fun tenant => ask (CLoadPolicy tenant)))).
Proof. unfold worker_registry. by rewrite Runner.Get_NewRegistry. Qed.

(** What follows the runner, for any claim that got the right output. *)
Lemma outcome_safe2 c ty out l w :
  fail_ c = false -> (durable (ID (job c)) = d -> forall m, out = Some m -> m = j_out j) ->
  safe (match out with
        | None => bury priv c ty "runner failed"
        | Some m =>
            if fail_ c then
              now <- ask CNow ;;
              fail_job priv c
                (with_tenant_type (Journal.Fail (ID (job c)) m now) (TenantID (job c)) ty)
            else complete priv c ty m
        end) l w.
Proof.
  intros Hf Hout. destruct out as [m|]; [|by apply bury_safe2].
  rewrite Hf. apply complete_safe2. intros Hd. by apply (Hout Hd).
Qed.

(** A claim of another job: only this job's parts of the world matter. *)
Lemma handle_other c hooks l w :
  FailHook hooks = None -> fail_ c = false -> durable (ID (job c)) <> d ->
  safe (handle priv worker_registry c hooks) l w.
Proof.
  intros Hh Hf Hne. unfold handle. cbv zeta.
  assert (Hf1 : fail_ (applyHooks c hooks) = false) by (cbn; by rewrite Hf, Hh).
  change (ID (job c)) with (ID (job (applyHooks c hooks))) in Hne.
  generalize dependent (applyHooks c hooks). clear c Hf. intros c Hne Hf.
  apply okp_seq; [apply finishJournaled_safe2|]. intros [] l1 w1 _; [safe_step|].
  apply okp_seq; [by eapply okp_safe, okp_load|]. intros st l2 w2 _.
  apply okp_seq; [by apply okp_put|]. intros _ l3 w3 _.
  destruct (Runner.Get _ _) as [jr|] eqn:Hjr; [|by apply bury_safe2].
  apply okp_try.
  - unfold openJobInput. eapply okp_weaken; [|repeat safe_step]. intros l4 plain w4 _ _. cbn beta.
    apply okp_bind. eapply okp_weaken; [|apply (ran_okp _ (fun _ => True))].
    + intros l5 out w5 _ _. by apply outcome_safe2.
    + apply (worker_runner_safe2 _ _ Hjr), recorder_safe2. cbn [ID job with_input]. congruence.
  - intros e l4 w4 _. destruct e; try apply okp_throw; [by apply bury_safe2|].
    destruct err; try apply okp_throw. by apply bury_safe2.
Qed.

(** A claim of this job. *)
Lemma handle_this c hooks l w :
  FailHook hooks = None -> fail_ c = false -> durable (ID (job c)) = d -> claim_job c ->
  safe (handle priv worker_registry c hooks) l w.
Proof.
  intros Hh Hf Hd Hc. destruct (Hc Hd) as (Hfs & Hid & Ht & Hin). unfold handle. cbv zeta.
  set (c1 := applyHooks c hooks).
  assert (Hf1 : fail_ c1 = false) by (cbn; by rewrite Hf, Hh).
  change (ID (job c)) with (ID (job c1)) in Hid. change (TenantID (job c)) with (TenantID (job c1)) in Ht.
  change (Input (job c)) with (Input (job c1)) in Hin. change (c_fields c) with (c_fields c1) in Hfs.
  clearbody c1. clear Hc Hf Hd.
  apply okp_seq; [apply finishJournaled_safe2|]. intros [] l1 w1 _; [safe_step|].
  apply okp_bind. eapply okp_weaken; [|apply okp_load]. intros l2 st w2 _ Hst. specialize (Hst Hid).
  rewrite Hid in Hst. change (st_ok st) in Hst.
  apply okp_bind, okp_put. intros w3 _ _. rewrite Hfs.
  assert (Hty : (if seqb (field "job_type" (j_fields j)) [] then "redact"%go
                 else field "job_type" (j_fields j)) = "redact"%go).
  { destruct (wf_type _ Hwf) as [-> | ->]; done. }
  rewrite Hty, redact_registered, Hin, Hid. apply awp_try; [exact _|].
  eapply awp_weaken; [exact _| |apply openJobInput_job].
  intros l4 [plain|e] w4 _ Hr; cbn beta in Hr.
  - destruct Hr as [-> ->]. cbv zeta. cbn [job with_input Input TenantID ID].
    apply okp_bind. eapply okp_weaken; [|apply (ran_okp _ (fun out => out = j_out j))].
    + intros l5 out w5 _ Hout. cbn beta in Hout.
      apply (outcome_safe2 (with_input c1 (j_plain j))); [done|]. intros _. exact Hout.
    + rewrite Ht. by apply run_job.
  - destruct Hr as [He1 He2]. destruct e; try done. destruct err; try done; apply okp_throw.
Qed.

Lemma handle_safe2 c hooks l w :
  FailHook hooks = None -> fail_ c = false -> claim_job c ->
  safe (handle priv worker_registry c hooks) l w.
Proof.
  intros Hh Hf Hc. destruct (decide (durable (ID (job c)) = d)); [by apply handle_this|by apply handle_other].
Qed.

(** *** Delivery *)

(** A message of an entry that carries its own identifier, and is this job's
    entry if it names this job. *)
Definition msg_job (msg : gostring * gmap gostring value) : Prop :=
  exists i f, id_ok i /\ msg = message (i, f) /\ field "id" f <> [] /\ (job_of f = d -> f = j_fields j).

Lemma stream_msg_job w i f : Inv2 w -> (i, f) ∈ stream (redis w) -> msg_job (message (i, f)).
Proof.
  intros [Hi Hj] Hin. exists i, f. split; [by eapply inv_ids|]. split; [done|]. by eapply job_entry.
Qed.

Lemma dispatch_safe2 hooks msg l w :
  FailHook hooks = None -> msg_job msg -> safe (dispatch priv worker_registry hooks msg) l w.
Proof.
  intros Hh (i & f & Hok & -> & Hid & Hf). unfold dispatch. cbv zeta.
  rewrite valuesToFields_message. cbn [fst message]. rewrite Parse_String by done.
  cbn [of_result]. apply okp_bind, okp_ret. intros w' _ _.
  unfold parseClaim, parseJob. rewrite (proj2 (seqb_neq _ _) Hid).
  destruct (seqb (field "input" f) []); cbn [mbind result_bind]; [unfold finish; safe_step|].
  destruct (seqb (field "tenant_id" f) []); cbn [mbind result_bind].
  - unfold deadLetterMissingTenant. cbv zeta. repeat safe_step. apply settle_safe2.
  - apply handle_safe2; [done..|]. intros Hd. cbn [job ID c_fields TenantID Input] in *.
    by rewrite (Hf Hd).
Qed.

Lemma dispatch_all_safe2 hooks msgs l w :
  FailHook hooks = None -> Forall msg_job msgs ->
  safe (dispatch_all priv worker_registry hooks msgs) l w.
Proof.
  intros Hh Hall. revert l w. induction Hall as [|msg msgs Hm _ IH]; intros l w; cbn [dispatch_all].
  { by apply okp_ret. }
  apply okp_seq; [by apply dispatch_safe2|]. intros. apply IH.
Qed.

Lemma okp_messages2 c (Q : _ -> reply c -> _ -> Prop) (msgs : reply c -> list (gostring * gmap gostring value)) l w :
  free c = true ->
  (forall w' a, (exec c w').2 = Ok a -> forall msg, msg ∈ msgs a ->
     exists i f, (i, f) ∈ stream (redis w') /\ msg = message (i, f)) ->
  (forall w2 a, Forall msg_job (msgs a) -> Q l a w2) ->
  okp (ask c) Q l w.
Proof.
  intros Hc Hin HQ. apply okp_reply; [intros; safe_cmd|]. intros w' w2 a _ Hi E _ _.
  apply HQ, Forall_forall. intros msg Hmsg. destruct (Hin w' a E msg Hmsg) as (i & f & Hf & ->).
  by eapply stream_msg_job.
Qed.

Lemma turn_safe2 cfg dp l w :
  Registry dp = worker_registry -> FailHook (DepsHooks dp) = None -> safe (turn priv cfg dp) l w.
Proof.
  intros Hreg Hh. unfold turn. rewrite Hreg. apply okp_bind.
  apply (okp_messages2 (CXAutoClaim (Consumer cfg) (Idle cfg)) _ (fun msgs => msgs));
    [done|intros; by eapply autoclaim_messages|].
  intros w2 msgs Hall. apply okp_seq; [by apply dispatch_all_safe2|]. intros _ l3 w3 _.
  apply okp_try.
  - apply (okp_messages2 (CXReadGroup (Consumer cfg)) _ (fun msgs => msgs));
      [done|intros; by eapply readgroup_messages|].
    intros w4 msgs' Hall'. by apply dispatch_all_safe2.
  - intros e l4 w4 _. destruct e; try apply okp_throw. safe_step.
Qed.

Lemma RunGroup_safe2 cfg dp n l w :
  Registry dp = worker_registry -> FailHook (DepsHooks dp) = None -> safe (RunGroup priv cfg dp n) l w.
Proof.
  intros Hreg Hh. unfold RunGroup. destruct (ready priv dp); [apply okp_throw|].
  destruct (valid cfg) as [|[]]; try apply okp_throw. revert l w.
  induction n as [|n IH]; intros l w; cbn [loop]; [apply okp_throw|].
  apply okp_seq; [by apply turn_safe2|]. intros. apply IH.
Qed.

(** ** Every interleaving *)

Abbreviation program2 := (program_of priv d).

Lemma program2_program p : program2 p -> program priv p.
Proof.
  intros [cfg dp n Hr Hh|hk jb Ht Hne|id| |cfg dp n Hr Hh]; constructor; try done; rewrite Hr; apply worker_registry_safe.
Qed.

Lemma optional_field (k k' v : gostring) f : k <> k' -> field k (optional k' v f) = field k f.
Proof. intros Hk. unfold optional. destruct (seqb v []); [done|]. unfold field. by rewrite lookup_insert_ne. Qed.

Lemma optional_same (k v : gostring) f : field k f = [] -> field k (optional k v f) = v.
Proof.
  intros Hk. unfold optional. destruct (seqb v []) eqn:E; [by apply seqb_eq in E as ->|].
  unfold field. by rewrite lookup_insert_eq.
Qed.

(** The fields [Add] writes for a job. *)
Definition entry_of (jb : Job) : gmap gostring gostring :=
  optional "job_type" (JobType jb) (optional "tenant_id" (TenantID jb)
    (optional "id" (ID jb) {["input"%go := Input jb]})).

Lemma entry_of_field jb :
  field "id" (entry_of jb) = ID jb /\ field "tenant_id" (entry_of jb) = TenantID jb /\
  field "job_type" (entry_of jb) = JobType jb /\ field "input" (entry_of jb) = Input jb.
Proof.
  unfold entry_of. rewrite !(optional_field "input") by done.
  rewrite (optional_field "id" "job_type"), (optional_field "id" "tenant_id") by done.
  rewrite (optional_field "tenant_id" "job_type") by done.
  rewrite (optional_same "id"), (optional_same "tenant_id"), (optional_same "job_type").
  - split; [done|]. split; [done|]. split; [done|]. unfold field. by rewrite lookup_singleton_eq.
  - rewrite !optional_field by done. unfold field. by rewrite lookup_singleton_ne.
  - rewrite !optional_field by done. unfold field. by rewrite lookup_singleton_ne.
  - unfold field. by rewrite lookup_singleton_ne.
Qed.

Lemma Add_safe2 has_keys jb l w : durable (ID jb) <> d -> safe (Add has_keys jb) l w.
Proof.
  intros Hne. unfold Add. destruct has_keys; [|apply okp_throw]. cbn [negb].
  destruct (seqb (ID jb) []) eqn:Eid; [apply okp_throw|]. apply seqb_neq in Eid.
  apply okp_seq; [safe_step|]. intros key l1 w1 _.
  apply okp_seq; [by eapply okp_safe, okp_Seal|]. intros sealed l2 w2 _.
  apply safe_ask. intros w3 _. apply (xadd_free (entry_of (MkJob (ID jb) sealed (TenantID jb) (JobType jb)))).
  - by rewrite (proj1 (entry_of_field _)).
  - unfold job_of. by rewrite (proj1 (entry_of_field _)).
Qed.

Lemma PrepareGroup_safe2 l w : safe PrepareGroup l w.
Proof.
  unfold PrepareGroup, ensureGroup. apply okp_try.
  - eapply okp_weaken; [|by apply safe_ask; intros; safe_cmd]. intros. safe_step.
  - intros e l' w' _. destruct e; repeat safe_step.
Qed.

Lemma program2_safe p w : program2 p -> wp exec fallible lost Inv2 mono need2 p (fun _ _ => True) w.
Proof.
  assert (Hd : forall E A (m : M E A), safe m None w ->
    wp exec fallible lost Inv2 mono need2 (discard m) (fun _ _ => True) w).
  { intros E A m Hm. apply wp_andThen; [exact _|]. eapply wp_weaken; [exact _| |exact Hm]. done. }
  intros [cfg dp n Hreg Hh|has_keys jb Ht Hne|jobID| |cfg dp n Hreg Hh]; apply Hd.
  - by apply RunGroup_safe2.
  - by apply Add_safe2.
  - unfold JobRunning. repeat safe_step.
  - apply PrepareGroup_safe2.
  - apply okp_seq; [apply PrepareGroup_safe2|]. intros. by apply RunGroup_safe2.
Qed.

Lemma reach_once w w' ps :
  Inv2 w -> rtc (step exec fallible lost program2) (w, []) (w', ps) -> Inv2 w' /\ mono w w'.
Proof.
  intros Hi Hs. destruct (steps_safe exec fallible lost program2 Inv2 mono (w, []) (w', ps))
    as (Hi' & Hm & _); [|exact Hs| |done].
  - intros p v Hp _. eapply wp_weaken; [exact _| |eapply (wp_and exec fallible lost Inv Inv2 mono (given Inv mono) need2)].
    + done.
    + by intros v' [? _].
    + done.
    + intros v0 v' [Hi1 Hm1] Hj. by split.
    + by apply (program_safe priv), program2_program.
    + by apply program2_safe.
  - split; [done|]. intros p Hp. by apply elem_of_nil in Hp.
Qed.
End once.

(** ** From the producer to the journal *)

Section from_producer.
Context `{!StreamIDs, !StreamIDsLaws, !Sources, !SourcesLaws, !Journal.JobIDs, !Seal.UUID}.
Context `{!Seal.AEAD, !Seal.AEADLaws, !Seal.Ed25519} (priv : gostring).
Context {K RS J : Type}.
Context `{!Seal.KeyStore K, !Seal.KeyStoreLaws K, !Seal.ReceiptStore RS, !Seal.ReceiptStoreLaws RS}.
Context `{!Journal.Store J, !StoreLaws J}.
Implicit Types w : world K RS J.

Abbreviation durable := Journal.DurableIDFor.

(** A job that a producer may add for redaction under the default policy, and
    of which the system has not heard. *)
Record new_job (jb : Job) (text : gostring) w : Prop := {
  new_tenant : exists u, Seal.uuid_parse (TenantID jb) = Some u /\ Policy.policies (policies w) !! u = None;
  new_tenant_set : TenantID jb <> [];
  new_type : JobType jb = [] \/ JobType jb = "redact"%go;
  new_input : jlookup "input" (jobInput (Input jb) (TenantID jb)) = Some (JStr text);
  new_utf8 : valid_utf8 text;
  new_small : small_text text;
  new_row : row_at w (durable (ID jb)) = None;
  new_output : Journal.output_of (journal w) (ID jb) = None;
  new_mem : hashes (redis w) !! memKey (ID jb) = None;
}.

(** What a successful [Add] leaves behind. *)
Lemma Add_result jb w w1 l :
  Seal.keys_ok (keys w) -> arun exec (Add true jb) None w = (w1, (l, Ok tt)) ->
  exists key sealed i, ID jb <> [] /\ Seal.Open key sealed = Ok (Input jb) /\
    key_at w1 (durable (ID jb)) = Seal.Live key /\
    stream (redis w1) = stream (redis w) ++ [(i, entry_of (MkJob (ID jb) sealed (TenantID jb) (JobType jb)))] /\
    hashes (redis w1) = hashes (redis w) /\ journal w1 = journal w /\ policies w1 = policies w.
Proof.
  intros Hk. unfold Add. cbn [negb]. destruct (seqb (ID jb) []) eqn:Eid; [done|]. apply seqb_neq in Eid.
  unfold Seal_, enqueue. do 2 alone_step. cbn [exec fst snd].
  pose proof (rand_length (draws w) 32) as Hl.
  pose proof (Seal.Ensure_spec (rand (draws w) 32) (durable (ID jb)) (keys w) Hl Hk) as Hs.
  pose proof (Seal.Ensure_view (rand (draws w) 32) (durable (ID jb)) (keys w) (durable (ID jb)) Hl Hk) as Hv.
  rewrite decide_True in Hv by done.
  destruct (Seal.Ensure _ _ (keys w)) as [ks kr]. cbn [fst snd] in *. rewrite Hs. clear Hs.
  assert (Hlive : forall key, match Seal.key_of (keys w) (durable (ID jb)) with
      | Seal.Live k => Ok k | Seal.Destroyed _ => Err Seal.KeyDestroyed | Seal.Absent => Ok (rand (draws w) 32)
      end = Ok key -> Seal.key_of ks (durable (ID jb)) = Seal.Live key).
  { intros key. destruct (Seal.key_of (keys w) (durable (ID jb))) eqn:E; intros [= <-]; congruence. }
  clear Hv. destruct (match Seal.key_of (keys w) _ with Seal.Live k => _ | _ => _ end) as [key|e]; [|done].
  specialize (Hlive key eq_refl). cbn [map_error]. do 3 alone_step. cbn [exec fst snd].
  set (w2 := draw (set_keys ks w)).
  destruct (sealed_opens key (rand (draws w2) Seal.nonceSize) (Input jb) (rand_length _ _)) as (sealed & E & Ho).
  rewrite E. cbn [of_result]. do 2 alone_step. cbn [exec fst snd ID Input TenantID JobType].
  change (optional "job_type" (JobType jb) _) with (entry_of (MkJob (ID jb) sealed (TenantID jb) (JobType jb))).
  unfold xadd. cbn [draw redis set_keys w2]. destruct (auto_id _ _) as [i|]; cbn [mbind option_bind]; [|done].
  intros [= <- <-]. exists key, sealed, i. done.
Qed.

Lemma Open_nonempty key plain : Seal.Open key [] <> Ok plain.
Proof. done. Qed.

Lemma Add_once jb text w w1 l :
  fresh w -> new_job jb text w -> arun exec (Add true jb) None w = (w1, (l, Ok tt)) ->
  exists j : the_job, job_wf j /\ j_id j = ID jb /\ j_tenant j = TenantID jb /\ j_text j = text /\ Job_inv j w1.
Proof.
  intros Hf Hn Ha. destruct (Add_result jb w w1 l (inv_keys _ (fresh_Inv _ Hf)) Ha)
    as (key & sealed & i & Hid & Ho & Hk & Hs & Hh & Hj & Hp).
  destruct (new_tenant _ _ _ Hn) as (u & Hu & Hpol).
  set (f := entry_of (MkJob (ID jb) sealed (TenantID jb) (JobType jb))) in *.
  destruct (entry_of_field (MkJob (ID jb) sealed (TenantID jb) (JobType jb))) as (F1 & F2 & F3 & F4).
  fold f in F1, F2, F3, F4. cbn [ID TenantID JobType Input] in *.
  exists (Build_the_job f key (Input jb) text u). split; [|split; [exact F1|split; [exact F2|split; [done|]]]].
  - split; unfold j_tenant; cbn [j_fields j_key j_plain j_text j_uuid]; rewrite ?F2, ?F3, ?F4; try apply Hn; try done.
    split; [|rewrite F1, F2; split; [done|apply Hn]]. rewrite F4. intros ->. by apply Open_nonempty in Ho.
  - split; unfold j_id, row_at; cbn [j_fields j_key j_plain j_text j_uuid]; rewrite ?F1, ?Hj, ?Hh, ?Hp.
    + intros i' f' Hin. rewrite Hs, (fresh_stream _ Hf) in Hin. apply list_elem_of_singleton in Hin as [= -> ->].
      by rewrite F1.
    + by left.
    + rewrite (new_mem _ _ _ Hn). done.
    + pose proof (new_row _ _ _ Hn) as Hr. unfold row_at in Hr. by rewrite Hr.
    + by rewrite (new_output _ _ _ Hn).
    + done.
Qed.

(** Whatever happens after a successful [Add], the invariants hold. *)
Lemma Add_reach jb text w0 w1 l w ps :
  fresh w0 -> new_job jb text w0 -> arun exec (Add true jb) None w0 = (w1, (l, Ok tt)) ->
  rtc (step exec fallible lost (program_of priv (durable (ID jb)))) (w1, []) (w, ps) ->
  exists j : the_job, job_wf j /\ j_id j = ID jb /\ j_tenant j = TenantID jb /\ j_text j = text /\
    Inv w /\ Job_inv j w.
Proof.
  intros Hf Hn Ha Hs. destruct (Add_once jb text w0 w1 l Hf Hn Ha) as (j & Hwf & Hid & Ht & Htx & Hj).
  assert (Hi : Inv w1).
  { destruct (reachable_run exec fallible lost (program priv) w0 w0 (discard (Add true jb))) as [qs Hq];
      [by exists []|apply producer, Hn|].
    destruct (reach_safe priv w0 _ qs (fresh_Inv _ Hf) Hq) as [Hi _].
    unfold discard in Hi. rewrite run_andThen in Hi. unfold arun in Ha. by rewrite Ha in Hi. }
  destruct (reach_once priv j Hwf w1 w ps) as [[Hiw Hjw] _]; [by split|by rewrite Hid|]. eauto 8.
Qed.

(** C1 [one_result]: a producer adds a redaction job under the default policy to
    a fresh system.  From then on workers, producers of other jobs and readers
    interleave in any way, commands are refused, replies are lost, processes are
    killed, the entry is delivered any number of times and checkpoints are taken
    and resumed.  Whatever the journal says of the job is right: its row and its
    output are COMPLETED with the result of [RedactPII] on the job's text, or
    FAILED with the error the code records when its policy could not be
    loaded. *)
Theorem one_result jb text w0 w1 l w ps :
  fresh w0 -> new_job jb text w0 -> arun exec (Add true jb) None w0 = (w1, (l, Ok tt)) ->
  rtc (step exec fallible lost (program_of priv (durable (ID jb)))) (w1, []) (w, ps) ->
  exists r m, Redact.RedactPII text = Some r /\ Redact.MapResult r = Some m /\
    (forall row, row_at w (durable (ID jb)) = Some row ->
       Journal.FinalState row = Journal.COMPLETED /\ Journal.Checksum row = Journal.ChecksumOf m \/
       Journal.FinalState row = Journal.FAILED /\ Journal.Checksum row = Journal.ChecksumOf failed_result) /\
    (forall o, Journal.output_of (journal w) (ID jb) = Some o ->
       Journal.out_state o = Journal.COMPLETED /\ Journal.Body o = Journal.BodyOf m \/
       Journal.out_state o = Journal.FAILED /\ Journal.Body o = Journal.BodyOf failed_result).
Proof.
  intros Hf Hn Ha Hs. destruct (Add_reach jb text w0 w1 l w ps Hf Hn Ha Hs)
    as (j & Hwf & Hid & _ & Htx & _ & Hjw).
  exists (final_result text), (result_map (final_result text)).
  split; [apply final_result_RedactPII|]. split; [by apply MapResult_map, final_result_wf; apply Hn|].
  rewrite <- Hid, <- Htx. split.
  - intros row Hr. destruct (job_row _ _ Hjw row Hr) as (s & m & [[-> ->]|[-> ->]] & E1 & E2); auto.
  - intros o Ho. destruct (job_output _ _ Hjw o Ho) as (s & m & [[-> ->]|[-> ->]] & E1 & E2); auto.
Qed.
End from_producer.

(** ** The concrete system of [QueueSpec] *)

#[local] Existing Instance toy_ids.
#[local] Existing Instance toy_uuid.
#[local] Existing Instance toy_aead.
#[local] Existing Instance toy_aead_laws.
#[local] Existing Instance toy_ed25519.
#[local] Existing Instance Seal.memory_keys.
#[local] Existing Instance Seal.memory_receipts.
#[local] Existing Instance Journal.memory_journal.

Lemma toy_new : new_job toy_job "a@b.co" toy_start.
Proof. split; try done; [by eexists|by right|by apply ascii_key]. Qed.

Lemma toy_Add : arun exec (Add true toy_job) None toy_start = (toy_added, (None, Ok tt)).
Proof.
  unfold toy_added, discard. rewrite run_andThen. unfold arun.
  rewrite (surjective_pairing (run exec (Add true toy_job None) toy_start)) at 1.
  f_equal.
Qed.

Lemma toy_done_once : exists ps,
  rtc (step exec fallible lost (program_of toy_key "id:j1")) (toy_added, []) (toy_done, ps).
Proof. apply reachable_run; [by exists []|]. by apply a_worker. Qed.

Lemma one_result_witness :
  exists r m, Redact.RedactPII "a@b.co" = Some r /\ Redact.MapResult r = Some m /\
    (forall row, row_at toy_done "id:j1" = Some row ->
       Journal.FinalState row = Journal.COMPLETED /\ Journal.Checksum row = Journal.ChecksumOf m \/
       Journal.FinalState row = Journal.FAILED /\ Journal.Checksum row = Journal.ChecksumOf failed_result) /\
    (forall o, Journal.output_of (journal toy_done) "j1" = Some o ->
       Journal.out_state o = Journal.COMPLETED /\ Journal.Body o = Journal.BodyOf m \/
       Journal.out_state o = Journal.FAILED /\ Journal.Body o = Journal.BodyOf failed_result).
Proof.
  destruct toy_done_once as [ps Hs].
  exact (one_result toy_key toy_job "a@b.co"%go toy_start toy_added None toy_done ps toy_fresh toy_new toy_Add Hs).
Defined.
