(* ===== verification/QueueStores.v ===== *)
(** * What the stores must take for a job to end

    [Accepting] is what [QueueLive] asks of the receipts and the journal: that they take
    what a worker writes for a job of a tenant.  The stores in memory always do.  Those of
    Postgres do when the tenant exists, Postgres takes the text of the ledger entry, and
    the tenant's ledger is in order; a receipt leaves a ledger in order. *)

From S2P Require Import Prelude GoStd GoTime Json JsonSpec Ledger LedgerSpec Seal SealSpec Journal JournalSpec.

Class Accepting `{!Journal.JobIDs} {RS J} `{!Seal.ReceiptStore RS, !Journal.Store J} (tenant id : gostring) := {
  in_order : RS -> Prop;
  has_room : RS -> Prop;
  insert_in_order r s : in_order s -> in_order (fst (Seal.Insert r s));
  accept_insert r s : in_order s -> has_room s -> Seal.TenantID r = tenant -> Seal.RedisJobID r = id ->
    (exists pub, Seal.ReceiptKeyID r = Seal.SigningKeyID pub) -> Seal.Get (Seal.JobID r) s = None ->
    exists b, snd (Seal.Insert r s) = Ok b;
  accept_record r row s : Journal.TenantID r = tenant -> Journal.JobType r = "redact"%go ->
    Journal.parseTerminal r = Ok row -> Journal.row_of s (Journal.DurableIDFor (Journal.ID r)) = None ->
    snd (Journal.Record_ r s) = Ok tt;
}.

#[local] Existing Instance Seal.memory_receipts.
#[local] Existing Instance Journal.memory_journal.

#[export] Instance memory_accepting `{!Journal.JobIDs} tenant id :
  Accepting (RS := Seal.MemoryReceiptStore) (J := Journal.MemoryJournal) tenant id.
Proof.
  refine {| in_order _ := True; has_room _ := True |}.
  - done.
  - intros r s _ _ _ _ _ Hn. cbn in *. rewrite Hn. by exists true.
  - intros r row s _ _ Hp Hn. cbn in *. unfold Journal.memory_Record. rewrite Hp.
    destruct (parseTerminal_Ok _ _ Hp) as (-> & _). by rewrite Hn.
Defined.

(** ** The ledger of a tenant *)

Definition entries (u : Ledger.uuid) (d : Ledger.db) : list Ledger.row :=
  filter (fun r => Ledger.tenant_id r = u) (Ledger.audit_ledger d).

(** The tenant is there, and its head counts its entries. *)
Definition counted (u : Ledger.uuid) (d : Ledger.db) : Prop :=
  u ∈ Ledger.tenants d /\
  match Ledger.ledger_heads d !! u with
  | None => entries u d = []
  | Some (s, _) => s = glen (entries u d) /\ forall r, r ∈ entries u d -> (Ledger.seq r <= s)%Z
  end.

(** As long as its entries can be counted in 64 bits. *)
Definition ledger_in_order (u : Ledger.uuid) (d : Ledger.db) : Prop := (glen (entries u d) < 2 ^ 63)%Z -> counted u d.

Section ledger.
Context (jsonb : gostring -> option gostring).

Lemma entries_snoc u d r heads :
  entries u (Ledger.Db (Ledger.tenants d) (Ledger.audit_ledger d ++ [r]) heads) =
  entries u d ++ (if decide (Ledger.tenant_id r = u) then [r] else []).
Proof. unfold entries. cbn. by rewrite filter_app, filter_cons, filter_nil. Qed.

(** What [Append] does to the tables when it succeeds. *)
Lemma Append_adds t k p at_ d d' : Ledger.Append jsonb t k p at_ d = Ok d' ->
  exists r h, Ledger.audit_ledger d' = Ledger.audit_ledger d ++ [r] /\
    Ledger.tenant_id r = t /\ Ledger.tenants d' = Ledger.tenants d /\
    Ledger.ledger_heads d' = <[t := (Ledger.seq r, h)]> (Ledger.ledger_heads d) /\
    Ledger.seq r = Ledger.wrap64 (match Ledger.ledger_heads d !! t with Some (s, _) => s | None => 0%Z end + 1) /\
    t ∈ Ledger.tenants d.
Proof.
  unfold Ledger.Append, Ledger.insert_head, Ledger.insert_row, Ledger.update_head. cbv zeta.
  destruct (Ledger.ledger_heads d !! t) as [[s h]|] eqn:E.
  - cbn [mbind result_bind]. rewrite E. cbn [Ledger.payload].
    destruct (jsonb _); [|done]. destruct (existsb _ _); [done|]. cbn [Ledger.tenant_id].
    destruct (bool_decide _) eqn:Et; [|done]. apply bool_decide_eq_true in Et. cbn [mbind result_bind Ledger.ledger_heads].
    rewrite E. intros [= <-]. eexists _, _. cbn. split; [reflexivity|]. by split_and!.
  - destruct (bool_decide _) eqn:Et; [|done]. cbn [mbind result_bind Ledger.ledger_heads]. rewrite lookup_insert_eq.
    cbn [Ledger.payload]. destruct (jsonb _); [|done]. destruct (existsb _ _); [done|].
    cbn [Ledger.tenant_id Ledger.tenants]. rewrite Et. apply bool_decide_eq_true in Et. cbn [mbind result_bind Ledger.ledger_heads].
    rewrite lookup_insert_eq. intros [= <-]. eexists _, _. cbn. rewrite insert_insert_eq. split; [reflexivity|]. by split_and!.
Qed.

Lemma Append_in_order u t k p at_ d d' : Ledger.Append jsonb t k p at_ d = Ok d' ->
  ledger_in_order u d -> ledger_in_order u d'.
Proof.
  intros (r & h & El & Hr & Et & Eh & Es & Ht)%Append_adds Ho Hb. destruct d' as [ts l hs]. cbn in Et, El, Eh. subst ts l hs.
  rewrite entries_snoc in Hb. unfold counted. cbn [Ledger.tenants Ledger.ledger_heads]. rewrite entries_snoc.
  destruct (decide (Ledger.tenant_id r = u)) as [E|E].
  - rewrite Hr in E. subst u. rewrite glen_snoc in *. destruct Ho as [Hin Hc]; [lia|]. split; [done|].
    rewrite lookup_insert_eq, Es. assert (0 <= glen (entries t d))%Z by (unfold glen; lia).
    destruct (Ledger.ledger_heads d !! t) as [[s h']|].
    + destruct Hc as [-> Hs]. rewrite wrap64_id by lia. split; [done|]. intros x [Hx|Hx]%elem_of_app.
      * apply Hs in Hx. lia.
      * apply list_elem_of_singleton in Hx as ->. rewrite Es, wrap64_id by lia. lia.
    + rewrite Hc in *. cbn [app]. split; [done|]. intros x Hx%list_elem_of_singleton. subst x. by rewrite Es.
  - rewrite app_nil_r in *. destruct (Ho Hb) as [Hin Hc]. split; [done|]. rewrite lookup_insert_ne; [done|]. by rewrite <- Hr.
Qed.

(** A ledger in order takes a text that Postgres takes. *)
Lemma Append_takes t k p at_ d :
  ledger_in_order t d -> (glen (entries t d) < 2 ^ 63 - 1)%Z -> is_Some (jsonb (Ledger.canonicalPayload p)) ->
  is_ok (Ledger.Append jsonb t k p at_ d) = true.
Proof.
  intros Ho Hb [x Hx]. destruct Ho as [Hin Hc]; [lia|]. assert (0 <= glen (entries t d))%Z by (unfold glen; lia).
  assert (Hfree : forall n, (forall r, r ∈ entries t d -> (Ledger.seq r < n)%Z) ->
    existsb (fun x => seqb (Ledger.tenant_id x) t && (Ledger.seq x =? n)%Z) (Ledger.audit_ledger d) = false).
  { intros n Hn. apply not_true_is_false. rewrite existsb_exists. intros (r & Hr%list_elem_of_In & [Et%seqb_eq Es%Z.eqb_eq]%andb_true_iff).
    assert (Hlt : (Ledger.seq r < n)%Z); [|lia]. apply Hn. unfold entries. by apply list_elem_of_filter. }
  unfold Ledger.Append, Ledger.insert_head, Ledger.insert_row, Ledger.update_head. cbv zeta.
  destruct (Ledger.ledger_heads d !! t) as [[s h]|] eqn:E.
  - destruct Hc as [-> Hs]. cbn [mbind result_bind]. rewrite E. cbn [Ledger.payload Ledger.tenant_id Ledger.seq]. rewrite Hx.
    rewrite wrap64_id by lia. rewrite Hfree by (intros r Hr%Hs; lia). by rewrite bool_decide_eq_true_2.
  - rewrite bool_decide_eq_true_2 by done. cbn [mbind result_bind Ledger.ledger_heads]. rewrite lookup_insert_eq.
    cbn [Ledger.payload Ledger.tenant_id Ledger.seq Ledger.audit_ledger Ledger.tenants]. rewrite Hx.
    rewrite Hfree by (rewrite Hc; by intros r ?%elem_of_nil). by rewrite bool_decide_eq_true_2.
Qed.
End ledger.

(** ** The stores of Postgres *)

Section postgres.
Context `{!Journal.JobIDs, !Seal.UUID} (jsonb : gostring -> option gostring) (tenant_valid tenant_exists : gostring -> bool).
#[local] Instance pg_receipts_here : Seal.ReceiptStore Seal.pgReceipts := Seal.pg_receipt_store jsonb.
#[local] Instance pg_journal_here : Journal.Store Journal.pgJournal := Journal.pg_journal tenant_valid tenant_exists.

(** Postgres takes the text of the entry for the receipt of the job [id]; it does for
    every text without a zero character. *)
Definition takes_receipt (id : gostring) : Prop :=
  forall r pub, Seal.RedisJobID r = id -> Seal.ReceiptKeyID r = Seal.SigningKeyID pub ->
    is_Some (jsonb (Ledger.canonicalPayload (Marshal (Seal.receipt_payload r)))).

Lemma SigningKeyID_valid pub : valid_utf8 (Seal.SigningKeyID pub).
Proof.
  unfold Seal.SigningKeyID. destruct (_ <? _); [constructor|].
  apply ascii_text_valid, forallb_forall. intros b Hb%list_elem_of_In.
  pose proof (hex_encode_hex (take 8 pub)) as Hh. rewrite Forall_forall in Hh. apply Hh in Hb.
  revert Hb. clear. by destruct b.
Qed.

Definition pg_accepting tenant id u :
  tenant <> [] -> Seal.uuid_parse tenant = Some u -> tenant_valid tenant = true -> tenant_exists tenant = true -> takes_receipt id ->
  Accepting (RS := Seal.pgReceipts) (J := Journal.pgJournal) tenant id.
Proof.
  intros Hne Hu Hv He Hj. refine {|
    in_order s := ledger_in_order u (Seal.audit s);
    has_room s := (glen (entries u (Seal.audit s)) < 2 ^ 63 - 1)%Z;
  |}.
  - intros r s Ho. cbn. unfold Seal.pg_Insert. destruct (Seal.purge_receipts s !! _); [done|]. destruct (seqb _ _); [done|].
    destruct (Seal.uuid_parse (Seal.TenantID r)); [|done]. destruct (Ledger.AppendSQL jsonb _ _ _ _ _) eqn:E; [|done]. cbn.
    by eapply Append_in_order.
  - intros r s Ho Hr Ht Hid [pub Hp] Hn. cbn in *. unfold Seal.pg_Insert. rewrite Hn. destruct (seqb _ _); [by exists true|].
    rewrite Ht, Hu. pose proof (Append_takes jsonb u "purge_receipt" (Marshal (Seal.receipt_payload r)) (Seal.PurgedAt r)
      (Seal.audit s) Ho Hr (Hj r pub Hid Hp)) as Ha. unfold Ledger.AppendSQL.
    destruct (Ledger.Append jsonb _ _ _ _ _); [by exists true|done].
  - intros r row s Ht Hty Hp Hn. cbn in *. unfold Journal.pg_Record. rewrite Ht, (proj2 (seqb_neq _ _) Hne).
    rewrite Hp, ?Ht, Hv, He. cbn [negb]. cbv zeta.
    destruct (parseTerminal_Ok _ _ Hp) as (Es & _).
    destruct (Journal.jobs s !! Journal.DurableIDFor (Journal.ID r)) eqn:Ej; [done|].
    unfold Journal.parseTerminal in Hp. destruct (last _); [|done]. destruct (_ && _); [done|]. destruct (find _ _); [|done].
    injection Hp as <-. cbn [Journal.stored_type Journal.stored_id]. rewrite Hty, Ej.
    by destruct (Journal.pg_outputs s !! Journal.ID r).
Defined.
End postgres.

(** A JSONB column that takes the texts [Unmarshal] reads takes the text of a receipt. *)
Lemma takes_marshal id : valid_utf8 id -> takes_receipt jsonb_marshal id.
Proof.
  intros Hid r pub <- Hk. unfold jsonb_marshal.
  erewrite canonicalPayload_Unmarshal; [by eexists|]. apply Unmarshal_Marshal, receipt_payload_wf; [done|].
  rewrite Hk. apply SigningKeyID_valid.
Qed.
