(* ===== verification/QueueLive.v ===== *)
(** * Recovery: an undisturbed delivery finishes the job

    [QueueOnce] says that a job's result is right if there is one.  This file
    says that there will be one: in whatever state crashes, lost replies and
    other processes have left the system, the next delivery of the job's entry
    that is not disturbed leaves the job recorded, receipted and purged, and its
    entry gone. *)

From S2P Require Import Prelude GoStd GoTime Json JsonSpec Ledger LedgerSpec Policy Runner Redact RedactSpec Seal SealSpec Journal JournalSpec Proc Queue QueueSafe QueueLogic QueueSpec QueueOnce QueueStores.
Import Proc Queue.

Section live.
Context `{!StreamIDs, !StreamIDsLaws, !Sources, !SourcesLaws, !Journal.JobIDs, !Seal.UUID}.
Context `{!Seal.AEAD, !Seal.AEADLaws, !Seal.Ed25519} (priv : gostring).
Context {K RS J : Type}.
Context `{!Seal.KeyStore K, !Seal.KeyStoreLaws K, !Seal.ReceiptStore RS, !Seal.ReceiptStoreLaws RS}.
Context `{!Journal.Store J, !StoreLaws J}.
Implicit Types w : world K RS J.
Abbreviation durable := Journal.DurableIDFor.

Context (j : the_job) (Hwf : job_wf j) `{!Accepting (RS := RS) (J := J) (j_tenant j) (j_id j)}.
Abbreviation d := (durable (j_id j)).

(** ** What a step leaves alone *)

Record frame w w' : Prop := {
  fr_stream : stream (redis w') = stream (redis w);
  fr_journal : journal w' = journal w;
  fr_receipts : receipts w' = receipts w;
  fr_policies : policies w' = policies w;
  fr_keys_ok : Seal.keys_ok (keys w) -> Seal.keys_ok (keys w');
  fr_key k : Seal.keys_ok (keys w) -> key_at w d = Seal.Live k -> key_at w' d = Seal.Live k;
}.

#[local] Instance frame_preorder : PreOrder frame.
Proof.
  split; [by split|]. intros w1 w2 w3 [] []. split; try congruence; eauto.
Qed.

(** A part of the work that succeeds, leaves everything else alone, and returns
    with [P]. *)
Definition quietly {E A} (m : M E A) (P : option memState -> A -> world K RS J -> Prop)
    (l : option memState) w : Prop :=
  total m (fun l' a w' => frame w w' /\ P l' a w') l w.

Lemma quietly_bind {E A B} (m : M E A) (f : A -> M E B) P (Q : _ -> _ -> _ -> Prop) l w :
  quietly m P l w -> (forall l' a w', frame w w' -> P l' a w' -> total (f a) Q l' w') -> total (bind m f) Q l w.
Proof.
  intros Hm Hf. apply total_bind. eapply total_weaken; [|exact Hm].
  intros l' a w' [Hfr Hp]. by apply Hf.
Qed.

Lemma quietly_bind_err {E E' A B} (g : E -> E') (m : M E A) (f : A -> M E' B) P (Q : _ -> _ -> _ -> Prop) l w :
  quietly m P l w -> (forall l' a w', frame w w' -> P l' a w' -> total (f a) Q l' w') -> total (bind_err g m f) Q l w.
Proof.
  intros Hm Hf. apply total_bind_err. eapply total_weaken; [|exact Hm].
  intros l' a w' [Hfr Hp]. by apply Hf.
Qed.

Lemma quietly_ret {E A} (a : A) (P : _ -> _ -> _ -> Prop) l w : P l a w -> quietly (E := E) (ret a) P l w.
Proof. by split. Qed.

Lemma quietly_ask c (P : _ -> reply c -> _ -> Prop) l w a :
  (exec c w).2 = Ok a -> frame w (exec c w).1 -> P l a (exec c w).1 -> quietly (ask c) P l w.
Proof. intros E Hf Hp. apply (total_ask c _ l w a); [exact E|]. by split. Qed.

Lemma quietly_lift {A} (m : M error A) P l w : quietly m P l w -> quietly (Runner.lift m) P l w.
Proof. intros Hm. eapply quietly_bind_err; [exact Hm|]. intros. by apply total_ret. Qed.

Lemma quietly_later {E A} (m : M E A) P l w1 w2 : frame w1 w2 -> quietly m P l w2 ->
  total m (fun l' a w' => frame w1 w' /\ P l' a w') l w2.
Proof. intros Hf. apply total_weaken. intros l' a w' [? ?]. split; [by etrans|done]. Qed.

Lemma quietly_publish e l w :
  quietly (Publish e) (fun l' _ w' => l' = l /\ hashes (redis w') = hashes (redis w)) l w.
Proof.
  unfold Publish. destruct (seqb _ _); [by apply quietly_ret|]. by eapply (quietly_ask (CPublish _)).
Qed.

Lemma quietly_Seal key plain l w :
  quietly (Seal_ key plain) (fun l' s w' => l' = l /\ Seal.Open key s = Ok plain /\ redis w' = redis w) l w.
Proof.
  unfold Seal_. apply total_bind, (total_ask (CRand Seal.nonceSize) _ _ _ _ eq_refl). cbn [exec fst].
  destruct (sealed_opens key (rand (draws w) Seal.nonceSize) plain (rand_length _ _)) as (s & -> & Ho).
  cbn [of_result]. apply total_ret. by split.
Qed.

(** ** Steps that use the key *)

Definition keyed w : Prop := Seal.keys_ok (keys w) /\ key_at w d = Seal.Live (j_key j).

Lemma keyed_frame w w' : frame w w' -> keyed w -> keyed w'.
Proof. intros Hf [Hk Hl]. split; [by eapply fr_keys_ok|by eapply fr_key]. Qed.

Lemma quietly_jobKey l w : keyed w ->
  quietly (jobKey (j_id j)) (fun l' k w' => l' = l /\ k = j_key j /\ redis w' = redis w) l w.
Proof.
  intros [Hk Hl]. pose proof (rand_length (draws w) 32) as Hr. unfold key_at in Hl.
  unfold jobKey. apply (quietly_ask (CEnsure _) _ _ _ (j_key j)); [| |done].
  - cbn [exec snd]. by rewrite Seal.Ensure_spec, Hl.
  - split; try done; cbn [exec fst]; unfold key_at; cbn [draw keys set_keys].
    + intros _. by apply Seal.Ensure_ok.
    + intros k _. rewrite Seal.Ensure_view, Hl by done. done.
Qed.

Lemma quietly_sealPartial m l w :
  keyed w -> quietly (sealPartial (j_id j) m)
    (fun l' s w' => l' = l /\ Seal.Open (j_key j) s = Ok (Marshal (JObj m)) /\ redis w' = redis w) l w.
Proof.
  intros Hk. unfold sealPartial. cbv zeta. eapply quietly_bind; [by apply quietly_jobKey|].
  intros l1 key w1 Hf (-> & -> & <-). apply (quietly_later _ _ _ _ _ Hf), quietly_Seal.
Qed.

Lemma hincr_absent key fld fs (r : Redis) :
  hashes r !! key = None -> hincr_hset key fld fs r = (hset key ((fld, Itoa 1) :: fs) r, true).
Proof.
  intros Hn. unfold hincr_hset. rewrite Hn. cbn [default from_option].
  by rewrite (lookup_empty (M := gmap gostring) fld).
Qed.

(** The first checkpoint of the job. *)
Lemma quietly_checkpoint c m l w :
  keyed w -> ID (job c) = j_id j -> crash c <> CrashAfterStep1 ->
  hashes (redis w) !! memKey (j_id j) = None ->
  quietly (save_checkpoint c 1 m) (fun _ _ _ => True) l w.
Proof.
  intros Hk Hid Hc Hm. unfold save_checkpoint. cbv zeta. cbn [Z.eqb].
  apply (quietly_bind_err _ _ _ (fun _ _ _ => True)).
  - unfold saveStep1. cbn [ms_job Partial Step]. rewrite Hid.
    eapply quietly_bind; [by apply quietly_sealPartial|]. intros l1 s w1 Hf (-> & _ & Hr).
    apply (quietly_later _ _ _ _ _ Hf).
    apply (quietly_ask (CIncrHSet _ _ _) _ _ _ tt); [| |done].
    + cbn [exec]. unfold on_redis. by rewrite Hr, hincr_absent.
    + cbn [exec]. unfold on_redis. rewrite Hr, hincr_absent by done. split; try done. cbn. by rewrite Hr.
  - intros l1 [] w1 Hf1 _. apply total_bind, total_put.
    apply (quietly_bind_err _ _ _ (fun _ _ _ => True)).
    + eapply total_weaken; [|apply quietly_publish]. intros l2 [] w2 [Hf _]. done.
    + intros l2 [] w2 Hf2 _. rewrite bool_decide_eq_false_2 by done. apply total_ret.
      split; [by etrans|done].
Qed.

(** The checkpoint that is there, or none. *)
Definition resumes (st : option memState) w : Prop :=
  (st = None /\ hashes (redis w) !! memKey (j_id j) = None) \/
  st = Some (MkMemState (j_id j) 1 (j_mid j)).

Lemma quietly_load l w :
  keyed w -> Job_inv j w -> quietly (load (j_id j)) (fun _ st w' => resumes st w') l w.
Proof.
  intros Hk Hj. unfold load. apply total_bind, (total_ask (CHGetAll _) _ _ _ _ eq_refl). cbn [exec fst]. cbv zeta.
  change (reply (CHGetAll (memKey (j_id j)))) with (gmap gostring gostring) in *.
  destruct (hashes (redis w) !! memKey (j_id j)) as [h|] eqn:E.
  2: { cbn [default from_option]. rewrite (lookup_empty (M := gmap gostring) memFieldStep).
       apply quietly_ret. by left. }
  destruct (job_mem _ _ Hj h E) as (Hs & s & Hp & Ho). cbn [default from_option Datatypes.id].
  rewrite Hs, Hp. cbn [default from_option Datatypes.id]. change (seqb "1" []) with false. cbv iota.
  change (Atoi "1") with (Some 1%Z). cbn [or_throw]. apply total_bind, total_ret.
  destruct (seqb s []) eqn:Es; [apply seqb_eq in Es as ->; by apply Open_nonempty in Ho|].
  eapply quietly_bind; [by apply quietly_jobKey|]. intros l1 key w1 Hf (-> & -> & Hr).
  rewrite Ho. cbn [of_result]. apply total_bind, total_ret.
  unfold decode_map. rewrite Unmarshal_Marshal by by apply mid_wf.
  cbn [mbind option_bind or_throw]. apply total_bind, total_ret, total_ret. split; [done|]. by right.
Qed.

(** The runner takes its checkpoint if there is none, and returns the result. *)
Lemma quietly_windows c st w :
  keyed w -> ID (job c) = j_id j -> crash c <> CrashAfterStep1 -> resumes st w ->
  quietly (Redact.run_windows (E := error) (j_text j) (Some (recorder c))) (fun _ out _ => out = j_out j) st w.
Proof.
  intros Hk Hid Hc Hst. unfold Redact.run_windows.
  assert (Hmid : Redact.MapResult (first_result (j_text j)) = Some (j_mid j))
    by (apply MapResult_map, first_result_wf; apply Hwf).
  assert (Hres : Redact.resultFromMap (j_mid j) = Some (first_result (j_text j)))
    by (apply resultFromMap_map, first_result_wf; apply Hwf).
  assert (Hout : Redact.MapResult (final_result (j_text j)) = Some (j_out j))
    by (apply MapResult_map, final_result_wf; apply Hwf).
  apply total_bind. unfold Runner.lift. apply total_bind_err.
  cbn [Runner.Saved recorder Runner.NewCheckpointRecorder].
  unfold saved_checkpoint. apply total_bind, total_get, total_ret, total_ret.
  apply (quietly_bind _ _ (fun _ r _ => r = first_result (j_text j))).
  - destruct Hst as [[-> Hm]| ->]; cbn [Step Partial].
    + rewrite (window_result _ 0 [Detect.KindEmail; Detect.KindPhoneUS]) by done.
      cbn [Runner.some_or Redact.RedactedText Redact.Counts]. fold (first_result (j_text j)).
      apply total_bind, total_ret. rewrite Hmid. apply total_bind, total_ret.
      apply (quietly_bind _ _ (fun _ _ _ => True)).
      * apply quietly_lift. by apply quietly_checkpoint.
      * intros l1 [] w1 Hf _. by apply total_ret.
    + cbn [Z.leb Z.compare]. rewrite Hres. by apply quietly_ret.
  - intros l1 r w1 Hf ->. rewrite (window_result _ 1 [Detect.KindSSN]) by done. cbn [Runner.some_or].
    fold (final_result (j_text j)). apply total_bind, total_ret. rewrite Hout. by apply total_ret.
Qed.

Lemma quietly_run c st w :
  keyed w -> Policy.policies (policies w) !! j_uuid j = None ->
  ID (job c) = j_id j -> crash c <> CrashAfterStep1 -> resumes st w ->
  quietly (Runner.Run (Redact.runner (Some (fun tenant => ask (CLoadPolicy tenant))))
             (jobInput (j_plain j) (j_tenant j)) (Some (recorder c))) (fun _ out _ => out = j_out j) st w.
Proof.
  intros Hk Hj Hid Hc Hst. cbn [Runner.Run Redact.runner]. unfold Redact.Run. rewrite (wf_input _ Hwf).
  assert (Ht : seqb (j_tenant j) [] = false) by (apply seqb_neq, (wf_entry _ Hwf)).
  assert (Htid : jlookup "tenantId" (jobInput (j_plain j) (j_tenant j)) = Some (JStr (j_tenant j))).
  { unfold jobInput. rewrite Ht. rewrite jlookup_jinsert. by rewrite seqb_refl. }
  rewrite Htid. cbv zeta. rewrite Ht. apply total_bind. unfold Runner.lift. apply total_bind_err.
  apply (total_ask (CLoadPolicy (j_tenant j)) _ _ _ (Policy.Default, false)).
  - cbn [exec snd]. unfold loadPolicy. rewrite (wf_uuid _ Hwf). unfold Policy.Load.
    by rewrite Hj.
  - cbn [exec fst]. apply total_ret. by apply quietly_windows.
Qed.

(** ** Purging *)

Record purged w : Prop := {
  pg_mem : hashes (redis w) !! memKey (j_id j) = None;
  pg_receipt : exists r, receipt_at w d = Some r /\ key_at w d = Seal.Destroyed (Seal.PurgedAt r);
}.

(** The store of receipts takes one for the job. *)
Definition receivable w : Prop := in_order (receipts w) /\ has_room (receipts w).

Lemma receivable_frame w w' : frame w w' -> receivable w -> receivable w'.
Proof. intros Hf. unfold receivable. by rewrite (fr_receipts _ _ Hf). Qed.

(** What a purge may find. *)
Definition purgeable w : Prop :=
  Seal.keys_ok (keys w) /\ receivable w /\
  match receipt_at w d with
  | None => exists k, key_at w d = Seal.Live k
  | Some r => (exists k, key_at w d = Seal.Live k) \/ key_at w d = Seal.Destroyed (Seal.PurgedAt r)
  end.

Lemma destroy_drop_total t l w :
  Seal.keys_ok (keys w) ->
  (exists k, key_at w d = Seal.Live k) \/ key_at w d = Seal.Destroyed t ->
  (exists r, receipt_at w d = Some r /\ Seal.PurgedAt r = t) ->
  total (ask (CDestroy d t) ;;; dropCheckpoint (j_id j) CrashNever)
    (fun l' _ w' => l' = l /\ stream (redis w') = stream (redis w) /\ journal w' = journal w /\ purged w') l w.
Proof.
  intros Hk Hl (r & Hr & Ht). unfold dropCheckpoint. rewrite bool_decide_eq_false_2 by done.
  apply total_bind, (total_ask (CDestroy d t) _ _ _ _ eq_refl).
  apply (total_ask (CDel (memKey (j_id j))) _ _ _ tt eq_refl). cbn [exec fst snd redis set_redis set_keys journal].
  split; [done|]. split; [done|]. split; [done|]. split.
  - cbn. apply lookup_delete_eq.
  - exists r. split; [done|]. unfold key_at in *. cbn [keys set_redis set_keys].
    rewrite Seal.Destroy_view by done. subst t. destruct Hl as [[k ->]|E].
    + by rewrite decide_True.
    + by rewrite E.
Qed.

Lemma purge_total l w :
  purgeable w ->
  total (purge_run priv (j_id j) CrashNever (j_tenant j))
    (fun l' _ w' => l' = l /\ stream (redis w') = stream (redis w) /\ journal w' = journal w /\ purged w') l w.
Proof.
  intros (Hk & [Ho Hroom] & Hp). unfold purge_run. cbv zeta.
  apply total_bind, (total_ask (CGetReceipt d) _ _ _ _ eq_refl). cbn [exec fst].
  unfold receipt_at in Hp. destruct (Seal.Get d (receipts w)) as [r|] eqn:E.
  { apply destroy_drop_total; [done..|]. exists r. done. }
  apply total_bind, (total_ask CNow _ _ _ _ eq_refl). cbn [exec fst].
  set (t := Truncate (now w) Microsecond). set (rc := receipt priv (j_id j) t (j_tenant j)).
  destruct (accept_insert rc (receipts w)) as [b Hb]; [done..|by eexists|done|].
  pose proof (Seal.Insert_new rc (receipts w) E (Truncate_normal _)) as Hn.
  rewrite Hb in Hn. destruct Hn as [-> Hn].
  apply total_bind, (total_ask (CInsert rc) _ _ _ true).
  { cbn [exec snd receipts tick]. by rewrite Hb. }
  apply total_bind, total_ret. cbn [exec fst].
  eapply total_weaken; [|apply destroy_drop_total].
  - intros l' [] w' Hw. exact Hw.
  - done.
  - by left.
  - specialize (Hn d). rewrite decide_True in Hn by done. destruct Hn as (r' & Hr' & Hs).
    exists r'. split; [exact Hr'|]. apply Hs.
Qed.

Lemma Inv_purgeable w : Inv w -> Job_inv j w -> receivable w -> purgeable w.
Proof.
  intros Hi Hj Hrc. split; [apply Hi|]. split; [done|].
  destruct (job_key _ _ Hj) as [E|[t E]]; rewrite E.
  - destruct (receipt_at w d); eauto.
  - destruct (inv_destroyed _ Hi d t E) as (r & -> & <-). by right.
Qed.

Lemma no_row_keyed w : Inv w -> Job_inv j w -> row_at w d = None -> keyed w /\ receipt_at w d = None.
Proof.
  intros Hi Hj Hr. assert (Hn : receipt_at w d = None).
  { destruct (receipt_at w d) as [r|] eqn:E; [|done].
    destruct (inv_receipt _ Hi d r E) as [row Hrow]. congruence. }
  split; [|done]. split; [apply Hi|]. destruct (job_key _ _ Hj) as [E|[t E]]; [done|].
  destruct (inv_destroyed _ Hi d t E) as (r & Hrc & _). rewrite Hn in Hrc. done.
Qed.

(** ** The whole job *)

(** The job is over: recorded, receipted and purged, its entry gone. *)
Record over (i : StreamID) w : Prop := {
  over_row : has_row d w;
  over_purged : purged w;
  over_gone f : (i, f) ∉ stream (redis w);
}.

Lemma finish_total i l w :
  has_row d w -> purged w -> total (finish i) (fun _ _ w' => over i w') l w.
Proof.
  intros Hr [Hm Hp]. apply (total_ask (CXAckDel (String i)) _ _ _ tt eq_refl). split; [done|by split|].
  cbn. intros f [Hne _]%list_elem_of_filter. by destruct Hne.
Qed.

(** A claim of this job's entry by a worker without hooks. *)
Definition claim_of (i : StreamID) (c : claimed) : Prop :=
  entry c = i /\ ID (job c) = j_id j /\ TenantID (job c) = j_tenant j /\ crash c = CrashNever /\ fail_ c = false.

Lemma journaled_total i c l w :
  claim_of i c -> Inv w -> Job_inv j w -> receivable w -> has_row d w ->
  total (finishJournaled priv c) (fun _ b w' => b = true /\ over i w') l w.
Proof.
  intros (<- & Hid & Ht & _) Hi Hj Hrc [row Hr]. unfold finishJournaled. apply total_try.
  apply (total_ask (CLoadJob (ID (job c))) _ _ _ row).
  { cbn [exec snd]. unfold Journal.Load. rewrite Hid. unfold row_at in Hr. by rewrite Hr. }
  cbn [exec fst]. rewrite Hid, Ht. apply total_bind. eapply total_weaken; [|by apply purge_total, Inv_purgeable].
  intros l1 [] w1 (_ & _ & Hjn & Hp). apply total_bind. eapply total_weaken; [|apply finish_total; [|exact Hp]].
  - intros l2 [] w2 Ho. by apply total_ret.
  - unfold has_row, row_at. rewrite Hjn. by exists row.
Qed.

Lemma unjournaled_total c l w :
  ID (job c) = j_id j -> row_at w d = None ->
  total (finishJournaled priv c) (fun l' b w' => b = false /\ l' = l /\ w' = w) l w.
Proof.
  intros Hid Hr. unfold finishJournaled.
  apply (total_try_err (CLoadJob (ID (job c))) _ _ _ _ (JournalError Journal.UnknownStoredJob)).
  - cbn [exec snd]. unfold Journal.Load. rewrite Hid. unfold row_at in Hr. by rewrite Hr.
  - by apply total_ret.
Qed.

Lemma publish_total e (P : world K RS J -> Prop) l w :
  (forall p, P (set_redis (set_published p (redis w)) w)) -> P w -> total (Publish e) (fun _ _ w' => P w') l w.
Proof.
  intros Hp Hw. unfold Publish. destruct (seqb _ _); [by apply total_ret|].
  apply (total_ask (CPublish _) _ _ _ tt eq_refl). apply Hp.
Qed.

(** What the journal holds once [r] is recorded as [row]. *)
Definition recorded (r : Journal.JobResult) (row : Journal.StoredJob) w : Prop :=
  row_at w d = Some row /\
  Journal.output_of (journal w) (j_id j) =
    Some (Journal.MkOutput (Journal.FinalState row) (Journal.BodyOf (Journal.Result r)) (Journal.TenantID r)).

(** The job has its key and no outcome. *)
Record pending_job w : Prop := {
  pj_journal : consistent (journal w);
  pj_keyed : keyed w;
  pj_receivable : receivable w;
  pj_row : row_at w d = None;
  pj_receipt : receipt_at w d = None;
}.

Lemma pending_frame w w' : frame w w' -> pending_job w -> pending_job w'.
Proof.
  intros Hf [Hi Hk Hrc Hr Hn]. split; [|by eapply keyed_frame|by eapply receivable_frame|..].
  - by rewrite (fr_journal _ _ Hf).
  - unfold row_at. by rewrite (fr_journal _ _ Hf).
  - unfold receipt_at. by rewrite (fr_receipts _ _ Hf).
Qed.

Lemma Record_new r row w :
  Journal.ID r = j_id j -> Journal.TenantID r = j_tenant j -> Journal.JobType r = "redact"%go ->
  Journal.parseTerminal r = Ok row -> consistent (journal w) -> row_at w d = None ->
  snd (Journal.Record_ r (journal w)) = Ok tt /\ recorded r row (set_journal (fst (Journal.Record_ r (journal w))) w).
Proof.
  intros Hid Ht Hty Hp Hi Hr.
  assert (Hrec : snd (Journal.Record_ r (journal w)) = Ok tt).
  { apply (accept_record r row); [done..|]. by rewrite Hid. }
  split; [done|]. destruct (Record_Ok r (journal w) Hi Hrec) as (row' & stored & Hp' & Hs & _ & Hnew).
  rewrite Hid in Hnew, Hs. destruct (Hnew Hr) as [-> [o Ho]]. rewrite Hp in Hp'. injection Hp' as <-.
  split; [exact Hs|]. cbn [journal set_journal]. rewrite Ho. f_equal.
  destruct (Record_output _ _ _ _ Ho) as [Hold|(_ & row' & Hp' & ->)]; [|rewrite Hp in Hp'; by injection Hp' as <-].
  destruct (Hi _ _ Hold) as (row' & Hrow & _). unfold row_at in Hr. congruence.
Qed.

Lemma commit_total i c r row l w :
  claim_of i c -> Journal.ID r = j_id j -> Journal.TenantID r = j_tenant j -> Journal.JobType r = "redact"%go ->
  Journal.parseTerminal r = Ok row -> pending_job w ->
  total (commitJob priv c r) (fun _ _ w' => recorded r row w' /\ purged w') l w.
Proof.
  intros (<- & Hid & Ht & Hc & _) Hrid Hrt Hty Hp [Hi [Hk Hl] Hrc Hr Hn]. unfold commitJob.
  rewrite Hc, Hid, Ht, bool_decide_eq_false_2 by done.
  destruct (Record_new r row w Hrid Hrt Hty Hp Hi Hr) as [Hrec [Hrow Hout]].
  apply total_bind, (total_ask (CRecord r) _ _ _ tt).
  { cbn [exec snd]. by rewrite Hrec. }
  cbn [exec fst]. set (w1 := set_journal _ _) in *.
  eapply total_weaken; [|apply purge_total; split; [done|split; [done|]]].
  2: { unfold receipt_at, key_at in *. cbn [receipts keys set_journal w1]. rewrite Hn. by eexists. }
  intros l2 [] w2 (_ & _ & Hjn & Hpg). split; [|done]. unfold recorded, row_at. rewrite Hjn. by split.
Qed.

Lemma pending_tick w : pending_job w -> pending_job (tick w).
Proof. by intros []. Qed.

Lemma complete_total i c out l w :
  claim_of i c -> pending_job w ->
  total (complete priv c "redact"%go out) (fun _ _ w' => over i w') l w.
Proof.
  intros Hcl Hj. pose proof Hcl as (<- & Hid & Ht & _). unfold complete. cbv zeta. rewrite Hid, Ht.
  apply total_bind, (total_ask CNow _ _ _ _ eq_refl). cbn [exec fst].
  apply total_bind. eapply total_weaken; [|by eapply (commit_total (entry c)); [..|apply pending_tick]].
  intros l2 [] w2 [[Hrow _] [Hm Hpg]]. assert (Hr2 : has_row d w2) by (by eexists). clear Hrow.
  apply total_bind, (total_weaken _ (fun _ _ w' => has_row d w' /\ purged w')).
  - intros l3 [] w3 [Hr3 Hp3]. apply total_bind, (total_ask (CEmit _) _ _ _ tt eq_refl).
    apply finish_total; [exact Hr3|]. by destruct Hp3.
  - apply publish_total; [intros p|]; (split; [exact Hr2|by split]).
Qed.

(** *** A job that is given up *)

(** The job is recorded as failed for the reason given, and its input is gone. *)
Record buried (i : StreamID) (reason : gostring) w : Prop := {
  bu_row : exists row, row_at w d = Some row /\ Journal.FinalState row = Journal.FAILED;
  bu_output : exists o, Journal.output_of (journal w) (j_id j) = Some o /\
    Journal.out_state o = Journal.FAILED /\ Journal.Body o = Journal.BodyOf [("error"%go, JStr reason)];
  bu_purged : purged w;
  bu_gone f : (i, f) ∉ stream (redis w);
  bu_dead : delete ("input" : gostring) (j_fields j) ∈ dead (redis w);
}.

Lemma settle_buries key e f now_ r :
  delete ("input" : gostring) f <> ∅ ->
  exists r', settleScript key e true f now_ r = (r', Some (RArray [RString "bury"; RInt 3])) /\
    stream r' = filter (fun x => String x.1 <> e) (stream r) /\ hashes r' = hashes r /\
    delete ("input" : gostring) f ∈ dead r'.
Proof.
  intros Hf. unfold settleScript. cbn [negb andb]. rewrite bool_decide_eq_false_2 by done.
  eexists. split; [reflexivity|]. cbn. repeat split. apply elem_of_app. right. by apply list_elem_of_singleton.
Qed.

Lemma job_fields_left : delete ("input" : gostring) (j_fields j) <> ∅.
Proof.
  destruct (wf_entry _ Hwf) as (_ & Hid & _). intros E. apply Hid. unfold field.
  by rewrite <- (lookup_delete_ne _ ("input" : gostring)), E, (lookup_empty (M := gmap gostring) ("id" : gostring)).
Qed.

Lemma bury_total i c reason l w :
  claim_of i c -> c_fields c = j_fields j -> pending_job w ->
  total (bury priv c "redact"%go reason) (fun _ _ w' => buried i reason w') l w.
Proof.
  intros Hcl Hfs Hj. pose proof Hcl as (<- & Hid & Ht & _). unfold bury. cbv zeta. rewrite Hid, Ht.
  apply total_bind, (total_ask CNow _ _ _ _ eq_refl). cbn [exec fst].
  apply total_bind. eapply total_weaken; [|by eapply (commit_total (entry c)); [..|apply pending_tick]].
  intros l2 [] w2 [[Hrow Hout] [Hm Hpg]]. apply total_bind. cbn [Journal.FinalState Journal.Result] in Hout.
  match type of Hrow with _ = Some ?x => set (row := x) in * end.
  match type of Hout with _ = Some ?x => set (o := x) in * end.
  apply (total_weaken _ (fun _ _ w' => row_at w' d = Some row /\
    Journal.output_of (journal w') (j_id j) = Some o /\ purged w')).
  - intros l3 [] w3 (Hr3 & Ho3 & Hp3). unfold settle. rewrite Hfs, Hid. apply total_bind, total_bind.
    destruct (settle_buries (retryKey (j_id j)) (String (entry c)) (j_fields j) (now w3) (redis w3) job_fields_left)
      as (r & E & Hst & Hh & Hd).
    apply (total_ask (CSettle _ _ _ _) _ _ _ (RArray [RString "bury"; RInt 3])).
    { cbn [exec snd]. unfold on_redis. by rewrite E. }
    cbn [exec fst]. unfold on_redis. rewrite E. cbn [fst]. cbv beta. apply total_ret, total_ret.
    destruct Hp3 as [Hm3 Hk3]. split; [by exists row|by exists o| |intros f|exact Hd].
    + split; [|exact Hk3]. cbn. by rewrite Hh.
    + cbn. rewrite Hst. intros [Hne _]%list_elem_of_filter. by destruct Hne.
  - apply publish_total; [intros p|]; (split; [exact Hrow|split; [exact Hout|by split]]).
Qed.

Lemma openJobInput_total l w :
  keyed w ->
  total (openJobInput (j_id j) (field "input" (j_fields j)))
    (fun l' plain w' => plain = j_plain j /\ l' = l /\ w' = w) l w.
Proof.
  intros [Hk Hl]. unfold openJobInput. apply total_bind, (total_ask (CLoadKey d) _ _ _ (Some (j_key j))).
  - cbn [exec snd]. unfold key_at in Hl. by rewrite Seal.Load_spec, Hl.
  - cbn [exec fst]. rewrite (wf_sealed _ Hwf). by apply total_ret.
Qed.

Lemma handle_total i c l w :
  claim_of i c -> c_fields c = j_fields j -> Input (job c) = field "input" (j_fields j) ->
  Inv w -> Job_inv j w -> receivable w ->
  total (handle priv worker_registry c no_hooks) (fun _ _ w' => over i w') l w.
Proof.
  intros Hc Hfs Hin Hi Hj Hrc. unfold handle. cbv zeta.
  change (applyHooks c no_hooks) with (MkClaimed (entry c) (job c) (crash c) (fail_ c || false) (c_fields c)).
  destruct c as [e jb cr fl fs]. cbn [entry job crash fail_ c_fields] in *.
  pose proof Hc as (He & Hid & Ht & Hcr & Hfl). cbn [entry job crash fail_ c_fields] in *. subst fl.
  cbn [orb]. set (c := MkClaimed e jb cr false fs) in *. apply total_bind.
  destruct (row_at w d) as [row|] eqn:Hr.
  { eapply total_weaken; [|apply (journaled_total i c); [done..|by exists row]].
    intros l1 b w1 [-> Ho]. by apply total_ret. }
  eapply total_weaken; [|by apply (unjournaled_total c)].
  intros l1 b w1 (-> & -> & ->). cbv iota. destruct (no_row_keyed w Hi Hj Hr) as [Hk Hn].
  assert (Hp : pending_job w) by (by split; [apply Hi|..]).
  rewrite Hid, Hin. eapply quietly_bind; [by apply quietly_load|].
  intros l2 st w2 Hf2 Hst. apply total_bind, total_put. rewrite Hfs.
  assert (Hty : (if seqb (field "job_type" (j_fields j)) [] then "redact"%go
                 else field "job_type" (j_fields j)) = "redact"%go).
  { destruct (wf_type _ Hwf) as [-> | ->]; done. }
  rewrite Hty, redact_registered. apply total_try. pose proof (keyed_frame _ _ Hf2 Hk) as Hk2.
  eapply total_weaken; [|by apply openJobInput_total]. intros l3 plain w3 (-> & -> & ->).
  cbn [job with_input Input TenantID ID fail_ c]. rewrite Ht.
  assert (Hj2 : Policy.policies (policies w2) !! j_uuid j = None) by (rewrite (fr_policies _ _ Hf2); apply Hj).
  apply (quietly_bind _ _ (fun _ out _ => out = Some (j_out j))).
  - unfold ran. apply total_try. eapply total_weaken; [|apply quietly_run]; [|done|done|done|by subst cr|done].
    intros l4 out w4 [Hf4 ->]. by apply total_ret.
  - intros l4 out w4 Hf4 ->. assert (Hf : frame w w4) by (by etrans).
    apply (complete_total i (with_input c (j_plain j))); [done|]. by apply (pending_frame w).
Qed.

(** The delivery of the entry. *)
Lemma dispatch_total i l w :
  id_ok i -> Inv w -> Job_inv j w -> receivable w ->
  total (dispatch priv worker_registry no_hooks (message (i, j_fields j))) (fun _ _ w' => over i w') l w.
Proof.
  intros Hok Hi Hj Hrc. unfold dispatch. cbv zeta. rewrite valuesToFields_message. cbn [fst message].
  rewrite Parse_String by done. cbn [of_result]. apply total_bind, total_ret.
  destruct (wf_entry _ Hwf) as (Hin & Hid & Ht). unfold parseClaim, parseJob.
  rewrite (proj2 (seqb_neq _ _) Hin), (proj2 (seqb_neq _ _) Hid), (proj2 (seqb_neq _ _) Ht).
  cbn [mbind result_bind]. by apply handle_total.
Qed.
End live.

Section recovery.
Context `{!StreamIDs, !StreamIDsLaws, !Sources, !SourcesLaws, !Journal.JobIDs, !Seal.UUID}.
Context `{!Seal.AEAD, !Seal.AEADLaws, !Seal.Ed25519} (priv : gostring).
Context {K RS J : Type}.
Context `{!Seal.KeyStore K, !Seal.KeyStoreLaws K, !Seal.ReceiptStore RS, !Seal.ReceiptStoreLaws RS}.
Context `{!Journal.Store J, !StoreLaws J}.
Implicit Types w : world K RS J.
Abbreviation durable := Journal.DurableIDFor.

(** *** Receipts stay in order *)

Section order.
Context (tenant id : gostring) `{!Accepting (RS := RS) (J := J) tenant id}.

Lemma exec_in_order c w : in_order (receipts w) -> in_order (receipts (exec c w).1).
Proof.
  intros Ho. destruct c; cbn; try done; try (by apply insert_in_order); unfold on_redis;
    repeat (case_match; cbn); done.
Qed.

Lemma perform_in_order o c w : in_order (receipts w) -> in_order (receipts (perform exec fallible lost o c w).1).
Proof. intros Ho. unfold perform. destruct (fallible c); [destruct o|]; cbn [fst]; auto using exec_in_order. Qed.

Lemma run_in_order {A} (p : proc reply error A) w : in_order (receipts w) -> in_order (receipts (run exec p w).1).
Proof. revert w. induction p as [a|c k IH]; intros w Ho; cbn [run]; [done|]. by apply IH, exec_in_order. Qed.

Lemma steps_in_order (program : proc reply error unit -> Prop) x y :
  rtc (step exec fallible lost program) x y -> in_order (receipts x.1) -> in_order (receipts y.1).
Proof.
  induction 1 as [x|x y z Hxy _ IH]; [done|]. intros Ho. apply IH. destruct Hxy as [|v qs k p o v' p' _ Ha|]; [done| |done].
  destruct p as [?|c h]; [done|]. injection Ha as <- _. by apply perform_in_order.
Qed.

(** From the start, through the producer, to any state reached. *)
Lemma Add_in_order jb w0 w1 l w ps program :
  arun exec (Add true jb) None w0 = (w1, (l, Ok tt)) ->
  rtc (step exec fallible lost program) (w1, []) (w, ps) ->
  in_order (receipts w0) -> in_order (receipts w).
Proof.
  intros Ha Hs Ho. apply (steps_in_order _ _ _ Hs). cbn [fst].
  pose proof (run_in_order (Add true jb None) w0 Ho) as Hr. unfold arun in Ha. by rewrite Ha in Hr.
Qed.
End order.

(** C2 [redelivery_finishes]: a redaction job has been added as in [one_result],
    and workers, producers, readers, failures and crashes have brought the system
    into any state in which an entry of the job is still in the stream: never
    tried, in the middle of a checkpoint, recorded but not purged, purged but
    not acknowledged.  The next delivery of that entry that is not disturbed
    succeeds, and after it the job has a row, a purge receipt, a key destroyed
    at the moment of the receipt, no checkpoint and no such entry.  It is for stores
    that take what a worker writes for the tenant ([Accepting]).  Those in memory do; those
    of Postgres do ([pg_accepting]) when the tenant is a UUID that is in the table of
    tenants, its ledger was in order at the start, which receipts keep, and has room for
    an entry, and Postgres takes the text of the entry. *)
Theorem redelivery_finishes jb text w0 w1 l w ps i f `{!Accepting (RS := RS) (J := J) (TenantID jb) (ID jb)} :
  fresh w0 -> new_job jb text w0 -> arun exec (Add true jb) None w0 = (w1, (l, Ok tt)) ->
  rtc (step exec fallible lost (program_of priv (durable (ID jb)))) (w1, []) (w, ps) ->
  (i, f) ∈ stream (redis w) -> job_of f = durable (ID jb) ->
  in_order (receipts w0) -> has_room (receipts w) ->
  exists l' w',
    arun exec (dispatch priv worker_registry no_hooks (message (i, f))) None w = (w', (l', Ok tt)) /\
    has_row (durable (ID jb)) w' /\
    (exists r, receipt_at w' (durable (ID jb)) = Some r /\
       key_at w' (durable (ID jb)) = Seal.Destroyed (Seal.PurgedAt r)) /\
    hashes (redis w') !! memKey (ID jb) = None /\
    forall f', (i, f') ∉ stream (redis w').
Proof.
  intros Hf Hn Ha Hs Hin Hjob Hord Hroom.
  assert (Ho : in_order (receipts w)) by (by eapply Add_in_order).
  destruct (Add_reach priv jb text w0 w1 l w ps Hf Hn Ha Hs) as (j & Hwf & Hid & Ht & _ & Hi & Hj).
  rewrite <- Hid in Hjob. destruct (job_entry _ _ Hj i f Hin) as [_ Hfj]. rewrite (Hfj Hjob) in *.
  clear Hf Hn Ha Hs Hord. destruct jb as [id input tenant ty]. cbn [ID TenantID] in *. subst id tenant.
  destruct (total_run _ _ _ (dispatch_total priv j Hwf i None w (inv_ids _ Hi _ _ Hin) Hi Hj (conj Ho Hroom)))
    as (l' & [] & E & [Hr [Hm Hp] Hg]).
  exists l'. eexists. split; [exact E|]. by repeat split.
Qed.
End recovery.

#[local] Existing Instance toy_ids.
#[local] Existing Instance toy_uuid.
#[local] Existing Instance toy_aead.
#[local] Existing Instance toy_aead_laws.
#[local] Existing Instance toy_ed25519.
#[local] Existing Instance toy_vault.
#[local] Existing Instance Seal.pg_keys.
#[local] Existing Instance toy_vault_laws.

(** The same job with the stores of Postgres, for the one tenant of its tables. *)
#[local] Instance toy_pg_receipts : Seal.ReceiptStore Seal.pgReceipts := Seal.pg_receipt_store jsonb_marshal.
#[local] Instance toy_pg_receipts_laws : Seal.ReceiptStoreLaws Seal.pgReceipts := pg_receipts_laws jsonb_marshal.
#[local] Instance toy_pg_journal : Journal.Store Journal.pgJournal := Journal.pg_journal (seqb "t1") (seqb "t1").
#[local] Instance toy_pg_journal_laws : StoreLaws Journal.pgJournal := pg_journal_laws (seqb "t1") (seqb "t1").

Definition pg_world : Type := world Seal.pgKeyStore Seal.pgReceipts Journal.pgJournal.

Definition pg_start : pg_world :=
  World (MkRedis [] StreamIDZero (Some StreamIDZero) [] [] ∅ ∅ []) (∅ : gmap Seal.uuid Seal.keyRow)
    (Seal.PgReceipts ∅ (Ledger.Db ["t1"%go] [] ∅)) (Journal.MkPg ∅ ∅)
    (Policy.Store ∅ (Ledger.Db ["t1"%go] [] ∅)) [] 0 0.

Definition pg_added : pg_world := (arun exec (Add true toy_job) None pg_start).1.

#[local] Instance toy_pg_accepting : Accepting (RS := Seal.pgReceipts) (J := Journal.pgJournal) "t1" "j1".
Proof.
  refine (pg_accepting jsonb_marshal (seqb "t1") (seqb "t1") "t1" "j1" "t1" _ eq_refl eq_refl eq_refl _); [done|].
  by apply takes_marshal, ascii_text_valid.
Defined.

Lemma pg_fresh : fresh pg_start.
Proof. by split. Qed.

Lemma pg_new : new_job toy_job "a@b.co" pg_start.
Proof. split; try done; [by eexists|by right|by apply ascii_key]. Qed.

Lemma pg_Add : arun exec (Add true toy_job) None pg_start = (pg_added, (None, Ok tt)).
Proof. unfold pg_added. rewrite (surjective_pairing (arun exec (Add true toy_job) None pg_start)) at 1. f_equal. Qed.

Lemma pg_added_stream : (MkStreamID 0 1, toy_fields) ∈ stream (redis pg_added).
Proof. apply (bool_decide_unpack _). vm_compute. exact I. Qed.

Lemma toy_fields_job : job_of toy_fields = "id:j1"%go.
Proof. vm_compute. reflexivity. Qed.

Lemma redelivery_finishes_witness :
  exists l' w',
    arun exec (dispatch toy_key worker_registry no_hooks (message (MkStreamID 0 1, toy_fields))) None pg_added
      = (w', (l', Ok tt)) /\
    has_row "id:j1" w' /\
    (exists r, receipt_at w' "id:j1" = Some r /\ key_at w' "id:j1" = Seal.Destroyed (Seal.PurgedAt r)) /\
    hashes (redis w') !! memKey "j1" = None /\
    forall f', (MkStreamID 0 1, f') ∉ stream (redis w').
Proof.
  refine (redelivery_finishes toy_key toy_job "a@b.co"%go pg_start pg_added None pg_added []
           (MkStreamID 0 1) toy_fields pg_fresh pg_new pg_Add (rtc_refl _ _) pg_added_stream toy_fields_job _ _).
  - intros _. split; [by apply list_elem_of_singleton|done].
  - reflexivity.
Defined.
