(* ===== verification/QueueRetry.v ===== *)
(** * Identifiers, configuration, retries and dead letters of the queue

    The parts of the queue that need no interleaving, and what failures leave in the
    stream and the dead letters. *)

From S2P Require Import Prelude GoStd GoTime Flag Json Ledger Policy Runner Redact Seal SealSpec Journal JournalSpec Proc Queue QueueSafe QueueLogic QueueSpec QueueOnce.
Import Proc Queue.

(** ** Entry identifiers *)

Lemma ParseUint_bound s n : ParseUint s = Some n -> (n < 2 ^ 64)%N.
Proof.
  unfold ParseUint. destruct s as [|b s]; [done|]. destruct (parse_digits 0 (b :: s)) as [m|]; [|done].
  cbn [mbind option_bind]. destruct (N.ltb_spec m (2 ^ 64)); [|done]. by intros [= <-].
Qed.

(** an entry identifier whose halves fit 64 bits is
    printed and parsed back unchanged; whatever text [ParseStreamID] accepts
    denotes such an identifier and has the form ms-seq with exactly one dash,
    and every other text is [ErrInvalidStreamID]. *)
Lemma stream_id_roundtrip :
  (forall i, id_ok i -> ParseStreamID (String i) = Ok i) /\
  (forall s i, ParseStreamID s = Ok i -> id_ok i /\
     exists ms sq, s = ms ++ "-"%byte :: sq /\ ("-"%byte ∉ ms) /\ ("-"%byte ∉ sq) /\
       ParseUint ms = Some (millis i) /\ ParseUint sq = Some (seq i)) /\
  (forall s e, ParseStreamID s = Err e -> e = ErrInvalidStreamID).
Proof.
  split; [exact Parse_String|]. unfold ParseStreamID. split.
  - intros s i. destruct (Cut s "-"%byte) as [[ms sq]|] eqn:E; [|done].
    apply Cut_Some in E as [-> Hms]. destruct (seqb ms [] || seqb sq [] || Contains sq "-") eqn:Eg; [done|].
    apply orb_false_iff in Eg as [_ Hc]. destruct (ParseUint ms) as [m|] eqn:Em; [|done].
    destruct (ParseUint sq) as [n|] eqn:En; [|done]. intros [= <-].
    split; [split; by eapply ParseUint_bound|]. exists ms, sq. repeat split; try done.
    intros (a & b & ->)%list_elem_of_split. apply not_true_iff_false in Hc. apply Hc.
    apply Contains_spec. by exists a, b.
  - intros s e. destruct (Cut s "-"%byte) as [[ms sq]|]; [|by intros [= <-]].
    destruct (_ || _); [by intros [= <-]|].
    destruct (ParseUint ms); [|by intros [= <-]]. by destruct (ParseUint sq); [|intros [= <-]].
Qed.

(** ** Configuration *)

(** whatever the flags, the variable CONSUMER and the
    host name are, [loadWorkerConfigFrom] gives either an error or a
    configuration that [valid] accepts: it has a consumer name, taken from the
    flag, else from the variable, else from the host, and an idle time of at
    least twice the poll time, so that no entry is claimed from a worker that is
    merely polling. *)
Lemma worker_config_valid args getenv hostname c :
  loadWorkerConfigFrom args getenv hostname = Ok c ->
  valid c = Ok tt /\ Consumer c <> [] /\ (2 * Poll c <= Idle c)%Z /\ (0 < Poll c)%Z /\
  exists vs rest, Flag.Parse (Flag.texts ["consumer"%go]) args = Some (vs, rest) /\
    let name := Flag.value "consumer" vs in let env := getenv "CONSUMER"%go in
    (name <> [] /\ Consumer c = name \/
     name = [] /\ env <> [] /\ Consumer c = env \/
     name = [] /\ env = [] /\ hostname = Some (Consumer c)).
Proof.
  unfold loadWorkerConfigFrom. destruct (Flag.Parse _ args) as [[vs rest]|]; [|done]. cbv zeta.
  assert (Hv : forall x, (_ ← valid (MkConfig x (30 * Second) (10 * Second)); Ok (MkConfig x (30 * Second) (10 * Second))) = Ok c ->
    valid c = Ok tt /\ Consumer c <> [] /\ (2 * Poll c <= Idle c)%Z /\ (0 < Poll c)%Z /\ Consumer c = x).
  { intros x. destruct (valid _) as [[]|] eqn:Ev; [|done]. intros [= <-]. split; [done|].
    unfold valid in Ev. cbn [Consumer] in *. destruct (seqb x []) eqn:Ex; [done|]. by apply seqb_neq in Ex. }
  set (name := Flag.value "consumer" vs). set (env := getenv "CONSUMER"%go).
  destruct (seqb name []) eqn:En; [apply seqb_eq in En; destruct (seqb env []) eqn:Ee|rewrite En].
  - apply seqb_eq in Ee. destruct hostname as [host|]; [|done]. cbn [mbind result_bind].
    intros (H1 & H2 & H3 & H4 & H5)%Hv. repeat (split; [done|]). exists vs, rest. split; [done|]. right. right. by rewrite H5.
  - intros (H1 & H2 & H3 & H4 & H5)%Hv. repeat (split; [done|]). apply seqb_neq in Ee.
    exists vs, rest. split; [done|]. right. left. by rewrite H5.
  - intros (H1 & H2 & H3 & H4 & H5)%Hv. repeat (split; [done|]). apply seqb_neq in En.
    exists vs, rest. split; [done|]. left. by rewrite H5.
Qed.

(** ** Retries *)

Section retries.
Context `{!StreamIDs, !StreamIDsLaws}.

(** The counter of a job after [n] failures. *)
Definition counted (key : gostring) (n : Z) (r : Redis) : Prop :=
  strings r !! key = if (n =? 0)%Z then None else Some (Itoa n).

Lemma settle_counts key n r :
  (n = 0 \/ n = 1 \/ n = 2)%Z -> counted key n r ->
  match strings r !! key ≫= Atoi with
  | Some m => if (3 <=? m)%Z then (r, Some m) else incr key r
  | None => incr key r
  end = (set_strings (<[key := Itoa (n + 1)]> (strings r)) r, Some (n + 1)%Z).
Proof.
  unfold counted, incr. intros [->|[->| ->]] Hc; cbn [Z.eqb] in Hc; rewrite Hc; reflexivity.
Qed.

(** The next failure, while there are attempts left. *)
Lemma settle_retry key entry f now n i r :
  (n = 0 \/ n = 1)%Z -> f <> ∅ -> counted key n r -> auto_id (last_id r) now = Some i ->
  exists r', settleScript key entry false f now r = (r', Some (RArray [RString "retry"; RInt (n + 1)])) /\
    stream r' = filter (fun e => String e.1 <> entry) (stream r ++ [(i, f)]) /\
    last_id r' = i /\ dead r' = dead r /\ strings r' = <[key := Itoa (n + 1)]> (strings r).
Proof.
  intros Hn Hf Hc Hi. unfold settleScript. rewrite (settle_counts key n) by (tauto || done).
  rewrite (proj2 (Z.ltb_lt (n + 1) 3)) by lia. cbn [negb andb]. rewrite bool_decide_eq_false_2 by done.
  unfold xadd. cbn [last_id set_strings]. rewrite Hi. cbn [mbind option_bind]. by eexists.
Qed.

(** The third one. *)
Lemma settle_bury key entry f now r :
  counted key 2 r ->
  exists r', settleScript key entry false f now r = (r', Some (RArray [RString "bury"; RInt 3])) /\
    stream r' = filter (fun e => String e.1 <> entry) (stream r) /\
    dead r' = dead r ++ (if bool_decide (delete ("input" : gostring) f = ∅) then [] else [delete ("input" : gostring) f]) /\
    strings r' = delete key (strings r).
Proof.
  intros Hc. unfold settleScript. rewrite (settle_counts key 2) by (auto || done).
  cbn [negb andb Z.ltb Z.compare Z.add Pos.compare Pos.compare_cont Pos.add]. eexists. split; [reflexivity|].
  destruct (bool_decide _); cbn; rewrite ?app_nil_r; repeat split; apply delete_insert_eq.
Qed.

Lemma filter_others (i : StreamID) (f : gmap gostring gostring) (st : list (StreamID * gmap gostring gostring)) :
  (forall e, e ∈ st -> id_ok e.1 /\ e.1 <> i) -> id_ok i ->
  filter (fun e => String e.1 <> String i) (st ++ [(i, f)]) = st.
Proof.
  intros Hst Hi. rewrite filter_app, filter_cons_False, filter_nil, app_nil_r by (intros E; by apply E).
  induction st as [|e st IH]; [done|]. destruct (Hst e) as [Hok Hne]; [left|].
  rewrite filter_cons_True by (intros E; by apply String_inj in E). f_equal. apply IH.
  intros e' He'. apply Hst. by right.
Qed.

(** a job whose runs are made to fail.  The first two
    failures put its entry back, under a new identifier and with the same
    fields; the third takes the last copy out of the stream, adds the fields
    except the input to the dead letters and clears the counter.  No failure
    touches another entry, and there is no fourth attempt. *)
Lemma third_failure_buries (key : gostring) (f : gmap gostring gostring) now1 now2 now3 i1 i2 i3 r :
  strings r !! key = None -> delete ("input" : gostring) f <> ∅ -> (i1, f) ∈ stream r ->
  (forall e, e ∈ stream r -> id_ok e.1 /\ id_lt (last_id r) e.1 = false) ->
  auto_id (last_id r) now1 = Some i2 -> auto_id i2 now2 = Some i3 ->
  let rest := filter (fun e => String e.1 <> String i1) (stream r) in
  let s1 := settleScript key (String i1) false f now1 r in
  let s2 := settleScript key (String i2) false f now2 s1.1 in
  let s3 := settleScript key (String i3) false f now3 s2.1 in
  s1.2 = Some (RArray [RString "retry"; RInt 1]) /\ stream s1.1 = rest ++ [(i2, f)] /\
  s2.2 = Some (RArray [RString "retry"; RInt 2]) /\ stream s2.1 = rest ++ [(i3, f)] /\
  s3.2 = Some (RArray [RString "bury"; RInt 3]) /\ stream s3.1 = rest /\
  dead s3.1 = dead r ++ [delete ("input" : gostring) f] /\ strings s3.1 = strings r.
Proof.
  intros Hc Hf Hin Hst Hi2 Hi3. cbv zeta.
  assert (Hf0 : f <> ∅) by (intros ->; by rewrite delete_empty in Hf).
  destruct (auto_id_after _ _ _ Hi2) as [Hlt2 Hok2], (auto_id_after _ _ _ Hi3) as [Hlt3 Hok3].
  destruct (settle_retry key (String i1) f now1 0 i2 r) as (r1 & E1 & Hs1 & Hl1 & Hd1 & Hc1); [auto|done..|].
  rewrite E1. cbn [fst snd].
  destruct (settle_retry key (String i2) f now2 1 i3 r1) as (r2 & E2 & Hs2 & Hl2 & Hd2 & Hc2);
    [auto|done|unfold counted; rewrite Hc1; apply lookup_insert_eq|by rewrite Hl1|].
  rewrite E2. cbn [fst snd].
  destruct (settle_bury key (String i3) f now3 r2) as (r3 & E3 & Hs3 & Hd3 & Hc3);
    [unfold counted; rewrite Hc2; apply lookup_insert_eq|].
  rewrite E3. cbn [fst snd]. clear E1 E2 E3.
  set (rest := filter (fun e => String e.1 <> String i1) (stream r)) in *.
  assert (Hrest : forall i, id_lt (last_id r) i = true -> forall e, e ∈ rest -> id_ok e.1 /\ e.1 <> i).
  { intros i Hi e [_ He]%list_elem_of_filter. destruct (Hst e He) as [Hok Hl]. split; [done|]. by intros <-; rewrite Hl in Hi. }
  assert (Hlt : forall i, id_lt i2 i = true -> id_lt (last_id r) i = true).
  { intros i. rewrite !id_lt_spec in *. lia. }
  destruct (Hst _ Hin) as [Hok1 Hl]. cbn [fst] in *.
  rewrite filter_app, filter_cons_True, filter_nil in Hs1.
  2: { cbn [fst]. intros E. apply String_inj in E as ->; [congruence|done..]. }
  fold rest in Hs1. rewrite Hs1, filter_app, filter_others, filter_cons_True, filter_nil in Hs2; [|..|by apply Hrest|done].
  2: { cbn [fst]. intros E. apply String_inj in E as ->; [|done..]. by rewrite id_lt_irrefl in Hlt3. }
  rewrite Hs2, filter_others in Hs3; [|by apply Hrest, Hlt|done].
  repeat split; try done; [by rewrite Hd3, Hd2, Hd1, bool_decide_eq_false_2|].
  rewrite Hc3, Hc2, Hc1. rewrite !delete_insert_eq. by apply delete_id.
Qed.
End retries.

(** ** Dead letters *)

Section dead_letters.
Context `{!StreamIDs, !Sources, !Journal.JobIDs, !Seal.UUID}.
Context {K RS J : Type} `{!Seal.KeyStore K, !Seal.ReceiptStore RS, !Journal.Store J}.
Implicit Types w : world K RS J.

(** No dead letter carries a job's input. *)
Definition dead_ok w : Prop := forall f, f ∈ dead (redis w) -> f !! ("input" : gostring) = None.

Lemma settleScript_dead key e force args now r f :
  f ∈ dead (settleScript key e force args now r).1 -> f ∈ dead r \/ f = delete ("input" : gostring) args.
Proof.
  unfold settleScript, incr. set (st := if force then _ else _).
  assert (Hd : dead st.1 = dead r).
  { unfold st. destruct force; [done|]. destruct (strings r !! key ≫= Atoi) as [m|]; [destruct (3 <=? m)%Z|]; try done;
      by destruct (Atoi _). }
  clearbody st. destruct st as [r1 [n|]]; cbn [fst snd] in *; [|rewrite Hd; by left].
  destruct (_ && _).
  - destruct (bool_decide _); cbn [fst]; [rewrite Hd; by left|]. unfold xadd.
    destruct (auto_id _ _); cbn; rewrite Hd; by left.
  - destruct (bool_decide _); cbn; rewrite Hd; [by left|].
    intros [Hf|Hf]%elem_of_app; [by left|]. right. by apply list_elem_of_singleton in Hf.
Qed.

Lemma exec_dead c w : dead_ok w -> dead_ok (exec c w).1.
Proof.
  intros Hd. destruct c; try done; unfold dead_ok; cbn [exec]; unfold on_redis.
  - by destruct (hincr_hset _ _ _ _) eqn:E; unfold hincr_hset in E; destruct (Atoi _); injection E as <- _.
  - unfold xadd. by destruct (auto_id _ _).
  - intros f [Hf| ->]%settleScript_dead; [by apply Hd|]. apply lookup_delete_eq.
  - by destruct (group (redis w)).
  - unfold xautoclaim. by destruct (group (redis w)).
  - unfold xreadgroup. by destruct (group (redis w)).
Qed.

(** whatever processes run, in whatever interleaving
    and with whatever failures, an entry of the stream of dead letters has no
    input field if none had one at the start: what a buried or repeatedly failed
    job leaves there for an operator never includes its sealed text. *)
Lemma dead_letters_no_input (program : proc reply error unit -> Prop) w ps w' ps' :
  rtc (step exec fallible lost program) (w, ps) (w', ps') -> dead_ok w -> dead_ok w'.
Proof.
  intros Hs. change (dead_ok (w, ps).1 -> dead_ok (w', ps').1).
  induction Hs as [|x y z Hxy _ IH]; [done|]. intros Hd. apply IH. destruct Hxy as [| v qs i p o v' p' _ Ha |]; try done.
  destruct p as [?|c k]; [done|]. injection Ha as <- _. cbn [fst] in *. unfold perform.
  destruct (fallible c), o; try done; by apply exec_dead.
Qed.
End dead_letters.
