(* ===== verification/QueueOutage.v ===== *)
(** * Jobs that the error paths give up

    Two paths of [group.go] end a job that could have been done: a refused read of the
    tenant's policy, which is taken for an error of the runner, and an entry without a
    tenant, whose key is destroyed without a receipt. *)

From S2P Require Import Prelude GoStd GoTime Json JsonSpec Ledger LedgerSpec Policy Runner Redact RedactSpec Seal SealSpec Journal JournalSpec Proc Queue QueueSafe QueueLogic QueueSpec QueueSigned QueueOnce QueueStores QueueLive.
Import Proc Queue.

(** ** A network that refuses some commands *)

Section network.
Context `{!StreamIDs, !StreamIDsLaws, !Sources, !SourcesLaws, !Journal.JobIDs, !Seal.UUID}.
Context {K RS J : Type}.
Context `{!Seal.KeyStore K, !Seal.KeyStoreLaws K, !Seal.ReceiptStore RS, !Seal.ReceiptStoreLaws RS}.
Context `{!Journal.Store J, !StoreLaws J}.
Implicit Types w : world K RS J.

(** What happens to a command depends on what it is. *)
Definition network (o : cmd -> outcome transport) (c : cmd) w : world K RS J * result error (reply c) :=
  perform exec fallible lost (o c) c w.

(** The database does not answer when it is asked for a policy, and serves the rest. *)
Definition outage (t : transport) (c : cmd) : outcome transport :=
  match c with CLoadPolicy _ => Refused t | _ => Served end.

Definition asks_no_policy (c : cmd) : Prop := match c with CLoadPolicy _ => False | _ => True end.

Lemma network_outage t c w : asks_no_policy c -> network (outage t) c w = exec c w.
Proof. destruct c; try done; intros _; unfold network, perform; by destruct (fallible _). Qed.

Lemma run_outage {A} t (p : proc reply error A) w :
  issues (fun _ _ => True) asks_no_policy p -> run (network (outage t)) p w = run exec p w.
Proof.
  revert w. induction p as [a|c k IH]; intros w Hp; cbn [run]; [done|]. destruct Hp as [Hc Hk].
  rewrite network_outage by done. by apply IH, Hk.
Qed.

Lemma total_outage {E A} t (m : M E A) (Q : option memState -> A -> world K RS J -> Prop) l w :
  issued (fun _ _ => True) asks_no_policy m -> total m Q l w -> total_on (ex := network (outage t)) m Q l w.
Proof. intros Hm. unfold total_on, arun. by rewrite run_outage. Qed.

(** What every interleaving keeps, one process on such a network keeps. *)
Lemma network_keeps {A} (Inv : world K RS J -> Prop) (mono : relation (world K RS J)) `{!PreOrder mono} o
    (p : proc reply error A) Q w :
  wp exec fallible lost Inv mono (given Inv mono) p Q w -> Inv w -> Inv (run (network o) p w).1.
Proof.
  revert w. induction p as [a|c k IH]; intros w Hp Hi; [done|]. cbn [run].
  destruct (Hp w) as [Hg Hk]; [done..|]. apply IH; [by apply Hk|].
  by apply (perform_given exec fallible lost Inv mono (o c) c w Hi Hg).
Qed.
End network.

(** ** The parts of the work that ask for no policy *)

Section parts.
Context `{!StreamIDs, !Sources, !Journal.JobIDs, !Seal.UUID, !Seal.AEAD, !Seal.Ed25519} (priv : gostring).
Abbreviation ok m := (issued (fun _ _ => True) asks_no_policy m).

Lemma quiet_of_result {E A} (g : E -> error) (r : result E A) : ok (of_result g r).
Proof. destruct r; apply issued_res. Qed.
Lemma quiet_or_throw {A} e (o : option A) : ok (or_throw e o).
Proof. destruct o; apply issued_res. Qed.
#[local] Hint Resolve quiet_of_result quiet_or_throw : issued.

Lemma quiet_purge id crash tenant : ok (purge_run priv id crash tenant).
Proof. unfold purge_run, dropCheckpoint. issued. Qed.
#[local] Hint Resolve quiet_purge : issued.

Lemma quiet_load id : ok (load id).
Proof. unfold load, jobKey. issued. Qed.

Lemma quiet_openJobInput id raw : ok (openJobInput id raw).
Proof. unfold openJobInput. issued. Qed.

Lemma quiet_finishJournaled c : ok (finishJournaled priv c).
Proof. unfold finishJournaled, finish. issued. Qed.

Lemma quiet_bury c jobType reason : ok (bury priv c jobType reason).
Proof. unfold bury, commitJob, Publish, settle. issued. Qed.
End parts.

(** ** An outage while the policy is read *)

Section outage.
Context `{!StreamIDs, !StreamIDsLaws, !Sources, !SourcesLaws, !Journal.JobIDs, !Seal.UUID}.
Context `{!Seal.AEAD, !Seal.AEADLaws, !Seal.Ed25519} (priv : gostring).
Context {K RS J : Type}.
Context `{!Seal.KeyStore K, !Seal.KeyStoreLaws K, !Seal.ReceiptStore RS, !Seal.ReceiptStoreLaws RS}.
Context `{!Journal.Store J, !StoreLaws J}.
Implicit Types w : world K RS J.
Abbreviation durable := Journal.DurableIDFor.

Section job.
Context (t : transport) (j : the_job) (Hwf : job_wf j) `{!Accepting (RS := RS) (J := J) (j_tenant j) (j_id j)}.
Abbreviation refused m := (total_on (ex := network (outage t)) m).

(** The runner gives up with an error that is not one of the infrastructure. *)
Lemma run_refused c (Q : _ -> _ -> _ -> Prop) l w :
  Q l None w ->
  refused (ran (Runner.Run (Redact.runner (Some (fun tenant => ask (CLoadPolicy tenant))))
                  (jobInput (j_plain j) (j_tenant j)) (Some (recorder c)))) Q l w.
Proof.
  intros HQ. unfold ran. cbn [Runner.Run Redact.runner]. unfold Redact.Run. rewrite (wf_input _ Hwf).
  assert (Ht : seqb (j_tenant j) [] = false) by (apply seqb_neq, (wf_entry _ Hwf)).
  assert (Htid : jlookup "tenantId" (jobInput (j_plain j) (j_tenant j)) = Some (JStr (j_tenant j))).
  { unfold jobInput. rewrite Ht. rewrite jlookup_jinsert. by rewrite seqb_refl. }
  rewrite Htid. cbv zeta. rewrite Ht. by destruct t.
Qed.

Lemma handle_refused i c l w :
  claim_of j i c -> c_fields c = j_fields j -> Input (job c) = field "input" (j_fields j) ->
  Inv w -> Job_inv j w -> receivable j w -> row_at w (durable (j_id j)) = None ->
  refused (handle priv worker_registry c no_hooks) (fun _ _ w' => buried j i "runner failed" w') l w.
Proof.
  intros Hc Hfs Hin Hi Hj Hrc Hr. unfold handle. cbv zeta.
  change (applyHooks c no_hooks) with (MkClaimed (entry c) (job c) (crash c) (fail_ c || false) (c_fields c)).
  destruct c as [e jb cr fl fs]. cbn [entry job crash fail_ c_fields] in *.
  pose proof Hc as (He & Hid & Ht & Hcr & Hfl). cbn [entry job crash fail_ c_fields] in *. subst fl.
  cbn [orb]. set (c := MkClaimed e jb cr false fs) in *.
  destruct (no_row_keyed j w Hi Hj Hr) as [Hk Hn].
  assert (Hp : pending_job j w) by (by split; [apply Hi|..]).
  apply total_bind, total_outage; [apply quiet_finishJournaled|].
  eapply total_weaken; [|by apply (unjournaled_total priv j c)].
  intros l1 b w1 (-> & -> & ->). cbv iota. rewrite Hid, Hin.
  apply total_bind, total_outage; [apply quiet_load|]. eapply total_weaken; [|by apply (quietly_load j Hwf)].
  intros l2 st w2 [Hf2 _]. apply total_bind, total_put. rewrite Hfs.
  assert (Hty : (if seqb (field "job_type" (j_fields j)) [] then "redact"%go
                 else field "job_type" (j_fields j)) = "redact"%go).
  { destruct (wf_type _ Hwf) as [-> | ->]; done. }
  rewrite Hty, redact_registered. pose proof (pending_frame j _ _ Hf2 Hp) as Hp2.
  apply total_try, total_outage; [apply quiet_openJobInput|].
  eapply total_weaken; [|by apply (openJobInput_total j Hwf), Hp2]. intros l3 plain w3 (-> & -> & ->).
  cbn [job with_input Input TenantID ID fail_ c]. rewrite Ht.
  apply total_bind, run_refused, total_outage; [apply quiet_bury|].
  by apply (bury_total priv j Hwf i (with_input c (j_plain j))).
Qed.

Lemma dispatch_refused i l w :
  id_ok i -> Inv w -> Job_inv j w -> receivable j w -> row_at w (durable (j_id j)) = None ->
  refused (dispatch priv worker_registry no_hooks (message (i, j_fields j)))
    (fun _ _ w' => buried j i "runner failed" w') l w.
Proof.
  intros Hok Hi Hj Hrc Hr. unfold dispatch. cbv zeta. rewrite valuesToFields_message. cbn [fst message].
  rewrite Parse_String by done. cbn [of_result]. apply total_bind, total_ret.
  destruct (wf_entry _ Hwf) as (Hin & Hid & Ht). unfold parseClaim, parseJob.
  rewrite (proj2 (seqb_neq _ _) Hin), (proj2 (seqb_neq _ _) Hid), (proj2 (seqb_neq _ _) Ht).
  cbn [mbind result_bind]. by apply handle_refused.
Qed.
End job.

(** What is on record for good: the job has failed and its input cannot be read. *)
Definition given_up (d id : gostring) w : Prop :=
  (exists row, row_at w d = Some row /\ Journal.FinalState row = Journal.FAILED) /\
  (exists o, Journal.output_of (journal w) id = Some o /\
     Journal.out_state o = Journal.FAILED /\ Journal.Body o = Journal.BodyOf failed_result) /\
  exists t, key_at w d = Seal.Destroyed t.

Lemma given_up_mono d id w w' : mono w w' -> given_up d id w -> given_up d id w'.
Proof.
  intros Hm ((row & Hr & Hs) & (o & Ho & Hos) & t & Hk). split; [|split].
  - exists row. split; [by apply Hm|done].
  - exists o. split; [by apply Hm|done].
  - exists t. pose proof (mono_key _ _ Hm d) as H'. by rewrite Hk in H'.
Qed.

(** C25 [policy_outage_buries]: one refused read of a tenant's policy is enough to lose a
    job for good.  A job is added as in [one_result], and workers, producers, readers,
    failures and crashes bring the system into any state in which the job has no row
    yet and an entry of it is in the stream.  If, during the next delivery of that entry,
    the read of the policy is refused, broken off or timed out, and everything else is
    served, the delivery ends without an error: the runner's error is not one of those
    that [handle] hands back for another delivery.  The job is recorded as FAILED with
    [runner failed], its input key is destroyed, its entry is gone and its fields but the
    input are a dead letter; and whatever runs from then on, it stays failed and its
    input unreadable.  The stores are those of [redelivery_finishes]. *)
Theorem policy_outage_buries t jb text w0 w1 l w ps i f `{!Accepting (RS := RS) (J := J) (TenantID jb) (ID jb)} :
  fresh w0 -> new_job jb text w0 -> arun exec (Add true jb) None w0 = (w1, (l, Ok tt)) ->
  rtc (step exec fallible lost (program_of priv (durable (ID jb)))) (w1, []) (w, ps) ->
  (i, f) ∈ stream (redis w) -> job_of f = durable (ID jb) -> row_at w (durable (ID jb)) = None ->
  in_order (receipts w0) -> has_room (receipts w) ->
  exists l' w',
    arun (network (outage t)) (dispatch priv worker_registry no_hooks (message (i, f))) None w = (w', (l', Ok tt)) /\
    (forall f', (i, f') ∉ stream (redis w')) /\ delete ("input" : gostring) f ∈ dead (redis w') /\
    forall v qs, rtc (step exec fallible lost (program priv)) (w', []) (v, qs) ->
      given_up (durable (ID jb)) (ID jb) v.
Proof.
  intros Hf Hn Ha Hs Hin Hjob Hnone Hord Hroom.
  assert (Ho : in_order (receipts w)) by (by eapply Add_in_order).
  destruct (Add_reach priv jb text w0 w1 l w ps Hf Hn Ha Hs) as (j & Hwf & Hid & Ht & _ & Hi & Hj).
  rewrite <- Hid in Hjob. destruct (job_entry _ _ Hj i f Hin) as [_ Hfj]. rewrite (Hfj Hjob) in *.
  clear Hf Hn Ha Hs Hord. destruct jb as [id input tenant ty]. cbn [ID TenantID] in *. subst id tenant.
  destruct (total_run _ _ _ (dispatch_refused t j Hwf i None w (inv_ids _ Hi _ _ Hin) Hi Hj (conj Ho Hroom) Hnone))
    as (l' & [] & E & [Hr Hout [_ (r & _ & Hk)] Hg Hd]).
  exists l'. eexists. split; [exact E|]. split; [exact Hg|]. split; [exact Hd|]. intros v qs Hv.
  eapply given_up_mono; [|split; [exact Hr|split; [exact Hout|eexists; exact Hk]]].
  assert (Hi' : Inv (arun (network (outage t)) (dispatch priv worker_registry no_hooks (message (i, j_fields j))) None w).1).
  { assert (Hmsg : msg_ok (message (i, j_fields j)) w) by (by apply stream_msg_ok).
    pose proof (dispatch_safe priv _ no_hooks _ None w worker_registry_safe eq_refl Hmsg) as Hsafe.
    exact (network_keeps Inv mono (outage t) _ _ w Hsafe Hi). }
  by apply (reach_safe priv _ v qs Hi' Hv).
Qed.

(** *** An entry without a tenant *)

(** The key of the job is destroyed, and neither the receipts nor the journal hear of it. *)
Lemma tenantless_shredded reg hooks i f key l w :
  let id := if seqb (field "id" f) [] then String i else field "id" f in
  id_ok i -> field "input" f <> [] -> field "tenant_id" f = [] ->
  Seal.keys_ok (keys w) -> key_at w (durable id) = Seal.Live key ->
  total (dispatch priv reg hooks (message (i, f)))
    (fun _ _ w' => (exists t, key_at w' (durable id) = Seal.Destroyed t) /\
       receipts w' = receipts w /\ journal w' = journal w) l w.
Proof.
  intros id Hok Hin Ht Hk Hl. unfold dispatch. cbv zeta. rewrite valuesToFields_message. cbn [fst message].
  rewrite Parse_String by done. cbn [of_result]. apply total_bind, total_ret. unfold parseClaim, parseJob.
  rewrite (proj2 (seqb_neq _ _) Hin), Ht. cbn [seqb mbind result_bind]. unfold deadLetterMissingTenant. fold id.
  apply total_bind, (total_ask CNow _ _ _ _ eq_refl). cbn [exec fst].
  apply total_bind, (total_ask (CDestroy _ _) _ _ _ tt eq_refl). cbn [exec fst].
  assert (Hd : forall t, Seal.key_of (Seal.Destroy (durable id) t (keys w)) (durable id) = Seal.Destroyed t).
  { intros t. rewrite Seal.Destroy_view by done. unfold key_at in Hl. rewrite Hl. by rewrite decide_True. }
  apply total_bind. unfold settle. apply total_bind.
  apply (total_ask (CSettle _ _ _ _) _ _ _ (RArray [RString "bury"; RInt 3])); [reflexivity|].
  apply total_ret, total_ret. split; [|done]. exists (now w). apply Hd.
Qed.
End outage.

#[local] Existing Instance toy_ids.
#[local] Existing Instance toy_uuid.
#[local] Existing Instance toy_aead.
#[local] Existing Instance toy_aead_laws.
#[local] Existing Instance toy_ed25519.
#[local] Existing Instance toy_vault.
#[local] Existing Instance toy_vault_laws.
#[local] Existing Instance Seal.pg_keys.
#[local] Existing Instance toy_pg_receipts.
#[local] Existing Instance toy_pg_receipts_laws.
#[local] Existing Instance toy_pg_journal.
#[local] Existing Instance toy_pg_journal_laws.
#[local] Existing Instance toy_pg_accepting.

(** The job that has just been added to the stores of Postgres. *)
Lemma policy_outage_buries_witness :
  exists l' w',
    arun (network (outage TimedOut)) (dispatch toy_key worker_registry no_hooks (message (MkStreamID 0 1, toy_fields)))
      None pg_added = (w', (l', Ok tt)) /\
    (forall f', (MkStreamID 0 1, f') ∉ stream (redis w')) /\ delete ("input" : gostring) toy_fields ∈ dead (redis w') /\
    forall v qs, rtc (step exec fallible lost (program toy_key)) (w', []) (v, qs) -> given_up "id:j1" "j1" v.
Proof.
  refine (policy_outage_buries toy_key TimedOut toy_job "a@b.co"%go pg_start pg_added None pg_added []
           (MkStreamID 0 1) toy_fields pg_fresh pg_new pg_Add (rtc_refl _ _) pg_added_stream toy_fields_job _ _ _).
  - vm_compute. reflexivity.
  - intros _. split; [by apply list_elem_of_singleton|done].
  - reflexivity.
Defined.
