(* ===== verification/Sentinel.v ===== *)
(** * The log masker (cmd/sentinel)

    [run] masks lines with the tenant's policy (mask.go), hands lines that are
    too long to the control plane behind a circuit breaker (handoff.go), counts
    what it did in windows that it posts (events.go), and keeps its policy up to
    date (policy.go); [scan] reports what it finds in a tree of files (scan.go).

    HTTP exchanges are parameters: what a request is answered, or [None] when
    [client.Do] or the reading of the body fails. *)

From S2P Require Import Prelude GoStd GoTime Json Decode Ledger Detect Policy.

Module Sentinel.

(** ** Settings (policy.go) *)

Record maskSettings := MkSettings {
  maxInline : Z;
  kinds : list Kind;
  mode : Mode;
  failPolicy : gostring;
  etag : gostring;
  version : Z;
}.

Definition maskKinds : list Kind :=
  [KindEmail; KindPhoneUS; KindPhoneIN; KindSSN; KindAadhaar; KindPAN].

(** What [main] stores before any policy is loaded. *)
Definition initial_settings (max_inline : Z) : maskSettings :=
  MkSettings max_inline maskKinds ModeRedact "closed" [] 0.

Definition settingsFrom (doc : Policy.Doc) (etag : gostring) : maskSettings :=
  let mode := if seqb (Policy.Mode doc) [] then ModeRedact else Policy.Mode doc in
  let max := if (Policy.MaxInlineBytes doc <? 1)%Z then 65536%Z else Policy.MaxInlineBytes doc in
  let fail := if seqb (Policy.FailPolicy doc) [] then "closed"%go else Policy.FailPolicy doc in
  MkSettings max (Policy.Detectors doc) mode fail etag (Policy.Version doc).

(** An answer: status, body and the header ETag. *)
Record response := MkResponse { Status : Z; Body : gostring; ETag : gostring }.

(** [io.LimitReader(res.Body, 1<<20)] *)
Definition limited (body : gostring) : gostring :=
  if (1048576 <? glen body)%Z then take (Z.to_nat 1048576) body else body.

(** What [fetchPolicy] returns: a document with its tag, the same as before, or
    an error. *)
Inductive fetched := Fetched (doc : Policy.Doc) (etag : gostring) | Same | FetchError.

Definition fetchPolicy (res : option response) : fetched :=
  match res with
  | None => FetchError
  | Some res =>
      if (Status res =? 304)%Z then Same
      else if negb (Status res =? 200)%Z then FetchError
      else
        match Policy.Parse (limited (Body res)) with
        | Err _ => FetchError
        | Ok doc => Fetched doc (ETag res)
        end
  end.

(** *** The cached policy *)

(** The document; a slice that was never set is null. *)
Definition document_json (d : Policy.Doc) : json :=
  match Policy.Detectors d with
  | [] => JObj [("version", JNum (Policy.Version d)); ("detectors", JNull);
                ("mode", JStr (Policy.Mode d)); ("failPolicy", JStr (Policy.FailPolicy d));
                ("maxInlineBytes", JNum (Policy.MaxInlineBytes d))]%go
  | _ => Policy.doc_json d
  end.

Definition cachedPolicy_json (doc : Policy.Doc) (etag : gostring) : json :=
  JObj [("etag", JStr etag); ("document", document_json doc)]%go.

Definition cached_fields : list gostring := ["etag"; "document"].

Definition set_cached (f : gostring) (c : Policy.Doc * gostring) (v : json) : option (Policy.Doc * gostring) :=
  if seqb f "etag" then e ← set_string c.2 v; Some (c.1, e)
  else d ← set_struct Policy.doc_fields Policy.set_doc_field false c.1 v; Some (d, c.2).

(** The state directory: none was given, it cannot be written, or it can.  The
    file policy.json in it is [None] where it cannot be read. *)
Inductive state_dir := NoDir | ReadOnly | Writable.

Definition writeCache (dir : state_dir) (doc : Policy.Doc) (etag : gostring) (file : option gostring)
    : option gostring :=
  match dir with Writable => Some (Marshal (cachedPolicy_json doc etag)) | _ => file end.

Definition readCache (dir : state_dir) (file : option gostring) : option (Policy.Doc * gostring) :=
  match dir with
  | NoDir => None
  | _ =>
       raw ← file; v ← Json.Parse raw;
       set_struct cached_fields set_cached false (Policy.zero_doc, []) v
  end.

(** [loadInitial]: [control] says that a control plane is configured and what it
    answers; [policyFile] that a file is, and its text if it can be read. *)
Definition loadInitial (control : option (option response)) (dir : state_dir) (file : option gostring)
    (policyFile : option (option gostring)) : option gostring * option (Policy.Doc * gostring) :=
  let read_doc := match policyFile with
                  | None => Some None
                  | Some None => None
                  | Some (Some raw) =>
                      match Policy.Parse raw with Err _ => None | Ok doc => Some (Some doc) end
                  end in
  match read_doc with
  | None => (file, None)
  | Some fileDoc =>
      match control with
      | None => (file, d ← fileDoc; Some (d, []))
      | Some res =>
          match fetchPolicy res with
          | Fetched doc etag => (writeCache dir doc etag file, Some (doc, etag))
          | Same => (writeCache dir Policy.zero_doc [] file, Some (Policy.zero_doc, []))
          | FetchError =>
              match readCache dir file with
              | Some cached => (file, Some cached)
              | None => (file, d ← fileDoc; Some (d, []))
              end
          end
      end
  end.

(** One turn of [poll]: the settings that are active after it. *)
Definition poll (dir : state_dir) (res : option response) (file : option gostring) (active : maskSettings)
    : option gostring * maskSettings :=
  match fetchPolicy res with
  | Fetched doc etag => (writeCache dir doc etag file, settingsFrom doc etag)
  | _ => (file, active)
  end.


(** ** Handing lines off (handoff.go) *)

Record maskResult := MkMasked {
  line : gostring;
  counts : gmap Kind Z;
  dropped : bool;
  held : bool;
}.

Definition handoffQueueCap : Z := 1000.
Definition handoffBreakerLimit : Z := 5.
Definition Millisecond : Z := 1000000.
Definition handoffBackoffStart : Z := 10 * Millisecond.
Definition handoffBackoffCap : Z := 200 * Millisecond.

(** The state of a [handoff]: what its atomic fields hold, and besides them the
    timers that are running, the requests sent and the time slept so far. *)
Record handoff := MkHandoff {
  baseURL : gostring;
  allowFailOpen : bool;
  failures : Z;
  open_ : bool;
  allowProbe : bool;
  failOpenCount : Z;
  timers : nat;
  sent : nat;
  slept : Z;
}.

Definition newHandoff (url : gostring) (allow : bool) : handoff :=
  MkHandoff url allow 0 false false 0 0 0 0.

Definition set_breaker (f : Z) (o p : bool) (h : handoff) : handoff :=
  MkHandoff (baseURL h) (allowFailOpen h) f o p (failOpenCount h) (timers h) (sent h) (slept h).
Definition set_timers (n : nat) (h : handoff) : handoff :=
  MkHandoff (baseURL h) (allowFailOpen h) (failures h) (open_ h) (allowProbe h) (failOpenCount h) n
    (sent h) (slept h).
Definition sleep (d : Z) (h : handoff) : handoff :=
  MkHandoff (baseURL h) (allowFailOpen h) (failures h) (open_ h) (allowProbe h) (failOpenCount h)
    (timers h) (sent h) (slept h + d).
Definition count_sent (h : handoff) : handoff :=
  MkHandoff (baseURL h) (allowFailOpen h) (failures h) (open_ h) (allowProbe h) (failOpenCount h)
    (timers h) (S (sent h)) (slept h).
Definition count_open (n : Z) (h : handoff) : handoff :=
  MkHandoff (baseURL h) (allowFailOpen h) (failures h) (open_ h) (allowProbe h)
    (Ledger.wrap64 (failOpenCount h + n)) (timers h) (sent h) (slept h).

(** The answer to the [n]th request. *)
Class Network := { answer : nat -> option response }.

Definition count_spans (spans : list Span) : gmap Kind Z :=
  foldl (fun m sp => bump m (sp_kind sp)) ∅ spans.

(** [detect.Apply] cannot panic on the spans of [Scan] (see [apply_total]). *)
Definition apply_scan_of (line : gostring) (kinds : list Kind) (mode : Mode) : maskResult :=
  let r := default (line, ∅) (Apply line (Scan line kinds) mode) in MkMasked r.1 r.2 false false.

Definition dropped_line : gostring := "[DROPPED reason=handoff_unavailable]".

Definition applyFailPolicy (line failPolicy : gostring) (kinds : list Kind) (mode : Mode)
    (h : option handoff) : option handoff * maskResult :=
  if seqb failPolicy "inline" then
    let mode := if seqb mode [] then ModeRedact else mode in
    let kinds := match kinds with [] => maskKinds | _ => kinds end in
    (h, apply_scan_of line kinds mode)
  else
    match h with
    | Some h' =>
        if seqb failPolicy "open" && allowFailOpen h'
        then (Some (count_open 1 h'), MkMasked line ∅ false false)
        else (h, MkMasked dropped_line ∅ true false)
    | None => (h, MkMasked dropped_line ∅ true false)
    end.

Section handoff.
Context `{Network}.

(** [post]: the identifier of the job, or an error. *)
Definition post (h : handoff) : handoff * option gostring :=
  (count_sent h,
   res ← answer (sent h);
   if negb (Status res =? 200)%Z then None
   else v ← Json.Parse (limited (Body res));
        id ← set_struct ["jobId"%go] (fun _ => set_string) false [] v;
        if seqb id [] then None else Some id).

(** The retries of [loop] for one item while the breaker is closed. *)
Fixpoint retry (fuel : nat) (backoff : Z) (h : handoff) : option (handoff * option gostring) :=
  match fuel with
  | O => None
  | S fuel =>
      let '(h, r) := post h in
      match r with
      | Some id => Some (set_breaker 0 false (allowProbe h) h, Some id)
      | None =>
          let n := (failures h + 1)%Z in
          let h := set_breaker n (open_ h) (allowProbe h) h in
          if (handoffBreakerLimit <=? n)%Z then Some (set_breaker n true true h, None)
          else retry fuel (Z.min (backoff * 2) handoffBackoffCap) (sleep backoff h)
      end
  end.

(** What [loop] does with an item: with the breaker open one request, whose
    failure starts a timer. *)
Definition loop_item (h : handoff) : option (handoff * option gostring) :=
  if open_ h then
    let '(h, r) := post h in
    match r with
    | Some id => Some (set_breaker 0 false false h, Some id)
    | None => Some (set_timers (S (timers h)) h, None)
    end
  else retry (Z.to_nat handoffBreakerLimit) handoffBackoffStart h.

(** A timer of [loop] fires. *)
Definition fire (h : handoff) : handoff :=
  match timers h with
  | O => h
  | S n => set_breaker (failures h) (open_ h) true (set_timers n h)
  end.

(** [handle], with [queued] items in the channel already.  Only the reader of
    lines calls it, and waits for the reply, so that [loop] is idle when an item
    comes: handing it over and being answered is one step.  [None] would be a
    loop that has not ended. *)
Definition handle (line failPolicy : gostring) (kinds : list Kind) (mode : Mode) (queued : Z)
    (h : option handoff) : option (option handoff * maskResult) :=
  match h with
  | None => Some (applyFailPolicy line failPolicy kinds mode None)
  | Some h' =>
      if seqb (baseURL h') [] then Some (applyFailPolicy line failPolicy kinds mode h)
      else if open_ h' && negb (allowProbe h') then Some (applyFailPolicy line failPolicy kinds mode h)
      else
        let h' := if open_ h' then set_breaker (failures h') (open_ h') false h' else h' in
        if (queued <? handoffQueueCap)%Z then
          out ← loop_item h';
          match out.2 with
          | Some jobID => Some (Some out.1, MkMasked ("[HELD job=" ++ jobID ++ "]") ∅ false true)
          | None => Some (applyFailPolicy line failPolicy kinds mode (Some out.1))
          end
        else
          let h' := if open_ h' then set_breaker (failures h') (open_ h') true h' else h' in
          Some (applyFailPolicy line failPolicy kinds mode (Some h'))
  end.

(** ** Masking a line (mask.go) *)

Definition maskWith (line : gostring) (maxInline : Z) (shadow : bool) (kinds : list Kind) (mode : Mode)
    (h : option handoff) (failPolicy : gostring) : option (option handoff * maskResult) :=
  let kinds := match kinds with [] => maskKinds | _ => kinds end in
  let mode := if seqb mode [] then ModeRedact else mode in
  let failPolicy := if seqb failPolicy [] then "closed"%go else failPolicy in
  if (maxInline <? glen line)%Z then
    if shadow then Some (h, MkMasked line (count_spans (Scan line kinds)) false false)
    else handle line failPolicy kinds mode 0 h
  else
    let spans := Scan line kinds in
    if shadow then Some (h, MkMasked line (count_spans spans) false false)
    else Some (h, apply_scan_of line kinds mode).

Definition maskLine (line : gostring) (maxInline : Z) (shadow : bool) : option (option handoff * maskResult) :=
  maskWith line maxInline shadow maskKinds ModeRedact None "closed".
End handoff.


(** ** Counting in windows (events.go) *)

Record windowCounters := MkWindow {
  from : time;
  w_counts : gmap Kind Z;
  w_held : Z;
  w_dropped : Z;
}.

Definition newWindowCounters (at_ : time) : windowCounters := MkWindow at_ ∅ 0 0.

Record eventBatch := MkBatch {
  NodeID : gostring;
  From : time;
  To : time;
  PolicyVersion : Z;
  Counts : gmap Kind Z;
  Held : Z;
  Dropped : Z;
  FailOpen : Z;
}.

(** [w.counts[kind] += int64(n)] for every entry of a map. *)
Definition add_counts (new cur : gmap Kind Z) : gmap Kind Z :=
  merge (fun n c => match n with
                    | None => c
                    | Some n => Some (Ledger.wrap64 (default 0%Z c + n))
                    end) new cur.

Definition add (result : maskResult) (w : windowCounters) : windowCounters :=
  MkWindow (from w) (add_counts (counts result) (w_counts w))
    (if held result then Ledger.wrap64 (w_held w + 1) else w_held w)
    (if dropped result then Ledger.wrap64 (w_dropped w + 1) else w_dropped w).

Definition take_batch (to failOpen : Z) (nodeID : gostring) (policyVersion : Z) (w : windowCounters)
    : windowCounters * eventBatch :=
  (MkWindow to ∅ 0 0,
   MkBatch nodeID (from w) to policyVersion (filter (fun kn => (0 < kn.2)%Z) (w_counts w))
     (w_held w) (w_dropped w) failOpen).

Definition restore (b : eventBatch) (w : windowCounters) : windowCounters :=
  MkWindow (if (From b <? from w)%Z then From b else from w) (add_counts (Counts b) (w_counts w))
    (Ledger.wrap64 (w_held w + Held b)) (Ledger.wrap64 (w_dropped w + Dropped b)).

(** [MarshalJSON]; the keys of a map come in order. *)
Definition batch_json (b : eventBatch) : json :=
  JObj [("nodeId", JStr (NodeID b)); ("from", JStr (FormatRFC3339Nano (From b)));
        ("to", JStr (FormatRFC3339Nano (To b))); ("policyVersion", JNum (PolicyVersion b));
        ("counts", JObj (sort_slice (fun a b => str_lt a.1 b.1)
                           ((fun kn => (kn.1, JNum kn.2)) <$> map_to_list (Counts b))));
        ("held", JNum (Held b)); ("dropped", JNum (Dropped b)); ("failOpen", JNum (FailOpen b))]%go.

(** [flush] runs beside the reader of lines.  Its atomic steps on what they
    share: it takes the count of lines let through, then the window; once the
    request is answered it either is done or puts the window and then the count
    back. *)
Inductive flush_state :=
| Ready
| Swapped (failOpen : Z)
| Posting (b : eventBatch)
| Restored (failOpen : Z).

Record node := MkNode {
  win : windowCounters;
  fail_open : Z;
  flush : flush_state;
  acked : list eventBatch;          (* answered with 200, as the node saw it *)
  thrown : list eventBatch;         (* taken, and neither posted nor put back *)
}.

Definition set_win w n := MkNode w (fail_open n) (flush n) (acked n) (thrown n).
Definition set_fail_open f n := MkNode (win n) f (flush n) (acked n) (thrown n).
Definition set_flush s n := MkNode (win n) (fail_open n) s (acked n) (thrown n).
Definition ack b n := MkNode (win n) (fail_open n) Ready (acked n ++ [b]) (thrown n).
Definition throw_away b n := MkNode (win n) (fail_open n) Ready (acked n) (thrown n ++ [b]).

Inductive event :=
| Recorded (r : maskResult)         (* events.record *)
| LetThrough                        (* failOpenCount.Add(1) in applyFailPolicy *)
| FlushSwap
| FlushTake (now : time) (nodeID : gostring) (version : Z)
| Answered (res : option response)
| FlushAdd.

(** One step; [None] where it cannot happen.  [url_ok] says that [http.NewRequest]
    takes the address of the control plane; when it does not, [flush] returns with the
    window in its hands.  ([json.Marshal] does not fail: a batch has texts, integers and
    a map of integers.) *)
Definition node_step (url_ok : bool) (e : event) (n : node) : option node :=
  match e, flush n with
  | Recorded r, _ => Some (set_win (add r (win n)) n)
  | LetThrough, _ => Some (set_fail_open (Ledger.wrap64 (fail_open n + 1)) n)
  | FlushSwap, Ready => Some (set_flush (Swapped (fail_open n)) (set_fail_open 0 n))
  | FlushTake now nodeID version, Swapped f =>
      let wb := take_batch now f nodeID version (win n) in
      let n := set_win wb.1 n in
      Some (if url_ok then set_flush (Posting wb.2) n else throw_away wb.2 n)
  | Answered res, Posting b =>
      if match res with Some r => (Status r =? 200)%Z | None => false end then Some (ack b n)
      else Some (set_flush (if (FailOpen b =? 0)%Z then Ready else Restored (FailOpen b))
                   (set_win (restore b (win n)) n))
  | FlushAdd, Restored f => Some (set_flush Ready (set_fail_open (Ledger.wrap64 (fail_open n + f)) n))
  | _, _ => None
  end.

Definition new_node (at_ : time) : node := MkNode (newWindowCounters at_) 0 Ready [] [].

Fixpoint node_run (url_ok : bool) (es : list event) (n : node) : option node :=
  match es with
  | [] => Some n
  | e :: es => n ← node_step url_ok e n; node_run url_ok es n
  end.

(** ** Reading lines (main.go) *)

Definition newline : byte := Byte.x0a.
Definition line_end : gostring := [Byte.x0d; Byte.x0a].

(** What [readLines] does with what can be read before the next end of file:
    the lines it passes on, and what stays [pending]. *)
Fixpoint read_segment (fuel : nat) (pending s : gostring) : list gostring * gostring :=
  match fuel with
  | O => ([], pending ++ s)
  | S fuel =>
      match Cut s newline with
      | None => ([], pending ++ s)
      | Some (a, rest) =>
          let lp := read_segment fuel [] rest in
          (TrimRight (pending ++ a ++ [newline]) line_end :: lp.1, lp.2)
      end
  end.

Fixpoint read_segments (pending : gostring) (segments : list gostring) : list gostring * gostring :=
  match segments with
  | [] => ([], pending)
  | s :: segments =>
      let lp := read_segment (S (length s)) pending s in
      let lp' := read_segments lp.2 segments in
      (lp.1 ++ lp'.1, lp'.2)
  end.

(** [readLines] on an input that reaches its end after each segment; without
    [follow] it stops at the first, and passes on what is pending. *)
Definition readLines (follow : bool) (segments : list gostring) : list gostring :=
  if follow then (read_segments [] segments).1
  else
    let lp := read_segments [] (take 1 segments) in
    lp.1 ++ (if seqb lp.2 [] then [] else [lp.2]).

(** ** Scanning files (scan.go) *)

(** A file with its contents, if it can be read, or a directory with its entries
    in the order [WalkDir] visits them. *)
#[warnings="-register-all"]
Inductive entry :=
| File (name : gostring) (content : option gostring)
| Dir (name : gostring) (entries : list entry).

Record FileFinding := MkFinding { ff_file : gostring; ff_findings : gmap Kind Z }.

Record ScanReport := MkReport {
  Target : gostring;
  FilesScanned : Z;
  LinesScanned : Z;
  Findings : gmap Kind Z;
  TotalPII : Z;
  RiskScore : gostring;
  FileDetails : list FileFinding;
}.

Definition scan_kinds : list Kind :=
  [KindAadhaar; KindPAN; KindCreditCard; KindEmail; KindPhoneIN; KindPhoneUS; KindSSN; KindIP].

Definition maxLine : Z := 1024 * 1024.

(** [bufio.ScanLines]: a line without its end. *)
Definition drop_cr (l : gostring) : gostring :=
  match reverse l with b :: r => if beq b Byte.x0d then reverse r else l | [] => l end.

(** The tokens of the [bufio.Scanner], up to the first line that does not fit its
    buffer, and whether there was one. *)
Fixpoint scan_tokens (parts : list gostring) : list gostring * bool :=
  match parts with
  | [] => ([], false)
  | [l] => if (maxLine <=? glen l)%Z then ([], true) else (if seqb l [] then [] else [drop_cr l], false)
  | l :: parts =>
      if (maxLine <=? glen l)%Z then ([], true)
      else let tb := scan_tokens parts in (drop_cr l :: tb.1, tb.2)
  end.

Definition count_line (kinds : list Kind) (m : gmap Kind Z) (line : gostring) : gmap Kind Z :=
  foldl (fun m sp => bump m (sp_kind sp)) m (Scan line kinds).

(** [scanFile]: counts, lines, and whether there was an error. *)
Definition scanFile (content : option gostring) (kinds : list Kind) : option (gmap Kind Z * Z * bool) :=
  raw ← content;
  let tb := scan_tokens (Split raw newline) in
  Some (foldl (count_line kinds) ∅ tb.1, glen tb.1, tb.2).

(** [filepath.Ext]: from the last dot of the last element. *)
Definition Ext (name : gostring) : gostring :=
  match Cut (reverse name) "."%byte with
  | Some (r, _) => if existsb (beq "/"%byte) r then [] else "." ++ reverse r
  | None => []
  end.

Definition skipped_ext (path : gostring) : bool :=
  let ext := ToLower (Ext path) in
  existsb (seqb ext) [".exe"; ".dll"; ".so"; ".zip"; ".gz"; ".tar"; ".png"; ".jpg"]%go.

Definition skipped_dir (name : gostring) : bool :=
  HasPrefix name "." || seqb name "node_modules" || seqb name "vendor".

(** The loop over a file's findings. *)
Definition add_findings (path : gostring) (counts : gmap Kind Z) (r : ScanReport) : ScanReport :=
  if bool_decide (counts = ∅) then r
  else
    MkReport (Target r) (FilesScanned r) (LinesScanned r)
      (merge (fun n c => match n with None => c | Some n => Some (default 0%Z c + n)%Z end) counts (Findings r))
      (TotalPII r + map_fold (fun _ n t => (t + n)%Z) 0%Z counts) (RiskScore r)
      (FileDetails r ++ [MkFinding path counts]).

Definition count_file (lines : Z) (r : ScanReport) : ScanReport :=
  MkReport (Target r) (FilesScanned r + 1) (LinesScanned r + lines) (Findings r) (TotalPII r)
    (RiskScore r) (FileDetails r).

Definition visit_file (path : gostring) (content : option gostring) (r : ScanReport) : ScanReport :=
  if skipped_ext path then r
  else
    match scanFile content scan_kinds with
    | Some (counts, lines, false) => add_findings path counts (count_file lines r)
    | _ => r
    end.

(** [filepath.Clean] and [filepath.Join]. *)
Definition clean_part (rooted : bool) (stack : list gostring) (part : gostring) : list gostring :=
  if seqb part [] || seqb part "." then stack
  else if seqb part ".." then
    match stack with
    | [] => if rooted then [] else [".."]
    | top :: rest => if seqb top ".." then ".." :: stack else rest
    end
  else part :: stack.

Definition Clean (path : gostring) : gostring :=
  match path with
  | [] => "."
  | b :: _ =>
      let rooted := beq b "/"%byte in
      let s := join "/" (reverse (foldl (clean_part rooted) [] (Split path "/"%byte))) in
      if rooted then "/" ++ s else if seqb s [] then "." else s
  end.

Definition Join (dir name : gostring) : gostring := Clean (dir ++ "/" ++ name).

(** [filepath.WalkDir] with [walkFn]. *)
Fixpoint walk (path : gostring) (e : entry) (r : ScanReport) : ScanReport :=
  match e with
  | File _ content => visit_file path content r
  | Dir name entries =>
      if skipped_dir name then r
      else (fix walk_all (es : list entry) (r : ScanReport) : ScanReport :=
              match es with
              | [] => r
              | e :: es =>
                  let name := match e with File n _ => n | Dir n _ => n end in
                  walk_all es (walk (Join path name) e r)
              end) entries r
  end.

Definition risk (total : Z) : gostring :=
  if (total =? 0)%Z then "CLEAN" else if (total <? 5)%Z then "LOW"
  else if (total <? 20)%Z then "MEDIUM" else "HIGH".

Definition score (r : ScanReport) : ScanReport :=
  MkReport (Target r) (FilesScanned r) (LinesScanned r) (Findings r) (TotalPII r) (risk (TotalPII r))
    (FileDetails r).

Definition new_report (target : gostring) : ScanReport := MkReport target 0 0 ∅ 0 [] [].

(** What the target names: a file, a directory, or nothing. *)
Inductive target_info := IsFile (content : option gostring) | IsDir (entries : list entry) | NoTarget.

(** [filepath.Base], the name that [os.Lstat] reports. *)
Fixpoint strip_slashes (r : gostring) : gostring :=
  match r with b :: r' => if beq b "/"%byte then strip_slashes r' else r | [] => [] end.

Definition Base (path : gostring) : gostring :=
  match path with
  | [] => "."
  | _ =>
      match strip_slashes (reverse path) with
      | [] => "/"
      | r => reverse (match Cut r "/"%byte with Some (last, _) => last | None => r end)
      end
  end.

(** [runScan]: the report it prints, and the status it exits with. *)
Definition runScan (target : gostring) (info : target_info) : option ScanReport * Z :=
  match info with
  | NoTarget => (None, 2%Z)
  | IsDir entries =>
      let r := score (walk target (Dir (Base target) entries) (new_report target)) in
      (Some r, if (0 <? TotalPII r)%Z then 1%Z else 0%Z)
  | IsFile content =>
      let r := score (match scanFile content scan_kinds with
                      | Some (counts, lines, false) =>
                          add_findings target counts (count_file lines (new_report target))
                      | _ => new_report target
                      end) in
      (Some r, if (0 <? TotalPII r)%Z then 1%Z else 0%Z)
  end.

End Sentinel.
