(* ===== verification/SentinelSpec.v ===== *)
(** * Properties of the log masker

    What a line can become, how long a line can be held up, that the windows of
    counters lose nothing, that reading and scanning see every line, and that
    the policy outlives the control plane. *)

From S2P Require Import Prelude GoStd GoTime Json JsonSpec Decode Ledger LedgerSpec Detect DetectSpec Policy PolicySpec Sentinel.
Import Sentinel.
#[local] Open Scope Z_scope.

(** ** The circuit breaker *)

Section handoff.
Context `{Network}.

(** The breaker is open exactly when five requests in a row have failed. *)
Definition breaker_ok (h : handoff) : Prop :=
  (open_ h = true /\ failures h = handoffBreakerLimit) \/
  (open_ h = false /\ 0 <= failures h < handoffBreakerLimit).

(** What sending requests leaves alone. *)
Definition same_node (h h' : handoff) : Prop :=
  baseURL h' = baseURL h /\ allowFailOpen h' = allowFailOpen h /\ failOpenCount h' = failOpenCount h.

Lemma post_id h id : (post h).2 = Some id -> id <> [].
Proof.
  unfold post. cbn [snd]. destruct (answer (sent h)) as [res|]; [|done]. cbn [mbind option_bind].
  destruct (negb _); [done|]. destruct (Json.Parse _) as [v|]; [|done]. cbn [mbind option_bind].
  destruct (set_struct _ _ _ _ v) as [i|]; [|done]. cbn [mbind option_bind].
  destruct (seqb i []) eqn:E; [done|]. apply seqb_neq in E. by intros [= <-].
Qed.

Lemma pow2_pos k : 0 <= k -> 1 <= 2 ^ k.
Proof. intros Hk. rewrite <- (Z.pow_0_r 2). by apply Z.pow_le_mono_r. Qed.

Lemma retry_spec fuel backoff h :
  open_ h = false -> 0 <= failures h < handoffBreakerLimit -> 0 <= backoff ->
  handoffBreakerLimit - failures h <= Z.of_nat fuel ->
  exists h' r, retry fuel backoff h = Some (h', r) /\ breaker_ok h' /\ same_node h h' /\
    (sent h < sent h' <= sent h + Z.to_nat (handoffBreakerLimit - failures h))%nat /\
    slept h <= slept h' <= slept h + backoff * (2 ^ (handoffBreakerLimit - failures h - 1) - 1) /\
    match r with Some id => id <> [] /\ open_ h' = false | None => open_ h' = true end.
Proof.
  unfold handoffBreakerLimit. revert backoff h. induction fuel as [|fuel IH]; intros backoff h Ho Hf Hb Hn; [lia|].
  cbn [retry]. destruct (post h) as [h1 r] eqn:E.
  assert (Hp : h1 = count_sent h /\ forall id, r = Some id -> id <> []).
  { split; [by injection E as <- _|]. intros id ->. apply (post_id h). by rewrite E. }
  destruct Hp as [-> Hr]. clear E. destruct r as [id|].
  { eexists _, _. split; [reflexivity|]. cbn. split; [right; cbn; unfold handoffBreakerLimit; lia|]. split; [done|]. split; [lia|].
    split; [|by split; [apply Hr|]].
    pose proof (pow2_pos (5 - failures h - 1) ltac:(lia)).
    assert (0 <= backoff * (2 ^ (5 - failures h - 1) - 1)) by (apply Z.mul_nonneg_nonneg; lia). lia. }
  cbn [failures count_sent]. unfold handoffBreakerLimit. destruct (Z.leb_spec 5 (failures h + 1)).
  { eexists _, _. split; [reflexivity|]. cbn. split; [left; cbn; unfold handoffBreakerLimit; lia|]. split; [done|].
    split; [lia|]. split; [|done]. replace (5 - failures h - 1) with 0 by lia. lia. }
  set (h2 := sleep backoff _).
  destruct (IH (Z.min (backoff * 2) handoffBackoffCap) h2) as (h' & r & -> & Hok & Hs & Hsent & Hsl & Hres);
    [done|cbn; lia|unfold handoffBackoffCap, Millisecond; lia|cbn; lia|].
  exists h', r. split; [done|]. split; [done|]. split; [exact Hs|]. cbn in Hsent, Hsl. split; [lia|]. split; [|done].
  set (k := 5 - (failures h + 1) - 1) in *. replace (5 - failures h - 1) with (Z.succ k) by lia.
  rewrite Z.pow_succ_r by lia.
  pose proof (pow2_pos k ltac:(lia)).
  assert (Z.min (backoff * 2) handoffBackoffCap * (2 ^ k - 1) <= backoff * 2 * (2 ^ k - 1))
    by (apply Z.mul_le_mono_nonneg_r; lia). lia.
Qed.

Lemma loop_item_spec h :
  breaker_ok h ->
  exists h' r, loop_item h = Some (h', r) /\ breaker_ok h' /\ same_node h h' /\
    (sent h < sent h' <= sent h + (if open_ h then 1 else 5))%nat /\
    slept h <= slept h' <= slept h + (if open_ h then 0 else 150 * Millisecond) /\
    match r with Some id => id <> [] /\ open_ h' = false | None => open_ h' = true end.
Proof.
  intros [[Ho Hf]|[Ho Hf]]; unfold loop_item; rewrite Ho.
  - destruct (post h) as [h1 r] eqn:E.
    assert (Hp : h1 = count_sent h /\ forall id, r = Some id -> id <> []).
    { split; [by injection E as <- _|]. intros id ->. apply (post_id h). by rewrite E. }
    destruct Hp as [-> Hr]. destruct r as [id|]; eexists _, _; (split; [reflexivity|]); cbn.
    + split; [right; cbn; unfold handoffBreakerLimit; lia|]. split; [done|]. split; [lia|]. split; [lia|]. split; [by apply Hr|done].
    + split; [left; by cbn|]. split; [done|]. split; [lia|]. split; [lia|done].
  - destruct (retry_spec (Z.to_nat handoffBreakerLimit) handoffBackoffStart h Ho Hf) as (h' & r & E & Hok & Hs & Hn & Hsl & Hr);
      [done|unfold handoffBreakerLimit; lia|].
    exists h', r. split; [exact E|]. split; [done|]. split; [done|]. unfold handoffBreakerLimit in *. split; [lia|]. split; [|done].
    unfold handoffBackoffStart, Millisecond in *.
    assert (2 ^ (5 - failures h - 1) <= 2 ^ 4) by (apply Z.pow_le_mono_r; lia). lia.
Qed.

Lemma fail_policy_node line fp ks m h :
  exists h' r, applyFailPolicy line fp ks m (Some h) = (Some h', r) /\
    open_ h' = open_ h /\ failures h' = failures h /\ allowProbe h' = allowProbe h /\
    sent h' = sent h /\ slept h' = slept h /\ timers h' = timers h.
Proof.
  unfold applyFailPolicy. destruct (seqb fp "inline"); [by eexists _, _|].
  destruct (_ && _); by eexists _, _.
Qed.

Lemma breaker_ok_same h h' :
  open_ h' = open_ h -> failures h' = failures h -> breaker_ok h -> breaker_ok h'.
Proof. unfold breaker_ok. by intros -> ->. Qed.

(** Handing a line over ends, within bounds that depend on the breaker. *)
Lemma handle_bounded line fp ks m queued h :
  breaker_ok h ->
  exists h' r, handle line fp ks m queued (Some h) = Some (Some h', r) /\ breaker_ok h' /\
    (sent h <= sent h' <= sent h + (if open_ h then (if allowProbe h then 1 else 0) else 5))%nat /\
    slept h <= slept h' <= slept h + (if open_ h then 0 else 150 * Millisecond).
Proof.
  intros Hok.
  unfold handle. assert (Hquiet : forall g, open_ g = open_ h -> failures g = failures h -> sent g = sent h ->
      slept g = slept h -> exists h' r,
      Some (applyFailPolicy line fp ks m (Some g)) = Some (Some h', r) /\ breaker_ok h' /\
      (sent h <= sent h' <= sent h + (if open_ h then (if allowProbe h then 1 else 0) else 5))%nat /\
      slept h <= slept h' <= slept h + (if open_ h then 0 else 150 * Millisecond)).
  { intros g Ho Hf Hs Hsl. destruct (fail_policy_node line fp ks m g) as (h' & r & -> & Ho' & Hf' & _ & Hs' & Hsl' & _).
    eexists _, _. split; [reflexivity|]. split; [apply (breaker_ok_same h); congruence|].
    rewrite Hs', Hs, Hsl', Hsl. unfold Millisecond. destruct (open_ h), (allowProbe h); lia. }
  destruct (seqb (baseURL h) []); [by apply Hquiet|].
  destruct (open_ h && negb (allowProbe h)) eqn:Eo; [by apply Hquiet|].
  set (h1 := if open_ h then _ else h).
  assert (H1 : open_ h1 = open_ h /\ failures h1 = failures h /\ sent h1 = sent h /\ slept h1 = slept h)
    by (unfold h1; by destruct (open_ h) eqn:E).
  destruct H1 as (Ho1 & Hf1 & Hs1 & Hsl1). destruct (queued <? handoffQueueCap).
  2: { apply Hquiet; rewrite Ho1; by destruct (open_ h). }
  destruct (loop_item_spec h1) as (h2 & r & -> & Hok2 & _ & Hsent & Hslept & _);
    [by apply (breaker_ok_same h)|]. rewrite Ho1, Hs1, Hsl1 in *. cbn [mbind option_bind fst snd].
  assert (Hb : (sent h <= sent h2 <= sent h + (if open_ h then (if allowProbe h then 1 else 0) else 5))%nat).
  { destruct (open_ h), (allowProbe h); try done; lia. }
  destruct r as [id|]; [by eexists _, _|].
  destruct (fail_policy_node line fp ks m h2) as (h' & r & -> & Ho' & Hf' & _ & Hs' & Hsl' & _).
  eexists _, _. split; [reflexivity|]. split; [by apply (breaker_ok_same h2)|]. by rewrite Hs', Hsl'.
Qed.

Lemma handoff_total line fp ks m queued h :
  (forall g, h = Some g -> breaker_ok g) -> exists h' r, handle line fp ks m queued h = Some (h', r).
Proof.
  intros Hok. destruct h as [g|].
  - destruct (handle_bounded line fp ks m queued g (Hok g eq_refl)) as (h' & r & -> & _). by exists (Some h'), r.
  - cbn [handle]. by destruct (applyFailPolicy _ _ _ _ _) as [h' r]; exists h', r.
Qed.

(** C26 [handoff_bounded]: handing a line over always comes to an end.  It sends
    at most five requests and sleeps at most 150 milliseconds; with the breaker
    open it sends one if a probe is allowed and none otherwise, and does not
    sleep.  The breaker is open exactly when five requests in a row have failed,
    and stays so, whatever timers fire. *)
Theorem handoff_bounded line fp ks m queued h :
  breaker_ok h ->
  (exists h' r, handle line fp ks m queued (Some h) = Some (Some h', r) /\ breaker_ok h' /\
     (sent h <= sent h' <= sent h + (if open_ h then (if allowProbe h then 1 else 0) else 5))%nat /\
     slept h <= slept h' <= slept h + (if open_ h then 0 else 150 * Millisecond)) /\
  breaker_ok (fire h).
Proof.
  intros Hok. split; [by apply handle_bounded|]. unfold fire. destruct (timers h); exact Hok.
Qed.

(** ** What a line becomes *)

Definition held_line (id : gostring) : gostring := "[HELD job=" ++ id ++ "]".

(** The three things a line that is too long can become without being let through. *)
Inductive masked (line : gostring) (fp : gostring) (ks : list Kind) (m : Mode) : maskResult -> Prop :=
| masked_inline out cs :
    fp = "inline"%go -> Apply line (Scan line ks) m = Some (out, cs) ->
    masked line fp ks m (MkMasked out cs false false)
| masked_held id : id <> [] -> masked line fp ks m (MkMasked (held_line id) ∅ false true)
| masked_dropped : fp <> "inline"%go -> masked line fp ks m (MkMasked dropped_line ∅ true false).

Lemma apply_scan_of_spec line ks m :
  exists out cs, Apply line (Scan line ks) m = Some (out, cs) /\
    apply_scan_of line ks m = MkMasked out cs false false.
Proof.
  unfold apply_scan_of. destruct (apply_total line (Scan line ks) m) as (out & cs & E).
  exists out, cs. by rewrite E.
Qed.

Lemma fail_policy_masked line fp ks m h h' r :
  ks <> [] -> m <> [] -> applyFailPolicy line fp ks m h = (h', r) ->
  masked line fp ks m r \/
  (fp = "open"%go /\ r = MkMasked line ∅ false false /\
   exists g, h = Some g /\ allowFailOpen g = true /\ h' = Some (count_open 1 g)).
Proof.
  intros Hks Hm. unfold applyFailPolicy. apply seqb_neq in Hm. destruct (seqb fp "inline") eqn:Ei.
  { rewrite Hm. apply seqb_eq in Ei. destruct (apply_scan_of_spec line ks m) as (out & cs & Ha & E).
    destruct ks; [done|]. intros [= <- <-]. left. rewrite E. by apply masked_inline. }
  apply seqb_neq in Ei. destruct h as [g|]; [|intros [= <- <-]; left; by apply masked_dropped].
  destruct (seqb fp "open") eqn:E; cbn [andb]; [|intros [= <- <-]; left; by apply masked_dropped].
  apply seqb_eq in E as ->. destruct (allowFailOpen g) eqn:Ea; intros [= <- <-]; [|left; by apply masked_dropped].
  right. split; [done|]. split; [done|]. by exists g.
Qed.

Lemma handle_masked line fp ks m queued h h' r :
  ks <> [] -> m <> [] -> (forall g, h = Some g -> breaker_ok g) ->
  handle line fp ks m queued h = Some (h', r) ->
  masked line fp ks m r \/
  (fp = "open"%go /\ r = MkMasked line ∅ false false /\
   exists g g', h = Some g /\ h' = Some g' /\ allowFailOpen g = true /\
     failOpenCount g' = Ledger.wrap64 (failOpenCount g + 1)).
Proof.
  intros Hks Hm Hok. unfold handle. destruct h as [g|].
  2: { intros [= E]. destruct (fail_policy_masked _ _ _ _ _ _ _ Hks Hm E) as [Hr|(_ & _ & g & [=] & _)]. by left. }
  assert (Hfail : forall g1, allowFailOpen g1 = allowFailOpen g -> failOpenCount g1 = failOpenCount g ->
    Some (applyFailPolicy line fp ks m (Some g1)) = Some (h', r) -> masked line fp ks m r \/
    (fp = "open"%go /\ r = MkMasked line ∅ false false /\
     exists g0 g', Some g = Some g0 /\ h' = Some g' /\ allowFailOpen g0 = true /\
       failOpenCount g' = Ledger.wrap64 (failOpenCount g0 + 1))).
  { intros g1 Ha Hc [= E]. destruct (fail_policy_masked _ _ _ _ _ _ _ Hks Hm E) as [Hr|(Hfp & Hr & g2 & [= <-] & Ho & ->)]; [by left|].
    right. split; [done|]. split; [done|]. exists g. eexists. split; [done|]. split; [reflexivity|].
    split; [congruence|]. cbn. congruence. }
  destruct (seqb (baseURL g) []); [by apply Hfail|]. destruct (_ && _); [by apply Hfail|].
  set (g1 := if open_ g then _ else g).
  assert (H1 : allowFailOpen g1 = allowFailOpen g /\ failOpenCount g1 = failOpenCount g /\ breaker_ok g1).
  { unfold g1. specialize (Hok g eq_refl). destruct (open_ g) eqn:E; (split; [done|split; [done|]]); [by apply (breaker_ok_same g)|done]. }
  destruct H1 as (Ha1 & Hc1 & Hok1). destruct (queued <? handoffQueueCap).
  2: { apply Hfail; by destruct (open_ g1) eqn:E1. }
  destruct (loop_item_spec g1 Hok1) as (g2 & o & -> & _ & (_ & Ha2 & Hc2) & _ & _ & Hid).
  cbn [mbind option_bind fst snd]. destruct o as [id|].
  - intros [= <- <-]. left. apply masked_held, Hid.
  - apply Hfail; congruence.
Qed.

(** what [maskWith] makes of a line, for every setting and
    every state of the breaker.  In shadow mode the line is written as it is and
    nothing is sent.  Otherwise a line within the limit is written with the
    findings of its kinds replaced.  A longer one becomes the marker of a job that
    holds it or, when it could not be handed over, what the policy says: the line
    with its findings replaced for inline, the marker of a dropped line otherwise.
    The raw line is written only if the policy says open and the flag allows it,
    and then it is counted. *)
Lemma mask_outcomes line max shadow ks m h fp :
  (forall g, h = Some g -> breaker_ok g) ->
  let ks' := match ks with [] => maskKinds | _ => ks end in
  let m' := if seqb m [] then ModeRedact else m in
  exists h' r, maskWith line max shadow ks m h fp = Some (h', r) /\
  if shadow then h' = h /\ r = MkMasked line (count_spans (Scan line ks')) false false
  else if glen line <=? max then
    h' = h /\ exists out cs, Apply line (Scan line ks') m' = Some (out, cs) /\ r = MkMasked out cs false false
  else masked line fp ks' m' r \/
    (fp = "open"%go /\ r = MkMasked line ∅ false false /\
     exists g g', h = Some g /\ h' = Some g' /\ allowFailOpen g = true /\
       failOpenCount g' = Ledger.wrap64 (failOpenCount g + 1)).
Proof.
  intros Hok. unfold maskWith. cbv zeta. set (ks' := match ks with [] => maskKinds | _ => ks end).
  assert (Hks : ks' <> []) by (by destruct ks). set (m' := if seqb m [] then ModeRedact else m).
  assert (Hm : m' <> []) by (unfold m'; destruct (seqb m []) eqn:E; [done|by apply seqb_neq]).
  destruct shadow; [destruct (_ <? _); by eexists _, _|]. rewrite (Z.leb_antisym max (glen line)).
  destruct (max <? glen line); cbn [negb].
  2: { destruct (apply_scan_of_spec line ks' m') as (out & cs & Ha & ->). eexists _, _. split; [reflexivity|].
       split; [done|]. by exists out, cs. }
  set (fp' := if seqb fp [] then _ else fp).
  destruct (handoff_total line fp' ks' m' 0 h Hok) as (h' & r & E). exists h', r. split; [exact E|].
  apply handle_masked in E; [|done..]. unfold fp' in E.
  destruct (seqb fp []) eqn:Ef; [|done]. apply seqb_eq in Ef as ->.
  destruct E as [[out cs [=]| |]|([=] & _)]; left; [by apply masked_held|by apply masked_dropped].
Qed.
End handoff.

(** ** What the windows report *)

(** The things a window counts. *)
Inductive tally := OfKind (k : Kind) | OfHeld | OfDropped | OfOpen.

Definition kind_count (k : Kind) (m : gmap Kind Z) : Z := default 0 (m !! k).

Definition in_window (t : tally) (w : windowCounters) : Z :=
  match t with OfKind k => kind_count k (w_counts w) | OfHeld => w_held w | OfDropped => w_dropped w | OfOpen => 0 end.
Definition in_batch (t : tally) (b : eventBatch) : Z :=
  match t with OfKind k => kind_count k (Counts b) | OfHeld => Held b | OfDropped => Dropped b | OfOpen => FailOpen b end.

(** What an event adds to the count of [t]. *)
Definition in_event (t : tally) (e : event) : Z :=
  match e, t with
  | Recorded r, OfKind k => kind_count k (counts r)
  | Recorded r, OfHeld => if held r then 1 else 0
  | Recorded r, OfDropped => if dropped r then 1 else 0
  | LetThrough, OfOpen => 1
  | _, _ => 0
  end.

Definition happened (t : tally) (es : list event) : Z := foldr (fun e n => in_event t e + n) 0 es.
Definition reported (t : tally) (bs : list eventBatch) : Z := foldr (fun b n => in_batch t b + n) 0 bs.

(** What the node still holds: in its window, its count of lines let through,
    and what [flush] has in hand. *)
Definition in_flush (t : tally) (s : flush_state) : Z :=
  match s, t with
  | Posting b, _ => in_batch t b
  | Swapped f, OfOpen | Restored f, OfOpen => f
  | _, _ => 0
  end.
Definition in_open (t : tally) (f : Z) : Z := match t with OfOpen => f | _ => 0 end.
Definition still_held (t : tally) (n : node) : Z :=
  in_window t (win n) + in_open t (fail_open n) + in_flush t (flush n).

(** The clock that [flush] reads does not go back, and a result has no negative
    counts. *)
Definition event_ok (e : event) : Prop :=
  match e with Recorded r => map_Forall (fun _ n => 0 <= n) (counts r) | _ => True end.

Fixpoint clock_ok (now : time) (es : list event) : Prop :=
  match es with
  | [] => True
  | FlushTake t _ _ :: es => now <= t /\ clock_ok t es
  | _ :: es => clock_ok now es
  end.

(** Every batch starts where the one before it ended. *)
Fixpoint tiles (at_ : time) (bs : list eventBatch) (last : time) : Prop :=
  match bs with [] => at_ = last | b :: bs => From b = at_ /\ From b <= To b /\ tiles (To b) bs last end.

Record conserved (t : tally) (c : Z) (n : node) : Prop := {
  con_sum : reported t (acked n) + reported t (thrown n) + still_held t n = c;
  con_acked : 0 <= reported t (acked n);
  con_thrown : 0 <= reported t (thrown n);
  con_win : 0 <= in_window t (win n);
  con_open : 0 <= in_open t (fail_open n);
  con_flush : 0 <= in_flush t (flush n);
}.

Lemma kind_count_add k new cur :
  kind_count k (add_counts new cur) =
  match new !! k with None => kind_count k cur | Some n => Ledger.wrap64 (kind_count k cur + n) end.
Proof.
  unfold kind_count, add_counts. rewrite lookup_merge. by destruct (new !! k), (cur !! k).
Qed.

Lemma kind_count_take k m :
  0 <= kind_count k m -> kind_count k (filter (fun kn => 0 < kn.2) m) = kind_count k m.
Proof.
  unfold kind_count. rewrite map_lookup_filter. destruct (m !! k) as [x|]; [|done]. cbn. intros Hx.
  case_guard; cbn in *; [done|lia].
Qed.

Lemma add_exact cur new k :
  0 <= kind_count k cur -> 0 <= kind_count k new -> kind_count k cur + kind_count k new < 2 ^ 63 ->
  kind_count k (add_counts new cur) = kind_count k cur + kind_count k new.
Proof.
  rewrite kind_count_add. unfold kind_count. destruct (new !! k); cbn; [|lia]. intros. apply wrap64_id. lia.
Qed.

Lemma in_window_add t r w :
  0 <= in_window t w -> 0 <= in_event t (Recorded r) -> in_window t w + in_event t (Recorded r) < 2 ^ 63 ->
  in_window t (add r w) = in_window t w + in_event t (Recorded r).
Proof.
  destruct t; cbn [in_window in_event]; unfold add; cbn [w_counts w_held w_dropped]; [apply add_exact|..|done].
  - destruct (held r); [|lia]. intros. apply wrap64_id. lia.
  - destruct (dropped r); [|lia]. intros. apply wrap64_id. lia.
Qed.

Lemma in_window_restore t b w :
  0 <= in_window t w -> 0 <= in_batch t b -> in_window t w + in_batch t b < 2 ^ 63 ->
  in_window t (restore b w) = in_window t w + match t with OfOpen => 0 | _ => in_batch t b end.
Proof.
  destruct t; cbn [in_window in_batch]; unfold restore; cbn [w_counts w_held w_dropped]; [apply add_exact|..|lia];
    intros; apply wrap64_id; lia.
Qed.

Lemma in_batch_take t now f id v w :
  0 <= in_window t w ->
  in_batch t (take_batch now f id v w).2 = in_window t w + match t with OfOpen => f | _ => 0 end /\
  in_window t (take_batch now f id v w).1 = 0.
Proof.
  intros Hw. destruct t as [k| | |]; (split; [|done]);
    cbn [in_batch in_window take_batch snd Counts Held Dropped FailOpen] in *; try lia.
  rewrite kind_count_take; [lia|exact Hw].
Qed.

Lemma in_event_nonneg t e : event_ok e -> 0 <= in_event t e.
Proof.
  destruct e as [r| | | | |]; try (by destruct t). destruct t as [k| | |]; cbn; [|by destruct (held r)|by destruct (dropped r)|done].
  intros Hm. unfold kind_count. destruct (counts r !! k) eqn:E; [|done]. exact (Hm _ _ E).
Qed.

#[local] Arguments reported : simpl never.

Lemma reported_snoc t bs b : reported t (bs ++ [b]) = reported t bs + in_batch t b.
Proof. unfold reported. induction bs as [|a bs IH]; cbn; lia. Qed.

Lemma conserved_step ok t c e n n' :
  event_ok e -> c + in_event t e < 2 ^ 63 -> conserved t c n -> node_step ok e n = Some n' ->
  conserved t (c + in_event t e) n'.
Proof.
  intros He Hc [Hs Ha Hth Hw Ho Hf] Hstep. pose proof (in_event_nonneg t e He) as Hpos.
  unfold still_held in Hs. destruct n as [w fo fl ak th]. cbn [win fail_open flush acked thrown] in *.
  assert (Hz : match e with Recorded _ | LetThrough => True | _ => in_event t e = 0 end) by (by destruct e, t).
  destruct e as [r| | |now id v|res|]; cbn [node_step flush] in Hstep; try rewrite Hz in *; clear Hz.
  - injection Hstep as <-. rewrite <- Hs in Hc.
    pose proof (in_window_add t r w Hw Hpos ltac:(lia)) as E.
    split; unfold still_held; cbn [acked thrown win fail_open flush set_win]; rewrite ?E; lia.
  - injection Hstep as <-. destruct t; try (split; unfold still_held; cbn in *; lia).
    split; unfold still_held; cbn in *; rewrite ?wrap64_id by lia; lia.
  - destruct fl; try done. injection Hstep as <-. destruct t; split; unfold still_held; cbn in *; lia.
  - destruct fl as [|f| |]; try done. injection Hstep as <-.
    destruct (in_batch_take t now f id v w Hw) as [E1 E2]. destruct ok;
    split; unfold still_held; cbn [acked thrown win fail_open flush set_win set_flush throw_away in_flush];
      rewrite ?reported_snoc, ?E1, ?E2; destruct t; cbn in *; lia.
  - destruct fl as [| |b|]; try done. cbn [in_flush] in *. destruct (match res with Some _ => _ | None => _ end).
    + injection Hstep as <-.
      split; unfold still_held; cbn [acked thrown win fail_open flush ack in_flush]; rewrite ?reported_snoc; lia.
    + injection Hstep as <-. pose proof (in_window_restore t b w Hw Hf ltac:(lia)) as E.
      split; unfold still_held; cbn [acked thrown win fail_open flush set_win set_flush]; rewrite ?E;
        destruct (Z.eqb_spec (FailOpen b) 0); destruct t; cbn in *; lia.
  - destruct fl as [| | |f]; try done. injection Hstep as <-.
    destruct t; split; unfold still_held; cbn in *; rewrite ?wrap64_id by lia; lia.
Qed.

Lemma conserved_run ok t c es n n' :
  Forall event_ok es -> c + happened t es < 2 ^ 63 -> conserved t c n -> node_run ok es n = Some n' ->
  conserved t (c + happened t es) n'.
Proof.
  revert c n. induction es as [|e es IH]; intros c n Hes Hc Hn; cbn [node_run happened foldr] in *.
  { intros [= <-]. by rewrite Z.add_0_r. }
  apply Forall_cons in Hes as [He Hes]. destruct (node_step ok e n) as [n1|] eqn:E; [|done]. cbn [mbind option_bind].
  change (foldr (fun e n => in_event t e + n) 0 es) with (happened t es) in *.
  assert (0 <= happened t es).
  { clear -Hes. induction Hes as [|a l Ha Hl IH]; cbn; [done|]. pose proof (in_event_nonneg t a Ha). unfold happened in IH. lia. }
  rewrite Z.add_assoc in *. apply IH; [done..|]. apply (conserved_step ok t c e n); [done|lia|done..].
Qed.

(** *** The windows follow each other *)

(** The windows that left the node: those acknowledged, or, at an address that no
    request can be made for, those thrown away. *)
Definition gone (n : node) : list eventBatch := acked n ++ thrown n.

(** Where the next window starts, and the clock is not behind it. *)
Record tiled (ok : bool) (at_ : time) (now : time) (n : node) : Prop := {
  tl_now : from (win n) <= now;
  tl_gone :
    match flush n with
    | Posting b => tiles at_ (gone n) (From b) /\ From b <= To b /\ To b = from (win n)
    | _ => tiles at_ (gone n) (from (win n))
    end;
  tl_one : if ok then thrown n = [] else acked n = [] /\ forall b, flush n <> Posting b;
}.

Lemma tiles_snoc at_ bs b : tiles at_ bs (From b) -> From b <= To b -> tiles at_ (bs ++ [b]) (To b).
Proof. revert at_. induction bs as [|c bs IH]; intros at_; cbn; [by intros ->|]. intros (? & ? & ?) ?. auto. Qed.

Lemma tiled_step ok at_ now e es n n' :
  clock_ok now (e :: es) -> tiled ok at_ now n -> node_step ok e n = Some n' ->
  exists now', clock_ok now' es /\ tiled ok at_ now' n'.
Proof.
  intros Hc [Hw Ht Ho] E. destruct n as [w fo fl ak th]. unfold gone in *.
  destruct e as [r| | |t id v|res|]; cbn in *.
  - injection E as <-. by exists now.
  - injection E as <-. by exists now.
  - destruct fl; try done. injection E as <-. exists now. split; [done|]. split; [done|done|]. by destruct ok, Ho.
  - destruct fl as [|f| |]; try done. injection E as <-. exists t. destruct Hc as [Hle Hc]. split; [done|].
    destruct ok; (split; cbn; [lia| |]); unfold gone; cbn.
    + by repeat split; [|lia].
    + done.
    + rewrite app_assoc. apply (tiles_snoc at_ (ak ++ th) (take_batch t f id v w).2 Ht). cbn. lia.
    + by destruct Ho.
  - destruct fl as [| |b|]; try done. destruct Ht as (Ht & Hb & Hto). exists now. split; [done|].
    destruct ok; [|by destruct (proj2 Ho b)]. subst th.
    destruct (match res with Some _ => _ | None => _ end); injection E as <-.
    + split; [done| |done]. unfold gone. cbn. rewrite app_nil_r in *. rewrite <- Hto. by apply tiles_snoc.
    + unfold restore. rewrite <- Hto. assert (Hf : (if From b <? To b then From b else To b) = From b)
        by (destruct (Z.ltb_spec (From b) (To b)); lia).
      split; cbn; rewrite <- ?Hto, ?Hf; [lia| |done]. unfold gone. cbn. by destruct (FailOpen b =? 0).
  - destruct fl; try done. injection E as <-. exists now. split; [done|]. split; [done|done|]. by destruct ok, Ho.
Qed.

Lemma tiled_run ok at_ now es n n' :
  clock_ok now es -> tiled ok at_ now n -> node_run ok es n = Some n' -> exists now', tiled ok at_ now' n'.
Proof.
  revert now n. induction es as [|e es IH]; intros now n Hc Ht; cbn [node_run].
  { intros [= <-]. by exists now. }
  destruct (node_step ok e n) as [n1|] eqn:E; [|done]. cbn [mbind option_bind].
  destruct (tiled_step ok at_ now e es n n1 Hc Ht E) as (now1 & Hc1 & Ht1). by apply (IH now1).
Qed.


(** ** Reading lines *)

(** The lines of a text: every one that is ended, and what follows the last end. *)
Definition lines_of (parts : list gostring) : list gostring * gostring :=
  ((fun l => TrimRight l line_end) <$> removelast parts, List.last parts []).

Lemma lines_of_cons p parts :
  parts <> [] -> lines_of (p :: parts) = (TrimRight p line_end :: (lines_of parts).1, (lines_of parts).2).
Proof. intros H. unfold lines_of. by destruct parts. Qed.

Lemma TrimRight_newline p : TrimRight (p ++ [newline]) line_end = TrimRight p line_end.
Proof. induction p as [|b p IH]; [done|]. cbn [app TrimRight]. by rewrite IH. Qed.

Lemma Cut_None s sep : Cut s sep = None -> sep ∉ s.
Proof.
  induction s as [|b s IH]; cbn [Cut]; [intros _; apply not_elem_of_nil|].
  destruct (beq b sep) eqn:E; [done|]. destruct (Cut s sep) as [[? ?]|]; [done|]. intros _.
  apply not_elem_of_cons. split; [|by apply IH]. intros ->. by rewrite beq_refl in E.
Qed.

Lemma read_segment_lines fuel pending s :
  newline ∉ pending -> (length s < fuel)%nat ->
  read_segment fuel pending s = lines_of (Split (pending ++ s) newline).
Proof.
  revert pending s. induction fuel as [|fuel IH]; intros pending s Hp Hl; [lia|]. cbn [read_segment].
  destruct (Cut s newline) as [[a rest]|] eqn:E.
  - apply Cut_Some in E as [-> Ha]. rewrite (app_assoc pending a (newline :: rest)), Split_app by (rewrite elem_of_app; tauto).
    rewrite lines_of_cons by apply Split_nonempty. rewrite (app_assoc pending a [newline]), TrimRight_newline.
    rewrite length_app in Hl. cbn [length] in Hl. rewrite IH; [done|apply not_elem_of_nil|lia].
  - apply Cut_None in E. rewrite Split_no_sep; [done|]. rewrite elem_of_app. tauto.
Qed.

Lemma last_Split_no_sep s sep : sep ∉ List.last (Split s sep) [].
Proof.
  induction s as [|b s IH]; cbn [Split]; [apply not_elem_of_nil|].
  pose proof (Split_nonempty s sep) as Hn. destruct (beq b sep) eqn:E.
  - by destruct (Split s sep).
  - destruct (Split s sep) as [|w [|w' ws]]; [done| |done]. cbn in *. apply not_elem_of_cons. split; [|done].
    intros ->. by rewrite beq_refl in E.
Qed.

Lemma Split_last s t sep :
  Split (s ++ t) sep = removelast (Split s sep) ++ Split (List.last (Split s sep) [] ++ t) sep.
Proof.
  induction s as [|b s IH]; cbn [app Split]; [done|]. pose proof (Split_nonempty s sep) as Hn. rewrite IH.
  destruct (beq b sep) eqn:E.
  - by destruct (Split s sep).
  - destruct (Split s sep) as [|w [|w' ws]]; [done| |done]. cbn [removelast List.last app Split]. by rewrite E.
Qed.

Lemma lines_of_app ps qs :
  qs <> [] -> lines_of (ps ++ qs) = (((fun l => TrimRight l line_end) <$> ps) ++ (lines_of qs).1, (lines_of qs).2).
Proof.
  intros Hq. unfold lines_of. rewrite removelast_app by done. rewrite fmap_app. cbn [fst snd].
  f_equal. induction ps as [|p ps IH]; [done|]. rewrite <- IH. cbn [app List.last]. by destruct (ps ++ qs) eqn:E;
    [apply app_eq_nil in E as [_ ->]|].
Qed.

(** [readLines] passes on the same lines however the input
    arrives: those of the whole text that are ended, without the line ends, are
    passed on in order, and what follows the last line end stays pending.  Without
    [follow] it is passed on at the end, if it is not empty. *)
Lemma follow_chunking segments :
  let text := lines_of (Split (concat segments) newline) in
  read_segments [] segments = text /\ readLines true segments = text.1 /\
  readLines false [concat segments] = text.1 ++ (if seqb text.2 [] then [] else [text.2]).
Proof.
  assert (H : forall segments pending, newline ∉ pending ->
    read_segments pending segments = lines_of (Split (pending ++ concat segments) newline)); 
    [|cbv zeta; unfold readLines; cbn [take]; rewrite !H by apply not_elem_of_nil;
     assert (concat [concat segments] = concat segments) as -> by apply app_nil_r; done].
  clear segments. induction segments as [|s segments IH]; intros pending Hp; cbn [read_segments concat].
  { rewrite app_nil_r, Split_no_sep by done. done. }
  rewrite read_segment_lines by (done || lia). cbn [lines_of fst snd].
  rewrite IH by apply last_Split_no_sep. rewrite app_assoc, (Split_last (pending ++ s)).
  by rewrite lines_of_app by apply Split_nonempty.
Qed.

(** ** Scanning files *)

(** The files that [walk] opens, in order. *)
Fixpoint visited (path : gostring) (e : entry) : list (gostring * option gostring) :=
  match e with
  | File _ content => if skipped_ext path then [] else [(path, content)]
  | Dir name entries =>
      if skipped_dir name then []
      else (fix go (es : list entry) :=
              match es with
              | [] => []
              | e :: es =>
                  let name := match e with File n _ => n | Dir n _ => n end in
                  visited (Join path name) e ++ go es
              end) entries
  end.

(** What a file gives: its text, if it can be read and none of its lines is too long. *)
Definition scannable (content : option gostring) : option gostring :=
  raw ← content;
  if existsb (fun l => maxLine <=? glen l) (Split raw newline) then None else Some raw.

(** The lines of a text, without their ends. *)
Definition text_lines (raw : gostring) : list gostring :=
  let parts := Split raw newline in
  (drop_cr <$> removelast parts) ++
  (if seqb (List.last parts []) [] then [] else [drop_cr (List.last parts [])]).

Definition text_spans (raw : gostring) : list Span := text_lines raw ≫= fun l => Scan l scan_kinds.

Lemma scan_tokens_spec parts :
  parts <> [] ->
  (scan_tokens parts).2 = existsb (fun l => maxLine <=? glen l) parts /\
  ((scan_tokens parts).2 = false ->
   (scan_tokens parts).1 = (drop_cr <$> removelast parts) ++
     (if seqb (List.last parts []) [] then [] else [drop_cr (List.last parts [])])).
Proof.
  induction parts as [|l parts IH]; [done|]. intros _. destruct parts as [|l' parts].
  - cbn. destruct (maxLine <=? glen l); [done|]. by destruct (seqb l []).
  - destruct IH as [IH1 IH2]; [done|]. change (scan_tokens (l :: l' :: parts)) with
      (if maxLine <=? glen l then ([], true) else
       let tb := scan_tokens (l' :: parts) in (drop_cr l :: tb.1, tb.2)).
    cbn [existsb]. destruct (maxLine <=? glen l); [done|]. cbn [fst snd orb]. split; [exact IH1|].
    intros E. by rewrite IH2.
Qed.

(** *** Counting spans *)

Definition count (k : Kind) (spans : list Span) : Z := glen (filter (fun sp => sp_kind sp = k) spans).

(** The counts that [m] holds: only kinds that occur have an entry. *)
Definition counts_of (spans : list Span) (m : gmap Kind Z) : Prop :=
  forall k, m !! k = if count k spans =? 0 then None else Some (count k spans).

Lemma count_app k s t : count k (s ++ t) = count k s + count k t.
Proof. unfold count, glen. rewrite filter_app, length_app. lia. Qed.

Lemma count_pos k s : 0 <= count k s.
Proof. unfold count, glen. lia. Qed.

Lemma counts_of_nil : counts_of [] ∅.
Proof. intros k. by rewrite lookup_empty. Qed.

Lemma counts_of_bump spans m sp : counts_of spans m -> counts_of (spans ++ [sp]) (bump m (sp_kind sp)).
Proof.
  intros Hm k. unfold bump. rewrite count_app. pose proof (count_pos k spans).
  destruct (decide (sp_kind sp = k)) as [<-|Hk].
  - rewrite lookup_insert_eq. unfold count at 2 4. rewrite filter_cons_True by done. cbn [filter list_filter].
    rewrite (Hm (sp_kind sp)). change (glen [sp]) with 1.
    destruct (Z.eqb_spec (count (sp_kind sp) spans) 0), (Z.eqb_spec (count (sp_kind sp) spans + 1) 0); try lia;
      cbn; f_equal; lia.
  - rewrite lookup_insert_ne by done. unfold count at 2 4. rewrite filter_cons_False by done.
    rewrite filter_nil, (Hm k). by rewrite Z.add_0_r.
Qed.

Lemma counts_of_fold spans spans' m :
  counts_of spans m -> counts_of (spans ++ spans') (foldl (fun m sp => bump m (sp_kind sp)) m spans').
Proof.
  revert spans m. induction spans' as [|sp spans' IH]; intros spans m Hm; cbn [foldl]; [by rewrite app_nil_r|].
  rewrite cons_middle, app_assoc. by apply IH, counts_of_bump.
Qed.

Lemma counts_of_lines lines spans m :
  counts_of spans m ->
  counts_of (spans ++ (lines ≫= fun l => Scan l scan_kinds)) (foldl (count_line scan_kinds) m lines).
Proof.
  revert spans m. induction lines as [|l lines IH]; intros spans m Hm; cbn [foldl mbind list_bind]; [by rewrite app_nil_r|].
  rewrite app_assoc. by apply IH, counts_of_fold.
Qed.

Lemma counts_of_unique spans m m' : counts_of spans m -> counts_of spans m' -> m = m'.
Proof. intros H H'. apply map_eq. intros k. by rewrite H, H'. Qed.

Lemma counts_of_merge s t m r :
  counts_of s m -> counts_of t r ->
  counts_of (t ++ s) (merge (fun n c => match n with None => c | Some n => Some (default 0 c + n) end) m r).
Proof.
  intros Hm Hr k. rewrite lookup_merge, count_app, (Hm k), (Hr k).
  pose proof (count_pos k s). pose proof (count_pos k t).
  destruct (Z.eqb_spec (count k s) 0), (Z.eqb_spec (count k t) 0), (Z.eqb_spec (count k t + count k s) 0);
    cbn; try done; try lia; f_equal; lia.
Qed.

Definition sum_map (m : gmap Kind Z) : Z := map_fold (fun _ n t => t + n) 0 m.

Lemma sum_map_insert m k n : m !! k = None -> sum_map (<[k := n]> m) = sum_map m + n.
Proof. intros H. unfold sum_map. rewrite map_fold_insert_L; [done|intros; lia|done]. Qed.

Lemma sum_map_bump m k : sum_map (bump m k) = sum_map m + 1.
Proof.
  unfold bump. destruct (m !! k) as [n|] eqn:E; cbn [default].
  - rewrite <- (insert_delete_id m k n E) at 2. rewrite <- insert_delete_eq.
    rewrite !sum_map_insert by apply lookup_delete_eq. unfold id. lia.
  - by rewrite sum_map_insert.
Qed.

Lemma sum_counts spans m : counts_of spans m -> sum_map m = glen spans.
Proof.
  intros Hm. pose proof (counts_of_fold [] spans ∅ counts_of_nil) as H.
  rewrite (counts_of_unique _ _ _ Hm H). clear. unfold glen.
  assert (G : forall m, sum_map (foldl (fun m sp => bump m (sp_kind sp)) m spans) = sum_map m + Z.of_nat (length spans)).
  { induction spans as [|sp spans IH]; intros m; cbn [foldl length]; [lia|]. rewrite IH, sum_map_bump. lia. }
  by rewrite G.
Qed.

Lemma counts_of_empty spans m : counts_of spans m -> m = ∅ <-> spans = [].
Proof.
  intros Hm. split.
  - intros ->. apply sum_counts in Hm. unfold glen in Hm. destruct spans; [done|].
    unfold sum_map in Hm. rewrite map_fold_empty in Hm. cbn in Hm. lia.
  - intros ->. by apply (counts_of_unique [] _ _ Hm), counts_of_nil.
Qed.

(** *** What a file adds to the report *)

Lemma scanFile_spec content :
  match scannable content with
  | Some raw => exists m, scanFile content scan_kinds = Some (m, glen (text_lines raw), false) /\ counts_of (text_spans raw) m
  | None => forall m n, scanFile content scan_kinds <> Some (m, n, false)
  end.
Proof.
  unfold scannable, scanFile. destruct content as [raw|]; cbn [mbind option_bind]; [|done].
  destruct (scan_tokens_spec (Split raw newline)) as [Hl Ht]; [apply Split_nonempty|]. rewrite <- Hl.
  destruct (scan_tokens _).2; [done|]. specialize (Ht eq_refl). eexists. rewrite Ht. split; [done|].
  apply (counts_of_lines _ []), counts_of_nil.
Qed.

Definition text_of (f : gostring * option gostring) : option (gostring * gostring) :=
  raw ← scannable f.2; Some (f.1, raw).

(** The report [r] describes the files [fs]. *)
Record describes (fs : list (gostring * gostring)) (r : ScanReport) : Prop := {
  des_files : FilesScanned r = glen fs;
  des_lines : LinesScanned r = glen (fs ≫= fun f => text_lines f.2);
  des_findings : counts_of (fs ≫= fun f => text_spans f.2) (Findings r);
  des_total : TotalPII r = glen (fs ≫= fun f => text_spans f.2);
  des_details : Forall2 (fun f d => ff_file d = f.1 /\ counts_of (text_spans f.2) (ff_findings d))
    (filter (fun f => text_spans f.2 <> []) fs) (FileDetails r);
}.

Lemma describes_add path raw m fs r :
  describes fs r -> counts_of (text_spans raw) m ->
  describes (fs ++ [(path, raw)]) (add_findings path m (count_file (glen (text_lines raw)) r)).
Proof.
  intros [Hf Hl Hc Ht Hd] Hm. unfold add_findings.
  assert (Hg : forall A (l : list A) x, glen (l ++ x) = glen l + glen x) by (intros; unfold glen; rewrite length_app; lia).
  assert (E : forall A (g : gostring * gostring -> list A), (fs ++ [(path, raw)]) ≫= g = (fs ≫= g) ++ g (path, raw)).
  { intros. by rewrite bind_app, bind_singleton. }
  destruct (bool_decide_reflect (m = ∅)) as [Em|Em].
  - apply (proj1 (counts_of_empty _ _ Hm)) in Em. split; rewrite ?E; cbn [FilesScanned LinesScanned Findings TotalPII FileDetails count_file];
      rewrite ?filter_app, ?Hg, ?Hf, ?Hl, ?Ht; cbn [snd]; rewrite ?Em, ?app_nil_r, ?Z.add_0_r; try done.
    rewrite filter_cons_False; [by rewrite filter_nil, app_nil_r|]. intros Hx. by apply Hx.
  - split; rewrite ?E; cbn [FilesScanned LinesScanned Findings TotalPII FileDetails count_file];
      rewrite ?filter_app, ?Hg, ?Hf, ?Hl, ?Ht; cbn [snd]; [done..|by apply counts_of_merge| |].
    + f_equal. by apply sum_counts.
    + apply Forall2_app; [done|]. rewrite filter_cons_True; [by repeat constructor|]. cbn [snd].
      intros Hx. by apply Em, (counts_of_empty _ _ Hm).
Qed.

Lemma walk_visited path e r :
  walk path e r = foldl (fun r f => match scanFile f.2 scan_kinds with
                                    | Some (counts, lines, false) => add_findings f.1 counts (count_file lines r)
                                    | _ => r
                                    end) r (visited path e).
Proof.
  revert path e r. fix IH 2. intros path e r. destruct e as [name content|name entries].
  - cbn [walk visited]. unfold visit_file. by destruct (skipped_ext path).
  - cbn [walk visited]. destruct (skipped_dir name); [done|]. revert r.
    induction entries as [|e es IHes]; intros r; [done|]. rewrite foldl_app, <- IH. apply IHes.
Qed.

Lemma describes_visited vs fs r :
  describes fs r ->
  describes (fs ++ omap text_of vs)
    (foldl (fun r f => match scanFile f.2 scan_kinds with
                       | Some (counts, lines, false) => add_findings f.1 counts (count_file lines r)
                       | _ => r
                       end) r vs).
Proof.
  revert fs r. induction vs as [|[path content] vs IH]; intros fs r Hr; cbn [foldl]; [by rewrite app_nil_r|].
  pose proof (scanFile_spec content) as Hs. cbn [omap list_omap]. unfold text_of at 1. cbn [fst snd].
  destruct (scannable content) as [raw|]; cbn [mbind option_bind].
  - destruct Hs as (m & -> & Hm). rewrite cons_middle, app_assoc. apply IH. by apply describes_add.
  - apply IH. destruct (scanFile content scan_kinds) as [[[m n] []]|]; [done|by destruct (Hs m n)|done].
Qed.

Lemma describes_new target : describes [] (new_report target).
Proof. by split. Qed.

Lemma describes_score fs r : describes fs r -> describes fs (score r).
Proof. by intros []. Qed.

(** C40 [scan_report_exact]: what [sentinel scan] reports and exits with.  The
    files that it reads are those reached without entering a skipped directory,
    whose extension is not skipped, that can be read and have no line that is too
    long; for a target that is not a directory, that one whatever its name.  The
    numbers of files, lines and spans, the counts by kind and the files listed
    are those of what [Scan] finds in their lines; the status is one exactly when
    something is found. *)
Theorem scan_report_exact target info :
  match info with NoTarget => runScan target info = (None, 2) | _ =>
  let fs := omap text_of (match info with IsDir entries => visited target (Dir (Base target) entries)
                          | IsFile content => [(target, content)] | NoTarget => [] end) in
  exists r code, runScan target info = (Some r, code) /\ describes fs r /\
    RiskScore r = risk (TotalPII r) /\ (code = 1 <-> TotalPII r <> 0) /\ (code = 0 <-> TotalPII r = 0)
  end.
Proof.
  assert (Hcode : forall r fs, describes fs r ->
    let code := if 0 <? TotalPII r then 1 else 0 in (code = 1 <-> TotalPII r <> 0) /\ (code = 0 <-> TotalPII r = 0)).
  { intros r fs Hr. pose proof (des_total _ _ Hr). unfold glen in *. cbv zeta. destruct (Z.ltb_spec 0 (TotalPII r)); lia. }
  destruct info as [content|entries|]; [| |done]; cbv zeta; eexists _, _; (split; [reflexivity|]).
  - pose proof (describes_score _ _ (describes_visited [(target, content)] [] _ (describes_new target))) as H.
    split; [exact H|]. split; [done|]. exact (Hcode _ _ H).
  - pose proof (describes_visited (visited target (Dir (Base target) entries)) [] _ (describes_new target)) as H.
    rewrite <- walk_visited in H. apply describes_score in H. split; [exact H|]. split; [done|]. exact (Hcode _ _ H).
Qed.

(** two things [sentinel scan] does not look at.  Started
    without a target it scans the directory ".", whose name begins with a dot, so
    that it is skipped as a whole: the report is clean whatever the directory
    holds.  A file with one line of a mebibyte or more leaves no trace in the
    report. *)
Lemma scan_blind_spots :
  (forall entries, runScan "." (IsDir entries) = (Some (MkReport "." 0 0 ∅ 0 "CLEAN" []), 0)) /\
  (forall path raw r, Exists (fun l => 1048576 <= glen l) (Split raw newline) -> visit_file path (Some raw) r = r).
Proof.
  split; [reflexivity|]. intros path raw r Hl. unfold visit_file. destruct (skipped_ext path); [done|].
  pose proof (scanFile_spec (Some raw)) as Hs. unfold scannable in Hs. cbn [mbind option_bind] in Hs.
  assert (existsb (fun l => maxLine <=? glen l) (Split raw newline) = true) as E.
  { apply existsb_exists. apply Exists_exists in Hl as (l & Hin & Hl). exists l. split; [by apply list_elem_of_In|].
    unfold maxLine. lia. }
  rewrite E in Hs. destruct (scanFile (Some raw) scan_kinds) as [[[m n] []]|]; [done|by destruct (Hs m n)|done].
Qed.

(** ** The policy outlives the control plane *)

(** The settings that a fetched policy gives. *)
Definition settings_ok (s : maskSettings) : Prop :=
  kinds s <> [] /\ Forall (fun k => k ∈ Policy.knownKinds) (kinds s) /\
  (mode s = ModeRedact \/ mode s = ModePartial) /\
  failPolicy s ∈ ["closed"; "inline"; "open"]%go /\ 1 <= maxInline s.

Lemma fetched_valid res doc etag : fetchPolicy res = Fetched doc etag -> valid_doc doc.
Proof.
  unfold fetchPolicy. destruct res as [res|]; [|done]. destruct (_ =? _); [done|]. destruct (negb _); [done|].
  destruct (Policy.Parse _) as [d|e] eqn:E; intros H; [injection H as <- _|done]. by apply Parse_valid in E.
Qed.

Lemma settings_of_valid doc etag :
  valid_doc doc ->
  settings_ok (settingsFrom doc etag) /\
  settingsFrom doc etag = MkSettings (Policy.MaxInlineBytes doc) (Policy.Detectors doc) (Policy.Mode doc)
                            (Policy.FailPolicy doc) etag (Policy.Version doc).
Proof.
  intros (Hd & Hk & Hm & Hf & Hx). assert (E : settingsFrom doc etag =
    MkSettings (Policy.MaxInlineBytes doc) (Policy.Detectors doc) (Policy.Mode doc)
      (Policy.FailPolicy doc) etag (Policy.Version doc)).
  { unfold settingsFrom. destruct (Z.ltb_spec (Policy.MaxInlineBytes doc) 1); [lia|].
    by destruct Hm as [-> | ->], Hf as [-> | [-> | ->]]. }
  split; [|exact E]. rewrite E. repeat split; try done. cbn.
  rewrite !elem_of_cons. tauto.
Qed.

Lemma cached_roundtrip dir doc etag file :
  valid_doc doc -> small doc -> valid_utf8 etag -> dir <> NoDir ->
  readCache dir (writeCache Writable doc etag file) = Some (doc, etag).
Proof.
  intros Hd Hs He Hdir. cbn [writeCache readCache].
  assert (Ej : cachedPolicy_json doc etag = JObj [("etag", JStr etag); ("document", Policy.doc_json doc)]%go).
  { unfold cachedPolicy_json, document_json. destruct Hd as (Hn & _). by destruct (Policy.Detectors doc). }
  assert (Hw : written (cachedPolicy_json doc etag)).
  { rewrite Ej. pose proof (doc_json_written doc Hd Hs) as Hj. apply written_obj.
    constructor; [|constructor; [|constructor]]; (split; [by apply ascii_valid|]); [exact He|exact Hj]. }
  unfold readCache. destruct dir; [done|..]; cbn [mbind option_bind]; rewrite (Parse_Marshal _ Hw), Ej; cbn [mbind option_bind];
  change ((c ← (d ← Policy.decode_doc false (Policy.doc_json doc); Some (d, etag)); Some c) = Some (doc, etag));
  by rewrite decode_doc_json.
Qed.

(** A policy file that was named can be read and holds a policy, or none was named. *)
Definition usable (policyFile : option (option gostring)) : Prop :=
  match policyFile with Some raw => exists r d, raw = Some r /\ Policy.Parse r = Ok d | None => True end.

Lemma unusable_file control dir cache raw :
  ~ usable (Some raw) -> loadInitial control dir cache (Some raw) = (cache, None).
Proof.
  intros Hn. unfold loadInitial. destruct raw as [r|]; [|done]. destruct (Policy.Parse r) as [d|] eqn:E; [|done].
  destruct Hn. by exists r, d.
Qed.

(** C28 [policy_survives_outage]: what the control plane served last is what the
    masker starts with when the control plane does not answer.  A fetched policy,
    at start or while running, becomes the active one, gives settings that are
    in order and that no default replaces; and a later start with the state
    directory, even one that can only be read, finds the same document and tag
    whenever its own request fails, also when a policy file is named, which is then
    read but not used.  A policy file that cannot be read or holds no policy stops the
    start, whatever the control plane and the state directory have. *)
Theorem policy_survives_outage res doc etag file active :
  fetchPolicy res = Fetched doc etag -> small doc -> valid_utf8 etag ->
  let file' := writeCache Writable doc etag file in
  poll Writable res file active = (file', settingsFrom doc etag) /\
  (forall policyFile, usable policyFile -> loadInitial (Some res) Writable file policyFile = (file', Some (doc, etag))) /\
  settings_ok (settingsFrom doc etag) /\
  settingsFrom doc etag = MkSettings (Policy.MaxInlineBytes doc) (Policy.Detectors doc) (Policy.Mode doc)
                            (Policy.FailPolicy doc) etag (Policy.Version doc) /\
  (forall dir res' policyFile,
    dir <> NoDir -> fetchPolicy res' = FetchError -> usable policyFile ->
    loadInitial (Some res') dir file' policyFile = (file', Some (doc, etag))) /\
  (forall control dir raw, ~ usable (Some raw) -> loadInitial control dir file' (Some raw) = (file', None)).
Proof.
  intros Hf Hs He. cbv zeta. pose proof (fetched_valid _ _ _ Hf) as Hd.
  split; [by unfold poll; rewrite Hf|]. split.
  { intros [raw|] Hpf; unfold loadInitial; [destruct Hpf as (r & d & -> & ->)|]; by rewrite Hf. }
  destruct (settings_of_valid doc etag Hd) as [Hok E]. split; [done|]. split; [done|].
  split; [|intros; by apply unusable_file].
  intros dir res' pf Hdir Hres Hpf. unfold loadInitial. rewrite Hres, cached_roundtrip by done.
  destruct pf as [raw|]; [|done]. destruct Hpf as (r & d & -> & ->). done.
Qed.

(** ** Concrete runs *)

Definition refusing : Network := {| answer := fun _ => Some (MkResponse 503 [] []) |}.
Definition serving : Network :=
  {| answer := fun _ => Some (MkResponse 200 (Marshal (JObj [("jobId", JStr "j1")]%go)) []) |}.

Lemma breaker_new url allow : breaker_ok (newHandoff url allow).
Proof. right. split; [done|]. unfold handoffBreakerLimit. cbn. lia. Qed.

Lemma handoff_bounded_witness :
  let h := newHandoff "http://cp" false in
  exists h' r, @handle refusing "a long line" "closed" maskKinds ModeRedact 0 (Some h) = Some (Some h', r) /\
    open_ h' = true /\ sent h' = 5%nat /\ slept h' = 150 * Millisecond /\ dropped r = true /\ breaker_ok h'.
Proof.
  cbv zeta. eexists _, _. split; [vm_compute; reflexivity|]. do 4 (split; [reflexivity|]).
  destruct (@handoff_bounded refusing "a long line" "closed" maskKinds ModeRedact 0 _ (breaker_new "http://cp" false))
    as [(h' & r & E & Hok & _) _].
  assert (Eq := E). vm_compute in Eq. injection Eq as <- _. exact Hok.
Defined.

(** Two lines, a window that could not be posted, and one that could. *)
Definition one_email : maskResult := MkMasked "x" {[ KindEmail := 1 ]} false false.
Definition some_events : list event :=
  [Recorded one_email; LetThrough; FlushSwap; FlushTake 5 "n" 1; Recorded one_email; Answered None; FlushAdd;
   FlushSwap; FlushTake 9 "n" 1; Answered (Some (MkResponse 200 [] []))].


Lemma policy_survives_outage_witness :
  let doc := Policy.MkDoc 3 [KindEmail; KindPAN] ModePartial "inline" 10 in
  let res := Some (MkResponse 200 (Marshal (Policy.doc_json doc)) "v3") in
  exists file', loadInitial (Some res) Writable None None = (file', Some (doc, "v3"%go)) /\
    loadInitial (Some None) ReadOnly file' None = (file', Some (doc, "v3"%go)).
Proof.
  cbv zeta. eexists. split; [vm_compute; reflexivity|].
  refine (proj1 (proj2 (proj2 (proj2 (proj2 (policy_survives_outage
    (Some (MkResponse 200 (Marshal (Policy.doc_json (Policy.MkDoc 3 [KindEmail; KindPAN] ModePartial "inline" 10))) "v3"))
    (Policy.MkDoc 3 [KindEmail; KindPAN] ModePartial "inline" 10) "v3" None (initial_settings 1) _ _ _))))) ReadOnly None None _ _ _);
    [vm_compute; reflexivity|split; vm_compute; congruence|by apply ascii_valid|done|done|done].
Defined.
