(* ===== verification/SentinelRun.v ===== *)
(** * The Sentinel proxy as a process (cmd/sentinel/main.go)

    [main]: the flags, the first policy, and the loop over the lines of the input, with
    what runs beside it: the polling of the policy, the timers of the breaker and the
    posting of windows.  What the proxy finds outside itself is a [Host]; the order in
    which things happen is a list of turns, in which the loop of lines comes up again
    and again; when the list is at its end the remaining lines follow. *)

From S2P Require Import Prelude GoStd GoTime Flag Detect DetectSpec Json Policy Ledger Sentinel SentinelSpec.
Import Sentinel.
#[local] Open Scope Z_scope.

Module Run.

(** What a reader gives: a text up to each end of the file, and whether it breaks in
    the place of the last one. *)
Record input := MkInput { segments : list gostring; broken : bool }.

(** [NewRequest]: whether a request can be made for an address.  For one that it cannot
    be made for, the requests of the handoff and of [fetchPolicy] fail, which is an
    answer [None] here. *)
Class Host := {
  Getenv : gostring -> gostring;
  ReadFile : gostring -> option gostring;
  Hostname : option gostring;
  Listen : gostring -> bool;
  Stdin : input;
  Open : gostring -> option input;
  Create : gostring -> bool;
  Stat : gostring -> target_info;
  dir_of : gostring -> state_dir;
  cached : option gostring;
  first_answer : option response;
  started : time;
  NewRequest : gostring -> bool;
}.

Section run.
Context `{Host, !Network}.

(** [None] is [log.Fatalf]. *)
Definition apiKey : option gostring :=
  let v := Getenv "SENTINEL_API_KEY" in
  if negb (seqb v []) then Some v
  else
    let path := Getenv "SENTINEL_API_KEY_FILE" in
    if seqb path [] then Some [] else TrimSpace <$> ReadFile path.

Definition openIn (path : gostring) : option input := if seqb path "-" then Some Stdin else Open path.
Definition openOut (path : gostring) : bool := seqb path "-" || Create path.

Definition run_flags : Flag.flag_set :=
  [("in", (Flag.StringFlag, "-")); ("out", (Flag.StringFlag, "-")); ("follow", (Flag.BoolFlag, "false"));
   ("max-inline-bytes", (Flag.IntFlag, "65536")); ("shadow", (Flag.BoolFlag, "false"));
   ("metrics", (Flag.StringFlag, ":9101")); ("control-plane", (Flag.StringFlag, "")); ("state-dir", (Flag.StringFlag, ""));
   ("policy", (Flag.StringFlag, "")); ("policy-interval", (Flag.DurationFlag, "1m0s"));
   ("events-interval", (Flag.DurationFlag, "10s")); ("node-id", (Flag.StringFlag, ""));
   ("allow-fail-open", (Flag.BoolFlag, "false"))]%go.

(** What the parts share; [window] is [None] without a control plane.  The count of
    lines let through is the breaker's. *)
Record proxy := MkProxy {
  active : maskSettings;
  cache : option gostring;
  breaker : handoff;
  window : option node;
  written : gostring;
}.

(** The constants of a run. *)
Record setup := MkSetup {
  control : gostring;
  shadow : bool;
  follow : bool;
  dir : state_dir;
  interval : Z;
  node_id : gostring;
}.

(** [main] up to [readLines]; [None] is [log.Fatal]. *)
Definition start (vs : gmap gostring gostring) : option (setup * proxy * input) :=
  let flag name := Flag.value name vs in
  let control := flag "control-plane"%go in
  let dir := if seqb (flag "state-dir"%go) [] then NoDir else dir_of (flag "state-dir"%go) in
  if Flag.bool_value "follow" vs && seqb (flag "in"%go) "-" then None
  else
    nodeID ← (if seqb (flag "node-id"%go) [] then Hostname else Some (flag "node-id"%go));
    if negb (Listen (flag "metrics"%go)) then None
    else
      _ ← apiKey;
      ca ← (if negb (seqb control []) || negb (seqb (flag "policy"%go) []) then
              let '(file, r) := loadInitial (if seqb control [] then None else Some first_answer) dir cached
                                  (if seqb (flag "policy"%go) [] then None else Some (ReadFile (flag "policy"%go))) in
              d ← r; Some (file, settingsFrom d.1 d.2)
            else Some (cached, initial_settings (Flag.int_value "max-inline-bytes" vs)));
      inp ← openIn (flag "in"%go);
      if negb (openOut (flag "out"%go)) then None
      else Some (MkSetup control (Flag.bool_value "shadow" vs) (Flag.bool_value "follow" vs) dir
                   (Flag.duration_value "policy-interval" vs) nodeID,
                 MkProxy ca.2 ca.1 (newHandoff control (Flag.bool_value "allow-fail-open" vs))
                   (if seqb control [] then None else Some (new_node started)) [],
                 inp).

(** ** Turns *)

(** [NextLine]: the loop handles a line; the number is how much of it is written when
    the disk fails.  [PollBegins]: the goroutine of [poll] starts its ticker.
    [Polled]: a tick of it, and the answer.  [TimerFires]: a second after a failed
    probe.  The others are the steps of a flush of the window. *)
Inductive turn :=
| NextLine (disk : option nat)
| PollBegins
| Polled (res : option response)
| TimerFires
| Swap
| Take (at_ : time)
| Answer (res : option response)
| AddBack.

Definition with_newline (r : maskResult) : gostring := line r ++ [newline].

Definition set_count (n : Z) (h : handoff) : handoff :=
  MkHandoff (baseURL h) (allowFailOpen h) (failures h) (open_ h) (allowProbe h) n (timers h) (sent h) (slept h).

(** The function that [main] gives to [readLines]; the status is there when the process
    ends. *)
Definition on_line (s : setup) (disk : option nat) (l : gostring) (p : proxy) : proxy * option Z :=
  let st := active p in
  match maskWith l (maxInline st) (shadow s) (kinds st) (mode st) (Some (breaker p)) (failPolicy st) with
  | Some (Some h, r) =>
      let w := (fun n => set_win (add r (win n)) (set_fail_open (failOpenCount h) n)) <$> window p in
      match disk with
      | None => (MkProxy st (cache p) h w (written p ++ with_newline r), None)
      | Some k => (MkProxy st (cache p) h w (written p ++ take k (with_newline r)), Some 1)
      end
  | _ => (p, Some 2)
  end.

(** A step of a flush, on the window and the count that it shares with the breaker. *)
Definition flush_turn (s : setup) (e : event) (p : proxy) : proxy :=
  match window p with
  | None => p
  | Some n =>
      match node_step (NewRequest (control s ++ "/v1/sentinel/events")) e (set_fail_open (failOpenCount (breaker p)) n) with
      | None => p
      | Some n' => MkProxy (active p) (cache p) (set_count (fail_open n') (breaker p)) (Some n') (written p)
      end
  end.

(** What happens beside the loop. *)
Definition beside (s : setup) (t : turn) (p : proxy) : proxy * option Z :=
  match t with
  | NextLine _ => (p, None)
  | PollBegins =>
      (* [time.NewTicker] panics *)
      (p, if negb (seqb (control s) []) && (interval s <=? 0) then Some 2 else None)
  | Polled res =>
      if seqb (control s) [] then (p, None)
      else let '(file, st) := poll (dir s) res (cache p) (active p) in
           (MkProxy st file (breaker p) (window p) (written p), None)
  | TimerFires => (MkProxy (active p) (cache p) (fire (breaker p)) (window p) (written p), None)
  | Swap => (flush_turn s FlushSwap p, None)
  | Take at_ => (flush_turn s (FlushTake at_ (node_id s) (version (active p))) p, None)
  | Answer res => (flush_turn s (Answered res) p, None)
  | AddBack => (flush_turn s FlushAdd p, None)
  end.

(** The lines that are left, with nothing beside them. *)
Fixpoint rest (s : setup) (lines : list gostring) (p : proxy) : proxy * option Z :=
  match lines with
  | [] => (p, None)
  | l :: lines =>
      match on_line s None l p with
      | (p, None) => rest s lines p
      | r => r
      end
  end.

Fixpoint loop (s : setup) (turns : list turn) (lines : list gostring) (p : proxy) : proxy * option Z :=
  match turns with
  | [] => rest s lines p
  | NextLine disk :: turns =>
      match lines with
      | [] => loop s turns [] p
      | l :: lines =>
          match on_line s disk l p with
          | (p, None) => loop s turns lines p
          | r => r
          end
      end
  | t :: turns =>
      match beside s t p with
      | (p, None) => loop s turns lines p
      | r => r
      end
  end.

(** The lines that [readLines] passes on; an input that breaks keeps what it has begun. *)
Definition lines_of_input (follow : bool) (i : input) : list gostring :=
  if broken i then (read_segments [] (if follow then segments i else take 1 (segments i))).1
  else readLines follow (segments i).

(** What is written, and the exit status; a proxy that follows a file goes on. *)
Inductive status := Exits (code : Z) | GoesOn.

Definition run (args : list gostring) (turns : list turn) : gostring * status :=
  match Flag.Parse run_flags args with
  | None => ([], Exits 1)
  | Some (vs, _) =>
      match start vs with
      | None => ([], Exits 1)
      | Some (s, p, i) =>
          let '(p, e) := loop s turns (lines_of_input (follow s) i) p in
          (written p, match e with
                      | Some n => Exits n
                      | None => if broken i then Exits 1 else if follow s then GoesOn else Exits 0
                      end)
      end
  end.

(** ** The command line *)

(** [runScan]: the arguments that begin with a dash are flags wherever they are. *)
Definition scan (args : list gostring) : option ScanReport * Z :=
  match Flag.Parse [("json", (Flag.BoolFlag, "false"))]%go (filter (fun a => HasPrefix a "-" = true) args) with
  | None => (None, 2)
  | Some _ =>
      let target := default "."%go (head (filter (fun a => HasPrefix a "-" = false) args)) in
      runScan target (Stat target)
  end.

Inductive outcome := Ran (out : gostring) (s : status) | Scanned (report : option ScanReport) (code : Z) | Usage.

(** [os.Args], the name of the tool first. *)
Definition main (args : list gostring) (turns : list turn) : outcome :=
  match args with
  | _ :: command :: rest =>
      if seqb command "scan" then let '(r, n) := scan rest in Scanned r n
      else if seqb command "run" then let '(out, s) := run rest turns in Ran out s
      else Usage
  | _ => Usage
  end.
End run.

End Run.
Import Run.

Section spec.
Context `{Host, !Network}.

(** ** A line *)

(** What a line has become, under the settings [st]: itself in shadow mode; a line
    within the limit is written with its findings replaced; a longer one is masked
    or, when the policy and the flag say so, written as it is.  Only a control plane can
    hold it. *)
Definition becomes (shadow : bool) (h : handoff) (st : maskSettings) (l : gostring) (r : maskResult) : Prop :=
  let ks := match kinds st with [] => maskKinds | _ => kinds st end in
  let m := if seqb (mode st) [] then ModeRedact else mode st in
  if shadow then line r = l
  else if glen l <=? maxInline st then
    exists out cs, Apply l (Scan l ks) m = Some (out, cs) /\ r = MkMasked out cs false false
  else masked l (failPolicy st) ks m r /\ (held r = true -> baseURL h <> []) \/
    (failPolicy st = "open"%go /\ allowFailOpen h = true /\ r = MkMasked l ∅ false false).

(** The breaker keeps the address and the flag. *)
Definition same_end (h h' : handoff) : Prop := allowFailOpen h' = allowFailOpen h /\ baseURL h' = baseURL h.

Lemma loop_item_end h h' r : loop_item h = Some (h', r) -> breaker_ok h -> same_end h h'.
Proof.
  intros E Hok. destruct (loop_item_spec h Hok) as (h2 & r2 & E2 & _ & (Hb & Ha & _) & _). rewrite E in E2. by injection E2 as <- _.
Qed.

Lemma fail_policy_end l fp ks m h h' r :
  applyFailPolicy l fp ks m (Some h) = (h', r) -> held r = false /\ exists g, h' = Some g /\ same_end h g.
Proof.
  unfold applyFailPolicy. destruct (seqb fp "inline"); [intros [= <- <-]; split; [done|by exists h]|].
  destruct (_ && _); intros [= <- <-]; (split; [done|]); [by exists (count_open 1 h)|by exists h].
Qed.

Lemma handle_end l fp ks m q h h' r : breaker_ok h -> handle l fp ks m q (Some h) = Some (h', r) ->
  (held r = true -> baseURL h <> []) /\ exists g, h' = Some g /\ same_end h g.
Proof.
  intros Hok. unfold handle. destruct (seqb (baseURL h) []) eqn:Eb.
  { intros [= E]. apply fail_policy_end in E as [-> ?]. by split. }
  apply seqb_neq in Eb. destruct (_ && _); [intros [= [_ E]%fail_policy_end]; by split|].
  set (h1 := if open_ h then _ else h).
  assert (H1 : breaker_ok h1 /\ same_end h h1).
  { unfold h1. destruct (open_ h) eqn:E; (split; [|done]); [by apply (breaker_ok_same h)|done]. }
  destruct H1 as [Hok1 [Ha1 Hb1]]. destruct (q <? handoffQueueCap).
  - destruct (loop_item h1) as [[h2 o]|] eqn:E; [|done]. apply loop_item_end in E as [Ha2 Hb2]; [|done]. cbn [mbind option_bind fst snd].
    destruct o; [intros [= <- _]|intros [= [_ (g & -> & Hg1 & Hg2)]%fail_policy_end]]; (split; [done|]);
      [exists h2|exists g]; (split; [done|]); split; congruence.
  - intros [= [_ (g & -> & Hg1 & Hg2)]%fail_policy_end]. split; [done|]. exists g. split; [done|].
    unfold same_end. rewrite Hg1, Hg2. by destruct (open_ h1).
Qed.

Lemma maskWith_becomes l st sh h : breaker_ok h ->
  exists h' r, maskWith l (maxInline st) sh (kinds st) (mode st) (Some h) (failPolicy st) = Some (Some h', r) /\
    becomes sh h st l r /\ breaker_ok h' /\ same_end h h'.
Proof.
  intros Hok. destruct (mask_outcomes l (maxInline st) sh (kinds st) (mode st) (Some h) (failPolicy st)) as (h' & r & E & Hr);
    [by intros g [= <-]|].
  assert (Hh : exists g, h' = Some g /\ breaker_ok g /\ same_end h g /\ (sh = false -> held r = true -> baseURL h <> [])).
  { unfold maskWith in E. cbv zeta in E. destruct (_ <? _).
    - destruct sh; [injection E as <- _; by exists h|].
      match type of E with handle ?l ?fp ?ks ?m ?q _ = _ =>
        destruct (handle_bounded l fp ks m q h Hok) as (g & r2 & E2 & Hg & _) end.
      rewrite E in E2. injection E2 as -> ->. exists g. apply handle_end in E as (Hheld & g' & [= <-] & Ha); [|done]. by split_and!.
    - destruct sh; injection E as <- <-; by exists h. }
  destruct Hh as (g & -> & Hg & Ha & Hheld). exists g, r. split; [exact E|]. split; [|done]. unfold becomes. cbv zeta in *.
  destruct sh; [by destruct Hr as [_ ->]|]. destruct (glen l <=? maxInline st); [exact (proj2 Hr)|].
  destruct Hr as [Hr|(Hf & Hr & g1 & g2 & [= <-] & _ & Hal & _)]; [left; auto|by right].
Qed.

(** ** The loop *)

(** What stays of a proxy while it runs. *)
Definition still (p p' : proxy) : Prop := breaker_ok (breaker p') /\ same_end (breaker p) (breaker p').

Lemma on_line_spec s d l p p' e : breaker_ok (breaker p) -> on_line s d l p = (p', e) ->
  exists r, becomes (shadow s) (breaker p) (active p) l r /\ still p p' /\ active p' = active p /\
    match d with
    | None => e = None /\ written p' = written p ++ with_newline r
    | Some k => e = Some 1 /\ written p' = written p ++ take k (with_newline r)
    end.
Proof.
  intros Hok. unfold on_line. cbv zeta. destruct (maskWith_becomes l (active p) (shadow s) (breaker p) Hok) as (h & r & -> & Hb & Hh & Ha).
  exists r. destruct d; injection H1 as <- <-; done.
Qed.

Lemma flush_turn_spec s e p : breaker_ok (breaker p) ->
  still p (flush_turn s e p) /\ active (flush_turn s e p) = active p /\ written (flush_turn s e p) = written p.
Proof.
  intros Hok. unfold flush_turn, still, same_end. destruct (window p); [|done]. by destruct (node_step _ _ _).
Qed.

Lemma beside_spec s t p p' e : breaker_ok (breaker p) -> beside s t p = (p', e) ->
  still p p' /\ written p' = written p /\
  (active p' = active p \/ exists res doc etag, control s <> [] /\ t = Polled res /\ fetchPolicy res = Fetched doc etag /\ active p' = settingsFrom doc etag) /\
  (e = None \/ e = Some 2 /\ control s <> [] /\ interval s <= 0).
Proof.
  intros Hok. destruct t; cbn [beside]; try (intros [= <- <-];
    match goal with |- context [flush_turn _ ?x p] => by destruct (flush_turn_spec s x p Hok) as (? & ? & ?); auto 10 end).
  - intros [= <- <-]. unfold still, same_end. by auto.
  - intros [= <- <-]. unfold still, same_end. destruct (seqb (control s) []) eqn:E; [by auto|]. apply seqb_neq in E. cbn [negb andb].
    destruct (Z.leb_spec (interval s) 0); by auto 10.
  - destruct (seqb _ _) eqn:Ec; [intros [= <- <-]; unfold still, same_end; by auto|]. apply seqb_neq in Ec. unfold poll.
    destruct (fetchPolicy res) eqn:E; intros [= <- <-]; (split; [done|split; [done|split; [|by left]]]); [right; by eexists _, _, _|by left..].
  - intros [= <- <-]. unfold still, same_end. cbn. unfold fire. destruct (timers (breaker p)); by auto.
Qed.

Section settings.
Context (P : maskSettings -> Prop).

Definition handled (s : setup) (p p' : proxy) (e : option Z) (lines : list gostring) : Prop := exists done rs lost,
  done `prefix_of` lines /\
  Forall2 (fun l r => exists st, P st /\ becomes (shadow s) (breaker p) st l r) done rs /\
  written p' ++ lost = written p ++ concat (with_newline <$> rs) /\
  (e = None -> done = lines /\ lost = []).

(** It is the same for the breaker of a moment later. *)
Lemma becomes_end sh h h' st l r : same_end h h' -> becomes sh h' st l r -> becomes sh h st l r.
Proof. unfold becomes. by intros [-> ->]. Qed.

Lemma handled_end s h h' done rs : same_end h h' ->
  Forall2 (fun l r => exists st, P st /\ becomes (shadow s) h' st l r) done rs ->
  Forall2 (fun l r => exists st, P st /\ becomes (shadow s) h st l r) done rs.
Proof.
  intros Hh Hf. eapply Forall2_impl; [exact Hf|]. intros l r (st & ? & ?). exists st. split; [done|]. by eapply becomes_end.
Qed.

Lemma handled_none s p e : e <> None \/ True -> forall lines, (e = None -> lines = []) -> handled s p p e lines.
Proof.
  intros _ lines Hl. exists [], [], []. rewrite !app_nil_r. split_and!; [apply prefix_nil|constructor|done|].
  intros He. by rewrite Hl.
Qed.

(** A line, and what follows it. *)
Lemma handled_line s d l p p1 e1 lines : breaker_ok (breaker p) -> P (active p) -> on_line s d l p = (p1, e1) ->
  still p p1 /\ active p1 = active p /\
  (e1 <> None -> handled s p p1 e1 (l :: lines)) /\
  (forall p' e, e1 = None -> handled s p1 p' e lines -> handled s p p' e (l :: lines)).
Proof.
  intros Hok HP E. apply on_line_spec in E as (r & Hb & Hs & Ha & Hd); [|done]. split; [done|]. split; [done|].
  assert (Hr : exists st, P st /\ becomes (shadow s) (breaker p) st l r) by eauto.
  split.
  - intros He. destruct d as [k|]; destruct Hd as [-> Hw]; [|done].
    exists [l], [r], (drop k (with_newline r)). split_and!; [by apply prefix_cons, prefix_nil|by constructor| |done].
    rewrite Hw. cbn. by rewrite app_nil_r, <- app_assoc, take_drop.
  - intros p' e -> (done & rs & lost & Hp & Hf & Hw & He). destruct d as [k|]; destruct Hd as [He1 Hw1]; [done|].
    exists (l :: done), (r :: rs), lost. destruct Hs as [_ Hal]. apply (handled_end s _ _ _ _ Hal) in Hf.
    split_and!; [by apply prefix_cons|by constructor| |].
    + rewrite Hw, Hw1. cbn. by rewrite app_assoc.
    + intros Hn. destruct (He Hn) as [-> ->]. done.
Qed.

Lemma rest_spec s lines p p' e : breaker_ok (breaker p) -> P (active p) -> rest s lines p = (p', e) ->
  handled s p p' e lines /\ e = None.
Proof.
  revert p. induction lines as [|l lines IH]; intros p Hok HP; cbn [rest].
  - intros [= <- <-]. split; [|done]. by apply handled_none; auto.
  - destruct (on_line s None l p) as [p1 e1] eqn:E. pose proof E as E'.
    apply on_line_spec in E' as (_ & _ & _ & _ & -> & _); [|done].
    apply (handled_line s None l p p1 None lines Hok HP) in E as ([Hok1 _] & Ha & _ & Hnext).
    intros Hr. apply IH in Hr as [Hh ->]; [|done|by rewrite Ha]. split; [by apply Hnext|done].
Qed.

(** A turn of something else, and what follows it. *)
Lemma beside_turn s t lines p p1 e1 p' e (Q : option Z -> Prop) :
  breaker_ok (breaker p) -> P (active p) ->
  (forall res doc etag, control s <> [] -> t = Polled res -> fetchPolicy res = Fetched doc etag -> P (settingsFrom doc etag)) ->
  beside s t p = (p1, e1) ->
  (e1 = None -> breaker_ok (breaker p1) -> P (active p1) -> handled s p1 p' e lines /\ Q e) ->
  (Some 2 = e1 -> control s <> [] -> interval s <= 0 -> p' = p1 /\ e = Some 2 /\ Q (Some 2)) ->
  handled s p p' e lines /\ Q e.
Proof.
  intros Hok HP Ht E Hgo Hpanic. apply beside_spec in E as ([Hok1 Hal1] & Hw1 & Ha & He1); [|done].
  assert (HP1 : P (active p1)) by (destruct Ha as [->|(res & doc & etag & Hc & Et & Hf & ->)]; [done|by eapply Ht]).
  destruct He1 as [->|(-> & Hc & Hi)].
  - destruct (Hgo eq_refl Hok1 HP1) as [(ls & rs & lost & Hp & Hf & Hw & He) Hq]. split; [|done].
    exists ls, rs, lost. rewrite <- Hw1. split_and!; try done. by eapply handled_end.
  - destruct (Hpanic eq_refl Hc Hi) as (-> & -> & Hq). split; [|done].
    exists [], [], []. rewrite Hw1, !app_nil_r. split_and!; [apply prefix_nil|constructor|done|done].
Qed.

(** Why the loop can have ended: nothing, the disk, or the ticker of [poll]. *)
Definition ends (s : setup) (turns : list turn) (e : option Z) : Prop :=
  e = None \/ e = Some 1 /\ (exists k, NextLine (Some k) ∈ turns) \/ e = Some 2 /\ control s <> [] /\ interval s <= 0.

Lemma loop_spec s turns lines p p' e : breaker_ok (breaker p) -> P (active p) ->
  (forall res doc etag, control s <> [] -> Polled res ∈ turns -> fetchPolicy res = Fetched doc etag -> P (settingsFrom doc etag)) ->
  loop s turns lines p = (p', e) ->
  handled s p p' e lines /\ ends s turns e.
Proof.
  revert lines p. induction turns as [|t turns IH]; intros lines p Hok HP Ht.
  { cbn [loop]. intros [Hh ->]%rest_spec; [|done..]. split; [done|by left]. }
  assert (Ht' : forall res doc etag, control s <> [] -> Polled res ∈ turns -> fetchPolicy res = Fetched doc etag -> P (settingsFrom doc etag)).
  { intros res doc etag Hc Hin. apply Ht; [done|]. by right. }
  assert (Hmore : forall q ls, breaker_ok (breaker q) -> P (active q) -> loop s turns ls q = (p', e) ->
    handled s q p' e ls /\ ends s (t :: turns) e).
  { intros q ls Hq HPq Hl. apply IH in Hl as [Hh He]; [|done..]. split; [done|].
    destruct He as [->|[(-> & k & Hk)|He]]; [by left|right; left|by right; right]. split; [done|]. exists k. by right. }
  destruct t as [d| | | | | | |].
  { cbn [loop]. destruct lines as [|l lines]; [by apply Hmore|].
    destruct (on_line s d l p) as [p1 e1] eqn:E. pose proof E as E'.
    apply on_line_spec in E' as (r & _ & _ & _ & Hd); [|done].
    apply (handled_line s d l p p1 e1 lines Hok HP) in E as ([Hok1 Hal1] & Ha & Hstop & Hnext).
    destruct e1 as [n|].
    - intros [= <- <-]. split; [by apply Hstop|]. right; left. destruct d as [k|]; destruct Hd as [[= ->] _]. split; [done|]. exists k. by left.
    - intros Hl. apply Hmore in Hl as [Hh He]; [|done|by rewrite Ha]. split; [by apply Hnext|done]. }
  all: cbn [loop]; destruct (beside _ _ _) as [p1 e1] eqn:E; intros Hl; refine (beside_turn s _ lines p p1 e1 p' e (ends s _) Hok HP _ E _ _);
    [intros res' doc' etag' Hc' Et Hf; apply (Ht res' doc' etag'); [done|rewrite Et; by left|done]|intros -> ? ?; by apply Hmore|intros <- ? ?; injection Hl as <- <-; split; [done|split; [done|by right; right]]].
Qed.
End settings.

(** ** One line of text

    No newline comes out of a line that has none. *)

Definition one_line (s : gostring) : Prop := Forall (fun b => b <> newline) s.

Lemma one_line_not_in s : newline ∉ s <-> one_line s.
Proof.
  unfold one_line. rewrite Forall_forall. split; [intros Hs b Hb ->; done|intros Hs Hn; by apply (Hs newline)].
Qed.

Lemma one_line_part s i j : one_line s -> one_line (zseg s i j).
Proof. intros Hs. unfold zseg, seg. by apply Forall_take, Forall_drop. Qed.

Lemma gaps_one_line s prev spans : one_line s -> Forall one_line (gaps s prev spans).
Proof. intros Hs. revert prev. induction spans as [|sp spans IH]; intros prev; cbn; repeat constructor; by try apply one_line_part. Qed.

Lemma interleave_one_line gs ts : Forall one_line gs -> Forall one_line ts -> one_line (interleave gs ts).
Proof.
  intros Hg. revert ts. induction Hg as [|g gs Hg1 Hg IH]; intros ts Ht; cbn [interleave]; [constructor|].
  destruct Ht as [|t ts Ht1 Ht]; repeat apply Forall_app_2; auto; by apply IH.
Qed.

(** The names of the kinds: letters, digits and underscores. *)
Lemma detector_kind d : d ∈ detectors -> one_line (d_kind d) /\ one_line (ToUpper (d_kind d)).
Proof.
  intros Hd. assert (Hall : forallb (fun d => forallb (fun b => negb (beq b newline)) (d_kind d ++ ToUpper (d_kind d))) detectors = true)
    by (vm_compute; reflexivity).
  rewrite forallb_forall in Hall. specialize (Hall d (proj1 (list_elem_of_In _ _) Hd)). rewrite forallb_forall in Hall.
  assert (Ha : one_line (d_kind d ++ ToUpper (d_kind d))).
  { apply Forall_forall. intros b Hb ->. by specialize (Hall _ (proj1 (list_elem_of_In _ _) Hb)). }
  by apply Forall_app in Ha.
Qed.

Lemma replacement_one_line m k t : one_line k -> one_line (ToUpper k) -> one_line t -> one_line (replacement m k t).
Proof.
  intros Hk Hu Ht. unfold replacement. destruct (seqb m ModePartial); [|destruct (seqb m ModeTokenize)].
  - unfold partial. destruct (_ <=? _)%nat; [done|]. apply Forall_app_2; [|by apply Forall_drop].
    rewrite Repeat_star. by apply Forall_replicate.
  - unfold TokenFor. cbv zeta. repeat apply Forall_app_2; [by repeat constructor|done|by repeat constructor|].
    eapply Forall_impl; [apply hex_encode_hex|]. by intros b Hb ->.
  - repeat apply Forall_app_2; [by repeat constructor|done|by repeat constructor].
Qed.

Lemma masked_one_line l ks m out cs : one_line l -> Apply l (Scan l ks) m = Some (out, cs) -> one_line out.
Proof.
  intros Hl. destruct (Apply_Scan l ks m) as (cs' & _ & -> & _). intros [= <- _].
  apply interleave_one_line; [by apply gaps_one_line|]. apply Forall_forall. intros t Ht.
  rewrite zip_with_fmap_l, zip_with_fmap_r, zip_with_diag in Ht.
  apply list_elem_of_fmap in Ht as (sp & -> & Hsp).
  destruct (proj2 (Scan_spans l ks) sp Hsp) as (_ & _ & _ & d & Hd & <- & _).
  destruct (detector_kind d Hd). apply replacement_one_line; [done|done|]. by apply one_line_part.
Qed.

(** The lines that the readers pass on. *)
Lemma Split_one_line s : Forall one_line (Split s newline).
Proof.
  induction s as [|b s IH]; cbn [Split]; [by repeat constructor|]. destruct (beq b newline) eqn:E; [by repeat constructor|].
  assert (Hb : b <> newline) by (intros ->; by rewrite beq_refl in E).
  destruct IH as [|w ws Hw IH]; repeat constructor; done.
Qed.

Lemma TrimRight_one_line s cut : one_line s -> one_line (TrimRight s cut).
Proof.
  intros Hs. induction Hs as [|b s Hb Hs IH]; cbn [TrimRight]; [constructor|].
  destruct (TrimRight s cut) as [|c r]; [|by constructor]. case_match; by constructor.
Qed.

Lemma read_one_line segments :
  Forall one_line (read_segments [] segments).1 /\ one_line (read_segments [] segments).2.
Proof.
  destruct (follow_chunking segments) as (-> & _). unfold lines_of. cbn [fst snd].
  pose proof (Split_one_line (concat segments)) as Hall. split; [|by apply one_line_not_in, last_Split_no_sep].
  apply Forall_fmap. induction Hall as [|w ws Hw Hall IH]; [constructor|]. destruct ws; [constructor|].
  constructor; [by apply TrimRight_one_line|done].
Qed.

Lemma lines_one_line follow i : Forall one_line (lines_of_input follow i).
Proof.
  unfold lines_of_input, readLines. destruct (broken i); [apply read_one_line|]. destruct follow; [apply read_one_line|].
  destruct (read_one_line (take 1 (segments i))). apply Forall_app_2; [done|]. destruct (seqb _ _); by repeat constructor.
Qed.

Lemma becomes_one_line sh h st l r : one_line l -> becomes sh h st l r -> held r = false -> one_line (line r).
Proof.
  intros Hl Hb Hh. unfold becomes in Hb. destruct sh; [by rewrite Hb|].
  destruct (glen l <=? maxInline st).
  - destruct Hb as (out & cs & Ha & ->). by eapply masked_one_line.
  - destruct Hb as [[Hm _]|(_ & _ & ->)]; [|done].
    destruct Hm as [out cs _ Ha|id Hid|_]; [by eapply masked_one_line|done|]. cbn. apply Forall_forall.
    intros b Hb ->. assert (E : existsb (fun b => beq b newline) dropped_line = false) by (vm_compute; reflexivity).
    rewrite <- not_true_iff_false, existsb_exists in E. apply E. exists newline. by rewrite <- list_elem_of_In.
Qed.

(** ** A run *)

(** Where the settings of a run can come from: the flags, when neither a control plane
    nor a file is named; the control plane, at the start (unchanged too, though there
    is nothing to be unchanged from) or later; the cache; the file. *)
Inductive source (vs : gmap gostring gostring) (turns : list turn) : maskSettings -> Prop :=
| from_flags : Flag.value "control-plane" vs = [] -> Flag.value "policy" vs = [] ->
    source vs turns (initial_settings (Flag.int_value "max-inline-bytes" vs))
| from_server res doc etag : Flag.value "control-plane" vs <> [] -> res = first_answer \/ Polled res ∈ turns ->
    fetchPolicy res = Fetched doc etag -> source vs turns (settingsFrom doc etag)
| from_unchanged : Flag.value "control-plane" vs <> [] -> fetchPolicy first_answer = Same ->
    source vs turns (settingsFrom Policy.zero_doc [])
| from_cache dir doc etag : Flag.value "control-plane" vs <> [] -> readCache dir cached = Some (doc, etag) ->
    source vs turns (settingsFrom doc etag)
| from_file raw doc : Flag.value "policy" vs <> [] -> ReadFile (Flag.value "policy" vs) = Some raw -> Policy.Parse raw = Ok doc ->
    source vs turns (settingsFrom doc []).

Lemma loadInitial_source vs turns dir file d :
  let control := Flag.value "control-plane" vs in
  let policy := Flag.value "policy" vs in
  loadInitial (if seqb control [] then None else Some first_answer) dir cached
    (if seqb policy [] then None else Some (ReadFile policy)) = (file, Some d) ->
  negb (seqb control []) || negb (seqb policy []) = true ->
  source vs turns (settingsFrom d.1 d.2).
Proof.
  intros control policy. unfold loadInitial.
  assert (Hfile : forall fd, match (if seqb policy [] then None else Some (ReadFile policy)) with
                   | None => Some None
                   | Some None => None
                   | Some (Some raw) => match Policy.Parse raw with Err _ => None | Ok doc => Some (Some doc) end
                   end = Some (Some fd) -> source vs turns (settingsFrom fd [])).
  { intros fd. destruct (seqb policy []) eqn:E; [done|]. apply seqb_neq in E. destruct (ReadFile policy) as [raw|] eqn:Er; [|done].
    destruct (Policy.Parse raw) eqn:Ep; [|done]. intros [= <-]. by eapply from_file. }
  destruct (match (if seqb policy [] then _ else _) with None => _ | Some _ => _ end) as [fd|]; [|done].
  destruct (seqb control []) eqn:Ec.
  - destruct fd as [fd|]; [|done]. intros [= _ <-] _. by apply Hfile.
  - apply seqb_neq in Ec. destruct (fetchPolicy first_answer) eqn:Ef.
    + intros [= _ <-] _. eapply from_server; [done|by left|done].
    + intros [= _ <-] _. by apply from_unchanged.
    + destruct (readCache dir cached) as [[doc etag]|] eqn:Er; [intros [= _ <-] _; by eapply from_cache|].
      destruct fd as [fd|]; [|done]. intros [= _ <-] _. by apply Hfile.
Qed.

Lemma start_spec vs turns s p i : start vs = Some (s, p, i) ->
  control s = Flag.value "control-plane" vs /\ shadow s = Flag.bool_value "shadow" vs /\
  follow s = Flag.bool_value "follow" vs /\ interval s = Flag.duration_value "policy-interval" vs /\
  breaker p = newHandoff (control s) (Flag.bool_value "allow-fail-open" vs) /\ written p = [] /\ source vs turns (active p).
Proof.
  unfold start. cbv zeta. set (sdir := if seqb (Flag.value "state-dir" vs) [] then _ else _).
  destruct (_ && _); [done|]. destruct (if seqb (Flag.value "node-id" vs) [] then _ else _); [|done]. cbn [mbind option_bind].
  destruct (negb (Listen _)); [done|]. destruct apiKey; [|done]. cbn [mbind option_bind].
  destruct (negb (seqb (Flag.value "control-plane" vs) []) || negb (seqb (Flag.value "policy" vs) [])) eqn:Eo.
  - destruct (loadInitial _ sdir _ _) as [file [d|]] eqn:El; [|done]. cbn [mbind option_bind].
    destruct (openIn _); [|done]. cbn [mbind option_bind]. destruct (negb (openOut _)); [done|]. intros [= <- <- _]. split_and!; try done.
    by eapply loadInitial_source.
  - cbn [mbind option_bind]. destruct (openIn _); [|done]. cbn [mbind option_bind]. destruct (negb (openOut _)); [done|].
    intros [= <- <- _]. split_and!; try done. apply orb_false_iff in Eo as [Ec%negb_false_iff%seqb_eq Ep%negb_false_iff%seqb_eq].
    by apply from_flags.
Qed.

(** C11 [sentinel_run_masks]: a proxy that has started writes, whatever the network does
    and whenever policies arrive, a record for each line of its input, in order, and no
    more: a text, which [becomes] gives from the line under settings of the flags, the
    control plane, the cache or the file, and a newline.  Under --shadow the text is the
    line as it is.  Otherwise, a line within the limit has its findings replaced; one that
    is over the limit has its findings replaced, or is the marker of a dropped line, or
    that of a held one, and is passed on unmasked only when a policy says open and the
    flag allows it.  No text holds a newline, so that a record is a line, except for a
    held one, which shows the identifier that the control plane answered, whatever that
    is.  When the process ends with status 0, or goes on, all records are written; when a
    write fails, a part of the last may be missing.  It never panics, but for the ticker
    of a policy interval that is not positive. *)
Theorem sentinel_run_masks exe args turns vs rest s p i out st :
  Flag.Parse run_flags args = Some (vs, rest) -> start vs = Some (s, p, i) ->
  main (exe :: "run"%go :: args) turns = Ran out st ->
  exists done rs lost,
    done `prefix_of` lines_of_input (follow s) i /\
    Forall2 (fun l r => exists st, source vs turns st /\
               becomes (Flag.bool_value "shadow" vs)
                 (newHandoff (Flag.value "control-plane" vs) (Flag.bool_value "allow-fail-open" vs)) st l r) done rs /\
    out ++ lost = concat (with_newline <$> rs) /\
    (forall r, r ∈ rs -> held r = false -> newline ∉ line r) /\
    (st = Exits 0 \/ st = GoesOn -> done = lines_of_input (follow s) i /\ lost = []) /\
    (st = Exits 2 -> Flag.value "control-plane" vs <> [] /\ Flag.duration_value "policy-interval" vs <= 0) /\
    (st = Exits 1 -> broken i = true \/ exists k, NextLine (Some k) ∈ turns).
Proof.
  intros Hp Hs. unfold main. change (seqb "run" "scan") with false. change (seqb "run" "run") with true. cbv iota.
  unfold run. rewrite Hp, Hs. destruct (start_spec vs turns s p i Hs) as (<- & <- & Hfo & <- & Hb & Hw & Hsrc).
  destruct (loop s turns (lines_of_input (follow s) i) p) as [p' e] eqn:El. intros [= <- <-].
  apply (loop_spec (source vs turns)) in El as [(ls & rs & lost & Hpre & Hf & Hout & Hall) He]; [| |done|].
  - exists ls, rs, lost. rewrite Hb in Hf. rewrite Hw in Hout. split_and!; try done.
    + intros r Hr Hh. apply list_elem_of_lookup_1 in Hr as [k Hk]. destruct (Forall2_lookup_r _ _ _ _ _ Hf Hk) as (l & Hl & st' & _ & Hbc).
      apply one_line_not_in. eapply becomes_one_line; [|exact Hbc|exact Hh].
      apply (Forall_lookup_1 _ _ k l (lines_one_line (follow s) i)). by eapply prefix_lookup_Some.
    + intros Hst. apply Hall. destruct He as [->|[(-> & _)|(-> & _)]]; [done|by destruct Hst..].
    + intros Hst. destruct He as [->|[(-> & _)|(_ & ? & ?)]]; [|done|done]. by destruct (broken i), (follow s).
    + intros Hst. destruct He as [->|[(_ & Hk)|(-> & _)]]; [|by right|done]. left. by destruct (broken i), (follow s).
  - rewrite Hb. apply breaker_new.
  - intros res doc etag Hc Hin Hfe. destruct (start_spec vs turns s p i Hs) as (Hcv & _). rewrite Hcv in Hc.
    eapply from_server; [done|by right|done].
Qed.

(** What becomes of a line with no control plane and no policy. *)
Definition plain_line (max : Z) (l : gostring) : gostring :=
  if glen l <=? max then line (apply_scan_of l maskKinds ModeRedact) else dropped_line.

Lemma becomes_plain max h l r : baseURL h = [] -> becomes false h (initial_settings max) l r -> line r = plain_line max l.
Proof.
  intros Hb. unfold becomes, plain_line. cbn [initial_settings kinds mode maxInline failPolicy].
  destruct (glen l <=? max).
  - intros (out & cs & Ha & ->). destruct (apply_scan_of_spec l maskKinds ModeRedact) as (out' & cs' & Ha' & ->).
    change (Apply l (Scan l maskKinds) ModeRedact = Some (out, cs)) in Ha. rewrite Ha in Ha'. by injection Ha' as <- _.
  - intros [[Hm Hheld]|[? _]]; [|done]. destruct Hm as [? ? Hf| |]; [done| |done]. by destruct (Hheld eq_refl).
Qed.

(** C12 [sentinel_run_plain]: without a control plane and a policy file, without --shadow
    and --follow, the proxy is a function of its input: as long as reading and writing do
    not fail, whatever happens beside the loop, it writes each line with the findings of
    its six kinds replaced, and the marker of a dropped line for one that is over the
    limit, and ends with status 0. *)
Theorem sentinel_run_plain exe args turns vs rest s p i :
  Flag.Parse run_flags args = Some (vs, rest) -> start vs = Some (s, p, i) ->
  Flag.value "control-plane" vs = [] -> Flag.value "policy" vs = [] ->
  Flag.bool_value "shadow" vs = false -> Flag.bool_value "follow" vs = false -> broken i = false ->
  (forall k, NextLine (Some k) ∉ turns) ->
  main (exe :: "run"%go :: args) turns =
  Ran (concat ((fun l => plain_line (Flag.int_value "max-inline-bytes" vs) l ++ [newline]) <$> readLines false (segments i))) (Exits 0).
Proof.
  intros Hp Hs Hc Hpol Hsh Hfo Hbr Hdisk. unfold main. change (seqb "run" "scan") with false. change (seqb "run" "run") with true. cbv iota.
  unfold run. rewrite Hp, Hs. destruct (start_spec vs turns s p i Hs) as (Ec & Esh & Efo & _ & Hb & Hw & Hsrc).
  destruct (loop s turns (lines_of_input (follow s) i) p) as [p' e] eqn:El.
  apply (loop_spec (fun st => st = initial_settings (Flag.int_value "max-inline-bytes" vs))) in El
    as [(ls & rs & lost & Hpre & Hf & Hout & Hall) He].
  - destruct He as [->|[(_ & k & Hk)|(_ & Hcs & _)]]; [|by destruct (Hdisk k)|congruence]. rewrite Hbr, Efo, Hfo.
    destruct (Hall eq_refl) as [-> ->]. rewrite app_nil_r, Hw in Hout. rewrite Hout. do 2 f_equal.
    assert (Hbase : baseURL (breaker p) = []) by (rewrite Hb; cbn; congruence).
    unfold lines_of_input in Hf. rewrite Hbr, Efo, Hfo, Esh, Hsh in Hf. symmetry. cbn [app]. f_equal.
    clear Hout Hpre Hall. induction Hf as [|l r ls rs' (st & -> & Hbc) Hf' IH]; [done|]. cbn [fmap list_fmap]. unfold with_newline at 1.
    rewrite (becomes_plain _ _ _ _ Hbase Hbc). f_equal. apply IH.
  - rewrite Hb. apply breaker_new.
  - by destruct Hsrc.
  - intros res doc etag Hcs. congruence.
Qed.
End spec.

(** ** A pipe *)

Definition toy_input : input := MkInput ["mail bob@example.com"%go ++ [Byte.x0d; Byte.x0a] ++ "a line that is a bit longer than this one allows"%go] false.

#[local] Instance toy_host : Host := {|
  Getenv _ := [];
  Run.ReadFile _ := None;
  Hostname := Some "node"%go;
  Listen _ := true;
  Stdin := toy_input;
  Run.Open _ := None;
  Create _ := true;
  Stat _ := NoTarget;
  dir_of _ := Writable;
  cached := None;
  first_answer := Some (MkResponse 200 (Marshal (Policy.doc_json (Policy.MkDoc 3 [KindEmail] ModeRedact "closed" 40))) "v3");
  started := 0;
  NewRequest _ := true;
|}.
#[local] Instance toy_network : Network := { answer n := None }.

Definition toy_start (vs : gmap gostring gostring) : bool :=
  match start vs with Some (_, _, i) => negb (broken i) | None => false end.

Lemma sentinel_run_plain_witness :
  main ["sentinel"; "run"; "--max-inline-bytes=32"]%go [TimerFires; NextLine None; Swap; PollBegins] =
  Ran (concat ((fun l => plain_line 32 l ++ [newline]) <$> readLines false (segments toy_input))) (Exits 0).
Proof.
  destruct (Flag.Parse_gives run_flags ["--max-inline-bytes=32"]%go
    [("control-plane", ""); ("policy", ""); ("shadow", "false"); ("follow", "false"); ("max-inline-bytes", "32"); ("in", "-"); ("out", "-")]%go)
    as (vs & rest & Ep & Hv); [vm_compute; reflexivity|].
  rewrite !Forall_cons in Hv. cbn [fst snd] in Hv. destruct Hv as (Hc & Hpol & Hsh & Hfo & Hm & Hin & Hout & _).
  assert (Hs : exists s p, start vs = Some (s, p, toy_input)).
  { unfold start. cbv zeta. unfold Flag.bool_value. rewrite Hc, Hpol, Hsh, Hfo, Hin, Hout. cbn.
    by destruct (if seqb (Flag.value "node-id" vs) [] then _ else _) eqn:E; [eexists _, _|destruct (seqb _ _)]. }
  destruct Hs as (s & p & Hs).
  assert (Hb : forall name v, Flag.value name vs = v -> seqb v "true" = false -> Flag.bool_value name vs = false)
    by (intros name v E1 E2; unfold Flag.bool_value; rewrite E1; exact E2).
  assert (Hm' : Flag.int_value "max-inline-bytes" vs = 32) by (unfold Flag.int_value; rewrite Hm; vm_compute; reflexivity).
  assert (Hd : forall k, NextLine (Some k) ∉ [TimerFires; NextLine None; Swap; PollBegins])
    by (intros k; rewrite !not_elem_of_cons; split_and!; [discriminate..|apply not_elem_of_nil]).
  rewrite <- Hm'.
  exact (sentinel_run_plain "sentinel" ["--max-inline-bytes=32"]%go _ vs rest s p toy_input Ep Hs Hc Hpol
    (Hb _ _ Hsh eq_refl) (Hb _ _ Hfo eq_refl) eq_refl Hd).
Defined.

Lemma sentinel_run_masks_witness :
  exists vs rest s p i out st,
    Flag.Parse run_flags ["-control-plane"; "http://cp"]%go = Some (vs, rest) /\ start vs = Some (s, p, i) /\
    main ["sentinel"; "run"; "-control-plane"; "http://cp"]%go [NextLine None; Polled None] = Ran out st /\
    exists rs lost, out ++ lost = concat (with_newline <$> rs).
Proof.
  destruct (Flag.Parse_gives run_flags ["-control-plane"; "http://cp"]%go
    [("control-plane", "http://cp"); ("policy", ""); ("state-dir", ""); ("shadow", "false"); ("follow", "false"); ("in", "-"); ("out", "-")]%go)
    as (vs & rest & Ep & Hv); [vm_compute; reflexivity|].
  rewrite !Forall_cons in Hv. cbn [fst snd] in Hv. destruct Hv as (Hc & Hpol & Hdir & Hsh & Hfo & Hin & Hout & _).
  assert (Hs : exists s p, start vs = Some (s, p, toy_input)).
  { unfold start. cbv zeta. unfold Flag.bool_value. rewrite Hc, Hpol, Hdir, Hsh, Hfo, Hin, Hout.
    assert (Hl : is_Some (loadInitial (Some first_answer) NoDir cached None).2) by (vm_compute; by eexists).
    cbn. destruct (loadInitial _ _ _ _) as [file [d|]]; [|by destruct Hl]. cbn.
    by destruct (if seqb (Flag.value "node-id" vs) [] then _ else _) eqn:E; [eexists _, _|destruct (seqb _ _)]. }
  destruct Hs as (s & p & Hs).
  destruct (main ["sentinel"; "run"; "-control-plane"; "http://cp"]%go [NextLine None; Polled None]) as [out st|r n|] eqn:Em.
  - exists vs, rest, s, p, toy_input, out, st. split; [exact Ep|]. split; [exact Hs|]. split; [reflexivity|].
    destruct (sentinel_run_masks "sentinel" ["-control-plane"; "http://cp"]%go _ vs rest s p toy_input out st Ep Hs Em)
      as (ls & rs & lost & _ & _ & Ho & _). exact (ex_intro _ rs (ex_intro _ lost Ho)).
  - exfalso. revert Em. unfold main, run. change (seqb "run" "scan") with false. change (seqb "run" "run") with true. cbv iota.
    rewrite Ep, Hs. destruct (loop _ _ _ _). discriminate.
  - exfalso. revert Em. unfold main, run. change (seqb "run" "scan") with false. change (seqb "run" "run") with true. cbv iota.
    rewrite Ep, Hs. destruct (loop _ _ _ _). discriminate.
Defined.
