(* ===== verification/TimeParse.v ===== *)
(** * Reading times, as [time.Parse] does with the layouts of RFC 3339

    [time.Parse(time.RFC3339Nano, s)] and [time.Parse(time.RFC3339, s)] accept the
    same texts: four digits for the year, two for the rest, except that the hour
    may have one; a fraction after a full stop or a comma; and Z or an offset.
    A time that is read keeps its offset, which it is printed with again. *)

From S2P Require Import Prelude GoStd GoTime.
#[local] Open Scope Z_scope.

(** ** Reading *)

Definition take_char (c : byte) (s : gostring) : option gostring :=
  match s with b :: r => if beq b c then Some r else None | [] => None end.

(** [getnum]: two digits, or one when that is allowed. *)
Definition getnum (fixed : bool) (s : gostring) : option (Z * gostring) :=
  match s with
  | a :: r =>
      if is_digit a then
        match r with
        | b :: r' =>
            if is_digit b then Some (Z.of_nat (digit_val a) * 10 + Z.of_nat (digit_val b), r')
            else if fixed then None else Some (Z.of_nat (digit_val a), r)
        | [] => if fixed then None else Some (Z.of_nat (digit_val a), r)
        end
      else None
  | [] => None
  end.

Definition get_year (s : gostring) : option (Z * gostring) :=
  if (length s <? 4)%nat then None
  else n ← parse_digits 0 (take 4 s); Some (Z.of_N n, drop 4 s).

(** The leading digits. *)
Fixpoint digits_prefix (s : gostring) : gostring * gostring :=
  match s with
  | b :: r => if is_digit b then let dr := digits_prefix r in (b :: dr.1, dr.2) else ([], s)
  | [] => ([], [])
  end.

(** A fraction, in nanoseconds: digits beyond the ninth are dropped. *)
Definition get_frac (s : gostring) : Z * gostring :=
  match s with
  | p :: (d :: _) as r =>
      if (beq p "."%byte || beq p ","%byte) && is_digit d then
        let dr := digits_prefix r in
        let ds := take 9 dr.1 in
        (default 0 (Z.of_N <$> parse_digits 0 ds) * 10 ^ (9 - Z.of_nat (length ds)), dr.2)
      else (0, s)
  | _ => (0, s)
  end.

(** Z, or a signed offset: in seconds, east of Greenwich. *)
Definition get_zone (s : gostring) : option (Z * gostring) :=
  match s with
  | b :: r =>
      if beq b "Z"%byte then Some (0, r)
      else
        hr ← getnum true r; r ← take_char ":"%byte hr.2; mm ← getnum true r;
        if (24 <? hr.1) || (60 <? mm.1) then None
        else
          let off := (hr.1 * 60 + mm.1) * 60 in
          if beq b "+"%byte then Some (off, mm.2)
          else if beq b "-"%byte then Some (- off, mm.2) else None
  | [] => None
  end.

Definition isLeap (y : Z) : bool := (y mod 4 =? 0) && (negb (y mod 100 =? 0) || (y mod 400 =? 0)).

Definition daysIn (m y : Z) : Z :=
  if m =? 2 then if isLeap y then 29 else 28
  else if existsb (Z.eqb m) [4; 6; 9; 11] then 30 else 31.

(** [time.Parse(time.RFC3339Nano, s)]: the instant and the offset. *)
Definition ParseRFC3339 (s : gostring) : option (time * Z) :=
  yr ← get_year s; s ← take_char "-"%byte yr.2;
  mo ← getnum true s; s ← take_char "-"%byte mo.2;
  dy ← getnum true s; s ← take_char "T"%byte dy.2;
  hr ← getnum false s; s ← take_char ":"%byte hr.2;
  mi ← getnum true s; s ← take_char ":"%byte mi.2;
  sc ← getnum true s;
  let fr := get_frac sc.2 in
  zn ← get_zone fr.2;
  if negb (seqb zn.2 []) then None
  else if (mo.1 <? 1) || (12 <? mo.1) then None
  else if (24 <=? hr.1) || (60 <=? mi.1) || (60 <=? sc.1) then None
  else if (dy.1 <? 1) || (daysIn mo.1 yr.1 <? dy.1) then None
  else
    let days := days_from_civil (Civil yr.1 mo.1 dy.1) in
    Some ((days * 86400 + hr.1 * 3600 + mi.1 * 60 + sc.1 - zn.1) * Second + fr.1, zn.1).

(** ** Printing with an offset *)

Definition format_offset (off : Z) : gostring :=
  if off =? 0 then "Z"
  else
    let zone := Z.quot off 60 in
    (if zone <? 0 then "-" else "+") ++ appendInt (Z.abs zone / 60) 2 ++ ":" ++ appendInt (Z.abs zone mod 60) 2.

(** What the instant looks like where the offset is zero. *)
Definition format_local (t : time) : gostring :=
  let secs := t / Second in
  let c := civil_from_days (secs / 86400) in
  let s := secs mod 86400 in
  appendInt (year c) 4 ++ "-" ++ appendInt (month c) 2 ++ "-" ++ appendInt (day c) 2 ++ "T" ++
  appendInt (s / 3600) 2 ++ ":" ++ appendInt (s / 60 mod 60) 2 ++ ":" ++
  appendInt (s mod 60) 2 ++ format_frac (t mod Second).

(** [t.Format(time.RFC3339Nano)] of a time with an offset. *)
Definition FormatOffset (t : time) (off : Z) : gostring := format_local (t + off * Second) ++ format_offset off.

(** [time.Time.MarshalJSON]: an error unless the year has four digits and the
    hour of the offset is below 24. *)
Definition time_json (t : time) (off : Z) : option gostring :=
  let y := year (civil_from_days ((t + off * Second) / Second / 86400)) in
  if (y <? 0) || (9999 <? y) || (24 <=? Z.abs (Z.quot off 60) / 60) then None
  else Some (FormatOffset t off).

Example parse_leap : ParseRFC3339 "2024-02-29T12:34:56.1203Z" = Some (1709210096120300000, 0).
Proof. vm_compute. reflexivity. Qed.
Example parse_offset : ParseRFC3339 "2024-02-29T1:04:56,5+05:30" = Some (1709148896500000000, 19800).
Proof. vm_compute. reflexivity. Qed.
Example parse_no_leap : ParseRFC3339 "2023-02-29T12:34:56Z" = None.
Proof. vm_compute. reflexivity. Qed.
Example format_offset_example : FormatOffset 1709148896500000000 19800 = "2024-02-29T01:04:56.5+05:30"%go.
Proof. vm_compute. reflexivity. Qed.

(** ** Reading what was printed *)

Lemma FormatUint_length n w : (n < 10 ^ N.of_nat w)%N -> (0 < w)%nat -> (length (FormatUint n) <= w)%nat.
Proof.
  unfold FormatUint. generalize (S (N.size_nat n)) as fuel. intros fuel.
  revert n w. induction fuel as [|fuel IH]; intros n w Hn Hw; [simpl; lia|]. cbn [format_loop].
  destruct (N.ltb_spec n 10); [simpl; lia|]. rewrite format_loop_app, length_app. cbn [length].
  destruct w as [|[|w]]; [lia|simpl in Hn; lia|].
  assert (Hl : (n / 10 < 10 ^ N.of_nat (S w))%N).
  { apply N.Div0.div_lt_upper_bound. rewrite Nat2N.inj_succ, N.pow_succ_r' in Hn. lia. }
  specialize (IH (n / 10)%N (S w) Hl ltac:(lia)). lia.
Qed.

Lemma appendInt_spec x w :
  0 <= x < 10 ^ Z.of_nat w -> (0 < w)%nat ->
  length (appendInt x w) = w /\ Forall (fun b => is_digit b = true) (appendInt x w) /\
  parse_digits 0 (appendInt x w) = Some (Z.to_N x).
Proof.
  intros Hx Hw. rewrite appendInt_nonneg by lia. split; [|split; [apply digits_of_digits|]].
  - unfold digits_of. rewrite length_app, Repeat_zero_length.
    pose proof (FormatUint_length (Z.abs_N x) w) as Hl.
    assert (Hn : (Z.abs_N x < 10 ^ N.of_nat w)%N).
    { apply N2Z.inj_lt. rewrite N2Z.inj_pow, nat_N_Z. change (Z.of_N 10) with 10. lia. }
    specialize (Hl Hn Hw). lia.
  - unfold digits_of. rewrite parse_zeros, FormatUint_parse. f_equal. lia.
Qed.

Lemma getnum_appendInt fixed x r : 0 <= x < 100 -> getnum fixed (appendInt x 2 ++ r) = Some (x, r).
Proof.
  intros Hx. destruct (appendInt_spec x 2) as (Hl & Hd & Hp); [simpl; lia|lia|].
  destruct (appendInt x 2) as [|a [|b [|? ?]]]; try done.
  apply Forall_cons in Hd as [Ha Hd]. apply Forall_cons in Hd as [Hb _].
  cbn [parse_digits] in Hp. rewrite Ha, Hb in Hp. injection Hp as Hp.
  cbn [app getnum]. rewrite Ha, Hb. do 2 f_equal. lia.
Qed.

Lemma get_year_appendInt y r : 0 <= y < 10000 -> get_year (appendInt y 4 ++ r) = Some (y, r).
Proof.
  intros Hy. destruct (appendInt_spec y 4) as (Hl & Hd & Hp); [simpl; lia|lia|].
  unfold get_year. rewrite length_app, Hl. cbn [Nat.ltb Nat.leb Nat.add].
  rewrite take_app_length', drop_app_length' by done. rewrite Hp. cbn [mbind option_bind]. do 2 f_equal. lia.
Qed.

Lemma take_char_here c r : take_char c (c :: r) = Some r.
Proof. cbn. by rewrite beq_refl. Qed.

(** *** Fractions *)

Lemma digits_prefix_app ds b r :
  Forall (fun b => is_digit b = true) ds -> is_digit b = false -> digits_prefix (ds ++ b :: r) = (ds, b :: r).
Proof.
  intros Hd Hb. induction Hd as [|d ds Hx Hd IH]; cbn [app digits_prefix]; [by rewrite Hb|]. by rewrite Hx, IH.
Qed.

Lemma parse_fixed_digits w n : (n < 10 ^ N.of_nat w)%N -> parse_digits 0 (fixed_digits w n) = Some n.
Proof.
  revert n. induction w as [|w IH]; intros n Hn; [simpl in *; f_equal; lia|]. cbn [fixed_digits].
  rewrite Nat2N.inj_succ, N.pow_succ_r' in Hn.
  erewrite parse_digits_app; [|apply IH; apply N.Div0.div_lt_upper_bound; lia].
  pose proof (N.mod_lt n 10 ltac:(lia)) as Hm. pose proof (N.div_mod n 10 ltac:(lia)).
  cbn [parse_digits]. rewrite is_digit_digit_byte, digit_val_byte by lia. f_equal. lia.
Qed.

Lemma parse_digits_zeros n k : parse_digits n (Repeat "0" k) = Some (n * 10 ^ N.of_nat k)%N.
Proof.
  revert n. induction k as [|k IH]; intros n; [cbn; f_equal; lia|].
  change (parse_digits n (Repeat "0" (S k))) with (parse_digits (n * 10 + 0) (Repeat "0" k)). rewrite IH.
  rewrite Nat2N.inj_succ, N.pow_succ_r'. f_equal. lia.
Qed.

Lemma parse_digits_some s :
  Forall (fun b => is_digit b = true) s -> forall acc, exists n, parse_digits acc s = Some n.
Proof.
  induction 1 as [|b s Hb Hs IH]; intros acc; [by eexists|]. cbn [parse_digits]. rewrite Hb. apply IH.
Qed.

Lemma get_frac_format ns r b :
  0 <= ns < Second -> is_digit b = false -> b <> "."%byte -> b <> ","%byte ->
  get_frac (format_frac ns ++ b :: r) = (ns, b :: r).
Proof.
  unfold Second, format_frac. intros Hns Hb Hdot Hcomma.
  pose proof (fixed_digits_digits 9 (Z.to_N ns)) as Hd.
  pose proof (parse_fixed_digits 9 (Z.to_N ns) ltac:(simpl; lia)) as Hp.
  destruct (TrimRight_zeros (fixed_digits 9 (Z.to_N ns))) as [k Hk].
  pose proof (fixed_digits_length 9 (Z.to_N ns)) as Hl.
  pose proof (TrimRight_digits _ Hd) as Ht.
  set (ds := TrimRight (fixed_digits 9 (Z.to_N ns)) "0") in *. rewrite Hk in Hp, Hl.
  destruct (parse_digits_some ds Ht 0%N) as [m Hm].
  rewrite (parse_digits_app _ _ _ _ Hm), parse_digits_zeros in Hp. injection Hp as Hp.
  rewrite length_app, Repeat_zero_length in Hl.
  destruct ds as [|d ds'] eqn:E.
  - injection Hm as <-. assert (ns = 0) as -> by lia. cbn [app]. unfold get_frac.
    destruct r as [|c r]; [done|].
    assert (beq b "."%byte = false /\ beq b ","%byte = false) as [-> ->]; [|done].
    split; apply not_true_is_false; by rewrite beq_eq.
  - assert (Hd1 : is_digit d = true) by (by apply Forall_cons in Ht as [? _]).
    change (("."%byte :: d :: ds') ++ b :: r) with ("."%byte :: (d :: ds') ++ b :: r).
    assert (Eg : get_frac ("."%byte :: (d :: ds') ++ b :: r) =
      let dr := digits_prefix ((d :: ds') ++ b :: r) in
      let t := take 9 dr.1 in
      (default 0 (Z.of_N <$> parse_digits 0 t) * 10 ^ (9 - Z.of_nat (length t)), dr.2)).
    { cbn [app get_frac]. by rewrite Hd1. }
    rewrite Eg, digits_prefix_app by done. cbn [fst snd]. rewrite take_ge by (rewrite <- E in *; lia).
    rewrite Hm. cbn [fmap option_fmap option_map default]. f_equal.
    replace (9 - Z.of_nat (length (d :: ds'))) with (Z.of_nat k) by lia.
    rewrite <- (Z2N.id ns), <- Hp by lia. rewrite N2Z.inj_mul, N2Z.inj_pow, nat_N_Z. done.
Qed.

(** *** The calendar *)

Lemma era_leap doe :
  0 <= doe < era_days -> year_day doe (era_year doe) = 365 -> isLeap (era_year doe + 1) = true.
Proof.
  unfold era_days, year_day, era_year, isLeap. intros H.
  pose proof (Z.div_mod doe 1460 ltac:(lia)). pose proof (Z.mod_pos_bound doe 1460 ltac:(lia)).
  pose proof (Z.div_mod doe 36524 ltac:(lia)). pose proof (Z.mod_pos_bound doe 36524 ltac:(lia)).
  pose proof (Z.div_mod doe 146096 ltac:(lia)).
  pose proof (Z.mod_pos_bound doe 146096 ltac:(lia)).
  generalize dependent (doe mod 1460). generalize dependent (doe mod 36524).
  generalize dependent (doe mod 146096). generalize dependent (doe / 146096).
  generalize dependent (doe / 1460). generalize dependent (doe / 36524).
  intros q2 q1 q3 r3 H3 H3' r2 H2 H2' r1 H1 H1'.
  set (n := doe - q1 + q2 - q3).
  pose proof (Z.div_mod n 365 ltac:(lia)) as Hn. pose proof (Z.mod_pos_bound n 365 ltac:(lia)).
  generalize dependent (n mod 365). generalize dependent (n / 365). unfold n. clear n.
  intros y r Hn Hr Hd.
  pose proof (Z.div_mod y 4 ltac:(lia)) as Ha. pose proof (Z.mod_pos_bound y 4 ltac:(lia)) as Ha'.
  pose proof (Z.div_mod y 100 ltac:(lia)) as Hb. pose proof (Z.mod_pos_bound y 100 ltac:(lia)) as Hb'.
  set (a := y / 4) in *. set (b := y / 100) in *. set (a' := y mod 4) in *. set (b' := y mod 100) in *.
  assert (H0 : a' = 3 /\ (b' <> 99 \/ y = 399)).
  { clearbody a b a' b'.
    assert (q3 = 0 \/ q3 = 1) as Hq3 by lia.
    assert (q2 = 0 \/ q2 = 1 \/ q2 = 2 \/ q2 = 3 \/ q2 = 4) as Hq2 by lia.
    assert (0 <= y < 400) by (destruct Hq3 as [-> | ->]; destruct Hq2 as [-> | [-> | [-> | [-> | ->]]]]; lia).
    assert (b = 0 \/ b = 1 \/ b = 2 \/ b = 3) as Hq by lia.
    destruct Hq3 as [-> | ->]; destruct Hq2 as [-> | [-> | [-> | [-> | ->]]]];
      destruct Hq as [-> | [-> | [-> | ->]]]; lia. }
  unfold isLeap. rewrite andb_true_iff, orb_true_iff, negb_true_iff, !Z.eqb_eq, Z.eqb_neq.
  Z.div_mod_to_equations. lia.
Qed.

Lemma month_length mp doy :
  0 <= mp <= 11 -> (5 * doy + 2) / 153 = mp -> 0 <= doy <= 365 ->
  1 <= doy - (153 * mp + 2) / 5 + 1 <=
    (if mp =? 11 then if doy =? 365 then 29 else 28
     else if existsb (Z.eqb mp) [1; 3; 6; 8] then 30 else 31).
Proof.
  intros Hmp He Hd.
  assert (mp = 0 \/ mp = 1 \/ mp = 2 \/ mp = 3 \/ mp = 4 \/ mp = 5 \/ mp = 6 \/ mp = 7 \/ mp = 8 \/ mp = 9 \/
    mp = 10 \/ mp = 11) as Hc by lia.
  repeat destruct Hc as [Hc|Hc]; subst mp; rewrite Hc; cbn -[Z.div]; Z.div_mod_to_equations; try lia.
  destruct (Z.eqb_spec doy 365); lia.
Qed.

Lemma isLeap_era y era : isLeap (y + era * 400) = isLeap y.
Proof.
  unfold isLeap. replace (y + era * 400) with (y + era * 4 * 100) by lia. rewrite Z.mod_add by done.
  replace (y + era * 4 * 100) with (y + era * 100 * 4) by lia. rewrite Z.mod_add by done.
  replace (y + era * 100 * 4) with (y + era * 400) by lia. by rewrite Z.mod_add by done.
Qed.

Lemma civil_valid d :
  let c := civil_from_days d in 1 <= month c <= 12 /\ 1 <= day c <= daysIn (month c) (year c).
Proof.
  unfold civil_from_days. cbv zeta. set (z := d + 719468).
  pose proof (Z.mod_pos_bound z era_days ltac:(done)) as Hb. destruct (era_bounds _ Hb) as [[H1 H2] [H3 H4]].
  pose proof (era_leap _ Hb) as Hleap. set (doe := z mod era_days) in *. set (yoe := era_year doe) in *.
  set (doy := year_day doe yoe) in *. pose proof (month_bounds doy H3 H4) as H5.
  pose proof (month_length _ doy H5 eq_refl ltac:(lia)) as Hlen.
  set (mp := (5 * doy + 2) / 153) in *. set (era := z / era_days). clearbody mp doy yoe doe era.
  cbn [month day year]. unfold daysIn. destruct (Z.ltb_spec mp 10) as [Hm|Hm].
  - split; [lia|]. destruct (Z.eqb_spec (mp + 3) 2); [lia|]. destruct (Z.eqb_spec mp 11); [lia|].
    assert (E : existsb (Z.eqb (mp + 3)) [4; 6; 9; 11] = existsb (Z.eqb mp) [1; 3; 6; 8]).
    { cbn [existsb]. repeat (f_equal; try lia). }
    by rewrite E.
  - split; [lia|]. destruct (Z.leb_spec (mp - 9) 2); [|lia].
    destruct (Z.eqb_spec mp 11) as [->|Hm'].
    + change (11 - 9 =? 2) with true. cbv iota. replace (yoe + era * 400 + 1) with (yoe + 1 + era * 400) by lia.
      rewrite isLeap_era. destruct (Z.eqb_spec doy 365); [by rewrite Hleap|]. destruct (isLeap _); lia.
    + assert (mp = 10) as -> by lia. exact Hlen.
Qed.

(** Reading what [FormatRFC3339Nano] prints gives the instant back, as long as the
    year has four digits. *)
Lemma ParseRFC3339_Format t :
  0 <= year (civil_from_days (t / Second / 86400)) <= 9999 ->
  ParseRFC3339 (FormatRFC3339Nano t) = Some (t, 0).
Proof.
  intros Hy. unfold FormatRFC3339Nano. cbv zeta.
  set (secs := t / Second) in *. pose proof (civil_valid (secs / 86400)) as Hc. cbv zeta in Hc.
  pose proof (days_civil (secs / 86400)) as Hdc.
  set (c := civil_from_days (secs / 86400)) in *. destruct Hc as [Hm Hd].
  assert (Hdi : day c < 100).
  { unfold daysIn in Hd. destruct (month c =? 2); [destruct (isLeap _); lia|].
    destruct (existsb (Z.eqb (month c)) _); lia. }
  pose proof (Z.mod_pos_bound secs 86400 ltac:(lia)) as Hs. set (s := secs mod 86400) in *.
  assert (Hh : 0 <= s / 3600 < 24) by (Z.div_mod_to_equations; lia).
  pose proof (Z.mod_pos_bound (s / 60) 60 ltac:(lia)) as Hmi. pose proof (Z.mod_pos_bound s 60 ltac:(lia)) as Hsec.
  pose proof (Z.mod_pos_bound t Second ltac:(done)) as Hns.
  assert (Hclock : s / 3600 * 3600 + s / 60 mod 60 * 60 + s mod 60 = s) by (clear; Z.div_mod_to_equations; lia).
  unfold ParseRFC3339.
  rewrite get_year_appendInt by lia. cbn [mbind option_bind fst snd app]. rewrite take_char_here. cbn [mbind option_bind].
  rewrite getnum_appendInt by lia. cbn [mbind option_bind fst snd app]. rewrite take_char_here. cbn [mbind option_bind].
  rewrite getnum_appendInt by lia. cbn [mbind option_bind fst snd app]. rewrite take_char_here. cbn [mbind option_bind].
  rewrite getnum_appendInt by lia. cbn [mbind option_bind fst snd app]. rewrite take_char_here. cbn [mbind option_bind].
  rewrite getnum_appendInt by lia. cbn [mbind option_bind fst snd app]. rewrite take_char_here. cbn [mbind option_bind].
  rewrite getnum_appendInt by lia. cbn [mbind option_bind fst snd app].
  rewrite get_frac_format by done. cbn [fst snd get_zone]. rewrite beq_refl. cbn [mbind option_bind fst snd].
  change (negb (seqb [] [])) with false. cbv iota.
  destruct (Z.ltb_spec (month c) 1); [lia|]. destruct (Z.ltb_spec 12 (month c)); [lia|]. cbn [orb].
  destruct (Z.leb_spec 24 (s / 3600)); [lia|]. destruct (Z.leb_spec 60 (s / 60 mod 60)); [lia|].
  destruct (Z.leb_spec 60 (s mod 60)); [lia|]. cbn [orb].
  destruct (Z.ltb_spec (day c) 1); [lia|]. destruct (Z.ltb_spec (daysIn (month c) (year c)) (day c)); [lia|]. cbn [orb].
  assert (Ec : Civil (year c) (month c) (day c) = c) by (by destruct c). rewrite Ec, Hdc.
  do 2 f_equal. pose proof (Z.div_mod secs 86400 ltac:(lia)) as Hday. pose proof (Z.div_mod t Second ltac:(done)) as Ht.
  fold s in Hday. unfold secs in *. lia.
Qed.
