(* ===== verification/Verify.v ===== *)
(** * The offline verifier (cmd/verify)

    [main], from the command line to the exit status: a receipt, an output, the
    audit chain of a tenant or a Merkle proof.  What the tool prints is left out. *)

From S2P Require Import Prelude GoStd GoTime TimeParse Ledger Merkle Seal Flag.

Module Verify.

(** What the tool finds outside itself: files, the variables of its environment and
    the database that a connection string leads to, which answers. *)
Class Host := {
  ReadFile : gostring -> option gostring;
  Getenv : gostring -> gostring;
  Connect : gostring -> option Ledger.db;
}.

Section verify.
Context `{Host, !Seal.Ed25519, !Seal.UUID}.

(** [fs.Parse(args)] of a command whose flags are texts; 2 is the status for flags
    that cannot be parsed. *)
Definition with_flags (names : list gostring) (args : list gostring) (k : (gostring -> gostring) -> Z) : Z :=
  match Flag.Parse (Flag.texts names) args with
  | None => 2%Z
  | Some (vs, _) => k (fun name => Flag.value name vs)
  end.

Definition runLedger (args : list gostring) : Z :=
  with_flags ["tenant"%go] args (fun flag =>
    match Seal.uuid_parse (flag "tenant"%go) with
    | None => 2%Z
    | Some id =>
        let dsn := Getenv "POSTGRES_DSN" in
        if seqb dsn [] then 2%Z
        else
          match Connect dsn with
          | None => 1%Z
          | Some d => match Ledger.Verify id d with Ok _ => 0%Z | Err _ => 1%Z end
          end
    end).

Definition runReceipt (args : list gostring) : Z :=
  with_flags ["job-id"; "purged-at"; "sig"; "pub"]%go args (fun flag =>
    if existsb (fun name => seqb (flag name) []) ["job-id"; "purged-at"; "sig"; "pub"]%go then 2%Z
    else
      match ParseRFC3339 (flag "purged-at"%go) with
      | None => 1%Z
      | Some (at_, _) => Seal.verifySig (flag "pub"%go) (flag "sig"%go) (Seal.PurgeMessage (flag "job-id"%go) at_)
      end).

Definition runOutput (args : list gostring) : Z :=
  with_flags ["body"; "job-id"; "tenant-id"; "sig"; "pub"]%go args (fun flag =>
    if existsb (fun name => seqb (flag name) []) ["body"; "job-id"; "tenant-id"; "sig"; "pub"]%go then 2%Z
    else
      match ReadFile (flag "body"%go) with
      | None => 1%Z
      | Some body =>
          Seal.verifySig (flag "pub"%go) (flag "sig"%go)
            (Seal.OutputMessage (flag "job-id"%go) (flag "tenant-id"%go) body)
      end).

Definition runProof (args : list gostring) : Z :=
  with_flags ["leaf"; "root"; "siblings"; "left"]%go args (fun flag =>
    Merkle.runProof (flag "leaf"%go) (flag "root"%go) (flag "siblings"%go) (flag "left"%go)).

(** [os.Args], the name of the tool first. *)
Definition main (args : list gostring) : Z :=
  match args with
  | _ :: command :: rest =>
      if seqb command "receipt" then runReceipt rest
      else if seqb command "output" then runOutput rest
      else if seqb command "ledger" then runLedger rest
      else if seqb command "proof" then runProof rest
      else 2%Z
  | _ => 2%Z
  end.
End verify.

End Verify.
