(* ===== verification/Keys.v ===== *)
(** * API keys (internal/keys)

    A key is "ch_", a prefix of eight characters, "_" and a secret; the table
    keeps the prefix and the hash of the whole.  Creating and revoking a key is
    also an entry of the audit ledger. *)

From S2P Require Import Prelude GoStd GoTime Base64 Sha256 Json Ledger.

Module Keys.

(** A [uuid.UUID], as its text. *)
Abbreviation uuid := gostring (only parsing).

Record Principal := MkPrincipal { TenantID : uuid; KeyID : uuid; Role : gostring }.

(** A row of [api_keys]. *)
Record key_row := MkKey {
  key_id : uuid;
  key_tenant : uuid;
  name : gostring;
  prefix : gostring;
  key_hash : gostring;
  role : gostring;
  created_at : time;
  revoked_at : option time;
}.

(** The tables that this package writes. *)
Record store := Store { api_keys : list key_row; audit : Ledger.db }.

(** ** Prefixes *)

(** [strings.SplitN(full, "_", 3)] has three parts when there are two
    underscores. *)
Definition Prefix (full : gostring) : option gostring :=
  ar ← Cut full "_"%byte; bc ← Cut ar.2 "_"%byte;
  if seqb ar.1 "ch" && (length bc.1 =? 8) && negb (seqb bc.2 []) then Some bc.1 else None.

(** *** Base 32 *)

Definition bits_of (b : byte) : list bool :=
  (fun i => Nat.testbit (byte_nat b) i) <$> [7; 6; 5; 4; 3; 2; 1; 0].

Definition b32_digit (n : nat) : byte :=
  if n <? 26 then byte_of_nat (65 + n) else byte_of_nat (24 + n).

Definition bits_value (bits : list bool) : nat := foldl (fun n b => 2 * n + (if b : bool then 1 else 0)) 0 bits.

(** Five bits at a time; the last ones are filled up with zeros. *)
Fixpoint b32_digits (bits : list bool) : gostring :=
  match bits with
  | a :: b :: c :: d :: e :: rest => b32_digit (bits_value [a; b; c; d; e]) :: b32_digits rest
  | [] => []
  | _ => [b32_digit (bits_value (take 5 (bits ++ replicate 4 false)))]
  end.

(** [base32.StdEncoding.WithPadding(base32.NoPadding).EncodeToString]. *)
Definition base32 (raw : gostring) : gostring := b32_digits (raw ≫= bits_of).

Definition newPrefix (raw : gostring) : gostring := base32 raw.

Example base32_example : base32 "fooba" = "MZXW6YTB"%go.
Proof. vm_compute. reflexivity. Qed.
Example base32_short : base32 "foob" = "MZXW6YQ"%go.
Proof. vm_compute. reflexivity. Qed.

(** ** Authentication *)

(** The row with the prefix; prefixes are unique. *)
Definition select_prefix (p : gostring) (ks : list key_row) : option key_row :=
  find (fun k => seqb (prefix k) p) ks.

Definition Authenticate (header : gostring) (ks : list key_row) : option Principal :=
  p ← Prefix header;
  k ← select_prefix p ks;
  match revoked_at k with
  | Some _ => None
  | None =>
      if seqb (Sha256.Sum256 header) (key_hash k) then Some (MkPrincipal (key_tenant k) (key_id k) (role k))
      else None
  end.

(** ** Creating and revoking *)

(** Postgres stores any text without a zero byte; the texts here are valid UTF-8. *)
Definition text_ok (s : gostring) : bool := negb (existsb (beq Byte.x00) s).

Definition insert_key (k : key_row) (s : store) : result Ledger.sql_error store :=
  if negb (text_ok (name k)) then Err Ledger.BadText
  else if existsb (fun x => seqb (key_id x) (key_id k) || seqb (prefix x) (prefix k)
                            || seqb (key_hash x) (key_hash k)) (api_keys s)
  then Err Ledger.DuplicateKey
  else if bool_decide (key_tenant k ∈ Ledger.tenants (audit s))
  then Ok (Store (api_keys s ++ [k]) (audit s))
  else Err Ledger.ForeignKey.

Section write.
Context (jsonb : gostring -> option gostring).

Definition append (tenant : uuid) (kind : gostring) (payload : json) (at_ : time) (s : store)
    : result Ledger.sql_error store :=
  l ← Ledger.Append jsonb tenant kind (Marshal payload) at_ (audit s); Ok (Store (api_keys s) l).

(** [raw] and [secret] are the bytes drawn, [id] what [gen_random_uuid()] gives,
    [db_now] the database's [now()] and [at_] the program's.  The result is the
    identifier, the prefix and the key. *)
Definition Create (tenant : uuid) (name role raw secret : gostring) (id : uuid) (db_now at_ : time) (s : store)
    : result Ledger.sql_error (uuid * gostring * gostring * store) :=
  let prefix := newPrefix raw in
  let full := "ch_" ++ prefix ++ "_" ++ RawURLEncodeToString secret in
  s1 ← insert_key (MkKey id tenant name prefix (Sha256.Sum256 full) role (Ledger.normalizeAt db_now) None) s;
  s2 ← append tenant "key_created"
         (JObj [("id", JStr id); ("name", JStr name); ("prefix", JStr prefix); ("role", JStr role)]%go) at_ s1;
  Ok (id, prefix, full, s2).

(** The rows that the UPDATE changes. *)
Definition revocable (tenant id : uuid) (k : key_row) : bool :=
  seqb (key_id k) id && seqb (key_tenant k) tenant && match revoked_at k with None => true | Some _ => false end.

Definition revoke_row (at_ : time) (k : key_row) : key_row :=
  MkKey (key_id k) (key_tenant k) (name k) (prefix k) (key_hash k) (role k) (created_at k)
    (Some (Ledger.normalizeAt at_)).

Definition Revoke (tenant id : uuid) (db_now at_ : time) (s : store) : result Ledger.sql_error store :=
  if existsb (revocable tenant id) (api_keys s) then
    append tenant "key_revoked" (JObj [("id", JStr id)]%go) at_
      (Store ((fun k => if revocable tenant id k then revoke_row db_now k else k) <$> api_keys s) (audit s))
  else Err Ledger.NoRows.
End write.

End Keys.
