(* ===== verification/Api.v ===== *)
(** * The control plane: requests, sessions and keys (internal/api)

    The tables and the outside world of the server, how a handler runs on them,
    who is let in (server.go, session.go) and the handlers for sessions, keys and
    the policy (keys_http.go, policy.go).

    A statement or a transaction is one step, which the network may refuse or
    whose acknowledgement it may lose.  A handler returns a response; returning
    early is the error of the monad [io]. *)

From S2P Require Import Prelude GoStd GoTime TimeParse Base64 Sha256 Json Ledger Policy Seal Journal Proc Keys.

Module Api.

Abbreviation uuid := gostring (only parsing).

(** ** Tables *)

(** A row of [sessions]. *)
Record session := MkSession {
  s_id : uuid;
  s_tenant : uuid;
  s_key : uuid;
  token_hash : gostring;
  csrf_token : gostring;
  last_seen_at : time;
  expires_at : time;
  s_revoked_at : option time;
}.

(** A row of [job_accepts], by its key. *)
Record accept := MkAccept { a_tenant : uuid; accepted_at : time; source : gostring }.

(** A row of [delivery_links], by its key. *)
Record link := MkLink {
  l_job : gostring;
  l_tenant : uuid;
  l_expires_at : time;
  max_views : Z;
  view_count : Z;
}.

(** A row of [sentinel_nodes], by its key. *)
Record node_row := MkNodeRow {
  last_seen : time;
  policy_version : Z;
  n_counts : gostring;
  n_held : Z;
  n_dropped : Z;
  n_fail_open : Z;
}.

Record db := Db {
  api_keys : list Keys.key_row;
  sessions : list session;
  job_accepts : gmap gostring accept;
  journal : Journal.pgJournal;
  purge_receipts : gmap uuid Seal.Receipt;
  job_keys : Seal.pgKeyStore;
  delivery_links : gmap gostring link;
  accesses : list gostring;
  sentinel_nodes : gmap (uuid * gostring) node_row;
  policies : gmap uuid (Z * gostring);
  audit : Ledger.db;
}.

Definition set_sessions x d := Db (api_keys d) x (job_accepts d) (journal d) (purge_receipts d)
  (job_keys d) (delivery_links d) (accesses d) (sentinel_nodes d) (policies d) (audit d).
Definition set_accepts x d := Db (api_keys d) (sessions d) x (journal d) (purge_receipts d)
  (job_keys d) (delivery_links d) (accesses d) (sentinel_nodes d) (policies d) (audit d).
Definition set_job_keys x d := Db (api_keys d) (sessions d) (job_accepts d) (journal d) (purge_receipts d)
  x (delivery_links d) (accesses d) (sentinel_nodes d) (policies d) (audit d).
Definition set_links x y d := Db (api_keys d) (sessions d) (job_accepts d) (journal d) (purge_receipts d)
  (job_keys d) x y (sentinel_nodes d) (policies d) (audit d).
Definition set_nodes x d := Db (api_keys d) (sessions d) (job_accepts d) (journal d) (purge_receipts d)
  (job_keys d) (delivery_links d) (accesses d) x (policies d) (audit d).
Definition set_audit x d := Db (api_keys d) (sessions d) (job_accepts d) (journal d) (purge_receipts d)
  (job_keys d) (delivery_links d) (accesses d) (sentinel_nodes d) (policies d) x.
Definition set_keys (s : Keys.store) d := Db (Keys.api_keys s) (sessions d) (job_accepts d) (journal d)
  (purge_receipts d) (job_keys d) (delivery_links d) (accesses d) (sentinel_nodes d) (policies d) (Keys.audit s).
Definition set_policies (s : Policy.store) d := Db (api_keys d) (sessions d) (job_accepts d) (journal d)
  (purge_receipts d) (job_keys d) (delivery_links d) (accesses d) (sentinel_nodes d) (Policy.policies s) (Policy.audit s).

Definition key_store d : Keys.store := Keys.Store (api_keys d) (audit d).
Definition policy_store d : Policy.store := Policy.Store (policies d) (audit d).

(** ** Requests and responses *)

(** What the server reads of a request; [Body] is [None] when reading it fails. *)
Record request := MkRequest {
  Method : gostring;
  XApiKey : gostring;
  Cookies : list (gostring * gostring);
  XCsrfToken : gostring;
  Origin : gostring;
  IfNoneMatch : gostring;
  PathValue : gostring;
  Query : gostring -> gostring;
  Body : option gostring;
}.

(** A cookie for the path /, with SameSite=Lax. *)
Record cookie := MkCookie {
  c_name : gostring;
  c_value : gostring;
  HttpOnly : bool;
  Secure : bool;
  MaxAge : Z;
  Expires : time;
}.

Record response := MkResponse {
  status : Z;
  content_type : gostring;
  etag : option gostring;
  set_cookie : option cookie;
  body : gostring;
}.

(** [w.WriteHeader(status)] *)
Definition plain_status (n : Z) : response := MkResponse n [] None None [].

(** [writeJSON]: the encoder ends a value with a newline. *)
Definition writeJSON (n : Z) (v : json) : response :=
  MkResponse n "application/json" None None (Marshal v ++ [Byte.x0a]).

Definition fieldError (f : gostring) : response := writeJSON 400 (JObj [("field", JStr f)]%go).
Definition unavailable (what : gostring) : response := writeJSON 503 (JObj [("error", JStr what)]%go).
Definition with_etag (e : gostring) (r : response) : response :=
  MkResponse (status r) (content_type r) (Some e) (set_cookie r) (body r).
Definition with_cookie (c : cookie) (r : response) : response :=
  MkResponse (status r) (content_type r) (etag r) (Some c) (body r).

(** [readJSON]: one object of strings; null in it is the empty string, and no
    value at all is the empty object. *)
Definition string_member (m : gmap gostring gostring) (kv : gostring * json) : option (gmap gostring gostring) :=
  s ← match kv.2 with JStr s => Some s | JNull => Some [] | _ => None end; Some (<[kv.1 := s]> m).

Definition readJSON (r : request) : option (gmap gostring gostring) :=
  raw ← Body r;
  if seqb (skip_ws raw) [] then Some ∅
  else
    v ← ParsePrefix raw;
    match v with
    | JNull => Some ∅
    | JObj m => foldl (fun acc kv => acc ← acc; string_member acc kv) (Some ∅) m
    | _ => None
    end.

Definition member (k : gostring) (m : gmap gostring gostring) : gostring := default [] (m !! k).

(** ** The world of a handler *)

(** The clock, the random bytes, the new identifiers, what [url.Parse] gives as the
    host, and the offset of the server's time zone, in which times come out of the
    database. *)
Class Environment := {
  clock : nat -> time;
  random : nat -> nat -> gostring;
  new_uuid : nat -> uuid;
  url_host : gostring -> option gostring;
  local_offset : time -> Z;
}.

Class EnvironmentLaws `{Environment} := { random_length i n : length (random i n) = n }.

(** What the deployment chooses. *)
Record config := MkConfig {
  wsOrigins : list gostring;
  insecureCookies : bool;
  types : list gostring;
}.

Record world (Q : Type) := World {
  tables : db;
  counters : gmap gostring (Z * option time);
  queue : Q;
  faults : list (Proc.outcome nat);
  ticks : nat;
  draws : nat;
  idents : nat;
}.
Arguments World {Q}.
Arguments tables {Q}.
Arguments counters {Q}.
Arguments queue {Q}.
Arguments faults {Q}.
Arguments ticks {Q}.
Arguments draws {Q}.
Arguments idents {Q}.

(** Why a statement failed: the database says no, it was not reached (at which
    statement of the transaction), or it was and the answer was lost. *)
Inductive db_error := Says (e : Ledger.sql_error) | Unreachable (n : nat) | Unacknowledged.

Section server.
Context `{Environment, !Seal.UUID} (jsonb : gostring -> option gostring) (cfg : config).
Context {Q : Type}.
Abbreviation W := (world Q).
Implicit Types w : W.

Definition set_tables d w : W := World d (counters w) (queue w) (faults w) (ticks w) (draws w) (idents w).
Definition set_counters c w : W := World (tables w) c (queue w) (faults w) (ticks w) (draws w) (idents w).
Definition set_queue q w : W := World (tables w) (counters w) q (faults w) (ticks w) (draws w) (idents w).

(** The next thing the network does; when the list ends it serves. *)
Definition next_fault w : Proc.outcome nat * W :=
  match faults w with
  | [] => (Proc.Served, w)
  | o :: os => (o, World (tables w) (counters w) (queue w) os (ticks w) (draws w) (idents w))
  end.

(** [s.now()], [rand.Read] and a new identifier. *)
Definition now {E} : io W E time := fun w =>
  (World (tables w) (counters w) (queue w) (faults w) (S (ticks w)) (draws w) (idents w), Ok (clock (ticks w))).
Definition rand_read {E} (n : nat) : io W E gostring := fun w =>
  (World (tables w) (counters w) (queue w) (faults w) (ticks w) (S (draws w)) (idents w), Ok (random (draws w) n)).
Definition fresh_uuid {E} : io W E uuid := fun w =>
  (World (tables w) (counters w) (queue w) (faults w) (ticks w) (draws w) (S (idents w)), Ok (new_uuid (idents w))).

(** One statement. *)
Definition sql {A} (f : db -> result Ledger.sql_error (db * A)) : io W db_error A := fun w =>
  let '(o, w) := next_fault w in
  match o, f (tables w) with
  | Proc.Refused n, _ => (w, Err (Unreachable n))
  | Proc.Served, Ok (d, a) => (set_tables d w, Ok a)
  | Proc.ReplyLost _, Ok (d, _) => (set_tables d w, Err Unacknowledged)
  | _, Err e => (w, Err (Says e))
  end.

(** A query for many rows: when the connection breaks while they are read, the loop
    over them ends early, and nobody asks why. *)
Definition query {A} (f : db -> list A) : io W db_error (list A) := fun w =>
  let '(o, w) := next_fault w in
  match o with
  | Proc.Served => (w, Ok (f (tables w)))
  | Proc.Refused n => (w, Err (Unreachable n))
  | Proc.ReplyLost n => (w, Ok (take n (f (tables w))))
  end.

(** A query changes nothing. *)
Definition select {A} (f : db -> option A) (d : db) : result Ledger.sql_error (db * A) :=
  match f d with Some a => Ok (d, a) | None => Err Ledger.NoRows end.

(** A transaction: [body] may return early, which rolls it back; [fail n] is the
    response when its statement [n] is refused, [None] standing for the commit. *)
Definition transaction {A} (fail : option nat -> response) (body : io db response A) : io W response A := fun w =>
  let '(o, w) := next_fault w in
  let '(d, r) := body (tables w) in
  match o, r with
  | Proc.Refused n, _ => (w, Err (fail (Some n)))
  | _, Err resp => (w, Err resp)
  | Proc.Served, Ok a => (set_tables d w, Ok a)
  | Proc.ReplyLost _, Ok _ => (set_tables d w, Err (fail None))
  end.

(** A statement of a transaction. *)
Definition exec {A} (fail : Ledger.sql_error -> response) (f : db -> result Ledger.sql_error (db * A))
    : io db response A := fun d =>
  match f d with Ok (d', a) => (d', Ok a) | Err e => (d, Err (fail e)) end.

Definition append (tenant : uuid) (kind : gostring) (payload : json) (at_ : time) (d : db)
    : result Ledger.sql_error (db * unit) :=
  l ← Ledger.Append jsonb tenant kind (Marshal payload) at_ (audit d); Ok (set_audit l d, tt).

(** *** Handlers *)

Definition handler := request -> Keys.Principal -> io W response response.

Definition down {A} (what : gostring) : A -> response := fun _ => unavailable what.

(** The rest of a handler, after [if err != nil { writeJSON(...); return }]. *)
Definition or_down {A} (what : gostring) (m : io W db_error A) : io W response A :=
  bind_err (down what) m ret.

Definition guard (r : response) (b : bool) : io W response unit := if b then ret tt else throw r.
Definition some_or_resp {A} (r : response) (o : option A) : io W response A :=
  match o with Some a => ret a | None => throw r end.


(** ** Sessions (session.go) *)

Definition sessionIdle : Z := 30 * 60 * Second.
Definition sessionAbsolute : Z := 8 * 3600 * Second.

Definition sessionCookieName : gostring := if insecureCookies cfg then "ch_session" else "__Host-ch_session".

(** [r.Cookie(name)]: the first of that name. *)
Definition Cookie (name : gostring) (r : request) : option gostring :=
  snd <$> find (fun c => seqb c.1 name) (Cookies r).

Definition sessionCookie (token : gostring) (expires : time) : cookie :=
  MkCookie sessionCookieName token true (negb (insecureCookies cfg)) 0 expires.
Definition clear_cookie : cookie :=
  MkCookie sessionCookieName [] true (negb (insecureCookies cfg)) (-1) 0.
Definition clearSessionCookie (r : response) : response := with_cookie clear_cookie r.

Definition randomToken {E} : io W E gostring := raw <- rand_read 32 ;; ret (RawURLEncodeToString raw).

(** [INSERT INTO sessions]: a TIMESTAMPTZ keeps microseconds. *)
Definition insert_session (s : session) (d : db) : result Ledger.sql_error (db * unit) :=
  if existsb (fun x => seqb (s_id x) (s_id s) || seqb (token_hash x) (token_hash s)) (sessions d)
  then Err Ledger.DuplicateKey
  else if bool_decide (s_tenant s ∈ Ledger.tenants (audit d))
          && existsb (fun k => seqb (Keys.key_id k) (s_key s)) (api_keys d)
  then Ok (set_sessions (sessions d ++
             [MkSession (s_id s) (s_tenant s) (s_key s) (token_hash s) (csrf_token s)
                (Ledger.normalizeAt (last_seen_at s)) (Ledger.normalizeAt (expires_at s)) (s_revoked_at s)]) d, tt)
  else Err Ledger.ForeignKey.

Definition login (r : request) : io W response response :=
  body <- some_or_resp (fieldError "apiKey") (readJSON r) ;;
  let raw := member "apiKey" body in
  p <- bind_err (fun _ => plain_status 401) (sql (select (fun d => Keys.Authenticate raw (api_keys d)))) ret ;;
  guard (plain_status 403) (seqb (Keys.Role p) "admin" || seqb (Keys.Role p) "app") ;;;
  token <- randomToken ;;
  csrf <- randomToken ;;
  t <- now ;;
  let expires := (t + sessionAbsolute)%Z in
  sessionID <- fresh_uuid ;;
  transaction (down "unavailable")
    (exec (down "unavailable") (insert_session
       (MkSession sessionID (Keys.TenantID p) (Keys.KeyID p) (Sha256.Sum256 token) csrf t expires None)) ;;;
     exec (down "unavailable") (append (Keys.TenantID p) "session_created"
       (JObj [("expiresAt", JStr (FormatRFC3339Nano expires)); ("keyId", JStr (Keys.KeyID p));
              ("sessionId", JStr sessionID)]%go) t)) ;;;
  ret (with_cookie (sessionCookie token expires) (writeJSON 200 (JObj [("csrfToken", JStr csrf)]%go))).

(** The session that the UPDATE of [logout] revokes. *)
Definition open_session (hash : gostring) (tenant : uuid) (s : session) : bool :=
  seqb (token_hash s) hash && seqb (s_tenant s) tenant && match s_revoked_at s with None => true | Some _ => false end.

Definition revoke_session (t : time) (s : session) : session :=
  MkSession (s_id s) (s_tenant s) (s_key s) (token_hash s) (csrf_token s) (last_seen_at s) (expires_at s)
    (Some (Ledger.normalizeAt t)).

Definition update_revoked (hash : gostring) (tenant : uuid) (t : time) (d : db) : result Ledger.sql_error (db * uuid) :=
  match find (open_session hash tenant) (sessions d) with
  | None => Err Ledger.NoRows
  | Some s =>
      Ok (set_sessions ((fun s => if open_session hash tenant s then revoke_session t s else s) <$> sessions d) d, s_id s)
  end.

Definition logged_out : response := clearSessionCookie (plain_status 204).

(** An UPDATE that fails, or changes nothing, still clears the cookie. *)
Definition logout : handler := fun r p =>
  match Cookie sessionCookieName r with
  | None | Some [] => ret logged_out
  | Some value =>
      t <- now ;;
      transaction (fun n => if bool_decide (n = Some 1) then logged_out else unavailable "unavailable")
        (sessionID <- exec (fun _ => logged_out) (update_revoked (Sha256.Sum256 value) (Keys.TenantID p) t) ;;
         exec (down "unavailable") (append (Keys.TenantID p) "session_revoked"
           (JObj [("keyId", JStr (Keys.KeyID p)); ("sessionId", JStr sessionID)]%go) t)) ;;;
      ret logged_out
  end.

(** [csrf] is the token of the session, which [authed] puts into the context. *)
Definition getSession (csrf : gostring) : handler := fun _ _ =>
  if seqb csrf [] then ret (plain_status 401) else ret (writeJSON 200 (JObj [("csrfToken", JStr csrf)]%go)).

(** *** Authentication *)

(** The join of [sessions] with [api_keys]. *)
Definition select_session (hash : gostring) (d : db) : option (session * Keys.key_row) :=
  s ← find (fun s => seqb (token_hash s) hash) (sessions d);
  k ← find (fun k => seqb (Keys.key_id k) (s_key s)) (api_keys d);
  Some (s, k).

(** [now.Sub(lastSeen) > sessionIdle] and the checks before it. *)
Definition session_valid (t : time) (sk : session * Keys.key_row) : bool :=
  match s_revoked_at sk.1, Keys.revoked_at sk.2 with
  | None, None => (t <? expires_at sk.1)%Z && (t - last_seen_at sk.1 <=? sessionIdle)%Z
  | _, _ => false
  end.

Definition seen (t : time) (s : session) : session :=
  MkSession (s_id s) (s_tenant s) (s_key s) (token_hash s) (csrf_token s) (Ledger.normalizeAt t) (expires_at s)
    (s_revoked_at s).

(** [UPDATE sessions SET last_seen_at ... WHERE id = $2 AND revoked_at IS NULL]. *)
Definition touch (t : time) (id : uuid) (d : db) : result Ledger.sql_error (db * unit) :=
  Ok (set_sessions ((fun s => if seqb (s_id s) id && match s_revoked_at s with None => true | Some _ => false end
                              then seen t s else s) <$> sessions d) d, tt).

(** Who the request comes from, and the token against forged requests when it came
    with a cookie. *)
Definition authenticate (r : request) : io W unit (Keys.Principal * option gostring) :=
  let no : forall A, io W unit A := fun A => throw tt in
  if negb (seqb (XApiKey r) []) then
    p <- bind_err (fun _ => tt) (sql (select (fun d => Keys.Authenticate (XApiKey r) (api_keys d)))) ret ;;
    ret (p, None)
  else
    match Cookie sessionCookieName r with
    | None | Some [] => no _
    | Some value =>
        t <- now ;;
        sk <- bind_err (fun _ => tt) (sql (select (select_session (Sha256.Sum256 value)))) ret ;;
        if negb (session_valid t sk) then no _
        else
          try (sql (touch t (s_id sk.1))) (fun _ =>
            ret (Keys.MkPrincipal (s_tenant sk.1) (s_key sk.1) (Keys.role sk.2), Some (csrf_token sk.1)))
    end.

(** *** Requests made by other sites *)

Definition defaultDevOrigins : list gostring := ["localhost:5173"; "127.0.0.1:5173"].

Definition ParseWSOrigins (raw : gostring) : list gostring :=
  let raw := TrimSpace raw in
  if seqb raw [] then defaultDevOrigins
  else
    match filter (fun p => seqb p [] = false) (TrimSpace <$> Split raw ","%byte) with
    | [] => defaultDevOrigins
    | out => out
    end.

Definition matchOriginPattern (host pattern : gostring) : bool :=
  if negb (Contains pattern "*") then seqb host pattern
  else if HasPrefix pattern "*." then HasSuffix host (drop 1 pattern) || seqb host (drop 2 pattern)
  else false.

Definition originAllowed (origin : gostring) : bool :=
  if seqb origin [] then false
  else
    match url_host origin with
    | None | Some [] => false
    | Some host =>
        let patterns := match wsOrigins cfg with [] => defaultDevOrigins | ps => ps end in
        existsb (fun p => seqb host p || matchOriginPattern host p) patterns
    end.

Definition requireCookieCSRF (r : request) (csrf : gostring) : bool :=
  if existsb (seqb (Method r)) ["POST"; "PUT"; "DELETE"]%go
  then seqb (XCsrfToken r) csrf && originAllowed (Origin r)
  else true.

Definition roleAllowed (role : gostring) (roles : list gostring) : bool := existsb (seqb role) roles.

(** [authed]: [next] gets the token of the session, empty without one. *)
Definition authed (roles : list gostring) (next : gostring -> handler) (r : request) : io W response response :=
  pc <- bind_err (fun _ => plain_status 401) (authenticate r) ret ;;
  guard (plain_status 403) (roleAllowed (Keys.Role pc.1) roles) ;;;
  match pc.2 with
  | None => next [] r pc.1
  | Some csrf => guard (plain_status 403) (requireCookieCSRF r csrf) ;;; next csrf r pc.1
  end.

(** ** Keys (keys_http.go) *)

Definition on_keys {A} (f : Keys.store -> result Ledger.sql_error (A * Keys.store)) (d : db)
    : result Ledger.sql_error (db * A) :=
  sa ← f (key_store d); Ok (set_keys sa.2 d, sa.1).

Definition createKey : handler := fun r p =>
  body <- some_or_resp (fieldError "name") (readJSON r) ;;
  let name := member "name" body in
  let role := member "role" body in
  guard (fieldError "name") (negb (seqb name [])) ;;;
  guard (fieldError "role") (existsb (seqb role) ["admin"; "app"; "sentinel"]%go) ;;;
  raw <- rand_read 5 ;;
  secret <- rand_read 32 ;;
  id <- fresh_uuid ;;
  t <- now ;;
  k <- transaction (down "queue unavailable")
         (exec (down "queue unavailable")
            (on_keys (Keys.Create jsonb (Keys.TenantID p) name role raw secret id t t))) ;;
  ret (writeJSON 200 (JObj [("id", JStr k.1.1); ("key", JStr k.2); ("prefix", JStr k.1.2)]%go)).

(** A row of the list; [None] when a time cannot be written as JSON. *)
Definition key_json (k : Keys.key_row) : option json :=
  let local := fun t => time_json t (local_offset t) in
  created ← local (Keys.created_at k);
  revoked ← match Keys.revoked_at k with None => Some JNull | Some t => JStr <$> local t end;
  Some (JObj [("id", JStr (Keys.key_id k)); ("name", JStr (Keys.name k)); ("prefix", JStr (Keys.prefix k));
              ("role", JStr (Keys.role k)); ("createdAt", JStr created); ("revokedAt", revoked)]%go).

(** The keys of a tenant in the order of their creation. *)
Definition keys_of (tenant : uuid) (d : db) : list Keys.key_row :=
  sort_slice (fun a b => (Keys.created_at a <? Keys.created_at b)%Z)
    (filter (fun k => Keys.key_tenant k = tenant) (api_keys d)).

(** [writeJSON] of a value that cannot be encoded leaves the body empty. *)
Definition write_list (rows : option (list json)) : response :=
  match rows with
  | Some l => writeJSON 200 (JArr l)
  | None => MkResponse 200 "application/json" None None []
  end.

Definition listKeys : handler := fun _ p =>
  rows <- or_down "queue unavailable" (query (keys_of (Keys.TenantID p))) ;;
  ret (write_list (mapM key_json rows)).

Definition revokeKey : handler := fun r p =>
  match Seal.uuid_parse (PathValue r) with
  | None => ret (plain_status 404)
  | Some id =>
      t <- now ;;
      transaction (down "queue unavailable")
        (exec (fun e => match e with Ledger.NoRows => plain_status 404 | _ => unavailable "queue unavailable" end)
           (on_keys (fun s => s' ← Keys.Revoke jsonb (Keys.TenantID p) id t t s; Ok (tt, s')))) ;;;
      ret (plain_status 204)
  end.

(** ** The policy (policy.go) *)

(** [strconv.Quote(strconv.Itoa(version))] *)
Definition version_etag (v : Z) : gostring := dquote :: Itoa v ++ [dquote].

Definition load_policy (tenant : uuid) (d : db) : result Ledger.sql_error (db * option Policy.Doc) :=
  Ok (d, match Policy.Load (policy_store d) tenant with Ok (doc, _) => Some doc | Err _ => None end).

Definition getPolicy : handler := fun r p =>
  found <- or_down "policy unavailable" (sql (load_policy (Keys.TenantID p))) ;;
  match found with
  | None => ret (unavailable "policy unavailable")
  | Some doc =>
      let tag := version_etag (Policy.Version doc) in
      if seqb (IfNoneMatch r) tag then ret (with_etag tag (plain_status 304))
      else ret (with_etag tag (writeJSON 200 (Policy.doc_json doc)))
  end.

(** [io.LimitReader(r.Body, 1<<20)] *)
Definition limited_body (r : request) : option gostring := (fun b => take (Z.to_nat 1048576) b) <$> Body r.

Definition put_policy (tenant : uuid) (doc : Policy.Doc) (t : time) : io db response Policy.Doc := fun d =>
  match Policy.Put jsonb tenant doc t (policy_store d) with
  | Ok (stored, s) => (set_policies s d, Ok stored)
  | Err _ => (d, Err (unavailable "policy unavailable"))
  end.

Definition putPolicy : handler := fun r p =>
  raw <- some_or_resp (fieldError "detectors") (limited_body r) ;;
  match Policy.Parse raw with
  | Err f => ret (fieldError f)
  | Ok doc =>
      t <- now ;;
      stored <- transaction (down "policy unavailable") (put_policy (Keys.TenantID p) doc t) ;;
      ret (with_etag (version_etag (Policy.Version stored)) (writeJSON 200 (Policy.doc_json stored)))
  end.
End server.

End Api.
