(* ===== verification/ApiJobs.v ===== *)
(** * The control plane: jobs and delivery links (internal/api)

    The handlers of jobs.go and delivery.go, with the encoding of codec.go.  The
    queue is the interface [enqueuer] of server.go. *)

From S2P Require Import Prelude GoStd GoTime TimeParse Base64 Sha256 Json Decode Ledger Seal Journal Proc Queue Keys Api.

Module ApiJobs.
Import Api.

(** ** The queue (server.go) *)

(** [enqueuer], with the key store that [Add] is given, and [queue.JobRunning].
    An error is an error whatever it says. *)
Class Enqueuer (Q : Type) := {
  add : Queue.Job -> Seal.pgKeyStore -> Q -> Seal.pgKeyStore * Q * result unit unit;
  job_running : gostring -> Q -> result unit bool;
}.

Section jobs.
Context `{Environment, !Seal.UUID, !Journal.JobIDs} (cfg : config).
Context {Q : Type} `{!Enqueuer Q}.
Abbreviation W := (world Q).
Abbreviation handler := (request -> Keys.Principal -> io W response response).

(** ** Encoding (codec.go) *)

Definition b64 (raw : option gostring) : gostring :=
  match raw with None | Some [] => [] | Some s => EncodeToString s end.

Definition jsonRaw (body : gostring) : json := default (JStr body) (Unmarshal body).

(** ** The limit on new jobs (jobs.go) *)

(** [INCR]: a counter past its deadline is gone. *)
Definition counter (key : gostring) (t : time) (c : gmap gostring (Z * option time)) : option (Z * option time) :=
  match c !! key with
  | Some (n, Some deadline) => if (deadline <=? t)%Z then None else Some (n, Some deadline)
  | x => x
  end.

Definition incr (key : gostring) (t : time) (c : gmap gostring (Z * option time)) : Z * gmap gostring (Z * option time) :=
  let '(n, deadline) := default (0%Z, None) (counter key t c) in
  ((n + 1)%Z, <[key := ((n + 1)%Z, deadline)]> c).

Definition expire (key : gostring) (ttl : Z) (t : time) (c : gmap gostring (Z * option time)) : gmap gostring (Z * option time) :=
  match counter key t c with Some (n, _) => <[key := (n, Some (t + ttl)%Z)]> c | None => c end.

(** A command of Redis, at a time of its clock. *)
Definition redis {A} (f : time -> gmap gostring (Z * option time) -> A * gmap gostring (Z * option time)) : io W unit A := fun w =>
  let '(o, w) := next_fault w in
  let ac := f (clock (ticks w)) (counters w) in
  let w1 := fst (now (E := unit) (set_counters ac.2 w)) in
  match o with
  | Proc.Served => (w1, Ok ac.1)
  | Proc.Refused _ => (w, Err tt)
  | Proc.ReplyLost _ => (w1, Err tt)
  end.

Definition limit_window (t : time) : Z := Z.quot (t / Second) 60.

Definition limit_key (tenant : uuid) (t : time) : gostring :=
  "ratelimit:post:" ++ tenant ++ ":" ++ Itoa (limit_window t).

Definition allowPost (tenant : uuid) : io W unit bool :=
  t <- now ;;
  let key := limit_key tenant t in
  n <- redis (incr key) ;;
  (if (n =? 1)%Z then try (redis (fun t c => (tt, expire key (120 * Second) t c))) (fun _ => ret tt) else ret tt) ;;;
  ret (n <=? 30)%Z.

(** ** Accepting jobs (jobs.go) *)

(** [INSERT INTO job_accepts]. *)
Definition insert_accept (id : gostring) (a : accept) (d : db) : result Ledger.sql_error (db * unit) :=
  match job_accepts d !! id with
  | Some _ => Err Ledger.DuplicateKey
  | None =>
      if bool_decide (a_tenant a ∈ Ledger.tenants (audit d))
      then Ok (set_accepts (<[id := a]> (job_accepts d)) d, tt)
      else Err Ledger.ForeignKey
  end.

(** [s.jobs.Add(ctx, s.keys, job)]: the key store is the table [job_keys]. *)
Definition enqueue (j : Queue.Job) : io W unit unit := fun w =>
  let '(k, q, r) := add j (job_keys (tables w)) (queue w) in
  (set_queue q (set_tables (set_job_keys k (tables w)) w), r).

Definition delete_key (id : uuid) (d : db) : result Ledger.sql_error (db * unit) :=
  Ok (set_job_keys (delete id (job_keys d : gmap uuid Seal.keyRow)) d, tt).
Definition delete_accept (id : gostring) (d : db) : result Ledger.sql_error (db * unit) :=
  Ok (set_accepts (delete id (job_accepts d)) d, tt).

Definition ignore {E A} (m : io W E A) : io W response unit := try m (fun _ => ret tt).

(** What both handlers do with one input; the result is the identifier. *)
Definition accept_one (tenant : uuid) (jobType source input : gostring) : io W response uuid :=
  jobID <- fresh_uuid ;;
  t <- now ;;
  or_down "queue unavailable" (sql (insert_accept jobID (MkAccept tenant (Ledger.normalizeAt t) source))) ;;;
  try (enqueue (Queue.MkJob jobID input tenant jobType)) (fun r =>
    match r with
    | Ok _ => ret jobID
    | Err _ =>
        ignore (sql (delete_key (Journal.DurableIDFor jobID))) ;;;
        ignore (sql (delete_accept jobID)) ;;;
        throw (unavailable "queue unavailable")
    end).

Definition or_default (d s : gostring) : gostring := if seqb s [] then d else s.

(** The checks that follow the ones on the input. *)
Definition check_and_limit (tenant : uuid) (jobType source : gostring) : io W response unit :=
  guard (fieldError "jobType") (existsb (seqb jobType) (types cfg)) ;;;
  guard (fieldError "source") (seqb source "cold-harbour" || seqb source "sentinel") ;;;
  allowed <- bind_err (down "queue unavailable") (allowPost tenant) ret ;;
  guard (plain_status 429) allowed.

Definition postJob : handler := fun r p =>
  let tenant := Keys.TenantID p in
  body <- some_or_resp (fieldError "input") (readJSON r) ;;
  let input := member "input" body in
  guard (fieldError "input") (negb (seqb input [])) ;;;
  let jobType := or_default "redact" (member "jobType" body) in
  let source := or_default "cold-harbour" (member "source" body) in
  check_and_limit tenant jobType source ;;;
  jobID <- accept_one tenant jobType source input ;;
  ret (writeJSON 200 (JObj [("jobId", JStr jobID); ("status", JStr "QUEUED")]%go)).

(** The body of a batch. *)
Record batch_request := MkBatchRequest { items : list gostring; b_type : gostring; b_source : gostring }.

Definition batch_fields : list gostring := ["items"; "jobType"; "source"].

Definition set_batch_field (f : gostring) (b : batch_request) (v : json) : option batch_request :=
  if seqb f "items" then x ← set_strings (items b) v; Some (MkBatchRequest x (b_type b) (b_source b))
  else if seqb f "jobType" then x ← set_string (b_type b) v; Some (MkBatchRequest (items b) x (b_source b))
  else x ← set_string (b_source b) v; Some (MkBatchRequest (items b) (b_type b) x).

Definition parse_batch (r : request) : option batch_request :=
  raw ← Body r; v ← ParsePrefix raw;
  b ← set_struct batch_fields set_batch_field false (MkBatchRequest [] [] []) v;
  match items b with [] => None | _ => Some b end.

(** The loop over the items: it stops at the first that fails. *)
Fixpoint accept_all (tenant : uuid) (jobType source : gostring) (inputs : list gostring) : io W response (list uuid) :=
  match inputs with
  | [] => ret []
  | input :: inputs =>
      jobID <- accept_one tenant jobType source input ;;
      ids <- accept_all tenant jobType source inputs ;;
      ret (jobID :: ids)
  end.

Definition postJobBatch : handler := fun r p =>
  let tenant := Keys.TenantID p in
  req <- some_or_resp (fieldError "items") (parse_batch r) ;;
  guard (writeJSON 400 (JObj [("error", JStr "batch size exceeds maximum of 1000")]%go)) (glen (items req) <=? 1000)%Z ;;;
  let jobType := or_default "redact" (b_type req) in
  let source := or_default "cold-harbour" (b_source req) in
  check_and_limit tenant jobType source ;;;
  ids <- accept_all tenant jobType source (items req) ;;
  batch <- fresh_uuid ;;
  ret (writeJSON 200 (JObj [("batchId", JStr batch); ("count", JNum (glen ids)); ("jobIds", JArr (JStr <$> ids));
                            ("status", JStr "QUEUED")]%go)).

(** ** Reading jobs (jobs.go) *)

(** The row of [outputs] of a job of a tenant. *)
Definition output_for (id : gostring) (tenant : uuid) (d : db) : option Journal.storedOutput :=
  o ← Journal.pg_outputs (journal d) !! id;
  if seqb (Journal.out_tenant o) tenant then Some o else None.

(** The row of [jobs] of a job of a tenant. *)
Definition job_row_for (id : gostring) (tenant : uuid) (d : db) : option Journal.jobRow :=
  j ← Journal.jobs (journal d) !! Journal.DurableIDFor id;
  if seqb (Journal.job_tenant j) tenant then Some j else None.

Definition accepted_for (id : gostring) (tenant : uuid) (d : db) : option accept :=
  a ← job_accepts d !! id; if seqb (a_tenant a) tenant then Some a else None.

(** The rows of [listJobs], latest first. *)
Definition jobs_of (tenant : uuid) (d : db) : list (gostring * accept * option Journal.storedOutput) :=
  (fun ia => (ia, output_for ia.1 tenant d)) <$>
  sort_slice (fun a b => (accepted_at b.2 <? accepted_at a.2)%Z)
    (map_to_list (filter (fun ia => a_tenant ia.2 = tenant) (job_accepts d))).

Definition job_json (x : gostring * accept * option Journal.storedOutput) : json :=
  JObj [("jobId", JStr x.1.1); ("acceptedAt", JStr (FormatRFC3339Nano (accepted_at x.1.2)));
        ("status", JStr (match x.2 with Some o => Journal.state_text (Journal.out_state o) | None => "QUEUED" end))]%go.

Definition listJobs : handler := fun _ p =>
  rows <- or_down "queue unavailable" (query (jobs_of (Keys.TenantID p))) ;;
  ret (writeJSON 200 (JArr (job_json <$> rows))).

(** The join of [outputs] with [jobs]: body, signature and key are those of [j] if
    there is one. *)
Definition select_result (id : gostring) (tenant : uuid) (d : db) : option (Journal.storedOutput * option Journal.jobRow) :=
  o ← output_for id tenant d; Some (o, job_row_for id tenant d).

Definition signature_of (j : option Journal.jobRow) : option gostring := j ≫= Journal.output_signature.
Definition key_of (j : option Journal.jobRow) : gostring := default [] (j ≫= Journal.signing_key_id).

Definition is_running (id : gostring) : io W unit bool := fun w => (w, job_running id (queue w)).

Definition getJob : handler := fun r p =>
  let tenant := Keys.TenantID p in
  let id := PathValue r in
  try (sql (select (select_result id tenant))) (fun res =>
    match res with
    | Ok (o, j) =>
        ret (writeJSON 200 (JObj [("jobId", JStr id); ("result", jsonRaw (Journal.Body o));
          ("signature", JStr (b64 (signature_of j))); ("signingKeyId", JStr (key_of j));
          ("status", JStr (Journal.state_text (Journal.out_state o))); ("tenantId", JStr tenant)]%go))
    | Err (Says Ledger.NoRows) =>
        bind_err (fun _ => plain_status 404) (sql (select (accepted_for id tenant))) ret ;;;
        running <- bind_err (down "queue unavailable") (is_running id) ret ;;
        ret (writeJSON 200 (JObj [("jobId", JStr id); ("status", JStr (if running : bool then "RUNNING" else "QUEUED"))]%go))
    | Err _ => ret (unavailable "queue unavailable")
    end).

(** ** Delivery links (delivery.go) *)

Definition parseExpiry (raw : gostring) (now : time) : option time :=
  at_ ← if seqb raw [] then None else ParseRFC3339 raw;
  if (at_.1 <=? now)%Z || (now + 30 * 24 * 3600 * Second <? at_.1)%Z then None else Some at_.1.

Definition parseViews (raw : gostring) : option Z :=
  n ← Atoi raw; if (n <? 1)%Z || (100 <? n)%Z then None else Some n.

Definition sha256Hex (raw : gostring) : gostring := hex_encode (Sha256.Sum256 raw).

(** [INSERT INTO delivery_links]. *)
Definition insert_link (hash : gostring) (l : link) (d : db) : result Ledger.sql_error (db * unit) :=
  match delivery_links d !! hash with
  | Some _ => Err Ledger.DuplicateKey
  | None =>
      if bool_decide (l_tenant l ∈ Ledger.tenants (audit d))
      then Ok (set_links (<[hash := l]> (delivery_links d)) (accesses d) d, tt)
      else Err Ledger.ForeignKey
  end.

Definition createLink : handler := fun r p =>
  let tenant := Keys.TenantID p in
  let id := PathValue r in
  bind_err (fun _ => plain_status 404) (sql (select (accepted_for id tenant))) ret ;;;
  body <- some_or_resp (fieldError "expiresAt") (readJSON r) ;;
  t <- now ;;
  expiresAt <- some_or_resp (fieldError "expiresAt") (parseExpiry (member "expiresAt" body) t) ;;
  views <- some_or_resp (fieldError "maxViews") (parseViews (member "maxViews" body)) ;;
  bind_err (fun _ => writeJSON 409 (JObj [("error", JStr "job has no output")]%go))
    (sql (select (output_for id tenant))) ret ;;;
  raw <- rand_read 32 ;;
  let token := hex_encode raw in
  or_down "queue unavailable"
    (sql (insert_link (sha256Hex token) (MkLink id tenant (Ledger.normalizeAt expiresAt) views 0))) ;;;
  ret (writeJSON 200 (JObj [("expiresAt", JStr (member "expiresAt" body)); ("maxViews", JNum views); ("token", JStr token)]%go)).

(** [UPDATE delivery_links SET view_count = view_count + 1], and the INSERT into
    [delivery_link_accesses]. *)
Definition count_view (l : link) : link :=
  MkLink (l_job l) (l_tenant l) (l_expires_at l) (max_views l) (view_count l + 1).
Definition update_views (hash : gostring) (d : db) : result Ledger.sql_error (db * unit) :=
  Ok (set_links (alter count_view hash (delivery_links d)) (accesses d) d, tt).
Definition insert_access (hash : gostring) (d : db) : result Ledger.sql_error (db * unit) :=
  Ok (set_links (delivery_links d) (accesses d ++ [hash]) d, tt).

(** The join of [outputs] with [jobs]: both rows must be there. *)
Definition select_delivery (id : gostring) (tenant : uuid) (d : db) : option (Journal.storedOutput * Journal.jobRow) :=
  o ← output_for id tenant d; j ← job_row_for id tenant d; Some (o, j).

(** [s.now()] is read inside the transaction. *)
Definition view_link (hash : gostring) (t : time) : io db response response :=
  l <- exec (fun _ => plain_status 404) (select (fun d => delivery_links d !! hash)) ;;
  (if (l_expires_at l <=? t)%Z then throw (plain_status 410) else ret tt) ;;;
  (if (max_views l <=? view_count l)%Z then throw (plain_status 403) else ret tt) ;;;
  oj <- exec (fun _ => writeJSON 409 (JObj [("error", JStr "job has no output")]%go))
          (select (select_delivery (l_job l) (l_tenant l))) ;;
  exec (down "queue unavailable") (update_views hash) ;;;
  exec (down "queue unavailable") (insert_access hash) ;;;
  ret (writeJSON 200 (JObj [("result", jsonRaw (Journal.Body oj.1));
    ("signature", JStr (b64 (Journal.output_signature oj.2)));
    ("signingKeyId", JStr (default [] (Journal.signing_key_id oj.2)));
    ("tenantId", JStr (Journal.out_tenant oj.1))]%go)).

Definition openLink (r : request) : io W response response :=
  t <- now ;;
  transaction (down "queue unavailable") (view_link (sha256Hex (PathValue r)) t).
End jobs.

End ApiJobs.
