(* ===== verification/ApiNodes.v ===== *)
(** * The control plane: nodes, reports, events and routes (internal/api)

    The handlers of sentinel.go and report.go, the hub of events.go that relays the
    events of jobs to WebSocket connections, and the table of routes of server.go. *)

From S2P Require Import Prelude GoStd GoTime TimeParse Json Decode Ledger Seal Journal Proc Queue Keys Api ApiJobs.

Module ApiNodes.
Import Api ApiJobs.

(** ** Batches of the masker (sentinel.go) *)

(** A time that was read, with its offset. *)
Record sentinelBatch := MkSentinelBatch {
  NodeID : gostring;
  From : time * Z;
  To : time * Z;
  PolicyVersion : Z;
  Counts : gmap gostring Z;
  Held : Z;
  Dropped : Z;
  FailOpen : Z;
}.

(** The struct of pointers that the body is decoded into. *)
Record wire := MkWire {
  w_node : option gostring;
  w_from : option gostring;
  w_to : option gostring;
  w_version : option Z;
  w_counts : option (gmap gostring Z);
  w_held : option Z;
  w_dropped : option Z;
  w_fail : option Z;
}.

Definition no_wire : wire := MkWire None None None None None None None None.

Definition wire_fields : list gostring :=
  ["nodeId"; "from"; "to"; "policyVersion"; "counts"; "held"; "dropped"; "failOpen"].

(** Decoding into a pointer: null makes it nil. *)
Definition set_pointer {A} (set : A -> json -> option A) (zero : A) (cur : option A) (v : json) : option (option A) :=
  match v with JNull => Some None | _ => Some <$> set (default zero cur) v end.

(** Decoding into a map keeps the entries it has. *)
Definition set_int_map (cur : gmap gostring Z) (v : json) : option (gmap gostring Z) :=
  match v with
  | JObj m => foldl (fun acc kv => acc ← acc; n ← set_int 0 kv.2; Some (<[kv.1 := n]> acc)) (Some cur) m
  | _ => None
  end.

Definition set_wire_field (f : gostring) (w : wire) (v : json) : option wire :=
  let '(MkWire n fr to pv c h d fo) := w in
  if seqb f "nodeId" then x ← set_pointer set_string [] n v; Some (MkWire x fr to pv c h d fo)
  else if seqb f "from" then x ← set_pointer set_string [] fr v; Some (MkWire n x to pv c h d fo)
  else if seqb f "to" then x ← set_pointer set_string [] to v; Some (MkWire n fr x pv c h d fo)
  else if seqb f "policyVersion" then x ← set_pointer set_int 0%Z pv v; Some (MkWire n fr to x c h d fo)
  else if seqb f "counts" then x ← set_pointer set_int_map ∅ c v; Some (MkWire n fr to pv x h d fo)
  else if seqb f "held" then x ← set_pointer set_int 0%Z h v; Some (MkWire n fr to pv c x d fo)
  else if seqb f "dropped" then x ← set_pointer set_int 0%Z d v; Some (MkWire n fr to pv c h x fo)
  else x ← set_pointer set_int 0%Z fo v; Some (MkWire n fr to pv c h d x).

Definition parseInstant (raw : gostring) : option (time * Z) :=
  if seqb raw [] then None else ParseRFC3339 raw.

Definition non_negative (field : gostring) (n : option Z) : result gostring Z :=
  match n with Some n => if (n <? 0)%Z then Err field else Ok n | None => Err field end.

(** The error is the field that is at fault. *)
Definition check_wire (w : wire) : result gostring sentinelBatch :=
  match w_node w with
  | None | Some [] => Err "nodeId"%go
  | Some node =>
      match w_from w ≫= parseInstant with
      | None => Err "from"%go
      | Some from =>
          match w_to w ≫= parseInstant with
          | None => Err "to"%go
          | Some to =>
              if (to.1 <? from.1)%Z then Err "to"%go
              else
                version ← non_negative "policyVersion" (w_version w);
                match w_counts w with
                | None => Err "counts"%go
                | Some counts =>
                    if bool_decide (map_Forall (fun k n => k <> [] /\ (0 <= n)%Z) counts) then
                      held ← non_negative "held" (w_held w);
                      dropped ← non_negative "dropped" (w_dropped w);
                      fail_open ← non_negative "failOpen" (w_fail w);
                      Ok (MkSentinelBatch node from to version counts held dropped fail_open)
                    else Err "counts"%go
                end
          end
      end
  end.

Definition parseSentinelBatch (raw : gostring) : result gostring sentinelBatch :=
  match v ← Json.Parse raw; set_struct wire_fields set_wire_field false no_wire v with
  | None => Err "nodeId"%go
  | Some w => check_wire w
  end.

(** [json.Marshal] of a map: its keys in order. *)
Definition counts_json (m : gmap gostring Z) : json :=
  JObj (sort_slice (fun a b => str_lt a.1 b.1) ((fun kn => (kn.1, JNum kn.2)) <$> map_to_list m)).

Definition batch_json (b : sentinelBatch) : option json :=
  from ← time_json (From b).1 (From b).2;
  to ← time_json (To b).1 (To b).2;
  Some (JObj [("nodeId", JStr (NodeID b)); ("from", JStr from); ("to", JStr to);
              ("policyVersion", JNum (PolicyVersion b)); ("counts", counts_json (Counts b));
              ("held", JNum (Held b)); ("dropped", JNum (Dropped b)); ("failOpen", JNum (FailOpen b))]%go).

Section nodes.
Context `{Environment, !Seal.UUID, !Journal.JobIDs} (jsonb : gostring -> option gostring) (cfg : config).
Context {Q : Type} `{!Enqueuer Q}.
Abbreviation W := (world Q).
Abbreviation handler := (request -> Keys.Principal -> io W response response).

(** The INSERT with ON CONFLICT DO UPDATE: the version is an INTEGER, the counts are
    JSONB. *)
Definition upsert_node (tenant : uuid) (b : sentinelBatch) (d : db) : result Ledger.sql_error (db * unit) :=
  if negb (Keys.text_ok (NodeID b)) then Err Ledger.BadText
  else if (2147483647 <? PolicyVersion b)%Z then Err Ledger.OutOfRange
  else if negb (bool_decide (tenant ∈ Ledger.tenants (audit d))) then Err Ledger.ForeignKey
  else
    match jsonb (Marshal (counts_json (Counts b))) with
    | None => Err Ledger.InvalidJSON
    | Some counts =>
        Ok (set_nodes (<[(tenant, NodeID b) := MkNodeRow (Ledger.normalizeAt (To b).1) (PolicyVersion b) counts
                                                 (Held b) (Dropped b) (FailOpen b)]> (sentinel_nodes d)) d, tt)
    end.

Definition postSentinelEvents : handler := fun r p =>
  raw <- some_or_resp (fieldError "nodeId") (limited_body r) ;;
  match parseSentinelBatch raw with
  | Err field => ret (fieldError field)
  | Ok batch =>
      payload <- some_or_resp (fieldError "nodeId") (batch_json batch) ;;
      t <- now ;;
      transaction (down "unavailable")
        (exec (down "unavailable") (upsert_node (Keys.TenantID p) batch) ;;;
         exec (down "unavailable") (append jsonb (Keys.TenantID p) "sentinel_batch" payload t)) ;;;
      ret (writeJSON 200 (JObj [("status", JStr "ok")]%go))
  end.

(** [json.Unmarshal] into an empty map, whose error is ignored: a value that is no
    integer leaves 0 under its key, and null leaves no map. *)
Definition stored_counts (raw : gostring) : option (gmap gostring Z) :=
  match Json.Parse raw with
  | Some (JObj m) => Some (foldl (fun acc kv => <[kv.1 := default 0%Z (set_int 0 kv.2)]> acc) ∅ m)
  | Some JNull => None
  | _ => Some ∅
  end.

(** The nodes of a tenant, latest first. *)
Definition nodes_of (tenant : uuid) (d : db) : list (gostring * node_row) :=
  sort_slice (fun a b => (last_seen b.2 <? last_seen a.2)%Z)
    ((fun x => (x.1.2, x.2)) <$> map_to_list (filter (fun x => x.1.1 = tenant) (sentinel_nodes d))).

Definition node_json (x : gostring * node_row) : json :=
  JObj [("nodeId", JStr x.1); ("lastSeen", JStr (FormatRFC3339Nano (last_seen x.2)));
        ("policyVersion", JNum (policy_version x.2)); ("counts", from_option counts_json JNull (stored_counts (n_counts x.2)));
        ("held", JNum (n_held x.2)); ("dropped", JNum (n_dropped x.2)); ("failOpen", JNum (n_fail_open x.2))]%go.

Definition listSentinelNodes : handler := fun _ p =>
  rows <- or_down "unavailable" (query (nodes_of (Keys.TenantID p))) ;;
  ret (writeJSON 200 (JArr (node_json <$> rows))).

(** ** The compliance report (report.go) *)

(** The jobs accepted in a span of time, in order; the database compares
    microseconds. *)
Definition accepted_between (tenant : uuid) (from to : time) (d : db) : list (gostring * accept) :=
  let from := Ledger.normalizeAt from in
  let to := Ledger.normalizeAt to in
  sort_slice (fun a b => (accepted_at a.2 <? accepted_at b.2)%Z)
    (map_to_list (filter (fun ia => a_tenant ia.2 = tenant /\ (from <= accepted_at ia.2 < to)%Z) (job_accepts d))).

Definition newline : gostring := [Byte.x0a].

Definition csv_header : gostring :=
  "dispatch_time,completion_time,final_state,checksum,signature_status,purge_timestamp,source" ++ newline.

(** A line, from what is known of the job in [jobs] and in [purge_receipts]. *)
Definition csv_line (a : accept) (j : option Journal.jobRow) (purged : option time) : gostring :=
  FormatRFC3339Nano (accepted_at a) ++ "," ++
  match j with
  | Some j =>
      FormatRFC3339Nano (Journal.CompletedAt (Journal.job j)) ++ "," ++
      Journal.state_text (Journal.FinalState (Journal.job j)) ++ "," ++ Journal.Checksum (Journal.job j) ++ "," ++
      match Journal.output_signature j with None | Some [] => "absent" | Some _ => "present" end
  | None => ",,,absent"
  end ++ "," ++
  match purged with Some t => FormatRFC3339Nano t | None => [] end ++ "," ++
  or_default "cold-harbour" (source a) ++ newline.

(** The two queries for a row; an error of either reads as no row. *)
Definition report_row (tenant : uuid) (ia : gostring * accept) : io W response gostring :=
  try (sql (select (job_row_for ia.1 tenant))) (fun j =>
    try (sql (select (fun d => purge_receipts d !! Journal.DurableIDFor ia.1))) (fun rc =>
      ret (csv_line ia.2 (match j with Ok j => Some j | Err _ => None end)
             (match rc with Ok rc => Some (Seal.PurgedAt rc) | Err _ => None end)))).

Fixpoint report_rows (tenant : uuid) (rows : list (gostring * accept)) : io W response gostring :=
  match rows with
  | [] => ret []
  | ia :: rows =>
      line <- report_row tenant ia ;;
      rest <- report_rows tenant rows ;;
      ret (line ++ rest)
  end.

Definition compliance : handler := fun r p =>
  from <- some_or_resp (fieldError "from") (parseInstant (Query r "from")) ;;
  to <- some_or_resp (fieldError "to") (parseInstant (Query r "to")) ;;
  rows <- or_down "queue unavailable" (query (accepted_between (Keys.TenantID p) from.1 to.1)) ;;
  lines <- report_rows (Keys.TenantID p) rows ;;
  ret (MkResponse 200 "text/csv" None None (csv_header ++ lines)).

(** ** Events for browsers (events.go) *)

(** The connections of each tenant, by a number of their own. *)
Definition hub := gmap uuid (gset nat).

Definition newHub : hub := ∅.

Definition hub_add (tenant : uuid) (conn : nat) (h : hub) : hub :=
  <[tenant := {[conn]} ∪ default ∅ ((h : gmap uuid (gset nat)) !! tenant)]> (h : gmap uuid (gset nat)).

Definition hub_remove (tenant : uuid) (conn : nat) (h : hub) : hub :=
  let set := default ∅ ((h : gmap uuid (gset nat)) !! tenant) ∖ {[conn]} in
  if bool_decide (set = ∅) then delete tenant (h : gmap uuid (gset nat))
  else <[tenant := set]> (h : gmap uuid (gset nat)).

(** Whom a message goes to. *)
Definition hub_send (tenant : uuid) (h : hub) : gset nat := default ∅ ((h : gmap uuid (gset nat)) !! tenant).

Definition event_fields : list gostring := ["tenantId"; "jobId"; "status"].

Definition set_event_field (f : gostring) (e : Queue.JobEvent) (v : json) : option Queue.JobEvent :=
  if seqb f "tenantId" then x ← set_string (Queue.ev_tenant e) v; Some (Queue.MkEvent x (Queue.ev_job e) (Queue.ev_status e))
  else if seqb f "jobId" then x ← set_string (Queue.ev_job e) v; Some (Queue.MkEvent (Queue.ev_tenant e) x (Queue.ev_status e))
  else x ← set_string (Queue.ev_status e) v; Some (Queue.MkEvent (Queue.ev_tenant e) (Queue.ev_job e) x).

(** The tenant that a message on the channel is for, if it is one to relay. *)
Definition event_tenant (payload : gostring) : option uuid :=
  v ← Json.Parse payload;
  e ← set_struct event_fields set_event_field false (Queue.MkEvent [] [] []) v;
  if seqb (Queue.ev_tenant e) [] then None else Seal.uuid_parse (Queue.ev_tenant e).

(** [read]: the connections that get the message, as it came. *)
Definition hub_read (payload : gostring) (h : hub) : gset nat :=
  match event_tenant payload with Some tenant => hub_send tenant h | None => ∅ end.

(** [events], up to the upgrade to a WebSocket: the tenant to subscribe to. *)
Definition subscribe (r : request) : io W response uuid :=
  pc <- bind_err (fun _ => plain_status 401) (authenticate cfg r) ret ;;
  guard (plain_status 403) (seqb (Keys.Role pc.1) "admin" || seqb (Keys.Role pc.1) "app") ;;;
  ret (Keys.TenantID pc.1).

(** ** Routes (server.go) *)

Inductive route :=
| PostLogin | PostLogout | GetSession | PostJob | PostJobBatch | ListJobs | GetJob | PostLink
| GetCompliance | GetPolicy | PutPolicy | PostKey | ListKeys | DeleteKey | PostEvents | ListNodes
| OpenLink.

Definition method_of (x : route) : gostring :=
  match x with
  | PostLogin | PostLogout | PostJob | PostJobBatch | PostLink | PostKey | PostEvents => "POST"
  | PutPolicy => "PUT"
  | DeleteKey => "DELETE"
  | _ => "GET"
  end.

(** The roles a route is for; [None] where there is no [authed]. *)
Definition roles_of (x : route) : option (list gostring) :=
  match x with
  | PostLogin | OpenLink => None
  | PostLogout | GetSession | PostJobBatch | ListJobs | GetJob | PostLink | GetCompliance => Some ["admin"; "app"]%go
  | PostJob | GetPolicy | ListNodes => Some ["admin"; "app"; "sentinel"]%go
  | PutPolicy | PostKey | ListKeys | DeleteKey => Some ["admin"%go]
  | PostEvents => Some ["sentinel"%go]
  end.

Definition handler_of (x : route) (csrf : gostring) : handler :=
  match x with
  | PostLogin => fun r _ => login jsonb cfg r
  | OpenLink => fun r _ => openLink r
  | PostLogout => logout jsonb cfg
  | GetSession => getSession csrf
  | PostJob => postJob cfg
  | PostJobBatch => postJobBatch cfg
  | ListJobs => listJobs
  | GetJob => getJob
  | PostLink => createLink
  | GetCompliance => compliance
  | GetPolicy => getPolicy
  | PutPolicy => putPolicy jsonb
  | PostKey => createKey jsonb
  | ListKeys => listKeys
  | DeleteKey => revokeKey jsonb
  | PostEvents => postSentinelEvents
  | ListNodes => listSentinelNodes
  end.

(** The multiplexer gives a request to the handler of its route. *)
Definition Handler (x : route) (r : request) : io W response response :=
  match roles_of x with
  | Some roles => authed cfg roles (handler_of x) r
  | None => handler_of x [] r (Keys.MkPrincipal [] [] [])
  end.

(** What the client gets, early or not. *)
Definition serve (x : route) (r : request) (w : W) : W * response :=
  let '(w', res) := Handler x r w in (w', match res with Ok resp | Err resp => resp end).
End nodes.

End ApiNodes.
