(* ===== verification/ApiEvents.v ===== *)
(** * The events that browsers see

    The hub of WebSocket connections keeps what its callers believe, a set of
    connections of tenants, and a message on the channel goes to the connections of
    the tenant that the worker published it for. *)

From S2P Require Import Prelude GoStd Json JsonSpec Decode Seal SealSpec Journal JournalSpec Queue Keys Api ApiJobs ApiNodes.
Import ApiNodes.

(** ** The hub as a set of subscriptions *)

Inductive hub_op := Subscribe (tenant : gostring) (conn : nat) | Leave (tenant : gostring) (conn : nat).

Definition hub_step (h : hub) (o : hub_op) : hub :=
  match o with Subscribe t c => hub_add t c h | Leave t c => hub_remove t c h end.

Definition set_step (s : gset (gostring * nat)) (o : hub_op) : gset (gostring * nat) :=
  match o with Subscribe t c => {[(t, c)]} ∪ s | Leave t c => s ∖ {[(t, c)]} end.

Definition hub_run (ops : list hub_op) : hub := foldl hub_step newHub ops.
Definition subscriptions (ops : list hub_op) : gset (gostring * nat) := foldl set_step ∅ ops.

(** The hub holds the set, and no tenant without connections. *)
Record holds (h : hub) (s : gset (gostring * nat)) : Prop := {
  holds_send t c : c ∈ hub_send t h <-> (t, c) ∈ s;
  holds_nonempty t cs : (h : gmap gostring (gset nat)) !! t = Some cs -> cs <> ∅;
}.

Lemma send_insert (t t' : gostring) (cs : gset nat) (h : gmap gostring (gset nat)) :
  hub_send t (<[t' := cs]> h) = if decide (t = t') then cs else hub_send t h.
Proof. unfold hub_send. destruct (decide (t = t')) as [->|]; [by rewrite lookup_insert_eq|by rewrite lookup_insert_ne]. Qed.

Lemma send_delete (t t' : gostring) (h : gmap gostring (gset nat)) :
  hub_send t (delete t' h) = if decide (t = t') then ∅ else hub_send t h.
Proof. unfold hub_send. destruct (decide (t = t')) as [->|]; [by rewrite lookup_delete_eq|by rewrite lookup_delete_ne]. Qed.

Lemma holds_step h s o : holds h s -> holds (hub_step h o) (set_step s o).
Proof.
  intros [Hs Hn]. destruct o as [t' c'|t' c']; cbn [hub_step set_step].
  - unfold hub_add. split; intros t.
    + intros c. specialize (Hs t c). rewrite send_insert, elem_of_union, elem_of_singleton, <- Hs. clear Hs. destruct (decide (t = t')) as [->|Ht].
      * unfold hub_send. set_solver.
      * set_solver.
    + intros cs [[<- <-]|[_ Hcs]]%lookup_insert_Some; [set_solver|by eapply Hn].
  - unfold hub_remove. cbv zeta. set (cs' := default ∅ _ ∖ {[c']}).
    assert (Hcs' : cs' = hub_send t' h ∖ {[c']}) by done. clearbody cs'.
    case_bool_decide as He; split; intros t.
    + intros c. rewrite send_delete, elem_of_difference, elem_of_singleton, <- Hs. clear Hs. destruct (decide (t = t')) as [->|Ht]; set_solver.
    + intros cs [_ Hcs]%lookup_delete_Some. by eapply Hn.
    + intros c. rewrite send_insert, elem_of_difference, elem_of_singleton, <- Hs. clear Hs. destruct (decide (t = t')) as [->|Ht]; set_solver.
    + intros cs [[<- <-]|[_ Hcs]]%lookup_insert_Some; [done|by eapply Hn].
Qed.

Lemma holds_run ops : holds (hub_run ops) (subscriptions ops).
Proof.
  unfold hub_run, subscriptions. induction ops as [|o ops IH] using rev_ind.
  - split; [|done]. intros t c. unfold hub_send, newHub. set_solver.
  - rewrite !foldl_snoc. by apply holds_step.
Qed.

(** ** The messages *)

Lemma event_json_written e :
  valid_utf8 (Queue.ev_tenant e) -> valid_utf8 (Queue.ev_job e) -> valid_utf8 (Queue.ev_status e) ->
  written (Queue.event_json e).
Proof.
  intros H1 H2 H3. apply written_obj. repeat constructor; cbn [fst snd]; try done; by apply ascii_text_valid.
Qed.

Lemma event_tenant_published `{!Seal.UUID} e :
  valid_utf8 (Queue.ev_tenant e) -> valid_utf8 (Queue.ev_job e) -> valid_utf8 (Queue.ev_status e) ->
  Queue.ev_tenant e <> [] -> event_tenant (Marshal (Queue.event_json e)) = Seal.uuid_parse (Queue.ev_tenant e).
Proof.
  intros H1 H2 H3 Hne. unfold event_tenant. rewrite Parse_Marshal by (by apply event_json_written).
  assert (E : set_struct event_fields set_event_field false (Queue.MkEvent [] [] []) (Queue.event_json e) = Some e)
    by (by destruct e).
  cbn [mbind option_bind]. rewrite E. cbn [mbind option_bind]. by rewrite (proj2 (seqb_neq _ _) Hne).
Qed.

(** C21 [event_reaches_tenant]: after any sequence of connections that are added to the
    hub and removed from it, the hub is the set of those that are there, by tenant,
    with no tenant left over; and the message that a worker publishes for a tenant
    goes to the connections of that tenant, all of them and nobody else's.  A message
    without a tenant goes nowhere. *)
Theorem event_reaches_tenant `{!Seal.UUID} ops e id c :
  valid_utf8 (Queue.ev_tenant e) -> valid_utf8 (Queue.ev_job e) -> valid_utf8 (Queue.ev_status e) ->
  Queue.ev_tenant e <> [] -> Seal.uuid_parse (Queue.ev_tenant e) = Some id ->
  (c ∈ hub_read (Marshal (Queue.event_json e)) (hub_run ops) <-> (id, c) ∈ subscriptions ops) /\
  (forall t cs, (hub_run ops : gmap gostring (gset nat)) !! t = Some cs -> cs <> ∅) /\
  forall payload, event_tenant payload = None -> hub_read payload (hub_run ops) = ∅.
Proof.
  intros H1 H2 H3 Hne Hid. destruct (holds_run ops) as [Hs Hn]. split; [|split; [exact Hn|]].
  - unfold hub_read. rewrite event_tenant_published, Hid by done. apply Hs.
  - unfold hub_read. by intros payload ->.
Qed.

#[local] Existing Instance toy_uuid.

Lemma event_reaches_tenant_witness :
  2 ∈ hub_read (Marshal (Queue.event_json (Queue.MkEvent "t1" "j1" "COMPLETED")))
        (hub_run [Subscribe "t1" 1; Subscribe "t2" 3; Subscribe "t1" 2; Leave "t1" 1]%go).
Proof.
  refine (proj2 (proj1 (event_reaches_tenant [Subscribe "t1" 1; Subscribe "t2" 3; Subscribe "t1" 2; Leave "t1" 1]%go
    (Queue.MkEvent "t1" "j1" "COMPLETED") "t1"%go 2 _ _ _ _ _)) _); try (by apply ascii_text_valid).
  - discriminate.
  - reflexivity.
  - apply (bool_decide_unpack _). vm_compute. exact I.
Defined.
