(* ===== verification/ApiLogic.v ===== *)
(** * Reasoning about handlers

    [moves R m]: whatever the network does, running [m] takes the tables along the
    preorder [R].  A preorder may be an invariant kept, rows left alone, or counts
    that only grow; each handler is taken apart once, in the hints of [moves]. *)

From S2P Require Import Prelude GoStd GoTime TimeParse Json Decode Ledger LedgerSpec Policy Seal Journal Proc Queue Keys Api ApiJobs ApiNodes.
Import Api ApiJobs ApiNodes.

Create HintDb moves.

#[export] Instance unchanged_preorder : PreOrder (@eq db).
Proof. split; [by intros ?|intros ? ? ? -> ->; done]. Qed.

Lemma next_fault_tables {Q} (w : world Q) : tables (next_fault w).2 = tables w.
Proof. unfold next_fault. by destruct (faults w). Qed.

Section commits.
Context (R : db -> db -> Prop) `{!PreOrder R}.

(** A statement, if it succeeds, moves along [R]. *)
Definition stays {A} (f : db -> result Ledger.sql_error (db * A)) : Prop :=
  forall d d' a, f d = Ok (d', a) -> R d d'.

(** The same for a transaction that is not rolled back. *)
Definition commits {A} (body : io db response A) : Prop :=
  forall d, match body d with (d', Ok _) => R d d' | _ => True end.

Lemma stays_select {A} (f : db -> option A) : stays (select f).
Proof using All. intros d d' a. unfold select. destruct (f d); [intros [= <- _]; reflexivity|done]. Qed.

Lemma commits_ret {A} (a : A) : commits (ret a).
Proof using All. intros d. cbn. reflexivity. Qed.
Lemma commits_throw {A} (e : response) : commits (throw (A := A) e).
Proof using All. by intros d. Qed.
Lemma commits_bind {A B} (m : io db response A) (k : A -> io db response B) :
  commits m -> (forall a, commits (k a)) -> commits (bind m k).
Proof using All.
  intros Hm Hk d. cbv beta delta [bind]. cbn [try io_effects]. specialize (Hm d). destruct (m d) as [d1 [a|e]]; [|done].
  specialize (Hk a d1). destruct (k a d1) as [d2 [b|e]]; [|done]. by etrans.
Qed.
Lemma commits_exec {A} fail (f : db -> result Ledger.sql_error (db * A)) : stays f -> commits (exec fail f).
Proof using All. intros Hf d. unfold exec. destruct (f d) as [[d' a]|e] eqn:E; [|done]. by eapply Hf. Qed.

Lemma stays_load tenant : stays (load_policy tenant).
Proof using All. intros d d' a [= <- _]. reflexivity. Qed.
End commits.

Section moves.
Context {Q : Type} (R : db -> db -> Prop) `{!PreOrder R}.
Abbreviation W := (world Q).

Definition moves {E A} (m : io W E A) : Prop := forall w, R (tables w) (tables (m w).1).

Lemma moves_ret {E A} (a : A) : moves (ret (E := E) a).
Proof using All. intros w. reflexivity. Qed.

Lemma moves_throw {E A} (e : E) : moves (throw (A := A) e).
Proof using All. intros w. reflexivity. Qed.

Lemma moves_try {E E' A B} (m : io W E A) (k : result E A -> io W E' B) :
  moves m -> (forall r, moves (k r)) -> moves (try m k).
Proof using All.
  intros Hm Hk w. cbn [try io_effects]. specialize (Hm w). destruct (m w) as [w1 r]. etrans; [exact Hm|apply Hk].
Qed.

Lemma moves_bind {E A B} (m : io W E A) (k : A -> io W E B) :
  moves m -> (forall a, moves (k a)) -> moves (bind m k).
Proof using All. intros Hm Hk. apply moves_try; [done|]. intros [a|e]; [apply Hk|apply moves_throw]. Qed.

Lemma moves_bind_err {E E' A B} (g : E -> E') (m : io W E A) (k : A -> io W E' B) :
  moves m -> (forall a, moves (k a)) -> moves (bind_err g m k).
Proof using All. intros Hm Hk. apply moves_try; [done|]. intros [a|e]; [apply Hk|apply moves_throw]. Qed.

Lemma moves_now {E} `{Environment} : moves (now (E := E)).
Proof using All. intros w. reflexivity. Qed.
Lemma moves_rand {E} `{Environment} n : moves (rand_read (E := E) n).
Proof using All. intros w. reflexivity. Qed.
Lemma moves_uuid {E} `{Environment} : moves (fresh_uuid (E := E)).
Proof using All. intros w. reflexivity. Qed.

Lemma moves_token {E} `{Environment} : moves (randomToken (E := E)).
Proof using All. intros w. reflexivity. Qed.

Lemma moves_sql {A} (f : db -> result Ledger.sql_error (db * A)) : stays R f -> moves (sql f).
Proof using All.
  intros Hf w. unfold sql. pose proof (next_fault_tables w) as E. destruct (next_fault w) as [o w1]. cbn [snd] in E.
  rewrite <- E. pose proof (Hf (tables w1)) as H. destruct o, (f (tables w1)) as [[d a]|e]; cbn; first [reflexivity|by eapply H].
Qed.

Lemma moves_query {A} (f : db -> list A) : moves (query f).
Proof using All.
  intros w. unfold query. pose proof (next_fault_tables w) as E. destruct (next_fault w) as [[] w1];
    cbn [snd] in E; rewrite <- E; reflexivity.
Qed.

Lemma moves_transaction {A} fail (body : io db response A) : commits R body -> moves (transaction fail body).
Proof using All.
  intros Hb w. unfold transaction. pose proof (next_fault_tables w) as E. destruct (next_fault w) as [o w1]. cbn [snd] in E.
  rewrite <- E. specialize (Hb (tables w1)). destruct (body (tables w1)) as [d [a|e]], o; cbn; done.
Qed.

Lemma moves_guard r b : moves (guard r b).
Proof using All. unfold guard. destruct b; [apply moves_ret|apply moves_throw]. Qed.
Lemma moves_some {A} r (o : option A) : moves (some_or_resp r o).
Proof using All. unfold some_or_resp. destruct o; [apply moves_ret|apply moves_throw]. Qed.
Lemma moves_or_down {A} what (m : io W db_error A) : moves m -> moves (or_down what m).
Proof using All. intros H. apply moves_bind_err; [done|]. intros. apply moves_ret. Qed.
Lemma moves_ignore {E A} (m : io W E A) : moves m -> moves (ignore m).
Proof using All. intros H. apply moves_try; [done|]. intros. apply moves_ret. Qed.
Lemma moves_redis {A} `{Environment} (f : time -> gmap gostring (Z * option time) -> A * gmap gostring (Z * option time)) :
  moves (redis f).
Proof using All.
  intros w. unfold redis. pose proof (next_fault_tables w) as E. destruct (next_fault w) as [[] w1]; cbn [snd] in E; rewrite <- E; reflexivity.
Qed.
Lemma moves_running `{!Enqueuer Q} id : moves (is_running id).
Proof using All. intros w. reflexivity. Qed.
End moves.

(** ** What a step that succeeds tells *)

Section tells.
Context {Q : Type} (R : db -> db -> Prop) `{!PreOrder R}.

Lemma moves_guarded {B} r b (k : io (world Q) response B) :
  (b = true -> moves R k) -> moves R (bind (guard r b) (fun _ => k)).
Proof using All. intros H w. destruct b; [by apply H|cbn; reflexivity]. Qed.

Lemma moves_given {A B} r (o : option A) (k : A -> io (world Q) response B) :
  (forall a, o = Some a -> moves R (k a)) -> moves R (bind (some_or_resp r o) k).
Proof using All. intros H w. destruct o as [a|]; [by apply (H a)|cbn; reflexivity]. Qed.

Lemma bind_assoc_io {W E A B C} (m : io W E A) (k : A -> io W E B) (f : B -> io W E C) w :
  bind (bind m k) f w = bind m (fun a => bind (k a) f) w.
Proof. unfold bind, throw. cbn. by destruct (m w) as [w' [a|e]]. Qed.

Lemma moves_assoc {E A B C} (m : io (world Q) E A) (k : A -> io (world Q) E B) (f : B -> io (world Q) E C) :
  moves R (bind m (fun a => bind (k a) f)) -> moves R (bind (bind m k) f).
Proof. intros H w. rewrite bind_assoc_io. apply H. Qed.
End tells.

#[export] Hint Extern 0 (PreOrder _) => apply _ : moves.
#[export] Hint Resolve moves_ret moves_throw moves_now moves_rand moves_uuid moves_token moves_query moves_guard moves_some
  moves_redis moves_running stays_select stays_load commits_ret commits_throw : moves.

(** Takes a handler apart; what is left are its statements that write. *)
Ltac moves_step :=
  first
    [ progress (intros; cbv zeta)
    | solve [eauto 2 with moves]
    | solve [apply _]
    | match goal with |- moves _ (bind (bind _ _) _) => apply moves_assoc end
    | apply moves_guarded
    | apply moves_given
    | apply moves_bind
    | apply moves_bind_err
    | apply moves_try
    | apply moves_or_down
    | apply moves_ignore
    | apply moves_transaction
    | apply moves_sql
    | apply commits_bind
    | apply commits_exec
    | match goal with
      | |- moves _ (match ?x with _ => _ end) => destruct x eqn:?
      | |- moves _ (if ?x then _ else _) => destruct x eqn:?
      | |- commits _ (match ?x with _ => _ end) => destruct x
      | |- commits _ (if ?x then _ else _) => destruct x
      end ].
Ltac moves := repeat moves_step.


(** ** From where a handler starts

    The same when it starts where [Pre] holds: what a query found is still there as
    long as nothing has been written. *)

Section moves_in.
Context {Q : Type}.
Abbreviation W := (world Q).

Definition moves_in (Pre : db -> Prop) (R : db -> db -> Prop) {E A} (m : io W E A) : Prop :=
  forall w, Pre (tables w) -> R (tables w) (tables (m w).1).

(** Nothing is written. *)
Definition quiet {E A} (m : io W E A) : Prop := moves eq m.

Lemma moves_moves_in Pre R {E A} (m : io W E A) : moves R m -> moves_in Pre R m.
Proof. intros H w _. apply H. Qed.

Lemma moves_in_all R {E A} (m : io W E A) : moves_in (fun _ => True) R m -> moves R m.
Proof. intros H w. by apply H. Qed.

Lemma moves_in_bind Pre R {E A B} (m : io W E A) (k : A -> io W E B) :
  Reflexive R -> quiet m -> (forall a, moves_in Pre R (k a)) -> moves_in Pre R (bind m k).
Proof.
  intros HR Hm Hk w Hw. cbv beta delta [bind]. cbn [try io_effects]. specialize (Hm w). destruct (m w) as [w1 [a|e]]; cbn [fst] in *.
  - rewrite Hm in *. by apply Hk.
  - rewrite Hm. apply HR.
Qed.

Lemma moves_in_bind_err Pre R {E E' A B} (g : E -> E') (m : io W E A) (k : A -> io W E' B) :
  Reflexive R -> quiet m -> (forall a, moves_in Pre R (k a)) -> moves_in Pre R (bind_err g m k).
Proof.
  intros HR Hm Hk w Hw. cbv beta delta [bind_err]. cbn [try io_effects]. specialize (Hm w).
  destruct (m w) as [w1 [a|e]]; cbn [fst] in *.
  - rewrite Hm in *. by apply Hk.
  - rewrite Hm. apply HR.
Qed.

(** What a query found holds of the tables. *)
Lemma moves_in_select Pre R {E A B} (g : db_error -> E) (f : db -> option A) (k : A -> io W E B) :
  Reflexive R -> (forall a, moves_in (fun d => Pre d /\ f d = Some a) R (k a)) ->
  moves_in Pre R (bind (bind_err g (sql (select f)) ret) k).
Proof.
  intros HR Hk w Hw. cbv beta delta [bind bind_err]. cbn [try io_effects]. unfold sql.
  pose proof (next_fault_tables w) as Et. destruct (next_fault w) as [o w1]. cbn [snd] in Et. unfold select.
  destruct o as [|n|n], (f (tables w1)) as [a|] eqn:Ef; cbn; rewrite ?Et; try apply HR.
  specialize (Hk a (set_tables (tables w1) w1)). cbn in Hk. rewrite Et in *. apply Hk. by split.
Qed.

Lemma moves_in_transaction Pre (R : db -> db -> Prop) {A} fail (body : io db response A) :
  Reflexive R -> (forall d, Pre d -> match body d with (d', Ok _) => R d d' | _ => True end) ->
  moves_in Pre R (transaction fail body).
Proof.
  intros HR Hb w Hw. unfold transaction. pose proof (next_fault_tables w) as E. destruct (next_fault w) as [o w1]. cbn [snd] in E.
  rewrite <- E in Hw |- *. specialize (Hb _ Hw). destruct (body (tables w1)) as [d [a|e]], o; cbn; done.
Qed.

(** Two statements, the first of which needs what holds at the start. *)
Lemma commits_in_exec Pre (R : db -> db -> Prop) {A B} fail (f : db -> result Ledger.sql_error (db * A)) (k : A -> io db response B) :
  Transitive R -> (forall d d' a, Pre d -> f d = Ok (d', a) -> R d d') -> (forall a, commits R (k a)) ->
  forall d, Pre d -> match bind (exec fail f) k d with (d', Ok _) => R d d' | _ => True end.
Proof.
  intros HR Hf Hk d Hd. cbv beta delta [bind exec]. cbn [try io_effects]. destruct (f d) as [[d1 a]|e] eqn:E; [|done].
  specialize (Hk a d1). destruct (k a d1) as [d2 [b|e]]; [|done]. eapply HR; [by eapply Hf|done].
Qed.

Lemma moves_in_sql Pre (R : db -> db -> Prop) {A} (f : db -> result Ledger.sql_error (db * A)) :
  Reflexive R -> (forall d d' a, Pre d -> f d = Ok (d', a) -> R d d') -> moves_in Pre R (sql f).
Proof.
  intros HR Hf w Hw. unfold sql. pose proof (next_fault_tables w) as E. destruct (next_fault w) as [o w1]. cbn [snd] in E.
  rewrite <- E in Hw |- *. pose proof (Hf (tables w1)) as H. destruct o, (f (tables w1)) as [[d a]|e]; cbn;
    first [apply HR|by eapply H].
Qed.

Lemma moves_in_guarded Pre R {B} r b (k : io W response B) :
  Reflexive R -> (b = true -> moves_in Pre R k) -> moves_in Pre R (bind (guard r b) (fun _ => k)).
Proof. intros HR H w Hw. destruct b; [by apply H|apply HR]. Qed.

Lemma moves_in_given Pre R {A B} r (o : option A) (k : A -> io W response B) :
  Reflexive R -> (forall a, o = Some a -> moves_in Pre R (k a)) -> moves_in Pre R (bind (some_or_resp r o) k).
Proof. intros HR H w Hw. destruct o as [a|]; [by apply (H a)|apply HR]. Qed.

Lemma moves_in_try Pre R {E E' A B} (m : io W E A) (k : result E A -> io W E' B) :
  Transitive R -> moves_in Pre R m -> (forall r, moves R (k r)) -> moves_in Pre R (try m k).
Proof.
  intros HR Hm Hk w Hw. cbn [try io_effects]. specialize (Hm w Hw). destruct (m w) as [w1 r].
  eapply HR; [exact Hm|apply Hk].
Qed.

(** What holds at the start may survive a step that writes. *)
Lemma moves_in_keep (Pre : db -> Prop) (R : db -> db -> Prop) {E E' A B} (m : io W E A) (k : result E A -> io W E' B) :
  Transitive R -> moves_in Pre (fun d d' => R d d' /\ Pre d') m -> (forall r, moves_in Pre R (k r)) ->
  moves_in Pre R (try m k).
Proof.
  intros HR Hm Hk w Hw. cbn [try io_effects]. destruct (Hm w Hw) as [H1 H2]. destruct (m w) as [w1 r].
  eapply HR; [exact H1|by apply Hk].
Qed.

(** What a statement that succeeds establishes. *)
Lemma moves_after_sql (Post : db -> Prop) (R : db -> db -> Prop) {A B} what (f : db -> result Ledger.sql_error (db * A))
    (k : A -> io W response B) :
  PreOrder R -> (forall d d' a, f d = Ok (d', a) -> R d d' /\ Post d') -> (forall a, moves_in Post R (k a)) ->
  moves R (bind (or_down what (sql f)) k).
Proof.
  intros HR Hf Hk w. unfold or_down. io_run. unfold sql.
  pose proof (next_fault_tables w) as E. destruct (next_fault w) as [o w1]. cbn [snd] in E. rewrite <- E.
  destruct (f (tables w1)) as [[d a]|e] eqn:Ef; [|destruct o; cbn; reflexivity].
  apply Hf in Ef as [Ed Hp]. destruct o; cbn; [|reflexivity|done].
  etrans; [exact Ed|]. by apply (Hk a (set_tables d w1)).
Qed.
End moves_in.

(** Takes a handler apart up to its first statement that writes. *)
Ltac moves_in_step :=
  first
    [ progress (intros; cbv zeta)
    | apply moves_in_guarded; [apply _|]
    | apply moves_in_given; [apply _|]
    | apply moves_in_select; [apply _|]
    | apply moves_in_bind; [apply _|solve [unfold quiet; moves]|]
    | apply moves_in_bind_err; [apply _|solve [unfold quiet; moves]|] ].
Ltac moves_in := repeat moves_in_step.

(** [authenticate] finds a session before it touches it. *)
Lemma authenticate_moves {Q} `{Environment} cfg (R : db -> db -> Prop) `{!PreOrder R} r :
  (forall t hash d sk, select_session hash d = Some sk -> forall d', touch t (s_id sk.1) d = Ok (d', tt) -> R d d') ->
  moves (Q := Q) R (authenticate cfg r).
Proof.
  intros Ht. unfold authenticate. destruct (negb _); [moves|].
  destruct (Cookie _ r) as [[|b value]|]; [moves| |moves].
  apply moves_bind; [apply _|moves|]. intros t. apply moves_in_all, moves_in_select; [apply _|].
  intros sk. destruct (negb (session_valid t sk)); [apply moves_moves_in; moves|].
  apply moves_in_try; [apply _| |intros; moves]. apply moves_in_sql; [apply _|].
  intros d d' [] [_ Hs]. by eapply Ht.
Qed.

(** ** What a result tells of the steps before it *)

Lemma bind_Ok {X E A B} (m : io X E A) (k : A -> io X E B) x x' b :
  bind m k x = (x', Ok b) -> exists x1 a, m x = (x1, Ok a) /\ k a x1 = (x', Ok b).
Proof. io_run. destruct (m x) as [x1 [a|e]]; [|done]. intros E'. by exists x1, a. Qed.

Lemma bind_err_Ok {X E E' A B} (g : E -> E') (m : io X E A) (k : A -> io X E' B) x x' b :
  bind_err g m k x = (x', Ok b) -> exists x1 a, m x = (x1, Ok a) /\ k a x1 = (x', Ok b).
Proof. io_run. destruct (m x) as [x1 [a|e]]; [|done]. intros H. by exists x1, a. Qed.

Lemma guard_Ok {Q} r b (w w' : world Q) u : guard r b w = (w', Ok u) -> w' = w /\ b = true.
Proof. destruct b; [|done]. by intros [= -> _]. Qed.

Lemma some_Ok {Q A} r (o : option A) (w w' : world Q) a : some_or_resp r o w = (w', Ok a) -> w' = w /\ o = Some a.
Proof. destruct o; [|done]. by intros [= -> ->]. Qed.

(** ** What an early return can be *)

Section errs.
Context {Q : Type} (P : response -> Prop).
Abbreviation W := (world Q).

Definition errs {X A} (m : io X response A) : Prop := forall x x' e, m x = (x', Err e) -> P e.

Lemma errs_ret {X A} (a : A) : errs (ret (M := io X) a).
Proof. by intros x x' e. Qed.
Lemma errs_throw {X A} e : P e -> errs (throw (M := io X) (A := A) e).
Proof. by intros He x x' e' [= _ <-]. Qed.
Lemma errs_bind {X A B} (m : io X response A) (k : A -> io X response B) :
  errs m -> (forall a, errs (k a)) -> errs (bind m k).
Proof.
  intros Hm Hk x x' e. io_run. destruct (m x) as [x1 [a|e1]] eqn:Em; [apply Hk|].
  intros [= _ <-]. by apply Hm in Em.
Qed.
Lemma errs_bind_err {X E A B} (g : E -> response) (m : io X E A) (k : A -> io X response B) :
  (forall e, P (g e)) -> (forall a, errs (k a)) -> errs (bind_err g m k).
Proof.
  intros Hg Hk x x' e. io_run. destruct (m x) as [x1 [a|e1]] eqn:Em; [apply Hk|]. intros [= _ <-]. apply Hg.
Qed.
Lemma errs_try {X E A B} (m : io X E A) (k : result E A -> io X response B) : (forall r, errs (k r)) -> errs (try m k).
Proof. intros Hk x x' e. cbn [try io_effects]. destruct (m x) as [x1 r]. apply Hk. Qed.
Lemma errs_guard r b : (b = false -> P r) -> errs (guard (Q := Q) r b).
Proof. intros Hr. unfold guard. destruct b; [apply errs_ret|by apply errs_throw, Hr]. Qed.
Lemma errs_some {A} r (o : option A) : P r -> errs (some_or_resp (Q := Q) r o).
Proof. intros Hr. unfold some_or_resp. destruct o; [apply errs_ret|by apply errs_throw]. Qed.
Lemma errs_transaction {A} fail (body : io db response A) :
  (forall n, P (fail n)) -> errs body -> errs (transaction (Q := Q) fail body).
Proof.
  intros Hf Hb w w' e. unfold transaction. destruct (next_fault w) as [o w1].
  destruct (body (tables w1)) as [d [a|e1]] eqn:Eb; destruct o; intros [= _ <-]; try apply Hf; by eapply Hb.
Qed.
Lemma errs_exec {A} fail (f : db -> result Ledger.sql_error (db * A)) : (forall e, P (fail e)) -> errs (exec fail f).
Proof. intros Hf d d' e. unfold exec. destruct (f d) as [[d1 a]|e1]; [done|]. intros [= _ <-]. apply Hf. Qed.
Lemma errs_now `{Environment} : errs (now (Q := Q)).
Proof. by intros w w' e. Qed.
Lemma errs_rand `{Environment} n : errs (rand_read (Q := Q) n).
Proof. by intros w w' e. Qed.
Lemma errs_uuid `{Environment} : errs (fresh_uuid (Q := Q)).
Proof. by intros w w' e. Qed.
End errs.

Ltac errs_step :=
  first
    [ progress (intros; cbv zeta)
    | match goal with
      | |- errs _ ?m => first [apply errs_ret|apply errs_throw|apply errs_guard|apply errs_some|apply errs_now|apply errs_rand
          |apply errs_uuid|apply errs_bind|apply errs_bind_err|apply errs_transaction|apply errs_exec|apply errs_try]
      | |- errs _ (match ?x with _ => _ end) => destruct x eqn:?
      | |- errs _ (if ?x then _ else _) => destruct x eqn:?
      end ].

(** All that a handler can return early. *)
Ltac errs := repeat errs_step; try done.
