(* ===== verification/ApiQueue.v ===== *)
(** * The queue behind the control plane

    The interface [Enqueuer] that the handlers use, implemented by the processes of
    [Queue] on a network that may refuse commands and lose replies; and a small
    deployment, on which the theorems are tried. *)

From S2P Require Import Prelude GoStd GoTime Base64 Sha256 Json LedgerSpec Ledger Policy Seal SealSpec Journal JournalSpec Proc Queue QueueLogic QueueSpec QueueOnce Keys Api ApiJobs.

(** ** The queue as the handlers see it *)

#[local] Existing Instance Seal.pg_keys.
#[local] Existing Instance Queue.M_effects.

Section broker.
Context `{!Queue.StreamIDs, !Queue.Sources, !Journal.JobIDs, !Seal.UUID, !Seal.AEAD, !Seal.Vault}.
Context {RS J : Type} `{!Seal.ReceiptStore RS, !Journal.Store J}.

(** What the processes share, and what the network does to the next commands. *)
Record broker := Broker { bus : Queue.world Seal.pgKeyStore RS J; plan : list (Proc.outcome Queue.transport) }.

Definition run_queue {A} (m : Queue.M Queue.error A) (b : broker) : Queue.world Seal.pgKeyStore RS J * result Queue.error A :=
  let x := Proc.run_under Queue.exec Queue.fallible Queue.lost (fun n => nth n (plan b) Proc.Served) 0 (m None) (bus b) in
  (x.1, x.2.2).

Definition forget {A B} (r : result A B) : result unit B := match r with Ok b => Ok b | Err _ => Err tt end.

#[export] Instance redis_queue : ApiJobs.Enqueuer broker := {|
  ApiJobs.add j k b :=
    let x := run_queue (Queue.Add true j) (Broker (Queue.set_keys k (bus b)) (plan b)) in
    (Queue.keys x.1, Broker x.1 (drop 3 (plan b)), forget x.2);
  ApiJobs.job_running id b := forget (run_queue (Queue.JobRunning id) b).2;
|}.

(** A successful [Add] on this network is one that met no failure. *)
Lemma run_Add_Ok j o n (w w' : Queue.world Seal.pgKeyStore RS J) l :
  Proc.run_under Queue.exec Queue.fallible Queue.lost o n (Queue.Add true j None) w = (w', (l, Ok tt)) ->
  Proc.arun Queue.exec (Queue.Add true j) None w = (w', (l, Ok tt)).
Proof.
  unfold Proc.arun, Queue.Add, Queue.Seal_, Queue.enqueue. cbn [negb]. destruct (seqb _ _); [done|].
  unfold bind, Proc.ask, throw, Queue.of_result. cbn -[Queue.exec].
  destruct (o n); cbn -[Queue.exec Seal.sealWithNonce]; [|done..].
  destruct (Queue.exec (Queue.CEnsure _) w) as [w1 [key|e]]; cbn -[Queue.exec Seal.sealWithNonce]; [|done].
  destruct (Queue.exec (Queue.CRand _) w1) as [w2 [nonce|e]]; cbn -[Queue.exec Seal.sealWithNonce]; [|done].
  destruct (Seal.sealWithNonce _ _ _) as [sealed|e]; cbn -[Queue.exec]; [|done].
  destruct (o (S (S n))); cbn -[Queue.exec]; [|done..].
  by destruct (Queue.exec (Queue.CXAdd _) w2).
Qed.

Lemma run_queue_Add `{!Queue.SourcesLaws, !Seal.AEADLaws, !Seal.VaultLaws} j (b : broker) w' :
  Seal.keys_ok (Queue.keys (bus b)) -> run_queue (Queue.Add true j) b = (w', Ok tt) ->
  exists key sealed i, Queue.ID j <> [] /\ Seal.Open key sealed = Ok (Queue.Input j) /\
    Seal.key_of (Queue.keys w') (Journal.DurableIDFor (Queue.ID j)) = Seal.Live key /\
    Queue.stream (Queue.redis w') = Queue.stream (Queue.redis (bus b)) ++
      [(i, entry_of (Queue.MkJob (Queue.ID j) sealed (Queue.TenantID j) (Queue.JobType j)))].
Proof.
  intros Hk E. unfold run_queue in E. destruct (Proc.run_under _ _ _ _ _ _ _) as [w1 [l r]] eqn:Er.
  injection E as -> ->. apply run_Add_Ok in Er.
  destruct (Add_result j (bus b) w' l Hk Er) as (key & sealed & i & ? & ? & ? & ? & _). by exists key, sealed, i.
Qed.
End broker.

(** ** A small deployment

    Two tenants; the first has an administrator with an open session, a node, and a
    job that is done and can be seen twice by a link. *)

#[export] Instance toy_environment : Api.Environment := {|
  Api.clock n := (Z.of_nat (3600 + n) * Second)%Z;
  Api.random i n := replicate n (byte_of_nat (65 + i));
  Api.new_uuid n := "u" ++ Itoa (Z.of_nat n);
  Api.url_host o := Some o;
  Api.local_offset _ := 0%Z;
|}.

Definition toy_config : Api.config := Api.MkConfig ["ops.example"%go] false ["redact"; "mask"]%go.

Definition toy_job_row : Journal.jobRow :=
  Journal.MkJobRow (Journal.MkStored "id:j1" "redact" Journal.COMPLETED "c0" 0 1000) "t1" (Some "sig"%go) (Some "key"%go).

Definition toy_tables : Api.db :=
  Api.Db
    [Keys.MkKey "k1" "t1" "boss" "ADMINKEY" (Sha256.Sum256 "ch_ADMINKEY_s") "admin" 0 None;
     Keys.MkKey "k2" "t1" "node" "NODEKEYS" (Sha256.Sum256 "ch_NODEKEYS_s") "sentinel" 0 None;
     Keys.MkKey "k3" "t2" "app" "OTHERAPP" (Sha256.Sum256 "ch_OTHERAPP_s") "app" 0 None]
    [Api.MkSession "s1" "t1" "k1" (Sha256.Sum256 "cookie") "csrf" (3590 * Second) (7200 * Second) None]
    {[("j1" : gostring) := Api.MkAccept "t1" 0 "cold-harbour"]}
    (Journal.MkPg {[("id:j1" : gostring) := toy_job_row]}
       {[("j1" : gostring) := Journal.MkOutput Journal.COMPLETED "{}" "t1"]})
    ∅ (∅ : gmap gostring Seal.keyRow)
    {[ApiJobs.sha256Hex "tok" := Api.MkLink "j1" "t1" (7200 * Second) 2 0]}
    [] ∅ ∅
    (Ledger.Db ["t1"; "t2"]%go [] ∅).

Definition toy_broker : Type := @broker Seal.MemoryReceiptStore Journal.MemoryJournal.

Definition toy_bus : toy_broker :=
  Broker (Queue.World (Queue.MkRedis [] Queue.StreamIDZero None [] [] ∅ ∅ []) (∅ : gmap gostring Seal.keyRow) ∅
            empty_memory (Policy.Store ∅ (Ledger.Db [] [] ∅)) [] 0 0) [].

Definition toy_server : Api.world toy_broker := Api.World toy_tables ∅ toy_bus [] 0 0 0.

Definition no_query : gostring -> gostring := fun _ => [].

(** A request by an API key. *)
Definition key_request (method key path : gostring) (body : gostring) : Api.request :=
  Api.MkRequest method key [] [] [] [] path no_query (Some body).

(** A request of the open session. *)
Definition cookie_request (method csrf origin path : gostring) (body : gostring) : Api.request :=
  Api.MkRequest method [] [("__Host-ch_session", "cookie")]%go csrf origin [] path no_query (Some body).
