(* ===== verification/ApiReads.v ===== *)
(** * The control plane: what a tenant can read

    The answer to a request that reads is what it would be if the tables held the
    rows of the tenant alone: the other tenants might as well not be there. *)

From S2P Require Import Prelude GoStd GoTime TimeParse Json Sha256 Ledger Policy Seal Journal Proc Queue SealSpec JournalSpec QueueSpec Keys Api ApiJobs ApiNodes ApiLogic ApiQueue.
Import Api ApiJobs ApiNodes.

Section view.
Context {ids : Journal.JobIDs} (t : gostring).

(** The identifiers of the tenant's jobs in [jobs] and [purge_receipts]. *)
Definition own_jobs (d : db) : list gostring :=
  (fun ia => Journal.DurableIDFor ia.1) <$> map_to_list (filter (fun ia => a_tenant ia.2 = t) (job_accepts d)).

(** The rows of a tenant; a receipt has no tenant of its own, it is the tenant's when
    the job is.  Job keys and the accesses to links are not for reading. *)
Definition view (d : db) : db := Db
  (filter (fun k => Keys.key_tenant k = t) (api_keys d))
  (filter (fun s => s_tenant s = t) (sessions d))
  (filter (fun ia => a_tenant ia.2 = t) (job_accepts d))
  (Journal.MkPg (filter (fun x => Journal.job_tenant x.2 = t) (Journal.jobs (journal d)))
                (filter (fun x => Journal.out_tenant x.2 = t) (Journal.pg_outputs (journal d))))
  (filter (fun x => x.1 ∈ own_jobs d) (purge_receipts d))
  (∅ : gmap gostring Seal.keyRow)
  (filter (fun x => l_tenant x.2 = t) (delivery_links d))
  []
  (filter (fun x => x.1.1 = t) (sentinel_nodes d))
  (filter (fun x => x.1 = t) (policies d))
  (Ledger.Db (filter (fun x => x = t) (Ledger.tenants (audit d)))
             (filter (fun e => Ledger.tenant_id e = t) (Ledger.audit_ledger (audit d)))
             (filter (fun x => x.1 = t) (Ledger.ledger_heads (audit d)))).

(** *** Filtering twice *)

Lemma map_filter_twice `{Countable K} {A} (P : K * A -> Prop) `{!forall x, Decision (P x)} (m : gmap K A) :
  filter P (filter P m) = filter P m.
Proof. rewrite map_filter_filter. apply map_filter_ext. intros. tauto. Qed.

Lemma list_filter_twice {A} (P : A -> Prop) `{!forall x, Decision (P x)} (l : list A) :
  filter P (filter P l) = filter P l.
Proof. rewrite list_filter_filter. apply list_filter_iff. tauto. Qed.

(** *** The queries *)

Definition same {A} (f : db -> A) : Prop := forall d, f (view d) = f d.

Lemma same_keys : same (keys_of t).
Proof. intros d. unfold keys_of. cbn [api_keys view]. by rewrite list_filter_twice. Qed.

Lemma same_nodes : same (nodes_of t).
Proof. intros d. unfold nodes_of. cbn [sentinel_nodes view]. by rewrite map_filter_twice. Qed.

Lemma same_output id : same (output_for id t).
Proof.
  intros d. unfold output_for. cbn [journal view Journal.pg_outputs]. rewrite map_lookup_filter.
  destruct (Journal.pg_outputs (journal d) !! id) as [o|]; [|done]. cbn [mbind option_bind].
  destruct (seqb (Journal.out_tenant o) t) eqn:E.
  - apply seqb_eq in E. rewrite option_guard_True by done. cbn. by rewrite E, seqb_refl.
  - apply seqb_neq in E. by rewrite option_guard_False.
Qed.

Lemma same_job id : same (job_row_for id t).
Proof.
  intros d. unfold job_row_for. cbn [journal view Journal.jobs]. rewrite map_lookup_filter.
  destruct (Journal.jobs (journal d) !! Journal.DurableIDFor id) as [j|]; [|done]. cbn [mbind option_bind].
  destruct (seqb (Journal.job_tenant j) t) eqn:E.
  - apply seqb_eq in E. rewrite option_guard_True by done. cbn. by rewrite E, seqb_refl.
  - apply seqb_neq in E. by rewrite option_guard_False.
Qed.

Lemma same_accepted id : same (accepted_for id t).
Proof.
  intros d. unfold accepted_for. cbn [job_accepts view]. rewrite map_lookup_filter.
  destruct (job_accepts d !! id) as [a|]; [|done]. cbn [mbind option_bind].
  destruct (seqb (a_tenant a) t) eqn:E.
  - apply seqb_eq in E. rewrite option_guard_True by done. cbn. by rewrite E, seqb_refl.
  - apply seqb_neq in E. by rewrite option_guard_False.
Qed.

Lemma same_result id : same (select_result id t).
Proof. intros d. unfold select_result. by rewrite same_output, same_job. Qed.

Lemma same_jobs : same (jobs_of t).
Proof.
  intros d. unfold jobs_of. cbn [job_accepts view]. rewrite map_filter_twice.
  apply list_fmap_ext. intros i ia _. by rewrite same_output.
Qed.

Lemma same_between from to : same (accepted_between t from to).
Proof.
  intros d. unfold accepted_between. cbn [job_accepts view]. cbv zeta. do 2 f_equal.
  rewrite map_filter_filter. apply map_filter_ext. intros i a _. cbn. tauto.
Qed.

Lemma same_policy d : load_policy t (view d) = match load_policy t d with Ok (_, x) => Ok (view d, x) | Err e => Err e end.
Proof.
  unfold load_policy, policy_store, Policy.Load. cbn [policies view audit Policy.policies]. rewrite map_lookup_filter.
  destruct (policies d !! t) as [[v raw]|]; [|done]. cbn [mbind option_bind].
  by rewrite option_guard_True.
Qed.

(** The receipt of a job that the tenant has posted. *)
Lemma same_receipt id d : is_Some (accepted_for id t d) ->
  purge_receipts (view d) !! Journal.DurableIDFor id = purge_receipts d !! Journal.DurableIDFor id.
Proof.
  unfold accepted_for. intros [a Ha]. apply bind_Some in Ha as (a' & Ha & E).
  destruct (seqb (a_tenant a') t) eqn:Et; [|done]. apply seqb_eq in Et. cbn [purge_receipts view].
  rewrite map_lookup_filter. destruct (purge_receipts d !! _) as [r|]; [|done]. cbn [mbind option_bind].
  rewrite option_guard_True; [done|]. cbn. unfold own_jobs. apply list_elem_of_fmap. exists (id, a'). split; [done|].
  apply elem_of_map_to_list, map_lookup_filter_Some. by split.
Qed.
End view.

(** ** Handlers that read

    [reads m]: run where the tables hold the rows of the tenant only, [m] does what it
    does where they hold everything.  [Pre] is what a query before has found. *)

Section reads.
Context {ids : Journal.JobIDs} {Q : Type} (t : gostring).
Abbreviation W := (world Q).
Implicit Types w : W.

Definition on_view w : W := set_tables (view t (tables w)) w.

Definition reads (Pre : db -> Prop) {E A} (m : io W E A) : Prop := forall w,
  Pre (tables w) -> tables (m w).1 = tables w /\ m (on_view w) = (on_view (m w).1, (m w).2).

Lemma on_view_same w w1 : tables w1 = tables w ->
  on_view w1 = World (view t (tables w)) (counters w1) (queue w1) (faults w1) (ticks w1) (draws w1) (idents w1).
Proof. unfold on_view, set_tables. by intros ->. Qed.

Lemma next_fault_view w : next_fault (on_view w) = ((next_fault w).1, on_view (next_fault w).2).
Proof. destruct w as [d c q f n m i]. by destruct f. Qed.

Lemma set_tables_self w : set_tables (tables w) w = w.
Proof. by destruct w. Qed.

Lemma reads_ret Pre {E A} (a : A) : reads Pre (ret (E := E) a).
Proof. by intros w _. Qed.
Lemma reads_throw Pre {E A} (e : E) : reads Pre (throw (A := A) e).
Proof. by intros w _. Qed.

Lemma reads_try Pre {E E' A B} (m : io W E A) (k : result E A -> io W E' B) :
  reads Pre m -> (forall r, reads Pre (k r)) -> reads Pre (try m k).
Proof.
  intros Hm Hk w Hw. cbn [try io_effects]. destruct (Hm w Hw) as [Et Ev]. rewrite Ev.
  destruct (m w) as [w1 r]. cbn [fst snd] in *. destruct (Hk r w1) as [Et' Ev']; [by rewrite Et|].
  split; [by rewrite Et'|exact Ev'].
Qed.

Lemma reads_bind Pre {E A B} (m : io W E A) (k : A -> io W E B) :
  reads Pre m -> (forall a, reads Pre (k a)) -> reads Pre (bind m k).
Proof. intros Hm Hk. apply reads_try; [done|]. intros [a|e]; [apply Hk|apply reads_throw]. Qed.

Lemma reads_bind_err Pre {E E' A B} (g : E -> E') (m : io W E A) (k : A -> io W E' B) :
  reads Pre m -> (forall a, reads Pre (k a)) -> reads Pre (bind_err g m k).
Proof. intros Hm Hk. apply reads_try; [done|]. intros [a|e]; [apply Hk|apply reads_throw]. Qed.

Lemma reads_some Pre {A} r (o : option A) : reads Pre (some_or_resp r o).
Proof. destruct o; [apply reads_ret|apply reads_throw]. Qed.

Lemma reads_or_down Pre {A} what (m : io W db_error A) : reads Pre m -> reads Pre (or_down what m).
Proof. intros Hm. apply reads_bind_err; [done|]. intros. apply reads_ret. Qed.

(** A statement that changes nothing. *)
Lemma reads_sql Pre {A} (f : db -> result Ledger.sql_error (db * A)) :
  (forall d, Pre d -> match f d with
            | Ok (d', a) => d' = d /\ f (view t d) = Ok (view t d, a)
            | Err e => f (view t d) = Err e
            end) ->
  reads Pre (sql f).
Proof.
  intros Hf w Hw. unfold sql. rewrite next_fault_view. pose proof (next_fault_tables w) as Et.
  destruct (next_fault w) as [o w1]. cbn [fst snd] in *. cbn [tables on_view set_tables].
  rewrite <- Et in Hw. specialize (Hf _ Hw). destruct (f (tables w1)) as [[d a]|e].
  - destruct Hf as [-> ->]. destruct o; cbn [fst snd]; by rewrite ?set_tables_self.
  - rewrite Hf. by destruct o.
Qed.

Lemma reads_select Pre {A} (f : db -> option A) :
  (forall d, Pre d -> f (view t d) = f d) -> reads Pre (sql (select f)).
Proof. intros Hf. apply reads_sql. intros d Hd. unfold select. rewrite Hf by done. by destruct (f d). Qed.

(** A query for many rows; what follows may use that they are there. *)
Lemma reads_query Pre {A B} what (f : db -> list A) (k : list A -> io W response B) :
  (forall d, f (view t d) = f d) -> (forall l, reads (fun d => Pre d /\ forall x, x ∈ l -> x ∈ f d) (k l)) ->
  reads Pre (bind (or_down what (query f)) k).
Proof.
  intros Hf Hk w Hw. unfold or_down, query. io_run. rewrite next_fault_view. pose proof (next_fault_tables w) as Et.
  destruct (next_fault w) as [o w1]. cbn [fst snd] in *. cbn [tables on_view set_tables]. rewrite Hf.
  rewrite <- Et in Hw |- *. destruct o; cbn [fst snd]; [|done|]; apply Hk; (split; [done|]); intros x Hx; [done|].
  apply (elem_of_submseteq _ _ _ Hx), sublist_submseteq, sublist_take.
Qed.
End reads.

(** ** The handlers *)

Section handlers.
Context `{Environment, !Seal.UUID} {ids : Journal.JobIDs} (jsonb : gostring -> option gostring) (cfg : config).
Context {Q : Type} `{!Enqueuer Q} (t : gostring).
Abbreviation reads := (reads (Q := Q) t).

#[local] Hint Resolve reads_ret reads_throw reads_some : core.

Lemma reads_running Pre id : reads Pre (is_running id).
Proof. by intros w _. Qed.

Lemma listKeys_reads Pre r p : Keys.TenantID p = t -> reads Pre (listKeys r p).
Proof. intros Hp. unfold listKeys. rewrite Hp. apply reads_query; [apply same_keys|auto]. Qed.

Lemma listSentinelNodes_reads Pre r p : Keys.TenantID p = t -> reads Pre (listSentinelNodes r p).
Proof. intros Hp. unfold listSentinelNodes. rewrite Hp. apply reads_query; [apply same_nodes|auto]. Qed.

Lemma listJobs_reads Pre r p : Keys.TenantID p = t -> reads Pre (listJobs r p).
Proof. intros Hp. unfold listJobs. rewrite Hp. apply reads_query; [apply same_jobs|auto]. Qed.

Lemma getPolicy_reads Pre r p : Keys.TenantID p = t -> reads Pre (getPolicy r p).
Proof.
  intros Hp. unfold getPolicy. rewrite Hp. apply reads_bind.
  - apply reads_or_down, reads_sql. intros d _. rewrite same_policy. by destruct (load_policy _ d) as [[d' x]|e] eqn:E; [injection E as <- <-|].
  - intros [doc|]; [|auto]. cbv zeta. destruct (seqb _ _); auto.
Qed.

Lemma getJob_reads Pre r p : Keys.TenantID p = t -> reads Pre (getJob r p).
Proof.
  intros Hp. unfold getJob. cbv zeta. rewrite Hp. apply reads_try; [apply reads_select; intros; apply same_result|].
  intros [[o j]|[e|n|]]; auto. destruct e; auto. apply reads_bind.
  { apply reads_bind_err; [apply reads_select; intros; apply same_accepted|auto]. }
  intros _. apply reads_bind; [apply reads_bind_err; [apply reads_running|auto]|auto].
Qed.

Lemma report_row_reads Pre ia :
  (forall d, Pre d -> is_Some (accepted_for ia.1 t d)) -> reads Pre (report_row t ia).
Proof.
  intros Hia. unfold report_row. apply reads_try; [apply reads_select; intros; apply same_job|].
  intros j. apply reads_try; [|auto]. apply reads_select. intros d Hd. by apply same_receipt, Hia.
Qed.

Lemma report_rows_reads (Pre : db -> Prop) rows :
  (forall d ia, Pre d -> ia ∈ rows -> is_Some (accepted_for ia.1 t d)) -> reads Pre (report_rows t rows).
Proof.
  induction rows as [|ia rows IH]; intros Hr; cbn [report_rows]; [auto|].
  apply reads_bind; [apply report_row_reads; intros d Hd; apply Hr; [done|by left]|].
  intros line. apply reads_bind; [|auto]. apply IH. intros d x Hd Hx. apply Hr; [done|by right].
Qed.

Lemma between_accepted from to d ia : ia ∈ accepted_between t from to d -> is_Some (accepted_for ia.1 t d).
Proof.
  unfold accepted_between. cbv zeta. rewrite sort_slice_perm. destruct ia as [id a].
  intros [Ha [Ht _]]%elem_of_map_to_list%map_lookup_filter_Some. unfold accepted_for. cbn [fst snd] in *.
  rewrite Ha. cbn [mbind option_bind]. rewrite Ht, seqb_refl. by exists a.
Qed.

Lemma compliance_reads Pre r p : Keys.TenantID p = t -> reads Pre (compliance r p).
Proof.
  intros Hp. unfold compliance. rewrite Hp. apply reads_bind; [auto|]. intros from. apply reads_bind; [auto|]. intros to.
  apply reads_query; [apply same_between|]. intros rows. apply reads_bind; [|auto].
  apply report_rows_reads. intros d ia [_ Hrows] Hia. by eapply between_accepted, Hrows.
Qed.

(** The routes that read for a tenant. *)
Definition read_route (x : route) : bool :=
  seqb (method_of x) "GET" && match roles_of x with Some _ => true | None => false end.

Lemma handler_reads x csrf r p : read_route x = true -> Keys.TenantID p = t ->
  reads (fun _ => True) (handler_of jsonb cfg x csrf r p).
Proof.
  intros Hx Hp. destruct x; try done; cbn [handler_of].
  - unfold getSession. destruct (seqb _ _); auto.
  - by apply listJobs_reads.
  - by apply getJob_reads.
  - by apply compliance_reads.
  - by apply getPolicy_reads.
  - by apply listKeys_reads.
  - by apply listSentinelNodes_reads.
Qed.
End handlers.

(** C10 [reads_isolated]: what a tenant is answered on the routes that read (its
    session, jobs, a job, the compliance report, its policy, its keys, its nodes) is
    the same, whatever the network does, in any two worlds that agree on the tenant's
    rows and on everything outside the tables: whatever keys, sessions, jobs, results,
    receipts, links, nodes, policies and ledger entries the other tenants have.  Nothing
    is written. *)
Theorem reads_isolated `{Environment, !Seal.UUID} {ids : Journal.JobIDs} jsonb cfg {Q : Type} `{!Enqueuer Q}
    x csrf r p (w w' : world Q) :
  read_route x = true -> on_view (Keys.TenantID p) w = on_view (Keys.TenantID p) w' ->
  (handler_of jsonb cfg x csrf r p w).2 = (handler_of jsonb cfg x csrf r p w').2 /\
  tables (handler_of jsonb cfg x csrf r p w).1 = tables w.
Proof.
  intros Hx Hv. pose proof (handler_reads jsonb cfg (Keys.TenantID p) x csrf r p Hx eq_refl) as Hr.
  destruct (Hr w I) as [Ht E], (Hr w' I) as [_ E']. rewrite Hv, E' in E. split; [by injection E|done].
Qed.

#[local] Existing Instance toy_ids.
#[local] Existing Instance toy_uuid.
#[local] Existing Instance toy_aead.
#[local] Existing Instance toy_vault.
#[local] Existing Instance Seal.memory_receipts.
#[local] Existing Instance Journal.memory_journal.

(** The same server where the other tenant has another key. *)
Definition other_server : world toy_broker :=
  set_tables (set_keys (Keys.Store (take 2 (api_keys toy_tables) ++
      [Keys.MkKey "k9" "t2" "boss" "SECRETS9" (Sha256.Sum256 "ch_SECRETS9_s") "admin" 7 (Some 9%Z)])
    (audit toy_tables)) toy_tables) toy_server.

Lemma other_view : on_view "t1" other_server = on_view "t1" toy_server.
Proof.
  assert (E : view "t1" (tables other_server) = view "t1" (tables toy_server)); [|unfold on_view; by rewrite E].
  change (tables other_server) with
    (set_keys (Keys.Store (take 2 (api_keys toy_tables) ++
       [Keys.MkKey "k9" "t2" "boss" "SECRETS9" (Sha256.Sum256 "ch_SECRETS9_s") "admin" 7 (Some 9%Z)]) (audit toy_tables)) toy_tables).
  unfold view. cbn [set_keys api_keys sessions job_accepts journal purge_receipts job_keys delivery_links accesses
    sentinel_nodes policies audit tables Keys.api_keys Keys.audit]. reflexivity.
Qed.

Lemma reads_isolated_witness :
  let p := Keys.MkPrincipal "t1" "k1" "admin" in
  (handler_of Some toy_config ListKeys [] (key_request "GET" "k" [] []) p other_server).2 =
  (handler_of Some toy_config ListKeys [] (key_request "GET" "k" [] []) p toy_server).2.
Proof.
  intros p. exact (proj1 (reads_isolated Some toy_config ListKeys [] (key_request "GET" "k" [] []) p
    other_server toy_server eq_refl other_view)).
Defined.
