(* ===== verification/VerifySpec.v ===== *)
(** * What the offline verifier accepts

    Its commands, from the command line to the exit status; that it accepts what the
    workers sign, in every state that they can reach; and what a tenant is shown of an
    output that it cannot check. *)

From S2P Require Import Prelude GoStd GoTime TimeParse Base64 Json JsonSpec Ledger Redact RedactSpec Seal SealSpec Journal JournalSpec Proc Queue QueueSafe QueueSpec QueueSigned Keys Api ApiJobs ApiNodes ApiLogic ApiQueue Flag Verify.
Import Api ApiJobs ApiNodes Verify.

(** ** Command lines *)

Section commands.
Context `{Host, !Seal.Ed25519, !Seal.UUID}.

Lemma with_flags_line names kvs k :
  Forall (fun kv => Flag.option_name kv.1 = true /\ Flag.formal (Flag.texts names) kv.1 = Some Flag.StringFlag) kvs ->
  with_flags names (Flag.command_line kvs) k =
  k (fun name => Flag.value name (Flag.set_all kvs (Flag.defaults (Flag.texts names)))).
Proof. intros Hk. unfold with_flags, Flag.Parse. by rewrite Flag.parse_command_line. Qed.

(** The command lines of the two commands. *)
Definition receipt_line (jobID purgedAt sig pub : gostring) : list gostring :=
  "receipt"%go :: Flag.command_line [("job-id", jobID); ("purged-at", purgedAt); ("sig", sig); ("pub", pub)]%go.
Definition output_line (path jobID tenant sig pub : gostring) : list gostring :=
  "output"%go :: Flag.command_line [("body", path); ("job-id", jobID); ("tenant-id", tenant); ("sig", sig); ("pub", pub)]%go.
Definition ledger_line (tenant : gostring) : list gostring :=
  "ledger"%go :: Flag.command_line [("tenant", tenant)]%go.

Lemma receipt_status prog j t s p :
  main (prog :: receipt_line j t s p) =
  if existsb (fun x => seqb x []) [j; t; s; p] then 2%Z
  else match ParseRFC3339 t with None => 1%Z | Some (at_, _) => Seal.verifySig p s (Seal.PurgeMessage j at_) end.
Proof.
  change (main (prog :: receipt_line j t s p)) with
    (runReceipt (Flag.command_line [("job-id", j); ("purged-at", t); ("sig", s); ("pub", p)]%go)).
  unfold runReceipt. rewrite with_flags_line by (repeat (constructor; [by split|]); constructor). reflexivity.
Qed.

Lemma output_status prog path j tn s p :
  main (prog :: output_line path j tn s p) =
  if existsb (fun x => seqb x []) [path; j; tn; s; p] then 2%Z
  else match ReadFile path with None => 1%Z | Some body => Seal.verifySig p s (Seal.OutputMessage j tn body) end.
Proof.
  change (main (prog :: output_line path j tn s p)) with
    (runOutput (Flag.command_line [("body", path); ("job-id", j); ("tenant-id", tn); ("sig", s); ("pub", p)]%go)).
  unfold runOutput. rewrite with_flags_line by (repeat (constructor; [by split|]); constructor). reflexivity.
Qed.

Lemma ledger_status prog tn :
  main (prog :: ledger_line tn) =
  match Seal.uuid_parse tn with
  | None => 2%Z
  | Some id =>
      if seqb (Getenv "POSTGRES_DSN") [] then 2%Z
      else match Connect (Getenv "POSTGRES_DSN") with
           | None => 1%Z
           | Some d => match Ledger.Verify id d with Ok _ => 0%Z | Err _ => 1%Z end
           end
  end.
Proof.
  change (main (prog :: ledger_line tn)) with (runLedger (Flag.command_line [("tenant", tn)]%go)).
  unfold runLedger. rewrite with_flags_line by (repeat (constructor; [by split|]); constructor). reflexivity.
Qed.
End commands.

(** A signature in base 64, under a public key in base 64. *)
Definition accepted `{!Seal.Ed25519} (pub sig msg : gostring) : Prop :=
  exists s p, DecodeString sig = Some s /\ DecodeString pub = Some p /\ length p = 32 /\ Seal.ed_verify p msg s = true.

Lemma verifySig_accepted `{!Seal.Ed25519} pub sig msg : Seal.verifySig pub sig msg = 0%Z <-> accepted pub sig msg.
Proof.
  unfold Seal.verifySig, Seal.ParsePublicKey, Seal.Verify, accepted.
  destruct (DecodeString sig) as [s|]; [|split; [done|by intros (? & ? & ? & _)]].
  destruct (DecodeString pub) as [p|]; [|split; [done|by intros (? & ? & _ & ? & _)]].
  destruct (Nat.eqb_spec (length p) 32) as [Hl|Hl]; cbn [negb].
  - rewrite Hl. cbn [Nat.eqb negb]. destruct (Seal.ed_verify p msg s) eqn:E; split; try done.
    + intros _. by exists s, p.
    + intros (s' & p' & [= <-] & [= <-] & _ & E'). congruence.
  - split; [done|]. intros (s' & p' & _ & [= <-] & ? & _). done.
Qed.

(** Signing with a key gives what is accepted under its public half. *)
Lemma signature_accepted `{!Seal.Ed25519, !Seal.Ed25519Laws} priv msg :
  length priv = 64 ->
  accepted (EncodeToString (Seal.ed_public priv)) (EncodeToString (Seal.Sign priv msg)) msg.
Proof.
  intros Hl. exists (Seal.Sign priv msg), (Seal.ed_public priv). rewrite !Decode_Encode.
  repeat split; [by apply Seal.ed_public_length|by apply Seal.ed_verify_sign].
Qed.

Lemma Encode_nonempty s : s <> [] -> seqb (EncodeToString s) [] = false.
Proof.
  intros Hs. apply seqb_neq. intros E. pose proof (Decode_Encode s) as H. rewrite E in H. by injection H.
Qed.

Lemma Encode_length_nonempty s n : length s = S n -> seqb (EncodeToString s) [] = false.
Proof. intros Hl. apply Encode_nonempty. by destruct s. Qed.

Lemma stamp_nonempty t : seqb (FormatRFC3339Nano t) [] = false.
Proof. apply seqb_neq. unfold FormatRFC3339Nano. intros E%(f_equal length). cbv zeta in E. rewrite !length_app in E. simpl in E. lia. Qed.

Lemma main_status `{Host, !Seal.Ed25519, !Seal.UUID} args : main args = 0%Z \/ main args = 1%Z \/ main args = 2%Z.
Proof.
  assert (Hsig : forall p s m, let z := Seal.verifySig p s m in z = 0%Z \/ z = 1%Z \/ z = 2%Z).
  { intros p s m. unfold Seal.verifySig. destruct (DecodeString s); [|tauto].
    destruct (Seal.ParsePublicKey p); [|tauto]. destruct (Seal.Verify _ _ _); tauto. }
  destruct args as [|prog [|command rest]]; cbn [main]; try tauto.
  unfold runReceipt, runOutput, runLedger, runProof, with_flags, Merkle.Merkle.runProof.
  repeat match goal with |- context [match ?x with _ => _ end] => destruct x; try tauto end; apply Hsig.
Qed.

(** C20 [verify_exact]: on a complete command line, [verify receipt] exits with status
    0 exactly when the time can be read and the signature verifies, under the public
    key, over the job and that time; [verify output] exactly when the file can be
    read and the signature verifies over the job, the tenant and the bytes of the
    file; and [verify ledger], with a database at hand, exactly when the tenant's
    chain is intact.  Every other status is 1 or 2. *)
Theorem verify_exact `{Host, !Seal.Ed25519, !Seal.UUID} prog path j t tn sig pub id d :
  path <> [] -> j <> [] -> t <> [] -> tn <> [] -> sig <> [] -> pub <> [] ->
  Seal.uuid_parse tn = Some id -> Getenv "POSTGRES_DSN" <> [] -> Connect (Getenv "POSTGRES_DSN") = Some d ->
  (main (prog :: receipt_line j t sig pub) = 0%Z <->
     exists at_ off, ParseRFC3339 t = Some (at_, off) /\ accepted pub sig (Seal.PurgeMessage j at_)) /\
  (main (prog :: output_line path j tn sig pub) = 0%Z <->
     exists body, ReadFile path = Some body /\ accepted pub sig (Seal.OutputMessage j tn body)) /\
  (main (prog :: ledger_line tn) = 0%Z <-> Ledger.Verify id d = Ok tt) /\
  forall args, main args = 0%Z \/ main args = 1%Z \/ main args = 2%Z.
Proof.
  intros Hpath Hj Ht Htn Hs Hp Hid Hdsn Hd.
  assert (Hflags : existsb (fun x => seqb x []) [j; t; sig; pub] = false /\
                   existsb (fun x => seqb x []) [path; j; tn; sig; pub] = false)
    by (cbn [existsb]; rewrite !(proj2 (seqb_neq _ _)) by done; done).
  split; [|split; [|split]].
  - rewrite receipt_status, (proj1 Hflags). destruct (ParseRFC3339 t) as [[at_ off]|].
    + rewrite verifySig_accepted. split; [eauto|]. by intros (? & ? & [= <- <-] & ?).
    + split; [done|]. by intros (? & ? & ? & _).
  - rewrite output_status, (proj2 Hflags). destruct (ReadFile path) as [body|].
    + rewrite verifySig_accepted. split; [eauto|]. by intros (? & [= <-] & ?).
    + split; [done|]. by intros (? & ? & _).
  - rewrite ledger_status, Hid, (proj2 (seqb_neq _ _)), Hd by done.
    destruct (Ledger.Verify id d) as [[]|e]; done.
  - apply main_status.
Qed.

(** ** Receipts *)

Lemma in_years_read t : in_years t -> ParseRFC3339 (FormatRFC3339Nano t) = Some (t, 0%Z).
Proof. apply ParseRFC3339_Format. Qed.

(** The command line that checks a receipt. *)
Definition line_of_receipt `{!Seal.Ed25519} (priv : gostring) (r : Seal.Receipt) : list gostring :=
  receipt_line (Seal.RedisJobID r) (FormatRFC3339Nano (Seal.PurgedAt r)) (EncodeToString (Seal.Signature r))
    (EncodeToString (Seal.ed_public priv)).

Lemma signed_receipt_verifies `{Host, !Seal.Ed25519, !Seal.Ed25519Laws, !Seal.UUID, !Journal.JobIDs} priv prog r :
  length priv = 64 -> receipt_signed priv r -> main (prog :: line_of_receipt priv r) = 0%Z.
Proof.
  intros Hl [_ Hid Hy _ Hs _]. unfold line_of_receipt. rewrite receipt_status. cbn [existsb].
  rewrite (proj2 (seqb_neq _ _) Hid), stamp_nonempty, Hs,
    (Encode_length_nonempty _ 63) by (by apply Seal.ed_sign_length).
  rewrite (Encode_length_nonempty _ 31) by (by apply Seal.ed_public_length). cbn [orb].
  rewrite in_years_read by done. by apply verifySig_accepted, signature_accepted.
Qed.

Section reachable.
Context `{!Queue.StreamIDs, !Queue.Sources, !Journal.JobIDs, !Seal.UUID, !Seal.AEAD, !Seal.Ed25519, !Seal.Ed25519Laws, !Host}.
Context (priv : gostring).
Context {K RS : Type} `{!Seal.KeyStore K, !Seal.ReceiptStore RS, !Seal.ReceiptStoreLaws RS}.
Context (tenant_valid tenant_exists : gostring -> bool).
#[local] Instance pg_journal_store : Journal.Store Journal.pgJournal := Journal.pg_journal tenant_valid tenant_exists.
Implicit Types w : Queue.world K RS Journal.pgJournal.

(** Nothing is stored yet. *)
Definition nothing_stored w : Prop :=
  (forall d, Seal.Get d (Queue.receipts w) = None) /\ Queue.journal w = Journal.MkPg ∅ ∅.

Lemma nothing_signed w : nothing_stored w -> world_signed priv tenant_valid tenant_exists w.
Proof.
  intros [Hr Hj]. split.
  - intros d r Hg. by rewrite Hr in Hg.
  - rewrite Hj. split.
    + intros j o Ho. cbn in Ho. by rewrite lookup_empty in Ho.
    + intros d x Hx. cbn in Hx. by rewrite lookup_empty in Hx.
Qed.

(** C17 [receipts_verify]: in every state that workers with one signing key reach from
    empty tables, whatever their number, their hooks, the interleaving and the
    failures, every purge receipt passes [verify receipt], under the public half of
    the key, with the job, the time and the signature that the row holds, and
    belongs to the job it is stored for. *)
Theorem receipts_verify w0 w ps d r prog :
  length priv = 64 -> (forall n, in_years (Queue.clock n)) -> nothing_stored w0 ->
  rtc (Proc.step Queue.exec Queue.fallible Queue.lost (participant priv)) (w0, []) (w, ps) ->
  Seal.Get d (Queue.receipts w) = Some r ->
  main (prog :: line_of_receipt priv r) = 0%Z /\ d = Journal.DurableIDFor (Seal.RedisJobID r).
Proof.
  intros Hl Hy H0' Hs Hg. apply nothing_signed in H0'.
  destruct (ws_receipts _ _ _ _ (reach_signed priv tenant_valid tenant_exists w0 w ps Hy H0' Hs) d r Hg) as [Hr <-].
  split; [by apply signed_receipt_verifies|apply Hr].
Qed.

(** ** Outputs *)

Context {Q : Type}.
Implicit Types v : Api.world Q.

(** What [getJob] shows of an output. *)
Definition shown (id tenant : gostring) (o : Journal.storedOutput) (x : option Journal.jobRow) : response :=
  writeJSON 200 (JObj [("jobId", JStr id); ("result", jsonRaw (Journal.Body o));
    ("signature", JStr (b64 (signature_of x))); ("signingKeyId", JStr (key_of x));
    ("status", JStr (Journal.state_text (Journal.out_state o))); ("tenantId", JStr tenant)]%go).

Lemma getJob_shown `{!Environment, !Enqueuer Q} r p v resp o :
  snd (getJob (Q := Q) r p v) = Ok resp -> status resp = 200%Z ->
  output_for (PathValue r) (Keys.TenantID p) (tables v) = Some o ->
  resp = shown (PathValue r) (Keys.TenantID p) o (job_row_for (PathValue r) (Keys.TenantID p) (tables v)).
Proof.
  intros E H200 Ho. revert E. unfold getJob, Api.sql, select, select_result. io_run.
  pose proof (ApiLogic.next_fault_tables v) as Et. destruct (next_fault v) as [f v1]. cbn [snd] in Et.
  rewrite Et, Ho. cbn [mbind option_bind]. destruct f; cbn; intros [= <-]; done.
Qed.

(** C18 [shown_output_verifies]: when [getJob] shows a tenant the output of a job,
    the tables being what the workers have left of the journal, then the body that is
    stored passes [verify output] with the job, the tenant and the signature that are
    shown, under the public half of the workers' key (no other job with an output
    having the same durable identifier). *)
Theorem shown_output_verifies `{!Environment, !Enqueuer Q} w0 w ps v r p resp prog path o :
  length priv = 64 -> (forall n, in_years (Queue.clock n)) -> nothing_stored w0 ->
  rtc (Proc.step Queue.exec Queue.fallible Queue.lost (participant priv)) (w0, []) (w, ps) ->
  Api.journal (tables v) = Queue.journal w ->
  snd (getJob (Q := Q) r p v) = Ok resp -> status resp = 200%Z ->
  output_for (PathValue r) (Keys.TenantID p) (tables v) = Some o ->
  (forall id, is_Some (Journal.pg_outputs (Queue.journal w) !! id) ->
     Journal.DurableIDFor id = Journal.DurableIDFor (PathValue r) -> id = PathValue r) ->
  path <> [] -> ReadFile path = Some (Journal.Body o) ->
  exists sig key, resp = writeJSON 200 (JObj [("jobId", JStr (PathValue r)); ("result", jsonRaw (Journal.Body o));
      ("signature", JStr sig); ("signingKeyId", JStr key);
      ("status", JStr (Journal.state_text (Journal.out_state o))); ("tenantId", JStr (Keys.TenantID p))]%go) /\
    main (prog :: output_line path (PathValue r) (Keys.TenantID p) sig (EncodeToString (Seal.ed_public priv))) = 0%Z.
Proof.
  intros Hl Hy H0' Hs Hj E H200 Ho Hid Hpath Hfile. apply nothing_signed in H0'.
  pose proof (ws_journal _ _ _ _ (reach_signed priv tenant_valid tenant_exists w0 w ps Hy H0' Hs)) as [Hc Hrows].
  pose proof (getJob_shown r p v resp o E H200 Ho) as ->. eexists _, _. split; [reflexivity|].
  unfold output_for in Ho. rewrite Hj in Ho. apply bind_Some in Ho as (o' & Ho' & Ho).
  destruct (seqb (Journal.out_tenant o') (Keys.TenantID p)) eqn:Et; [|done]. injection Ho as ->. apply seqb_eq in Et.
  destruct (Hc _ _ Ho') as (row & Hrow & _). cbn in Hrow. apply fmap_Some in Hrow as (x & Hx & _).
  destruct (Hrows _ _ Hx) as (id & o2 & res & Hd & Hne & Ho2 & Htn & Htne & Hbody & Hsig).
  assert (id = PathValue r) as -> by (apply Hid; [by exists o2|done]). rewrite Ho' in Ho2. injection Ho2 as <-.
  unfold job_row_for. rewrite Hj, Hx. cbn [mbind option_bind]. rewrite <- Htn, Et, seqb_refl.
  unfold signature_of. cbn [mbind option_bind]. rewrite Hsig, Et in *.
  pose proof (Seal.ed_sign_length priv (Seal.OutputMessage (PathValue r) (Keys.TenantID p) (Journal.Body o)) Hl) as Hsl.
  unfold Journal.nonempty, Seal.Sign in *. destruct (Seal.ed_sign priv _) as [|b s] eqn:Es; [done|].
  change (b64 (if seqb (b :: s) [] then None else Some (b :: s))) with (EncodeToString (b :: s)).
  rewrite output_status, Hfile. cbn [existsb].
  rewrite (proj2 (seqb_neq _ _) Hpath), (proj2 (seqb_neq _ _) Hne), (proj2 (seqb_neq _ _) Htne),
    (Encode_length_nonempty _ 63 Hsl), (Encode_length_nonempty _ 31) by (by apply Seal.ed_public_length).
  cbn [orb]. apply verifySig_accepted. rewrite <- Es. by apply signature_accepted.
Qed.
End reachable.

(** ** What is shown of a redacted text *)

(** The first bytes of an object whose first member has a one-byte initial. *)
Definition opens (c : byte) (s : gostring) : Prop := exists t, s = "{"%byte :: dquote :: c :: t.

Lemma message_differs id tn s s' : opens "c"%byte s -> opens "r"%byte s' ->
  Seal.OutputMessage id tn s <> Seal.OutputMessage id tn s'.
Proof.
  intros [t ->] [t' ->]. unfold Seal.OutputMessage, Seal.output_json. rewrite !Marshal_JObj. cbn [map join binding_text].
  intros E. apply app_inv_head, app_inv_tail in E. do 4 apply app_inv_head in E.
  unfold binding_text in E. cbn [fst snd] in E. do 2 apply app_inv_head in E. discriminate E.
Qed.

Lemma Unmarshal_MarshalResult r : wf_result r -> Unmarshal (Redact.MarshalResult r) = Some (JObj (result_map r)).
Proof.
  intros Hr. unfold Redact.MarshalResult, Unmarshal. rewrite Parse_Marshal by (by apply result_json_written).
  by destruct r as [t [a b c] v].
Qed.

Lemma BodyOf_redacted m x r :
  jlookup "redactedText" m = Some x -> Redact.resultFromMap m = Some r ->
  Journal.BodyOf m = Redact.MarshalResult r.
Proof. unfold Redact.resultFromMap. intros Hl Hd. unfold Journal.BodyOf. cbv zeta. by rewrite Hl, Hd. Qed.

Lemma opens_object c k v m t : quote k = dquote :: c :: t -> opens c (Marshal (JObj ((k, v) :: m))).
Proof.
  intros Hk. rewrite Marshal_JObj. cbn [map]. rewrite join_cons. unfold binding_text at 1. cbn [fst]. rewrite Hk.
  by eexists.
Qed.

Lemma opens_map r : opens "c"%byte (Marshal (JObj (result_map r))).
Proof. eapply opens_object. vm_compute. reflexivity. Qed.
Lemma opens_result r : opens "r"%byte (Redact.MarshalResult r).
Proof. eapply opens_object. vm_compute. reflexivity. Qed.
Lemma opens_differ s s' : opens "c"%byte s -> opens "r"%byte s' -> s <> s'.
Proof. intros [t ->] [t' ->]. discriminate. Qed.

Lemma BodyOf_map r : wf_result r -> Journal.BodyOf (result_map r) = Redact.MarshalResult r.
Proof. intros Hr. eapply BodyOf_redacted; [reflexivity|by apply resultFromMap_map]. Qed.

Lemma jsonRaw_result r : wf_result r -> jsonRaw (Redact.MarshalResult r) = JObj (result_map r).
Proof. intros Hr. unfold jsonRaw. by rewrite Unmarshal_MarshalResult. Qed.

(** C19 [shown_result_unsigned]: the body of a redaction job is its result written in
    the order of its fields, and that is what the worker signs; [getJob] and
    [openLink] decode the body and write it with its members in the order of their
    names.  The bytes that are shown are not the bytes that are signed, and neither is
    the message that [verify output] makes of them. *)
Theorem shown_result_unsigned rr out id tn :
  wf_result rr -> Redact.MapResult rr = Some out ->
  let body := Journal.BodyOf out in
  body = Redact.MarshalResult rr /\ Marshal (jsonRaw body) = Marshal (JObj out) /\
  Marshal (jsonRaw body) <> body /\
  Seal.OutputMessage id tn (Marshal (jsonRaw body)) <> Seal.OutputMessage id tn body.
Proof.
  intros Hr Hout body. rewrite MapResult_map in Hout by done. injection Hout as <-.
  assert (Hbody : body = Redact.MarshalResult rr) by (by apply BodyOf_map).
  clearbody body. subst body. rewrite jsonRaw_result by done. do 2 (split; [reflexivity|]).
  pose proof (opens_map rr). pose proof (opens_result rr). split; [by apply opens_differ|by apply message_differs].
Qed.

(** ** A concrete run *)

#[local] Existing Instance toy_ids.
#[local] Existing Instance toy_uuid.
#[local] Existing Instance toy_aead.
#[local] Existing Instance toy_ed25519.
#[local] Existing Instance toy_ed25519_laws.
#[local] Existing Instance Seal.memory_keys.
#[local] Existing Instance Seal.memory_receipts.

(** A clock that stops. *)
#[local] Instance stopping_clock : Queue.Sources := {|
  Queue.clock n := (Z.of_nat (Nat.min n 1000) * 1000000)%Z;
  Queue.rand _ n := replicate n Byte.x00;
|}.

Lemma stopping_years n : in_years (Queue.clock n).
Proof.
  unfold in_years, Second. cbn [Queue.clock stopping_clock].
  assert (E : (Z.of_nat (Nat.min n 1000) * 1000000 / 1000000000 / 86400 = 0)%Z) by (Z.div_mod_to_equations; lia).
  rewrite E. vm_compute. split; discriminate.
Qed.

#[local] Instance everyone_journal : Journal.Store Journal.pgJournal := Journal.pg_journal (fun _ => true) (fun _ => true).

Definition signing_world : Type := Queue.world Seal.MemoryKeyStore Seal.MemoryReceiptStore Journal.pgJournal.
Definition signing_start : signing_world :=
  Queue.World (Queue.MkRedis [] Queue.StreamIDZero (Some Queue.StreamIDZero) [] [] ∅ ∅ []) ∅ ∅ (Journal.MkPg ∅ ∅)
    (Policy.Policy.Store ∅ (Ledger.Db [] [] ∅)) [] 0 0.
Definition signing_done : signing_world :=
  (Proc.run Queue.exec (discard (Queue.RunGroup toy_key (Queue.MkConfig "w1" 3 1) toy_deps 1))
     (Proc.run Queue.exec (discard (Queue.Add true toy_job)) signing_start).1).1.

Lemma signing_steps : exists ps,
  rtc (Proc.step Queue.exec Queue.fallible Queue.lost (participant toy_key)) (signing_start, []) (signing_done, ps).
Proof.
  apply Proc.reachable_run; [|by apply p_worker].
  apply Proc.reachable_run; [by exists []|by apply p_producer].
Qed.

Lemma signing_nothing : nothing_stored signing_start.
Proof. split; [intros d; apply lookup_empty|reflexivity]. Qed.

Definition signing_receipt : Seal.Receipt := Queue.receipt toy_key "j1" 4000000 "t1".
Definition signing_output : Journal.storedOutput :=
  default (Journal.MkOutput Journal.FAILED [] []) (Journal.pg_outputs (Queue.journal signing_done) !! ("j1" : gostring)).

Definition signing_host : Host := {|
  ReadFile _ := Some (Journal.Body signing_output);
  Getenv _ := "dsn"%go;
  Connect _ := Some (Ledger.Db ["t1"%go] [] ∅);
|}.
#[local] Existing Instance signing_host.


Lemma verify_exact_witness : main ("verify" :: ledger_line "t1")%go = 0%Z.
Proof.
  refine (proj2 (proj1 (proj2 (proj2 (verify_exact "verify" "f" "j" "t" "t1" "s" "p" "t1" (Ledger.Db ["t1"] [] ∅)
    _ _ _ _ _ _ _ _ _)))) _); try discriminate; reflexivity.
Defined.

Lemma signing_receipt_there : Seal.Get "id:j1"%go (Queue.receipts signing_done) = Some signing_receipt.
Proof. vm_compute. reflexivity. Qed.

Lemma receipts_verify_witness : main ("verify"%go :: line_of_receipt toy_key signing_receipt) = 0%Z.
Proof.
  destruct signing_steps as [ps Hs].
  exact (proj1 (receipts_verify toy_key (fun _ => true) (fun _ => true) signing_start signing_done ps "id:j1"%go
    signing_receipt "verify"%go eq_refl stopping_years signing_nothing Hs signing_receipt_there)).
Defined.

(** A server on the tables that the run has left, without a queue behind it. *)
#[local] Instance signing_queue : Enqueuer unit := {|
  add _ k q := (k, q, Err tt);
  job_running _ _ := Err tt;
|}.

Definition signing_server : Api.world unit :=
  Api.World (Api.Db [] [] ∅ (Queue.journal signing_done) ∅ ∅ ∅ [] ∅ ∅ (Ledger.Db ["t1"%go] [] ∅)) ∅ tt [] 0 0 0.

Definition signing_request : request := ApiQueue.key_request "GET" "k" "j1" [].
Definition signing_principal : Keys.Principal := Keys.MkPrincipal "t1" "k1" "app".
Definition signing_shown : response :=
  shown "j1" "t1" signing_output (Journal.jobs (Queue.journal signing_done) !! ("id:j1" : gostring)).

Lemma signing_answer : snd (getJob (Q := unit) signing_request signing_principal signing_server) = Ok signing_shown.
Proof. vm_compute. reflexivity. Qed.
Lemma signing_output_there : output_for "j1" "t1" (tables signing_server) = Some signing_output.
Proof. vm_compute. reflexivity. Qed.

Lemma shown_output_verifies_witness : exists sig key,
  signing_shown = writeJSON 200 (JObj [("jobId", JStr "j1"); ("result", jsonRaw (Journal.Body signing_output));
      ("signature", JStr sig); ("signingKeyId", JStr key);
      ("status", JStr (Journal.state_text (Journal.out_state signing_output))); ("tenantId", JStr "t1")])%go /\
  main ("verify"%go :: output_line "body.json" "j1" "t1" sig (EncodeToString (Seal.ed_public toy_key))) = 0%Z.
Proof.
  destruct signing_steps as [ps Hs].
  refine (shown_output_verifies toy_key (fun _ => true) (fun _ => true) signing_start signing_done ps signing_server
    signing_request signing_principal signing_shown "verify"%go "body.json"%go signing_output
    eq_refl stopping_years signing_nothing Hs eq_refl signing_answer eq_refl signing_output_there _ _ eq_refl).
  - intros id _ E. cbn in E. by injection E.
  - discriminate.
Defined.

Lemma shown_result_unsigned_witness :
  let rr := Redact.MkResult "[EMAIL_REDACTED]" (Redact.MkCounts 1 0 0) 0 in
  Marshal (jsonRaw (Journal.BodyOf (result_map rr))) <> Journal.BodyOf (result_map rr).
Proof.
  intros rr. assert (Hr : wf_result rr) by (split; [by apply ascii_text_valid|by vm_compute]).
  exact (proj1 (proj2 (proj2 (shown_result_unsigned rr (result_map rr) "j" "t" Hr (MapResult_map rr Hr))))).
Defined.
