(* ===== verification/ApiSpec.v ===== *)
(** * The tables of the control plane

    What always holds of them, and that every request keeps it. *)

From S2P Require Import Prelude GoStd GoTime TimeParse Json Decode Sha256 Ledger LedgerSpec Policy PolicySpec Seal Journal Proc Queue SealSpec JournalSpec QueueSpec Keys Api ApiJobs ApiNodes ApiLogic ApiQueue.
Import Api ApiJobs ApiNodes.

(** ** The invariant *)

Definition views_of (hash : gostring) (d : db) : Z := glen (filter (fun h => h = hash) (accesses d)).

Record tables_ok (d : db) : Prop := {
  ok_key_ids : NoDup (Keys.key_id <$> api_keys d);
  ok_prefixes : NoDup (Keys.prefix <$> api_keys d);
  ok_hashes : NoDup (Keys.key_hash <$> api_keys d);
  ok_keys : Forall (fun k => Keys.role k ∈ ["admin"; "app"; "sentinel"]%go /\
                             Keys.key_tenant k ∈ Ledger.tenants (audit d)) (api_keys d);
  ok_session_ids : NoDup (s_id <$> sessions d);
  ok_tokens : NoDup (token_hash <$> sessions d);
  ok_sessions : Forall (fun s => exists k, k ∈ api_keys d /\ Keys.key_id k = s_key s /\
                             Keys.key_tenant k = s_tenant s /\ Keys.role k ∈ ["admin"; "app"]%go) (sessions d);
  ok_accepts : map_Forall (fun _ a => a_tenant a ∈ Ledger.tenants (audit d) /\
                             source a ∈ ["cold-harbour"; "sentinel"]%go) (job_accepts d);
  ok_links : map_Forall (fun h l => l_tenant l ∈ Ledger.tenants (audit d) /\ 1 <= max_views l <= 100 /\
                             0 <= view_count l <= max_views l /\ view_count l = views_of h d)%Z (delivery_links d);
  ok_accesses : forall h, h ∈ accesses d -> is_Some (delivery_links d !! h);
  ok_nodes : map_Forall (fun k n => k.1 ∈ Ledger.tenants (audit d) /\ k.2 <> [] /\ 0 <= policy_version n /\
                             0 <= n_held n /\ 0 <= n_dropped n /\ 0 <= n_fail_open n)%Z (sentinel_nodes d);
  ok_policies : map_Forall (fun t v => t ∈ Ledger.tenants (audit d) /\ 1 <= v.1 <= 2147483647)%Z (policies d);
}.

Definition keeps (d d' : db) : Prop := tables_ok d -> tables_ok d'.

#[export] Instance keeps_preorder : PreOrder keeps.
Proof. split; [by intros ? ?|]. intros x y z Hxy Hyz ?. by apply Hyz, Hxy. Qed.

(** ** What an entry of the ledger leaves alone *)

Lemma Append_grows jsonb t k p at_ d d' :
  Ledger.Append jsonb t k p at_ d = Ok d' ->
  Ledger.tenants d' = Ledger.tenants d /\
  (exists r, Ledger.audit_ledger d' = Ledger.audit_ledger d ++ [r] /\ Ledger.tenant_id r = t) /\
  (forall t', t' <> t -> Ledger.ledger_heads d' !! t' = Ledger.ledger_heads d !! t').
Proof.
  unfold Ledger.Append, Ledger.insert_head, Ledger.insert_row, Ledger.update_head. intros E.
  destruct (Ledger.ledger_heads d !! t) as [[s h]|] eqn:Eh; cbn [mbind result_bind] in E.
  - rewrite Eh in E. cbn [mbind result_bind Ledger.payload Ledger.tenant_id] in E.
    destruct (jsonb _) as [x|]; [|done]. destruct (existsb _ _); [done|]. case_bool_decide; [|done].
    cbn in E. rewrite Eh in E. injection E as <-. cbn. split_and!; [done|by eexists|].
    intros. by rewrite lookup_insert_ne.
  - case_bool_decide; [|done]. cbn [mbind result_bind] in E. cbn [Ledger.ledger_heads] in E.
    rewrite lookup_insert_eq in E. cbn [mbind result_bind Ledger.payload Ledger.tenant_id Ledger.audit_ledger] in E.
    destruct (jsonb _) as [x|]; [|done]. destruct (existsb _ _); [done|]. case_bool_decide; [|done].
    cbn in E. rewrite lookup_insert_eq in E. injection E as <-. cbn. split_and!; [done|by eexists|].
    intros. by rewrite !lookup_insert_ne.
Qed.

(** ** The statements that write *)

(** Splits the invariant of changed tables; what did not change is closed. *)
Ltac tables_split H := destruct H; split; cbn; try eassumption.

Section statements.
Context (jsonb : gostring -> option gostring) {ids : Journal.JobIDs}.

Lemma append_keeps tenant kind payload at_ : stays keeps (append jsonb tenant kind payload at_).
Proof.
  intros d d' [] E Hd. unfold append in E. destruct (Ledger.Append _ _ _ _ _ _) as [l|] eqn:Ea; [|done].
  injection E as <-. apply Append_grows in Ea as (Ht & _ & _). tables_split Hd; by rewrite ?Ht.
Qed.

Lemma existsb_false_elem {A} (f : A -> bool) l x : existsb f l = false -> x ∈ l -> f x = false.
Proof.
  intros H Hx. apply not_true_is_false. intros Hf. enough (existsb f l = true) by congruence.
  apply existsb_exists. exists x. by rewrite <- list_elem_of_In.
Qed.

Lemma fresh_snoc {A} (f : A -> gostring) (l : list A) x :
  NoDup (f <$> l) -> (forall y, y ∈ l -> f y <> f x) -> NoDup (f <$> l ++ [x]).
Proof.
  intros Hl Hx. rewrite fmap_app. apply NoDup_app. split_and!; [done| |apply NoDup_singleton].
  intros y Hy Hin. apply list_elem_of_fmap in Hy as (z & -> & Hz). apply list_elem_of_singleton in Hin. by eapply Hx.
Qed.

(** Updating rows without changing what [f] reads of them. *)
Lemma fmap_update {A B} (f : A -> B) (u : A -> A) (l : list A) :
  (forall x, f (u x) = f x) -> f <$> (u <$> l) = f <$> l.
Proof. intros H. rewrite <- list_fmap_compose. apply list_fmap_ext. intros. apply H. Qed.

Definition session_of (d : db) (s : session) : Prop :=
  exists k, k ∈ api_keys d /\ Keys.key_id k = s_key s /\ Keys.key_tenant k = s_tenant s /\ Keys.role k ∈ ["admin"; "app"]%go.

Lemma insert_session_keeps s d d' a :
  insert_session s d = Ok (d', a) -> session_of d s -> keeps d d'.
Proof.
  unfold insert_session. intros E (k & Hk & Hid & Ht & Hr) Hd. destruct (existsb _ _) eqn:Ex in E; [done|].
  destruct (_ && _) eqn:Ec in E; [|done]. injection E as <- <-. tables_split Hd.
  - apply fresh_snoc; [done|]. intros y Hy. pose proof (existsb_false_elem _ _ _ Ex Hy) as Hn. cbn in Hn. by bool_to_prop.
  - apply fresh_snoc; [done|]. intros y Hy. pose proof (existsb_false_elem _ _ _ Ex Hy) as Hn. cbn in Hn. by bool_to_prop.
  - apply Forall_app. split; [done|]. apply Forall_singleton. cbn. by exists k.
Qed.

(** The sessions may change in their times only. *)
Lemma update_sessions_keeps (u : session -> session) d :
  (forall s, s_id (u s) = s_id s /\ token_hash (u s) = token_hash s /\ s_key (u s) = s_key s /\ s_tenant (u s) = s_tenant s) ->
  keeps d (set_sessions (u <$> sessions d) d).
Proof.
  intros Hu Hd. tables_split Hd.
  - rewrite fmap_update; [done|]. intros s. apply Hu.
  - rewrite fmap_update; [done|]. intros s. apply Hu.
  - apply Forall_fmap. eapply Forall_impl; [done|]. intros s (k & ? & ? & ? & ?). exists k.
    cbn. destruct (Hu s) as (_ & _ & -> & ->). done.
Qed.

Lemma update_revoked_keeps hash tenant t : stays keeps (update_revoked hash tenant t).
Proof.
  intros d d' a E. unfold update_revoked in E. destruct (find _ _); [|done]. injection E as <- _.
  apply update_sessions_keeps. intros x. by destruct (open_session _ _ x).
Qed.

Lemma touch_keeps t id : stays keeps (touch t id).
Proof.
  intros d d' a E. unfold touch in E. injection E as <- _.
  apply update_sessions_keeps. intros s. by destruct (_ && _).
Qed.

Lemma create_keeps tenant name role raw secret id t1 t2 :
  role ∈ ["admin"; "app"; "sentinel"]%go ->
  stays keeps (on_keys (Keys.Create jsonb tenant name role raw secret id t1 t2)).
Proof.
  intros Hr d d' a E Hd. unfold on_keys, Keys.Create in E.
  destruct (Keys.insert_key _ _) as [s1|] eqn:Ei; [|done]. unfold Keys.insert_key in Ei.
  destruct (negb _); [done|]. destruct (existsb _ _) eqn:Ex in Ei; [done|]. case_bool_decide as Ht; [|done].
  injection Ei as <-. cbn [Keys.append Keys.audit Keys.api_keys mbind result_bind] in E. unfold Keys.append in E. cbn in E, Ex, Ht.
  destruct (Ledger.Append _ _ _ _ _ _) as [l|] eqn:Ea; [|done]. cbn in E. injection E as <- <-.
  apply Append_grows in Ea as (El & _ & _).
  assert (forall y, y ∈ api_keys d -> Keys.key_id y <> id /\ Keys.prefix y <> Keys.newPrefix raw /\
    Keys.key_hash y <> Sha256.Sum256 ("ch_" ++ Keys.newPrefix raw ++ "_" ++ Base64.RawURLEncodeToString secret)) as Hf.
  { intros y Hy. pose proof (existsb_false_elem _ _ _ Ex Hy) as Hn. cbn in Hn. by bool_to_prop. }
  tables_split Hd.
  - apply fresh_snoc; [done|]. apply Hf.
  - apply fresh_snoc; [done|]. apply Hf.
  - apply fresh_snoc; [done|]. apply Hf.
  - rewrite El. apply Forall_app. split; [done|]. by apply Forall_singleton.
  - eapply Forall_impl; [done|]. intros s (k & ? & ?). exists k. split; [|done]. apply elem_of_app. by left.
  - by rewrite El.
  - by rewrite El.
  - by rewrite El.
  - by rewrite El.
Qed.

Lemma update_keys_keeps (u : Keys.key_row -> Keys.key_row) d :
  (forall k, Keys.key_id (u k) = Keys.key_id k /\ Keys.prefix (u k) = Keys.prefix k /\
    Keys.key_hash (u k) = Keys.key_hash k /\ Keys.key_tenant (u k) = Keys.key_tenant k /\ Keys.role (u k) = Keys.role k) ->
  keeps d (set_keys (Keys.Store (u <$> api_keys d) (audit d)) d).
Proof.
  intros Hu Hd. tables_split Hd; try (rewrite fmap_update; [done|]; intros k; apply Hu).
  - apply Forall_fmap. eapply Forall_impl; [done|]. intros k Hk. cbn. by destruct (Hu k) as (_ & _ & _ & -> & ->).
  - eapply Forall_impl; [done|]. intros s (k & Hk & ?). exists (u k). split; [by apply list_elem_of_fmap_2|].
    by destruct (Hu k) as (-> & _ & _ & -> & ->).
Qed.

Lemma revoke_keeps tenant id t1 t2 :
  stays keeps (on_keys (fun s => s' ← Keys.Revoke jsonb tenant id t1 t2 s; Ok (tt, s'))).
Proof.
  intros d d' [] E. unfold on_keys, Keys.Revoke in E. destruct (existsb _ _); [|done]. unfold Keys.append in E. cbn in E.
  destruct (Ledger.Append _ _ _ _ _ _) as [l|] eqn:Ea; [|done]. cbn in E. injection E as <-.
  etrans; [apply (update_keys_keeps (fun k => if Keys.revocable tenant id k then Keys.revoke_row t1 k else k))
          |apply (append_keeps tenant "key_revoked" (JObj [("id", JStr id)]%go) t2 _ _ tt)].
  - intros k. by destruct (Keys.revocable _ _ _).
  - unfold append. cbn. by rewrite Ea.
Qed.

Lemma put_policy_keeps tenant doc t : commits keeps (put_policy jsonb tenant doc t).
Proof.
  intros d. unfold put_policy. destruct (Policy.Put _ _ _ _ _) as [[stored s]|] eqn:E; [|done]. intros Hd.
  unfold Policy.Put in E. destruct (jsonb _); [|done]. case_bool_decide as Ht; cbn [negb] in E; [|done].
  destruct (_ <? _)%Z eqn:Ev in E; [done|]. destruct (jsonb _); [|done].
  destruct (Ledger.Append _ _ _ _ _ _) as [ledger|] eqn:Ea; [|done]. injection E as <- <-.
  apply Append_grows in Ea as (El & _ & _). cbn in *.
  assert (1 <= match policies d !! tenant with None => 1 | Some (v, _) => v + 1 end)%Z as H1.
  { destruct (policies d !! tenant) as [[v x]|] eqn:Ep; [|apply Z.le_refl]. apply (ok_policies _ Hd) in Ep as [_ ?]. cbn in *. lia. }
  destruct Hd. split; cbn; rewrite ?El; try eassumption.
  rewrite insert_insert_eq. apply map_Forall_insert_2; [|done]. cbn. bool_to_prop. split; [done|lia].
Qed.

Lemma insert_accept_keeps id a : source a ∈ ["cold-harbour"; "sentinel"]%go -> stays keeps (insert_accept id a).
Proof.
  intros Hs d d' [] E Hd. unfold insert_accept in E. destruct (_ !! _); [done|]. case_bool_decide; [|done].
  injection E as <-. tables_split Hd. by apply map_Forall_insert_2.
Qed.

Lemma delete_accept_keeps id : stays keeps (delete_accept id).
Proof. intros d d' [] E Hd. injection E as <-. tables_split Hd. by apply map_Forall_delete. Qed.

Lemma delete_key_keeps id : stays keeps (delete_key id).
Proof. intros d d' [] E Hd. injection E as <-. by tables_split Hd. Qed.

Lemma not_viewed h d : tables_ok d -> delivery_links d !! h = None -> h ∉ accesses d.
Proof. intros Hd Hh Hin. apply (ok_accesses _ Hd) in Hin as [? ?]. congruence. Qed.

Lemma views_of_none h d : h ∉ accesses d -> views_of h d = 0%Z.
Proof.
  intros Hh. unfold views_of. induction (accesses d) as [|x l IH]; [done|].
  apply not_elem_of_cons in Hh as [? ?]. rewrite filter_cons_False by done. by apply IH.
Qed.

Lemma insert_link_keeps hash l :
  (1 <= max_views l <= 100)%Z -> view_count l = 0%Z -> stays keeps (insert_link hash l).
Proof.
  intros Hm Hv d d' [] E Hd. unfold insert_link in E. destruct (_ !! _) eqn:El; [done|]. case_bool_decide; [|done].
  injection E as <-. pose proof (views_of_none _ _ (not_viewed _ _ Hd El)) as H0. unfold views_of in H0. tables_split Hd.
  - apply map_Forall_insert_2; [|done]. cbn in *. unfold views_of. cbn. rewrite Hv, H0. split; [done|lia].
  - intros h Hh. destruct (decide (h = hash)) as [->|]; [by rewrite lookup_insert_eq|].
    rewrite lookup_insert_ne by done. auto.
Qed.

Lemma upsert_node_keeps tenant b :
  NodeID b <> [] -> (0 <= PolicyVersion b)%Z -> (0 <= Held b)%Z -> (0 <= Dropped b)%Z -> (0 <= FailOpen b)%Z ->
  stays keeps (upsert_node jsonb tenant b).
Proof.
  intros Hn Hv Hh Hdr Hf d d' [] E Hd. unfold upsert_node in E. destruct (negb (Keys.text_ok _)); [done|].
  destruct (_ <? _)%Z; [done|]. case_bool_decide; cbn [negb] in E; [|done]. destruct (jsonb _); [|done].
  injection E as <-. tables_split Hd. by apply map_Forall_insert_2.
Qed.

(** What [view_link] does when it answers with the output. *)
Definition viewed (hash : gostring) (l : link) (d : db) : db :=
  set_links (<[hash := count_view l]> (delivery_links d)) (accesses d ++ [hash]) d.

Lemma view_link_Ok hash t d d' resp :
  view_link hash t d = (d', Ok resp) ->
  exists l o j, delivery_links d !! hash = Some l /\ (t < l_expires_at l)%Z /\ (view_count l < max_views l)%Z /\
    select_delivery (l_job l) (l_tenant l) d = Some (o, j) /\ status resp = 200%Z /\ d' = viewed hash l d.
Proof.
  unfold view_link, exec, select. io_run. intros E. destruct (delivery_links d !! hash) as [l|] eqn:El; [|done].
  destruct (l_expires_at l <=? t)%Z eqn:Et; [done|]. destruct (max_views l <=? view_count l)%Z eqn:Ev; [done|].
  destruct (select_delivery _ _ _) as [[o j]|] eqn:Es; [|done]. injection E as <- <-. exists l, o, j.
  bool_to_prop. split_and!; try done. unfold viewed, set_links. cbn. f_equal. apply map_eq. intros h.
  destruct (decide (h = hash)) as [->|]; [by rewrite lookup_alter_eq, lookup_insert_eq, El|by rewrite lookup_alter_ne, lookup_insert_ne by done].
Qed.

Lemma views_of_snoc (h hash : gostring) l : glen (filter (fun x => x = h) (l ++ [hash])) =
  (glen (filter (fun x => x = h) l) + (if decide (h = hash) then 1 else 0))%Z.
Proof.
  rewrite filter_app. unfold glen. rewrite length_app. destruct (decide (h = hash)) as [->|].
  - rewrite filter_cons_True by done. cbn. lia.
  - rewrite filter_cons_False by done. cbn. lia.
Qed.

Lemma viewed_keeps hash l d :
  delivery_links d !! hash = Some l -> (view_count l < max_views l)%Z -> keeps d (viewed hash l d).
Proof.
  intros El Hv Hd. pose proof (ok_links _ Hd) as Hl. pose proof (Hl _ _ El) as (? & ? & ? & ?). tables_split Hd.
  - intros h x Hx. cbn. unfold views_of in *. cbn. rewrite views_of_snoc. destruct (decide (h = hash)) as [->|].
    + rewrite lookup_insert_eq in Hx. injection Hx as <-. cbn. split_and!; try done; lia.
    + rewrite lookup_insert_ne in Hx by done. apply Hl in Hx. by rewrite Z.add_0_r.
  - intros h [Hh|Hh%list_elem_of_singleton]%elem_of_app.
    + apply lookup_insert_is_Some'. auto.
    + subst. by rewrite lookup_insert_eq.
Qed.

Lemma view_link_keeps hash t : commits keeps (view_link hash t).
Proof.
  intros d. destruct (view_link hash t d) as [d' [resp|]] eqn:E; [|done].
  apply view_link_Ok in E as (l & o & j & El & _ & Hv & _ & _ & ->). by apply viewed_keeps.
Qed.
End statements.

(** ** Every handler keeps the invariant *)

Lemma known_role (role : gostring) : existsb (seqb role) ["admin"; "app"; "sentinel"]%go = true -> role ∈ ["admin"; "app"; "sentinel"]%go.
Proof. apply existsb_seqb. Qed.

Lemma known_source (s : gostring) : seqb s "cold-harbour" || seqb s "sentinel" = true -> s ∈ ["cold-harbour"; "sentinel"]%go.
Proof. rewrite orb_true_iff, !seqb_eq. intros [-> | ->]; set_solver. Qed.

Lemma parseViews_range raw n : parseViews raw = Some n -> (1 <= n <= 100)%Z.
Proof.
  unfold parseViews. destruct (Atoi raw) as [m|]; [|done]. cbn. destruct (m <? 1)%Z eqn:E1; [done|].
  destruct (100 <? m)%Z eqn:E2; [done|]. intros [= <-]. bool_to_prop. lia.
Qed.

Lemma check_wire_range w b : check_wire w = Ok b ->
  NodeID b <> [] /\ (0 <= PolicyVersion b)%Z /\ (0 <= Held b)%Z /\ (0 <= Dropped b)%Z /\ (0 <= FailOpen b)%Z.
Proof.
  unfold check_wire, non_negative. intros E.
  repeat (case_match; try done; cbn [mbind result_bind] in * ); simplify_eq; cbn; bool_to_prop; split_and!; done.
Qed.

Section keeping.
Context `{Environment, !Seal.UUID, !Journal.JobIDs} (jsonb : gostring -> option gostring) (cfg : config).
Context {Q : Type} `{!Enqueuer Q}.

Lemma enqueue_keeps j : moves keeps (enqueue (Q := Q) j).
Proof.
  intros w. unfold enqueue. destruct (add j _ _) as [[k q] r]. cbn. intros Hd. by tables_split Hd.
Qed.

Lemma Authenticate_elem raw ks p : Keys.Authenticate raw ks = Some p ->
  exists k, k ∈ ks /\ Keys.key_tenant k = Keys.TenantID p /\ Keys.key_id k = Keys.KeyID p /\ Keys.role k = Keys.Role p /\
    Keys.revoked_at k = None /\ Keys.key_hash k = Sha256.Sum256 raw.
Proof.
  unfold Keys.Authenticate, Keys.select_prefix. destruct (Keys.Prefix raw) as [pre|]; [|done]. cbn.
  destruct (find _ ks) as [k|] eqn:Ek; [|done]. cbn. destruct (Keys.revoked_at k) eqn:Er; [done|].
  destruct (seqb _ _) eqn:Eh; [|done]. intros [= <-]. apply find_some in Ek as [Hin _]. bool_to_prop.
  exists k. by rewrite list_elem_of_In.
Qed.

#[local] Hint Resolve append_keeps revoke_keeps create_keeps known_role known_source enqueue_keeps update_revoked_keeps
  put_policy_keeps insert_accept_keeps delete_accept_keeps delete_key_keeps view_link_keeps : moves.

Lemma login_keeps r : moves (Q := Q) keeps (login jsonb cfg r).
Proof.
  apply moves_in_all. unfold login. moves_in.
  apply moves_in_try; [apply _| |intros; moves]. apply moves_in_transaction; [apply _|].
  apply commits_in_exec; [apply _| |moves].
  intros d d' [] [_ (k & Hk & Ht & Hid & Hr & _)%Authenticate_elem] E.
  eapply insert_session_keeps; [done|]. exists k. cbn. split_and!; try done. rewrite Hr.
  apply existsb_seqb. cbn. by rewrite orb_false_r.
Qed.

Lemma accept_one_keeps tenant jobType src input :
  src ∈ ["cold-harbour"; "sentinel"]%go -> moves (Q := Q) keeps (accept_one tenant jobType src input).
Proof. intros Hs. unfold accept_one. moves. Qed.

Lemma accept_all_keeps tenant jobType src inputs :
  src ∈ ["cold-harbour"; "sentinel"]%go -> moves (Q := Q) keeps (accept_all tenant jobType src inputs).
Proof. intros Hs. induction inputs; cbn [accept_all]; moves; by apply accept_one_keeps. Qed.

Lemma report_keeps R `{!PreOrder R} tenant rows : moves (Q := Q) R (report_rows tenant rows).
Proof. induction rows; cbn [report_rows]; unfold report_row; moves. Qed.

#[local] Hint Resolve login_keeps accept_one_keeps accept_all_keeps report_keeps : moves.

Lemma handler_keeps x csrf r p : moves (Q := Q) keeps (handler_of jsonb cfg x csrf r p).
Proof.
  destruct x; cbn [handler_of]; try solve [auto with moves];
  unfold logout, getSession, postJob, postJobBatch, listJobs, getJob, createLink, compliance, getPolicy, putPolicy,
    createKey, listKeys, revokeKey, postSentinelEvents, listSentinelNodes, openLink, check_and_limit, allowPost; moves.
  - apply insert_accept_keeps. auto with moves.
  - apply accept_all_keeps. auto with moves.
  - apply insert_link_keeps; [by eapply parseViews_range|done].
  - apply create_keeps. auto with moves.
  - match goal with E : parseSentinelBatch _ = Ok _ |- _ => unfold parseSentinelBatch in E end.
    case_match; [|done]. by apply upsert_node_keeps; eapply check_wire_range.
Qed.

Lemma Handler_keeps x r : moves (Q := Q) keeps (Handler jsonb cfg x r).
Proof.
  unfold Handler, authed. destruct (roles_of x); [|apply handler_keeps]. moves; try apply handler_keeps.
  apply authenticate_moves; [apply _|]. intros t hash d sk _ d' E. by eapply touch_keeps.
Qed.

(** C8 [tables_keep]: whatever a request asks for, and whatever the network does to
    its statements, the tables stay well-formed: identifiers, prefixes and hashes of
    keys are unique, roles are known, a session belongs to the tenant of its key and
    to a person's role, sources are known, every row belongs to a tenant, a link has
    at most as many views as it allows, and as many as were recorded, the counts of
    a node are not negative. *)
Theorem tables_keep x r (w : world Q) :
  tables_ok (tables w) -> tables_ok (tables (serve jsonb cfg x r w).1).
Proof.
  intros Hw. pose proof (Handler_keeps x r w Hw) as H'. unfold serve. by destruct (Handler _ _ _ _ _).
Qed.
End keeping.

#[local] Existing Instance toy_ids.
#[local] Existing Instance toy_uuid.
#[local] Existing Instance toy_aead.
#[local] Existing Instance toy_vault.
#[local] Existing Instance Seal.memory_receipts.
#[local] Existing Instance Journal.memory_journal.

Lemma toy_tables_ok : tables_ok toy_tables.
Proof.
  split; cbn [toy_tables api_keys sessions job_accepts delivery_links accesses sentinel_nodes policies audit].
  1-3, 5-6: apply (bool_decide_unpack _); vm_compute; exact I.
  - repeat apply Forall_cons_2; [| | |apply Forall_nil_2]; cbn; split; apply (bool_decide_unpack _); vm_compute; exact I.
  - apply Forall_singleton. eexists. split; [left|]. cbn. split_and!; [done|done|].
    apply (bool_decide_unpack _). vm_compute. exact I.
  - apply map_Forall_singleton. cbn. split; apply (bool_decide_unpack _); vm_compute; exact I.
  - apply map_Forall_singleton. cbn. split_and!; try lia; [|done]. apply (bool_decide_unpack _). vm_compute. exact I.
  - intros h Hh. inversion Hh.
  - apply map_Forall_empty.
  - apply map_Forall_empty.
Defined.

Lemma tables_keep_witness :
  let r := key_request "POST" "ch_ADMINKEY_s" "j1"
             (Marshal (JObj [("name", JStr "n"); ("role", JStr "app")]%go)) in
  let x := serve jsonb_marshal toy_config PostKey r toy_server in
  status x.2 = 200%Z /\ length (api_keys (tables x.1)) = 4 /\ tables_ok (tables x.1).
Proof.
  intros r x. split; [vm_compute; reflexivity|]. split; [vm_compute; reflexivity|].
  exact (tables_keep jsonb_marshal toy_config PostKey r toy_server toy_tables_ok).
Defined.
