(* ===== verification/ApiTenants.v ===== *)
(** * The control plane: who may do what, to which rows

    A request is answered only for somebody who may ask, and touches the rows of
    its own tenant only. *)

From S2P Require Import Prelude GoStd GoTime TimeParse Json Decode Sha256 Ledger LedgerSpec Policy PolicySpec Seal Journal Proc Queue SealSpec JournalSpec QueueSpec Keys Api ApiJobs ApiNodes ApiLogic ApiQueue ApiSpec.
Import Api ApiJobs ApiNodes.

(** ** Only the rows of one tenant change *)

Record only (t : gostring) (d d' : db) : Prop := {
  only_keys : filter (fun k => Keys.key_tenant k <> t) (api_keys d') = filter (fun k => Keys.key_tenant k <> t) (api_keys d);
  only_sessions : filter (fun s => s_tenant s <> t) (sessions d') = filter (fun s => s_tenant s <> t) (sessions d);
  only_accepts : forall id a, a_tenant a <> t -> job_accepts d' !! id = Some a <-> job_accepts d !! id = Some a;
  only_links : forall h l, l_tenant l <> t -> delivery_links d' !! h = Some l <-> delivery_links d !! h = Some l;
  only_nodes : forall k, k.1 <> t -> sentinel_nodes d' !! k = sentinel_nodes d !! k;
  only_policies : forall t', t' <> t -> policies d' !! t' = policies d !! t';
  only_tenants : Ledger.tenants (audit d') = Ledger.tenants (audit d);
  only_entries : filter (fun e => Ledger.tenant_id e <> t) (Ledger.audit_ledger (audit d')) =
                 filter (fun e => Ledger.tenant_id e <> t) (Ledger.audit_ledger (audit d));
  only_heads : forall t', t' <> t -> Ledger.ledger_heads (audit d') !! t' = Ledger.ledger_heads (audit d) !! t';
  only_journal : journal d' = journal d;
  only_receipts : purge_receipts d' = purge_receipts d;
}.

#[export] Instance only_preorder t : PreOrder (only t).
Proof.
  split; [by split|]. intros x y z Hxy Hyz. destruct Hxy, Hyz. split; intros; eauto 6 using eq_trans, iff_trans.
Qed.

Ltac only_split := split; cbn; try done.

Lemma filter_snoc_own {A} (f : A -> gostring) t (l : list A) x :
  f x = t -> filter (fun y => f y <> t) (l ++ [x]) = filter (fun y => f y <> t) l.
Proof. intros Hx. rewrite filter_app, filter_cons_False by (intros H; by apply H). by rewrite app_nil_r. Qed.

(** Changing rows of a tenant, the tenant aside. *)
Lemma filter_update_own {A} (f : A -> gostring) t (u : A -> A) (l : list A) :
  (forall x, x ∈ l -> f (u x) = f x /\ (f x <> t -> u x = x)) ->
  filter (fun y => f y <> t) (u <$> l) = filter (fun y => f y <> t) l.
Proof.
  induction l as [|x l IH]; [done|]. intros Hu. cbn [fmap list_fmap].
  destruct (Hu x) as [Hf Hx]; [left|]. rewrite !filter_cons, Hf.
  rewrite IH by (intros; apply Hu; by right). destruct (decide (f x <> t)); [|done]. by rewrite Hx.
Qed.

(** Rows with the same key are the same row. *)
Lemma NoDup_fmap_elem {A B} (f : A -> B) (l : list A) x y :
  NoDup (f <$> l) -> x ∈ l -> y ∈ l -> f x = f y -> x = y.
Proof.
  intros Hn [i Hi]%list_elem_of_lookup [j Hj]%list_elem_of_lookup E.
  assert (i = j) as ->; [|congruence]. eapply NoDup_lookup; [done| |]; rewrite list_lookup_fmap.
  - by rewrite Hi.
  - by rewrite Hj, E.
Qed.

Section statements.
Context (jsonb : gostring -> option gostring) {ids : Journal.JobIDs} (t : gostring).

(** What an entry of the ledger of [t] changes. *)
Lemma append_only kind payload at_ : stays (only t) (append jsonb t kind payload at_).
Proof.
  intros d d' [] E. unfold append in E. destruct (Ledger.Append _ _ _ _ _ _) as [l|] eqn:Ea; [|done].
  injection E as <-. apply Append_grows in Ea as (Ht & (e & He & Hte) & Hh). only_split.
  rewrite He. by apply (filter_snoc_own Ledger.tenant_id).
Qed.

Lemma insert_session_only s : s_tenant s = t -> stays (only t) (insert_session s).
Proof.
  intros Hs d d' [] E. unfold insert_session in E. destruct (existsb _ _); [done|]. destruct (_ && _); [|done].
  injection E as <-. only_split. by apply (filter_snoc_own s_tenant).
Qed.

Lemma update_revoked_only hash at_ : stays (only t) (update_revoked hash t at_).
Proof.
  intros d d' a E. unfold update_revoked in E. destruct (find _ _); [|done]. injection E as <- _. only_split.
  apply (filter_update_own s_tenant). intros x _. destruct (open_session _ _ x) eqn:Eo; [|done].
  split; [done|]. unfold open_session in Eo. by bool_to_prop.
Qed.

Lemma set_audit_twice l d d1 : set_audit l d = d1 -> audit d = l -> d1 = d.
Proof. intros <- <-. by destruct d. Qed.

Lemma create_only name role raw secret id t1 t2 :
  stays (only t) (on_keys (Keys.Create jsonb t name role raw secret id t1 t2)).
Proof.
  intros d d' a E. unfold on_keys, Keys.Create, Keys.insert_key in E.
  destruct (negb _); [done|]. destruct (existsb _ _); [done|]. case_bool_decide; [|done].
  unfold Keys.append in E. cbn in E. destruct (Ledger.Append _ _ _ _ _ _) as [l|] eqn:Ea; [|done]. cbn in E.
  injection E as <- <-. apply Append_grows in Ea as (Ht & (e & He & Hte) & Hh). cbn in *. only_split.
  - by apply (filter_snoc_own Keys.key_tenant).
  - rewrite He. by apply (filter_snoc_own Ledger.tenant_id).
Qed.

Lemma revoke_only id t1 t2 : stays (only t) (on_keys (fun s => s' ← Keys.Revoke jsonb t id t1 t2 s; Ok (tt, s'))).
Proof.
  intros d d' [] E. unfold on_keys, Keys.Revoke in E. destruct (existsb _ _); [|done]. unfold Keys.append in E. cbn in E.
  destruct (Ledger.Append _ _ _ _ _ _) as [l|] eqn:Ea; [|done]. cbn in E. injection E as <-.
  apply Append_grows in Ea as (Ht & (e & He & Hte) & Hh). cbn in *. only_split.
  - apply (filter_update_own Keys.key_tenant). intros k _. destruct (Keys.revocable _ _ k) eqn:Er; [|done].
    split; [done|]. unfold Keys.revocable in Er. by bool_to_prop.
  - rewrite He. by apply (filter_snoc_own Ledger.tenant_id).
Qed.

Lemma put_policy_only doc at_ : commits (only t) (put_policy jsonb t doc at_).
Proof.
  intros d. unfold put_policy, Policy.Put. destruct (jsonb _); [|done]. case_bool_decide; cbn [negb]; [|done].
  destruct (_ <? _)%Z; [done|]. destruct (jsonb _); [|done].
  destruct (Ledger.Append _ _ _ _ _ _) as [l'|] eqn:Ea; [|done].
  apply Append_grows in Ea as (Ht & (e & He & Hte) & Hh). cbn in *. only_split.
  - intros t' Hn. by rewrite !lookup_insert_ne.
  - rewrite He. by apply (filter_snoc_own Ledger.tenant_id).
Qed.

Lemma lookup_own {A} (f : A -> gostring) (m m' : gmap gostring A) h :
  (forall h', h' <> h -> m' !! h' = m !! h') ->
  (forall a, m' !! h = Some a -> f a = t) -> (forall a, m !! h = Some a -> f a = t) ->
  forall h' a, f a <> t -> m' !! h' = Some a <-> m !! h' = Some a.
Proof.
  intros Hne H1 H2 h' a Ha. destruct (decide (h' = h)) as [->|]; [|by rewrite Hne].
  split; intros E; [apply H1 in E|apply H2 in E]; done.
Qed.

Lemma insert_accept_only id a : a_tenant a = t -> stays (only t) (insert_accept id a).
Proof.
  intros Ha d d' [] E. unfold insert_accept in E. destruct (_ !! _) eqn:El; [done|]. case_bool_decide; [|done].
  injection E as <-. only_split. apply (lookup_own a_tenant _ _ id).
  - intros. by rewrite lookup_insert_ne.
  - rewrite lookup_insert_eq. by intros ? [= <-].
  - rewrite El. done.
Qed.

(** An accepted job is taken back. *)
Lemma delete_accept_only id d d' a :
  (forall x, job_accepts d !! id = Some x -> a_tenant x = t) -> delete_accept id d = Ok (d', a) -> only t d d'.
Proof.
  intros Ha [= <- _]. only_split. apply (lookup_own a_tenant _ _ id); [| |done].
  - intros. by rewrite lookup_delete_ne.
  - by rewrite lookup_delete_eq.
Qed.

Lemma delete_key_only id : stays (only t) (delete_key id).
Proof. intros d d' [] E. injection E as <-. by split. Qed.

Lemma delete_key_eq id d d' a : delete_key id d = Ok (d', a) -> d' = set_job_keys (delete id (job_keys d : gmap gostring Seal.keyRow)) d.
Proof. by intros [= <- _]. Qed.

Lemma insert_link_only hash l : l_tenant l = t -> stays (only t) (insert_link hash l).
Proof.
  intros Hl d d' [] E. unfold insert_link in E. destruct (_ !! _) eqn:El; [done|]. case_bool_decide; [|done].
  injection E as <-. only_split. apply (lookup_own l_tenant _ _ hash).
  - intros. by rewrite lookup_insert_ne.
  - rewrite lookup_insert_eq. by intros ? [= <-].
  - rewrite El. done.
Qed.

Lemma viewed_only hash l d : delivery_links d !! hash = Some l -> l_tenant l = t -> only t d (viewed hash l d).
Proof.
  intros El Hl. only_split. apply (lookup_own l_tenant _ _ hash).
  - intros. by rewrite lookup_insert_ne.
  - rewrite lookup_insert_eq. by intros ? [= <-].
  - rewrite El. by intros ? [= <-].
Qed.

Lemma upsert_node_only b : stays (only t) (upsert_node jsonb t b).
Proof.
  intros d d' [] E. unfold upsert_node in E. destruct (negb (Keys.text_ok _)); [done|].
  destruct (_ <? _)%Z; [done|]. case_bool_decide; cbn [negb] in E; [|done]. destruct (jsonb _); [|done].
  injection E as <-. only_split. intros k Hk. rewrite lookup_insert_ne; [done|]. by intros <-.
Qed.

(** Touching a session whose identifier is its own. *)
Lemma touch_only at_ s d d' a : NoDup (s_id <$> sessions d) -> s ∈ sessions d -> s_tenant s = t ->
  touch at_ (s_id s) d = Ok (d', a) -> only t d d'.
Proof.
  intros Hn Hs Ht [= <- _]. only_split. apply (filter_update_own s_tenant). intros x Hx.
  destruct (_ && _) eqn:Ei; [|done]. split; [done|]. bool_to_prop.
  enough (x = s) as -> by done. by apply (NoDup_fmap_elem s_id (sessions d)).
Qed.
End statements.

(** ** Who a request comes from *)

Section server.
Context `{Environment, !Seal.UUID, !Journal.JobIDs} (jsonb : gostring -> option gostring) (cfg : config).
Context {Q : Type} `{!Enqueuer Q}.
Abbreviation W := (world Q).
Implicit Types w : W.

(** The key of somebody: its hash is in the table, and it is not revoked. *)
Definition valid_key (raw : gostring) (p : Keys.Principal) (d : db) : Prop :=
  exists k, k ∈ api_keys d /\ Keys.key_hash k = Sha256.Sum256 raw /\ Keys.revoked_at k = None /\
    p = Keys.MkPrincipal (Keys.key_tenant k) (Keys.key_id k) (Keys.role k).

Definition by_key (r : request) (p : Keys.Principal) (d : db) : Prop :=
  XApiKey r <> [] /\ valid_key (XApiKey r) p d.

(** A session that is valid at [now]; the token is the one that keeps other sites
    out. *)
Definition by_cookie (r : request) (at_ : time) (s : session) (p : Keys.Principal) (d : db) : Prop :=
  XApiKey r = [] /\ exists value k, Cookie (sessionCookieName cfg) r = Some value /\
    s ∈ sessions d /\ token_hash s = Sha256.Sum256 value /\ k ∈ api_keys d /\ Keys.key_id k = s_key s /\
    s_revoked_at s = None /\ Keys.revoked_at k = None /\
    (at_ < expires_at s)%Z /\ (at_ - last_seen_at s <= 30 * 60 * Second)%Z /\
    p = Keys.MkPrincipal (s_tenant s) (s_key s) (Keys.role k).

Lemma Authenticate_valid raw p d : Keys.Authenticate raw (api_keys d) = Some p -> valid_key raw p d.
Proof.
  intros (k & Hk & Ht & Hi & Hr & Hn & Hh)%Authenticate_elem. exists k. split_and!; [done..|].
  destruct p. cbn in *. congruence.
Qed.

Lemma select_session_elem hash d s k : select_session hash d = Some (s, k) -> s ∈ sessions d /\ k ∈ api_keys d /\
  token_hash s = hash /\ Keys.key_id k = s_key s.
Proof.
  unfold select_session. destruct (find _ (sessions d)) as [s'|] eqn:Es; [|done]. cbn.
  destruct (find _ (api_keys d)) as [k'|] eqn:Ek; [|done]. intros [= -> ->].
  apply find_some in Es as [? ?], Ek as [? ?]. bool_to_prop. by rewrite !list_elem_of_In.
Qed.

Lemma session_valid_live at_ s k : session_valid at_ (s, k) = true ->
  s_revoked_at s = None /\ Keys.revoked_at k = None /\
  (at_ < expires_at s)%Z /\ (at_ - last_seen_at s <= 30 * 60 * Second)%Z.
Proof.
  unfold session_valid, sessionIdle. cbn. destruct (s_revoked_at s), (Keys.revoked_at k); try done.
  intros E. by bool_to_prop.
Qed.

Definition touched (at_ : time) (id : gostring) (d : db) : db :=
  match touch at_ id d with Ok (d', _) => d' | Err _ => d end.

Lemma sql_Ok {A} (f : db -> result Ledger.sql_error (db * A)) w w' a :
  sql f w = (w', Ok a) -> f (tables w) = Ok (tables w', a) /\ ticks w' = ticks w.
Proof.
  unfold sql. pose proof (next_fault_tables w) as E. assert (ticks (next_fault w).2 = ticks w) as Et
    by (unfold next_fault; by destruct (faults w)).
  destruct (next_fault w) as [o w1]. cbn [snd] in E, Et.
  rewrite E. destruct o, (f (tables w)) as [[d x]|e]; try done. intros [= <- <-]. by split.
Qed.

Lemma sql_select {A} (f : db -> option A) w : tables (sql (select f) w).1 = tables w.
Proof.
  unfold sql. pose proof (next_fault_tables w) as E. destruct (next_fault w) as [o w1]. cbn [snd] in E.
  unfold select. rewrite E. by destruct o, (f (tables w)).
Qed.

Lemma select_Ok {A} (f : db -> option A) w w' a :
  sql (select f) w = (w', Ok a) -> f (tables w) = Some a /\ tables w' = tables w.
Proof.
  intros E%sql_Ok. destruct E as [E _]. unfold select in E. by destruct (f (tables w)); [injection E as <- <-|].
Qed.

(** A statement that does not succeed at least did what it does, or nothing. *)
Lemma sql_tables {A} (f : db -> result Ledger.sql_error (db * A)) w : let w' := (sql f w).1 in
  tables w' = tables w \/ exists a, f (tables w) = Ok (tables w', a).
Proof.
  cbv zeta. unfold sql. pose proof (next_fault_tables w) as E. destruct (next_fault w) as [o w1]. cbn [snd] in E.
  rewrite <- E. destruct (f (tables w1)) as [[d a]|e], o; cbn; eauto.
Qed.

Lemma sql_touch at_ id w : let w' := (sql (touch at_ id) w).1 in
  tables w' = tables w \/ tables w' = touched at_ id (tables w).
Proof.
  cbv zeta. unfold sql. pose proof (next_fault_tables w) as E. destruct (next_fault w) as [o w1]. cbn [snd] in E.
  unfold touch. destruct o; cbn; rewrite E; auto.
Qed.

(** Nothing but the session's time may change, and that only when it is let in. *)
Lemma authenticate_spec r w w' res : authenticate cfg r w = (w', res) ->
  match res with
  | Err _ => tables w' = tables w
  | Ok (p, None) => by_key r p (tables w) /\ tables w' = tables w
  | Ok (p, Some csrf) =>
      exists s, by_cookie r (clock (ticks w)) s p (tables w) /\ csrf = csrf_token s /\
        (tables w' = tables w \/ tables w' = touched (clock (ticks w)) (s_id s) (tables w))
  end.
Proof.
  unfold authenticate. io_run. destruct (negb (seqb (XApiKey r) [])) eqn:Ex.
  - pose proof (sql_select (fun d => Keys.Authenticate (XApiKey r) (api_keys d)) w) as Et.
    destruct (sql _ w) as [w1 [p|e]] eqn:Es; intros [= <- <-]; [|done].
    apply select_Ok in Es as [Es _]. bool_to_prop. by repeat split; [|apply Authenticate_valid|].
  - destruct (Cookie _ r) as [[|b value]|] eqn:Ec; [by intros [= <- <-]| |by intros [= <- <-]].
    cbn [now]. set (w0 := World _ _ _ _ _ _ _). change (tables w) with (tables w0).
    pose proof (sql_select (select_session (Sha256.Sum256 (b :: value))) w0) as Et.
    destruct (sql _ w0) as [w1 [sk|e]] eqn:Es; [|by intros [= <- <-]]. cbn [fst] in Et.
    apply select_Ok in Es as [Es _]. destruct (session_valid _ sk) eqn:Ev; cbn [negb]; [|by intros [= <- <-]].
    pose proof (sql_touch (clock (ticks w)) (s_id sk.1) w1) as Ht. destruct (sql (touch _ _) w1) as [w2 [u|e]]; intros [= <- <-];
      cbv zeta in Ht; cbn [fst] in Ht; rewrite Et in Ht; destruct sk as [s k]; exists s; (split; [|by split]);
      (split; [by bool_to_prop|]); exists (b :: value), k; apply select_session_elem in Es as (? & ? & ? & ?);
      apply session_valid_live in Ev as (? & ? & ? & ?); by split_and!.
Qed.

(** ** A handler touches the rows of its tenant *)

Lemma enqueue_only t id a j :
  moves_in (Q := Q) (fun d => job_accepts d !! id = Some a) (fun d d' => only t d d' /\ job_accepts d' !! id = Some a) (enqueue j).
Proof. intros w Hw. unfold enqueue. destruct (add j _ _) as [[k q] r]. cbn. split; [by split|done]. Qed.

Lemma accept_one_only t jobType src input : moves (Q := Q) (only t) (accept_one t jobType src input).
Proof.
  unfold accept_one. apply moves_bind; [apply _|moves|]. intros id. apply moves_bind; [apply _|moves|]. intros at_. cbv zeta.
  set (a := MkAccept _ _ _).
  apply (moves_after_sql (fun d => job_accepts d !! id = Some a)); [apply _| |].
  { intros d d' u E. split; [by eapply (insert_accept_only t id a)|]. unfold insert_accept in E.
    destruct (_ !! _); [done|]. case_bool_decide; [|done]. injection E as <- _. apply lookup_insert_eq. }
  intros _. apply moves_in_keep; [apply _|apply enqueue_only|]. intros [u|e]; [apply moves_moves_in; moves|].
  unfold bind, ignore. apply moves_in_keep; [apply _| |].
  - intros w Hw. pose proof (sql_tables (delete_key (Journal.DurableIDFor id)) w) as Hs. cbn [try io_effects].
    destruct (sql _ w) as [w1 r]. cbn in *. destruct Hs as [->|(u & ->%delete_key_eq)]; [done|]. split; [by split|done].
  - intros [u|x]; [|apply moves_moves_in; moves]. apply moves_in_try; [apply _| |intros; moves].
    apply moves_in_try; [apply _| |intros; moves]. apply moves_in_sql; [apply _|].
    intros d d' v Hd. apply delete_accept_only. intros x Hx. rewrite Hd in Hx. by injection Hx as <-.
Qed.

#[local] Hint Resolve accept_one_only : moves.

Lemma accept_all_only t jobType src inputs : moves (Q := Q) (only t) (accept_all t jobType src inputs).
Proof. induction inputs; cbn [accept_all]; moves. Qed.

#[local] Hint Resolve append_only revoke_only create_only update_revoked_only put_policy_only upsert_node_only
  accept_one_only accept_all_only report_keeps : moves.

Lemma handler_only x csrf r p : roles_of x <> None -> moves (Q := Q) (only (Keys.TenantID p)) (handler_of jsonb cfg x csrf r p).
Proof.
  intros Hx. destruct x; cbn [roles_of] in Hx; try done; cbn [handler_of];
  unfold logout, getSession, postJob, postJobBatch, listJobs, getJob, createLink, compliance, getPolicy, putPolicy,
    createKey, listKeys, revokeKey, postSentinelEvents, listSentinelNodes, check_and_limit, allowPost; moves.
  by apply insert_link_only.
Qed.

(** What follows a lookup may depend on what was found. *)
Lemma select_moves {E A B} (R : A -> db -> db -> Prop) (g : db_error -> E) (f : db -> option A) (k : A -> io W E B) w :
  (forall a, moves (R a) (k a)) ->
  let w' := (bind (bind_err g (sql (select f)) ret) k w).1 in
  tables w' = tables w \/ exists a, f (tables w) = Some a /\ R a (tables w) (tables w').
Proof.
  intros Hk. io_run. pose proof (sql_select f w) as Et. destruct (sql (select f) w) as [w1 [a|e]] eqn:Es; [|by left].
  cbn [fst] in Et. right. exists a. apply select_Ok in Es as [Ef _]. split; [done|]. rewrite <- Et. apply Hk.
Qed.

(** The tenant that a request speaks for: that of its key or session, the tenant of
    the key that logs in, and whoever made the link. *)
Definition requester (r : request) (d : db) (t : gostring) : Prop :=
  (exists p, by_key r p d /\ t = Keys.TenantID p) \/
  (exists at_ s p, by_cookie r at_ s p d /\ t = Keys.TenantID p).

Definition speaks_for (x : route) (r : request) (d : db) (t : gostring) : Prop :=
  match x with
  | PostLogin => exists m p, readJSON r = Some m /\ valid_key (member "apiKey" m) p d /\
                             t = Keys.TenantID p
  | OpenLink => exists l, delivery_links d !! sha256Hex (PathValue r) = Some l /\ t = l_tenant l
  | _ => requester r d t
  end.

Lemma bind_ret_io {X E A B} (a : A) (k : A -> io X E B) (x : X) : bind (ret a) k x = k a x.
Proof. done. Qed.

Lemma login_frame r w : let w' := (login jsonb cfg r w).1 in
  tables w' = tables w \/ exists t, speaks_for PostLogin r (tables w) t /\ only t (tables w) (tables w').
Proof.
  unfold login. destruct (readJSON r) as [m|] eqn:Er; cbn [some_or_resp]; [|by left]. rewrite bind_ret_io. cbv zeta.
  match goal with |- context [bind (bind_err ?g (sql (select ?f)) ret) ?k w] =>
    destruct (select_moves (fun p => only (Keys.TenantID p)) g f k w) as [H'|(p & Hp & H')] end; [|left; exact H'|right].
  - intros p. cbn beta. moves. by apply insert_session_only.
  - exists (Keys.TenantID p). split; [|exact H']. exists m, p. by split; [|split; [apply Authenticate_valid|]].
Qed.

Lemma view_link_frame hash at_ w : let w' := (transaction (down "queue unavailable") (view_link hash at_) w).1 in
  tables w' = tables w \/ exists l, delivery_links (tables w) !! hash = Some l /\ only (l_tenant l) (tables w) (tables w').
Proof.
  cbv zeta. unfold transaction. pose proof (next_fault_tables w) as E. destruct (next_fault w) as [o w1]. cbn [snd] in E.
  rewrite <- E. destruct (view_link hash at_ (tables w1)) as [d [resp|resp]] eqn:Ev; [|by destruct o; left].
  apply view_link_Ok in Ev as (l & oo & j & El & _ & _ & _ & _ & ->).
  destruct o; cbn; [right|by left|right]; exists l; (split; [done|]); by apply viewed_only.
Qed.

Lemma touched_only d s at_ : tables_ok d -> s ∈ sessions d -> only (s_tenant s) d (touched at_ (s_id s) d).
Proof. intros Hd Hs. eapply touch_only; [|done..]. apply Hd. Qed.

(** Running [authed]. *)
Lemma authed_run roles (next : gostring -> request -> Keys.Principal -> io W response response) r w :
  (exists w1, authenticate cfg r w = (w1, Err tt) /\ authed cfg roles next r w = (w1, Err (plain_status 401))) \/
  exists w1 p csrf, authenticate cfg r w = (w1, Ok (p, csrf)) /\
    (authed cfg roles next r w = (w1, Err (plain_status 403)) \/
     roleAllowed (Keys.Role p) roles = true /\
     (forall c, csrf = Some c -> requireCookieCSRF cfg r c = true) /\
     authed cfg roles next r w = next (default [] csrf) r p w1).
Proof.
  unfold authed. io_run. destruct (authenticate cfg r w) as [w1 [[p csrf]|[]]]; [right|left; by exists w1].
  exists w1, p, csrf. split; [done|]. unfold guard. cbn [fst snd]. destruct (roleAllowed _ _); [|by left].
  destruct csrf as [c|]; [|by right]. io_run. destruct (requireCookieCSRF _ _ _) eqn:Ec; [|by left].
  right. split; [done|]. split; [|done]. by intros ? [= <-].
Qed.

Lemma authenticate_frame r w w1 p csrf : tables_ok (tables w) -> authenticate cfg r w = (w1, Ok (p, csrf)) ->
  requester r (tables w) (Keys.TenantID p) /\ only (Keys.TenantID p) (tables w) (tables w1).
Proof.
  intros Hw E%authenticate_spec. destruct csrf as [c|].
  - destruct E as (s & Hs & _ & Ht). split; [right; by exists (clock (ticks w)), s, p|].
    destruct Hs as (_ & value & k & _ & Hk & _ & _ & _ & _ & _ & _ & _ & ->). cbn.
    destruct Ht as [->| ->]; [reflexivity|]. by apply touched_only.
  - destruct E as [Hk ->]. split; [left; by exists p|reflexivity].
Qed.

Lemma Handler_frame x r w : tables_ok (tables w) ->
  let w' := (Handler jsonb cfg x r w).1 in
  tables w' = tables w \/ exists t, speaks_for x r (tables w) t /\ only t (tables w) (tables w').
Proof.
  intros Hw. cbv zeta. destruct (roles_of x) as [roles|] eqn:Ex.
  - assert (speaks_for x r (tables w) = requester r (tables w)) as -> by (by destruct x).
    unfold Handler. rewrite Ex. destruct (authed_run roles (handler_of jsonb cfg x) r w)
      as [(w1 & Ea & ->)|(w1 & p & csrf & Ea & Hr)].
    + apply authenticate_spec in Ea. by left.
    + apply (authenticate_frame _ _ _ _ _ Hw) in Ea as [Hreq Ho]. right. exists (Keys.TenantID p). split; [done|].
      destruct Hr as [->|(_ & _ & ->)]; [done|]. etrans; [exact Ho|]. apply handler_only. by rewrite Ex.
  - unfold Handler. rewrite Ex. destruct x; try done; cbn [handler_of].
    + apply login_frame.
    + unfold openLink. io_run. cbn [now].
      match goal with |- context [transaction _ (view_link ?h ?t) ?w0] =>
        destruct (view_link_frame h t w0) as [H'|(l & Hl & H')] end; [left; exact H'|right].
      exists (l_tenant l). split; [by exists l|exact H'].
Qed.

(** C6 [tenant_frame]: a request leaves everything as it is, or it comes with a valid
    key, session or link of a tenant, and then changes only rows of that tenant: the
    keys, sessions, accepted jobs, links, nodes and policies of the others, their
    ledgers, and every result and receipt stay as they are, whatever the network
    does. *)
Theorem tenant_frame x r w : tables_ok (tables w) ->
  let w' := (serve jsonb cfg x r w).1 in
  tables w' = tables w \/ exists t, speaks_for x r (tables w) t /\ only t (tables w) (tables w').
Proof.
  intros Hw. pose proof (Handler_frame x r w Hw) as Hf. unfold serve. by destruct (Handler _ _ _ _ _).
Qed.

(** C7 [access_control]: a route that asks for a role answers otherwise than with 401
    or 403 only to a valid, unrevoked key, or to a session that is neither expired
    nor idle nor revoked and whose key is not revoked, of one of those roles; a
    session can only change something from a page of an allowed origin and with its
    own token.  Whoever is turned away has changed nothing but the time his session
    was last seen. *)
Theorem access_control x r w w' resp roles :
  roles_of x = Some roles -> serve jsonb cfg x r w = (w', resp) ->
  (exists p, Keys.Role p ∈ roles /\
     (by_key r p (tables w) \/
      exists s, by_cookie r (clock (ticks w)) s p (tables w) /\
        (Method r ∈ ["POST"; "PUT"; "DELETE"]%go -> XCsrfToken r = csrf_token s /\ originAllowed cfg (Origin r) = true))) \/
  (status resp ∈ [401; 403]%Z /\
     (tables w' = tables w \/ exists s, s ∈ sessions (tables w) /\ tables w' = touched (clock (ticks w)) (s_id s) (tables w))).
Proof.
  intros Hx E. unfold serve, Handler in E. rewrite Hx in E.
  destruct (authed_run roles (handler_of jsonb cfg x) r w) as [(w1 & Ea & Er)|(w1 & p & csrf & Ea & Hr)];
    apply authenticate_spec in Ea.
  - rewrite Er in E. injection E as <- <-. right. cbn. split; [apply list_elem_of_In; cbn; auto|by left].
  - destruct Hr as [Er|(Hrole & Hcsrf & Er)]; rewrite Er in E.
    + injection E as <- <-. right. cbn. split; [apply list_elem_of_In; cbn; auto|]. destruct csrf as [c|]; [|left; apply Ea].
      destruct Ea as (s & (_ & v & k & _ & Hs & _) & _ & Ht). destruct Ht as [Ht|Ht]; [by left|right].
      by exists s.
    + left. exists p. split; [by apply existsb_seqb|]. destruct csrf as [c|]; [right|left; apply Ea].
      destruct Ea as (s & Hs & -> & _). exists s. split; [done|]. intros Hm.
      specialize (Hcsrf _ eq_refl). unfold requireCookieCSRF in Hcsrf.
      rewrite (proj2 (existsb_seqb _ _) Hm) in Hcsrf. by bool_to_prop.
Qed.
End server.

#[local] Existing Instance toy_ids.
#[local] Existing Instance toy_uuid.
#[local] Existing Instance toy_aead.
#[local] Existing Instance toy_vault.
#[local] Existing Instance Seal.memory_receipts.
#[local] Existing Instance Journal.memory_journal.

(** The administrator revokes the key of the node. *)
Definition toy_revoke : request := cookie_request "DELETE" "csrf" "ops.example" "k2" [].

Lemma tenant_frame_witness :
  let x := serve jsonb_marshal toy_config DeleteKey toy_revoke toy_server in
  status x.2 = 204%Z /\
  (tables x.1 = toy_tables \/ exists t, speaks_for toy_config DeleteKey toy_revoke toy_tables t /\ only t toy_tables (tables x.1)).
Proof.
  intros x. split; [vm_compute; reflexivity|].
  exact (tenant_frame jsonb_marshal toy_config DeleteKey toy_revoke toy_server toy_tables_ok).
Defined.

Lemma access_control_witness :
  let x := serve jsonb_marshal toy_config DeleteKey toy_revoke toy_server in
  exists s, by_cookie toy_config toy_revoke (clock 0) s (Keys.MkPrincipal "t1" "k1" "admin") toy_tables /\
    XCsrfToken toy_revoke = csrf_token s.
Proof.
  intros x.
  destruct (access_control jsonb_marshal toy_config DeleteKey toy_revoke toy_server x.1 x.2 ["admin"%go])
    as [(p & _ & [[Hk _]|(s & Hs & Hm)])|[Hn _]].
  - reflexivity.
  - apply surjective_pairing.
  - exfalso. by apply Hk.
  - exists s. pose proof Hs as (_ & v & k & _ & Hin & _ & Hk & Hid & _ & _ & _ & _ & Hp).
    assert (p = Keys.MkPrincipal "t1" "k1" "admin"%go) as <-.
    { apply list_elem_of_singleton in Hin as ->. rewrite Hp. apply list_elem_of_In in Hk.
      destruct Hk as [<-|[<-|[<-|[]]]]; [reflexivity|discriminate Hid..]. }
    split; [exact Hs|]. apply Hm. apply (bool_decide_unpack _). vm_compute. exact I.
  - exfalso. revert Hn. apply (bool_decide_unpack (status x.2 ∉ [401; 403]%Z)). vm_compute. exact I.
Defined.
