(* ===== verification/ApiAccess.v ===== *)
(** * The control plane: what lasts from request to request

    Any sequence of requests, served one after another: a link is seen at most as
    often as it allows, what has been revoked or has expired stays so, a key that
    was made is let in. *)

From S2P Require Import Prelude GoStd GoTime TimeParse Base64 Json Decode Sha256 Ledger LedgerSpec Policy PolicySpec Seal Journal Proc Queue SealSpec JournalSpec QueueSpec Keys Api ApiJobs ApiNodes ApiLogic ApiQueue ApiSpec ApiTenants.
Import Api ApiJobs ApiNodes.

(** Opens a statement that writes tables other than the ones in question. *)
Ltac statement_cases E :=
  unfold append, insert_session, update_revoked, touch, on_keys, Keys.Create, Keys.insert_key, Keys.Revoke, Keys.append,
    insert_accept, delete_accept, delete_key, insert_link, upsert_node, update_views, insert_access in E;
  cbv beta iota zeta delta [mbind result_bind Keys.api_keys Keys.audit] in E; repeat (case_match; try done); simplify_eq.

Section server.
Context `{Environment, !Seal.UUID, !Journal.JobIDs} (jsonb : gostring -> option gostring) (cfg : config).
Context {Q : Type} `{!Enqueuer Q}.
Abbreviation W := (world Q).
Implicit Types w : W.

(** ** Sequences of requests *)

Fixpoint serve_all (rs : list (route * request)) w : W * list response :=
  match rs with
  | [] => (w, [])
  | (x, r) :: rs =>
      let y := serve jsonb cfg x r w in
      let z := serve_all rs y.1 in (z.1, y.2 :: z.2)
  end.

Lemma serve_tables x r w : tables (serve jsonb cfg x r w).1 = tables (Handler jsonb cfg x r w).1.
Proof. unfold serve. by destruct (Handler _ _ _ _ _). Qed.

Lemma serve_all_moves (R : db -> db -> Prop) `{!PreOrder R} rs :
  (forall x r, moves (Q := Q) R (Handler jsonb cfg x r)) -> forall w, R (tables w) (tables (serve_all rs w).1).
Proof.
  intros HR. induction rs as [|[x r] rs IH]; intros w; [reflexivity|]. cbn. etrans; [|apply IH].
  rewrite serve_tables. apply HR.
Qed.

Lemma serve_all_ok rs w : tables_ok (tables w) -> tables_ok (tables (serve_all rs w).1).
Proof. apply (serve_all_moves keeps). intros. apply Handler_keeps. Qed.

(** ** Links *)

Section links.
Context (R : db -> db -> Prop) `{!PreOrder R}.
(** [R] is about links, and lets them be seen and made. *)
Context (HR : forall d d', delivery_links d' = delivery_links d -> R d d').
Context (Hview : forall hash l d, delivery_links d !! hash = Some l -> (view_count l < max_views l)%Z -> R d (viewed hash l d)).
Context (Hlink : forall hash l d, delivery_links d !! hash = None -> R d (set_links (<[hash := l]> (delivery_links d)) (accesses d) d)).

Ltac by_links := let E := fresh in intros ? ? ? E; statement_cases E; by apply HR.

Lemma handler_links x csrf r p : moves (Q := Q) R (handler_of jsonb cfg x csrf r p).
Proof using All.
  assert (Hpolicy : forall t doc at_, commits R (put_policy jsonb t doc at_)).
  { intros t doc at_ d. unfold put_policy. destruct (Policy.Put _ _ _ _ _) as [[? ?]|]; [|done]. by apply HR. }
  assert (Henq : forall j, moves (Q := Q) R (enqueue j)).
  { intros j w. apply HR. unfold enqueue. by destruct (add j _ _) as [[? ?] ?]. }
  assert (Hacc : forall t jt src i, moves (Q := Q) R (accept_one t jt src i)) by (intros; unfold accept_one; moves; by_links).
  assert (Hall : forall t jt src is_, moves (Q := Q) R (accept_all t jt src is_)).
  { intros t jt src is_. induction is_; cbn [accept_all]; moves. }
  assert (Hrep : forall t rows, moves (Q := Q) R (report_rows t rows)) by (intros; by apply report_keeps).
  assert (Hopen : forall hash at_, commits R (view_link hash at_)).
  { intros hash at_ d. destruct (view_link hash at_ d) as [d' [resp|]] eqn:E; [|done].
    apply view_link_Ok in E as (l & o & j & El & _ & Hv & _ & _ & ->). by apply Hview. }
  destruct x; cbn [handler_of];
  unfold login, logout, getSession, postJob, postJobBatch, listJobs, getJob, createLink, compliance, getPolicy, putPolicy,
    createKey, listKeys, revokeKey, postSentinelEvents, listSentinelNodes, openLink, check_and_limit, allowPost; moves;
    lazymatch goal with |- stays _ (insert_link _ _) => idtac | _ => by_links end.
  intros d d' [] E. unfold insert_link in E. destruct (_ !! _) eqn:El; [done|]. case_bool_decide; [|done].
  injection E as <-. by apply Hlink.
Qed.

Lemma Handler_links x r : moves (Q := Q) R (Handler jsonb cfg x r).
Proof using All.
  unfold Handler, authed. destruct (roles_of x); [|apply handler_links]. moves; try apply handler_links.
  apply authenticate_moves; [apply _|]. intros at_ hash d sk _ d' E. unfold touch in E. injection E as <-. by apply HR.
Qed.
End links.

(** A link stays what it is, and its views are counted up. *)
Definition still_link (h : gostring) (d d' : db) : Prop :=
  forall l, delivery_links d !! h = Some l -> exists l', delivery_links d' !! h = Some l' /\
    l_job l' = l_job l /\ l_tenant l' = l_tenant l /\ l_expires_at l' = l_expires_at l /\ max_views l' = max_views l /\
    (view_count l <= view_count l')%Z /\ (view_count l <= max_views l -> view_count l' <= max_views l')%Z.

#[local] Instance still_link_preorder h : PreOrder (still_link h).
Proof.
  split; [intros d l Hl; exists l; split_and!; done|].
  intros d1 d2 d3 H12 H23 l Hl. destruct (H12 l Hl) as (l2 & Hl2 & E1 & E2 & E3 & E4 & ? & ?).
  destruct (H23 l2 Hl2) as (l3 & Hl3 & F1 & F2 & F3 & F4 & ? & ?). exists l3.
  split_and!; [done|congruence..|lia|auto].
Qed.

Lemma Handler_still h x r : moves (Q := Q) (still_link h) (Handler jsonb cfg x r).
Proof.
  apply Handler_links; [apply _| | |].
  - intros d d' E l Hl. exists l. rewrite E. split_and!; done.
  - intros hash l d Hl Hv l0 Hl0. cbn. destruct (decide (hash = h)) as [->|].
    + rewrite lookup_insert_eq. eexists. split; [done|]. assert (l0 = l) as -> by congruence. cbn. split_and!; try done; lia.
    + rewrite lookup_insert_ne by done. exists l0. split_and!; done.
  - intros hash l d Hn l0 Hl0. cbn. destruct (decide (hash = h)) as [->|]; [congruence|].
    rewrite lookup_insert_ne by done. exists l0. split_and!; done.
Qed.

(** The answers that show what a link leads to. *)
Definition shown (h : gostring) (y : (route * request) * response) : Prop :=
  y.1.1 = OpenLink /\ sha256Hex (PathValue y.1.2) = h /\ status y.2 = 200%Z.

#[export] Instance route_eq_dec : EqDecision route.
Proof. solve_decision. Defined.
#[export] Instance shown_dec h y : Decision (shown h y).
Proof. unfold shown. apply _. Defined.

Lemma view_link_Err h at_ d d' resp : view_link h at_ d = (d', Err resp) -> status resp <> 200%Z.
Proof.
  unfold view_link, exec, select. io_run. destruct (delivery_links d !! h) as [l|]; [|by intros [= <- <-]].
  destruct (l_expires_at l <=? at_)%Z; [by intros [= <- <-]|].
  destruct (max_views l <=? view_count l)%Z; [by intros [= <- <-]|].
  by destruct (select_delivery _ _ d); [|intros [= <- <-]].
Qed.

(** An answer that shows something is a view of the link, before its time is over. *)
Lemma shown_view h x r w : shown h ((x, r), (serve jsonb cfg x r w).2) ->
  exists l, delivery_links (tables w) !! h = Some l /\ (view_count l < max_views l)%Z /\
    (clock (ticks w) < l_expires_at l)%Z /\
    delivery_links (tables (serve jsonb cfg x r w).1) !! h = Some (count_view l).
Proof.
  intros (Hx & Hh & Hs). cbn in Hx, Hh. subst x. revert Hs. unfold serve, Handler. cbn [roles_of handler_of].
  unfold openLink. io_run. cbn [now]. rewrite Hh. set (w0 := World _ _ _ _ _ _ _).
  unfold transaction. pose proof (next_fault_tables w0) as Et. destruct (next_fault w0) as [o w1]. cbn [snd] in Et.
  rewrite Et. change (tables w0) with (tables w). destruct (view_link h (clock (ticks w)) (tables w)) as [d [resp|resp]] eqn:Ev.
  - apply view_link_Ok in Ev as (l & oo & j & Hl & Ht & Hv & _ & _ & ->). destruct o; cbn; try done.
    intros _. exists l. rewrite lookup_insert_eq. done.
  - apply view_link_Err in Ev. by destruct o; cbn.
Qed.

(** C16 [link_views_bounded]: whatever requests are served, whatever fails in between,
    a link shows its output at most as many more times as it has views left. *)
Theorem link_views_bounded rs w h l :
  delivery_links (tables w) !! h = Some l -> (view_count l <= max_views l)%Z ->
  (glen (filter (shown h) (zip rs (serve_all rs w).2)) <= max_views l - view_count l)%Z.
Proof.
  revert w l. induction rs as [|[x r] rs IH]; intros w l Hl Hv; [unfold glen; cbn; lia|]. cbn [serve_all snd zip].
  destruct (Handler_still h x r w l Hl) as (l' & Hl' & _ & _ & _ & Em & Hc & Hm). rewrite <- serve_tables in Hl'.
  cbn [zip zip_with]. destruct (decide (shown h ((x, r), (serve jsonb cfg x r w).2))) as [Hs|Hs].
  - rewrite filter_cons_True by done. destruct (shown_view _ _ _ _ Hs) as (l0 & Hl0 & Hlt & _ & Hl1).
    rewrite Hl in Hl0. injection Hl0 as <-. specialize (IH _ _ Hl1 ltac:(cbn; lia)). cbn in IH. unfold glen in *. cbn [length]. lia.
  - rewrite filter_cons_False by done. specialize (IH _ _ Hl' (Hm Hv)). lia.
Qed.

(** ** What is revoked *)

Definition same_key (k k' : Keys.key_row) : Prop :=
  Keys.key_id k' = Keys.key_id k /\ Keys.key_hash k' = Keys.key_hash k /\
  (Keys.revoked_at k <> None -> Keys.revoked_at k' <> None).

Definition same_session (s s' : session) : Prop :=
  s_id s' = s_id s /\ token_hash s' = token_hash s /\ s_key s' = s_key s /\ expires_at s' = expires_at s /\
  (s_revoked_at s <> None -> s_revoked_at s' <> None).

(** Keys and sessions stay, and stay revoked. *)
Definition lasting (d d' : db) : Prop :=
  (forall k, k ∈ api_keys d -> exists k', k' ∈ api_keys d' /\ same_key k k') /\
  (forall s, s ∈ sessions d -> exists s', s' ∈ sessions d' /\ same_session s s').

#[local] Instance lasting_preorder : PreOrder lasting.
Proof.
  split.
  - intros d. split; intros x Hx; exists x; by repeat split.
  - intros d1 d2 d3 [Hk1 Hs1] [Hk2 Hs2]. split.
    + intros k (k2 & Hk & E1 & E2 & E3)%Hk1. destruct (Hk2 _ Hk) as (k3 & ? & F1 & F2 & F3).
      exists k3. split; [done|]. split_and!; [congruence..|auto].
    + intros s (s2 & Hs & E1 & E2 & E3 & E4 & E5)%Hs1. destruct (Hs2 _ Hs) as (s3 & ? & F1 & F2 & F3 & F4 & F5).
      exists s3. split; [done|]. split_and!; [congruence..|auto].
Qed.

Lemma lasting_same d d' : api_keys d' = api_keys d -> sessions d' = sessions d -> lasting d d'.
Proof. intros Ek Es. split; intros x Hx; exists x; rewrite ?Ek, ?Es; by repeat split. Qed.

(** Rows are added, or changed without changing what matters. *)
Lemma lasting_sessions us ss d :
  (forall s, same_session s (us s)) -> lasting d (set_sessions ((us <$> sessions d) ++ ss) d).
Proof.
  intros Hs. split; intros x Hx; [by exists x|]. exists (us x). split; [|done].
  apply elem_of_app. left. by apply list_elem_of_fmap_2.
Qed.

Lemma lasting_keys uk ks l d :
  (forall k, same_key k (uk k)) -> lasting d (set_keys (Keys.Store ((uk <$> api_keys d) ++ ks) l) d).
Proof.
  intros Hk. split; intros x Hx; [|by exists x]. exists (uk x). split; [|done].
  apply elem_of_app. left. by apply list_elem_of_fmap_2.
Qed.

Lemma lasting_update_sessions us d :
  (forall s, same_session s (us s)) -> lasting d (set_sessions (us <$> sessions d) d).
Proof. rewrite <- (app_nil_r (us <$> sessions d)). apply lasting_sessions. Qed.

Lemma lasting_update_keys uk l d :
  (forall k, same_key k (uk k)) -> lasting d (set_keys (Keys.Store (uk <$> api_keys d) l) d).
Proof. rewrite <- (app_nil_r (uk <$> api_keys d)). apply lasting_keys. Qed.

Lemma insert_session_lasting s0 : stays lasting (insert_session s0).
Proof.
  intros d d' a E. statement_cases E. rewrite <- (list_fmap_id (sessions d)). apply lasting_sessions. by repeat split.
Qed.

Lemma update_revoked_lasting hash t at_ : stays lasting (update_revoked hash t at_).
Proof.
  intros d d' a E. unfold update_revoked in E. destruct (find _ _); [|done]. injection E as <- _.
  apply lasting_update_sessions. intros x. unfold same_session. by destruct (open_session hash t x).
Qed.

Lemma touch_lasting at_ id0 : stays lasting (touch at_ id0).
Proof.
  intros d d' a E. unfold touch in E. injection E as <- _.
  apply lasting_update_sessions. intros x. unfold same_session. by destruct (_ && _).
Qed.

Lemma create_lasting t name role raw secret id0 t1 t2 :
  stays lasting (on_keys (Keys.Create jsonb t name role raw secret id0 t1 t2)).
Proof.
  intros d d' a E. unfold on_keys, Keys.Create, Keys.insert_key in E.
  destruct (negb _); [done|]. destruct (existsb _ _); [done|]. case_bool_decide; [|done].
  unfold Keys.append in E. cbn in E. destruct (Ledger.Append _ _ _ _ _ _) as [l|]; [|done]. cbn in E.
  injection E as <- <-. rewrite <- (list_fmap_id (api_keys d)). apply lasting_keys. by repeat split.
Qed.

Lemma revoke_lasting t id0 t1 t2 :
  stays lasting (on_keys (fun s => s' ← Keys.Revoke jsonb t id0 t1 t2 s; Ok (tt, s'))).
Proof.
  intros d d' a E. unfold on_keys, Keys.Revoke, Keys.append in E. destruct (existsb _ _); [|done]. cbn in E.
  destruct (Ledger.Append _ _ _ _ _ _); [|done]. cbn in E. injection E as <- _.
  apply lasting_update_keys. intros x. unfold same_key. by destruct (Keys.revocable t id0 x).
Qed.

#[local] Hint Resolve insert_session_lasting update_revoked_lasting create_lasting revoke_lasting report_keeps : moves.

Ltac by_lasting := let E := fresh in intros ? ? ? E; statement_cases E; by apply lasting_same.

Lemma handler_lasting x csrf r p : moves (Q := Q) lasting (handler_of jsonb cfg x csrf r p).
Proof.
  assert (Hpolicy : forall t doc at_, commits lasting (put_policy jsonb t doc at_)).
  { intros t doc at_ d. unfold put_policy. destruct (Policy.Put _ _ _ _ _) as [[? ?]|]; [|done]. by apply lasting_same. }
  assert (Henq : forall j, moves (Q := Q) lasting (enqueue j)).
  { intros j w. apply lasting_same; unfold enqueue; by destruct (add j _ _) as [[? ?] ?]. }
  assert (Hacc : forall t jt src i, moves (Q := Q) lasting (accept_one t jt src i)) by (intros; unfold accept_one; moves; by_lasting).
  assert (Hall : forall t jt src is_, moves (Q := Q) lasting (accept_all t jt src is_)).
  { intros t jt src is_. induction is_; cbn [accept_all]; moves. }
  destruct x; cbn [handler_of];
  unfold login, logout, getSession, postJob, postJobBatch, listJobs, getJob, createLink, compliance, getPolicy, putPolicy,
    createKey, listKeys, revokeKey, postSentinelEvents, listSentinelNodes, openLink, check_and_limit, allowPost; moves; by_lasting.
Qed.

Lemma Handler_lasting x r : moves (Q := Q) lasting (Handler jsonb cfg x r).
Proof.
  unfold Handler, authed. destruct (roles_of x); [|apply handler_lasting]. moves; try apply handler_lasting.
  apply authenticate_moves; [apply _|]. intros at_ hash d sk _ d' E. by eapply touch_lasting.
Qed.

(** A request with a key that is revoked, or with a session that is revoked, whose
    key is revoked, or whose time is over at [now]. *)
Definition dead (r : request) (d : db) (now : time) : Prop :=
  if seqb (XApiKey r) [] then
    exists value s, Cookie (sessionCookieName cfg) r = Some value /\ s ∈ sessions d /\ token_hash s = Sha256.Sum256 value /\
      (s_revoked_at s <> None \/ (expires_at s <= now)%Z \/
       exists k, k ∈ api_keys d /\ Keys.key_id k = s_key s /\ Keys.revoked_at k <> None)
  else exists k, k ∈ api_keys d /\ Keys.key_hash k = Sha256.Sum256 (XApiKey r) /\ Keys.revoked_at k <> None.

(** Nobody gets in on it. *)
Lemma dead_stays_out r w d now : lasting d (tables w) -> tables_ok (tables w) -> dead r d now -> (now <= clock (ticks w))%Z ->
  forall w' p csrf, authenticate cfg r w <> (w', Ok (p, csrf)).
Proof.
  intros [Hk Hs] Hw Hd Hn w' p csrf E%authenticate_spec. unfold dead in Hd.
  destruct (seqb (XApiKey r) []) eqn:Ex; bool_to_prop.
  - destruct Hd as (v & s & Hc & Hin & Ht & Hd). destruct csrf as [c|]; [|by destruct E as [[Hx _] _]].
    destruct E as (s1 & (_ & v1 & k1 & Hc1 & Hin1 & Ht1 & Hk1 & Hi1 & Hr1 & Hkr1 & He1 & _) & _).
    destruct (Hs s Hin) as (s2 & Hin2 & E1 & E2 & E3 & E4 & E5).
    assert (s2 = s1) as -> by (eapply (NoDup_fmap_elem token_hash); [apply Hw|done..|congruence]).
    destruct Hd as [Hr|[He|(k & Hkin & Hki & Hkr)]]; [by apply E5|lia|].
    destruct (Hk k Hkin) as (k2 & Hk2 & F1 & F2 & F3).
    assert (k2 = k1) as -> by (eapply (NoDup_fmap_elem Keys.key_id); [apply Hw|done..|congruence]). by apply F3.
  - destruct Hd as (k & Hkin & Hkh & Hkr). destruct csrf as [c|].
    { destruct E as (s1 & (Hx & _) & _). done. }
    destruct E as [[_ (k1 & Hk1 & Hh1 & Hr1 & _)] _]. destruct (Hk k Hkin) as (k2 & Hk2 & F1 & F2 & F3).
    assert (k2 = k1) as -> by (eapply (NoDup_fmap_elem Keys.key_hash); [apply Hw|done..|congruence]). by apply F3.
Qed.

(** C15 [revocation_final]: once a key is revoked, or a session is revoked, has expired
    or has lost its key, then whatever requests are served after that, one that comes
    with it gets 401 on every route that asks who it is, and changes nothing. *)
Theorem revocation_final rs w x r :
  tables_ok (tables w) -> dead r (tables w) (clock (ticks w)) -> roles_of x <> None ->
  let w' := (serve_all rs w).1 in
  (clock (ticks w) <= clock (ticks w'))%Z ->
  (serve jsonb cfg x r w').2 = plain_status 401 /\ tables (serve jsonb cfg x r w').1 = tables w'.
Proof.
  intros Hw Hd Hx w' Hn. assert (lasting (tables w) (tables w')) as Hl
    by (apply (serve_all_moves lasting); intros; apply Handler_lasting).
  assert (tables_ok (tables w')) as Hw' by by apply serve_all_ok.
  destruct (roles_of x) as [roles|] eqn:Er; [|done]. unfold serve, Handler. rewrite Er.
  destruct (authed_run cfg roles (handler_of jsonb cfg x) r w') as [(w1 & Ea & ->)|(w1 & p & csrf & Ea & _)].
  - by apply authenticate_spec in Ea.
  - by apply (dead_stays_out r w' _ _ Hl Hw' Hd Hn) in Ea.
Qed.

(** ** A new key *)

Lemma b32_digit_plain n : n < 32 -> Keys.b32_digit n <> "_"%byte.
Proof.
  intros Hn. do 32 (destruct n as [|n]; [done|]). lia.
Qed.

Lemma bits_value_lt a b c d e : Keys.bits_value [a; b; c; d; e] < 32.
Proof. destruct a, b, c, d, e; cbn; lia. Qed.

Lemma newPrefix_plain raw : length raw = 5 -> length (Keys.newPrefix raw) = 8 /\ "_"%byte ∉ Keys.newPrefix raw.
Proof.
  intros Hl. destruct raw as [|a [|b [|c [|d [|e [|? ?]]]]]]; try done. unfold Keys.newPrefix, Keys.base32.
  cbn [mbind list_bind app Keys.bits_of fmap list_fmap Keys.b32_digits].
  split; [done|]. rewrite !not_elem_of_cons. split_and!; try apply not_elem_of_nil;
    apply not_eq_sym, b32_digit_plain, bits_value_lt.
Qed.

Lemma Prefix_full raw secret : length raw = 5 -> length secret = 32 ->
  Keys.Prefix ("ch_" ++ Keys.newPrefix raw ++ "_" ++ RawURLEncodeToString secret) = Some (Keys.newPrefix raw).
Proof.
  intros Hr Hs. destruct (newPrefix_plain raw Hr) as [Hl Hp]. unfold Keys.Prefix.
  assert (Cut ("ch_" ++ Keys.newPrefix raw ++ "_" ++ RawURLEncodeToString secret) "_"%byte =
          Some ("ch"%go, Keys.newPrefix raw ++ "_" ++ RawURLEncodeToString secret)) as ->.
  { apply Cut_Some. split; [done|]. apply (bool_decide_unpack _). vm_compute. exact I. }
  cbn [mbind option_bind fst snd].
  assert (Cut (Keys.newPrefix raw ++ "_" ++ RawURLEncodeToString secret) "_"%byte =
          Some (Keys.newPrefix raw, RawURLEncodeToString secret)) as -> by (by apply Cut_Some).
  cbn [mbind option_bind fst snd]. rewrite Hl. cbn. rewrite (proj2 (seqb_neq _ [])); [done|].
  destruct secret as [|x [|y [|z secret]]]; done.
Qed.

Lemma find_snoc_new {A} (f : A -> bool) l x : (forall y, y ∈ l -> f y = false) -> f x = true -> find f (l ++ [x]) = Some x.
Proof.
  intros Hl Hx. induction l as [|y l IH]; cbn; [by rewrite Hx|].
  rewrite (Hl y) by left. apply IH. intros z Hz. apply Hl. by right.
Qed.

Lemma Create_Authenticate t name role raw secret id t1 t2 s i pre full s' :
  length raw = 5 -> length secret = 32 ->
  Keys.Create jsonb t name role raw secret id t1 t2 s = Ok ((i, pre, full), s') ->
  i = id /\ Keys.Authenticate full (Keys.api_keys s') = Some (Keys.MkPrincipal t id role).
Proof.
  intros Hr Hs E. unfold Keys.Create, Keys.insert_key in E. cbn [Keys.name] in E. destruct (negb _); [done|].
  destruct (existsb _ _) eqn:Ex in E; [done|]. case_bool_decide; [|done]. unfold Keys.append in E.
  cbv beta iota delta [mbind result_bind] in E. destruct (Ledger.Append _ _ _ _ _ _) as [l|]; [|done].
  injection E as <- <- <- <-. split; [done|]. unfold Keys.Authenticate.
  match goal with |- context [Keys.Prefix ?f] =>
    change f with ("ch_" ++ Keys.newPrefix raw ++ "_" ++ RawURLEncodeToString secret) end.
  rewrite Prefix_full by done.
  cbn [mbind option_bind Keys.api_keys]. unfold Keys.select_prefix.
  rewrite find_snoc_new; [cbn; by rewrite seqb_refl| |apply seqb_refl].
  intros y Hy. pose proof (existsb_false_elem _ _ _ Ex Hy) as Hn. cbn in Hn. bool_to_prop. by apply seqb_neq.
Qed.

(** What [createKey] does when it answers with a key. *)
Lemma createKey_Ok `{!EnvironmentLaws} r p w w' resp : createKey jsonb r p w = (w', Ok resp) ->
  exists m id prefix full, readJSON r = Some m /\
    body resp = Marshal (JObj [("id", JStr id); ("key", JStr full); ("prefix", JStr prefix)]%go) ++ [Byte.x0a] /\
    Keys.Authenticate full (api_keys (tables w')) = Some (Keys.MkPrincipal (Keys.TenantID p) id (member "role" m)).
Proof.
  unfold createKey. destruct (readJSON r) as [m|]; cbn [some_or_resp]; [|done]. rewrite bind_ret_io.
  unfold guard. destruct (negb _); [|done]. rewrite bind_ret_io. destruct (existsb _ _); [|done]. rewrite bind_ret_io.
  io_run. cbn [rand_read fresh_uuid now]. unfold transaction.
  match goal with |- context [next_fault ?x] => set (w0 := x) end.
  pose proof (next_fault_tables w0) as Et. destruct (next_fault w0) as [o w1]. cbn [snd] in Et. rewrite Et.
  unfold exec, on_keys. destruct (Keys.Create _ _ _ _ _ _ _ _ _ _) as [[[[i pre] full] s']|e] eqn:Ec; cbn; [|by destruct o].
  destruct o; [|done..]. intros [= <- <-].
  apply Create_Authenticate in Ec as [-> Ha]; [|apply random_length..].
  exists m, (new_uuid (idents w)), pre, full. split; [done|]. by split.
Qed.

Lemma createKey_errs r p : errs (X := W) (fun e => status e <> 200%Z) (createKey jsonb r p).
Proof. unfold createKey. errs. Qed.

(** C22 [created_key_works]: a key that the control plane hands out is let in, as a
    principal of the tenant that asked for it, with the role asked for. *)
Theorem created_key_works `{!EnvironmentLaws} r w w' resp :
  tables_ok (tables w) -> serve jsonb cfg PostKey r w = (w', resp) -> status resp = 200%Z ->
  exists t m id prefix full, requester cfg r (tables w) t /\ readJSON r = Some m /\
    body resp = Marshal (JObj [("id", JStr id); ("key", JStr full); ("prefix", JStr prefix)]%go) ++ [Byte.x0a] /\
    Keys.Authenticate full (api_keys (tables w')) = Some (Keys.MkPrincipal t id (member "role" m)).
Proof.
  intros Hw E Hs. unfold serve, Handler in E. cbn [roles_of handler_of] in E.
  destruct (authed_run cfg ["admin"%go] (handler_of jsonb cfg PostKey) r w) as [(w1 & _ & Er)|(w1 & p & csrf & Ea & Hr)].
  - rewrite Er in E. by injection E as <- <-.
  - apply (authenticate_frame cfg r w w1 p csrf Hw) in Ea as [Hq _]. destruct Hr as [Er|(_ & _ & Er)]; rewrite Er in E.
    + by injection E as <- <-.
    + cbn [handler_of] in E. destruct (createKey jsonb r p w1) as [w2 [resp'|resp']] eqn:Ec; injection E as <- <-.
      * destruct (createKey_Ok r p w1 w2 resp' Ec) as (m & id & pre & full & Hm & Hb & Ha).
        by exists (Keys.TenantID p), m, id, pre, full.
      * by apply createKey_errs in Ec.
Qed.
End server.
#[local] Existing Instance toy_ids.
#[local] Existing Instance toy_uuid.
#[local] Existing Instance toy_aead.
#[local] Existing Instance toy_vault.
#[local] Existing Instance Seal.memory_receipts.
#[local] Existing Instance Journal.memory_journal.

#[local] Instance toy_environment_laws : EnvironmentLaws.
Proof. split. intros i n. apply length_replicate. Defined.

Abbreviation toy_serve := (serve jsonb_marshal toy_config).

(** Somebody opens the link three times. *)
Lemma link_views_bounded_witness :
  let rs := replicate 3 (OpenLink, key_request "GET" [] "tok" []) in
  let resps := (serve_all jsonb_marshal toy_config rs toy_server).2 in
  status <$> resps = [200; 200; 403]%Z /\
  (glen (filter (shown (sha256Hex "tok")) (zip rs resps)) <= 2 - 0)%Z.
Proof.
  intros rs resps. split; [vm_compute; reflexivity|].
  refine (link_views_bounded jsonb_marshal toy_config rs toy_server (sha256Hex "tok")
            (MkLink "j1" "t1" (7200 * Second) 2 0) _ _); [|done].
  apply lookup_singleton_eq.
Defined.

(** The node's key is revoked; then it asks for the policy. *)
Lemma revocation_final_witness :
  let w := (toy_serve DeleteKey (cookie_request "DELETE" "csrf" "ops.example" "k2" []) toy_server).1 in
  let r := key_request "GET" "ch_NODEKEYS_s" [] [] in
  status (toy_serve GetPolicy r toy_server).2 = 200%Z /\
  (toy_serve GetPolicy r (serve_all jsonb_marshal toy_config [(ListKeys, key_request "GET" "ch_ADMINKEY_s" [] [])] w).1).2
    = plain_status 401.
Proof.
  intros w r. split; [vm_compute; reflexivity|].
  apply (revocation_final jsonb_marshal toy_config [(ListKeys, key_request "GET" "ch_ADMINKEY_s" [] [])] w GetPolicy r).
  - unfold w. rewrite serve_tables. apply Handler_keeps, toy_tables_ok.
  - unfold dead. change (seqb (XApiKey r) []) with false. cbv iota.
    assert (existsb (fun k => seqb (Keys.key_hash k) (Sha256.Sum256 (XApiKey r)) && match Keys.revoked_at k with Some _ => true | None => false end)
              (api_keys (tables w)) = true) as He by (vm_compute; reflexivity).
    apply existsb_exists in He as (k & Hk & E). exists k. rewrite list_elem_of_In. bool_to_prop.
    split_and!; [done..|]. by destruct (Keys.revoked_at k).
  - done.
  - vm_compute. discriminate.
Defined.

Lemma created_key_works_witness :
  let r := key_request "POST" "ch_ADMINKEY_s" "j1" (Marshal (JObj [("name", JStr "n"); ("role", JStr "app")]%go)) in
  let x := toy_serve PostKey r toy_server in
  exists t m id prefix full, requester toy_config r toy_tables t /\ readJSON r = Some m /\
    body x.2 = Marshal (JObj [("id", JStr id); ("key", JStr full); ("prefix", JStr prefix)]%go) ++ [Byte.x0a] /\
    Keys.Authenticate full (api_keys (tables x.1)) = Some (Keys.MkPrincipal t id (member "role" m)).
Proof.
  intros r x. apply (created_key_works jsonb_marshal toy_config r toy_server x.1 x.2 toy_tables_ok).
  - apply surjective_pairing.
  - vm_compute. reflexivity.
Defined.
