(* ===== verification/ApiLimit.v ===== *)
(** * The control plane: accepting jobs

    A tenant gets at most thirty posts accepted in a minute, and what is accepted is
    in the queue, sealed under a key of its own. *)

From S2P Require Import Prelude GoStd GoTime TimeParse Base64 Json Decode Sha256 Ledger LedgerSpec Policy PolicySpec Seal Journal Proc Queue SealSpec JournalSpec QueueSpec QueueOnce Keys Api ApiJobs ApiNodes ApiLogic ApiQueue ApiSpec ApiTenants ApiAccess.
Import Api ApiJobs ApiNodes.

Create HintDb climbs.

(** ** Worlds along which a relation holds *)

Section climbs.
Context {Q : Type} (R : world Q -> world Q -> Prop) `{!PreOrder R}.
Context (HR : forall w w', counters w' = counters w -> ticks w <= ticks w' -> R w w').
Abbreviation W := (world Q).

Definition climbs {E A} (m : io W E A) : Prop := forall w, R w (m w).1.

Lemma next_fault_rest (w : W) : counters (next_fault w).2 = counters w /\ ticks (next_fault w).2 = ticks w.
Proof using. unfold next_fault. by destruct (faults w). Qed.

Lemma climbs_ret {E A} (a : A) : climbs (ret (E := E) a).
Proof using PreOrder0. intros w. reflexivity. Qed.
Lemma climbs_throw {E A} (e : E) : climbs (throw (A := A) e).
Proof using PreOrder0. intros w. reflexivity. Qed.
Lemma climbs_try {E E' A B} (m : io W E A) (k : result E A -> io W E' B) :
  climbs m -> (forall r, climbs (k r)) -> climbs (try m k).
Proof using PreOrder0.
  intros Hm Hk w. cbn [try io_effects]. specialize (Hm w). destruct (m w) as [w1 r]. etrans; [exact Hm|apply Hk].
Qed.
Lemma climbs_bind {E A B} (m : io W E A) (k : A -> io W E B) : climbs m -> (forall a, climbs (k a)) -> climbs (bind m k).
Proof using PreOrder0. intros Hm Hk. apply climbs_try; [done|]. intros [a|e]; [apply Hk|apply climbs_throw]. Qed.
Lemma climbs_bind_err {E E' A B} (g : E -> E') (m : io W E A) (k : A -> io W E' B) :
  climbs m -> (forall a, climbs (k a)) -> climbs (bind_err g m k).
Proof using PreOrder0. intros Hm Hk. apply climbs_try; [done|]. intros [a|e]; [apply Hk|apply climbs_throw]. Qed.
Lemma climbs_now {E} `{Environment} : climbs (now (E := E)).
Proof using All. intros w. apply HR; cbn; [done|lia]. Qed.
Lemma climbs_rand {E} `{Environment} n : climbs (rand_read (E := E) n).
Proof using All. intros w. by apply HR. Qed.
Lemma climbs_uuid {E} `{Environment} : climbs (fresh_uuid (E := E)).
Proof using All. intros w. by apply HR. Qed.

Lemma climbs_same {E A} (m : io W E A) :
  (forall w, counters (m w).1 = counters w /\ ticks (m w).1 = ticks w) -> climbs m.
Proof using All. intros Hm w. destruct (Hm w) as [Hc Ht]. apply HR; [done|lia]. Qed.

Lemma climbs_sql {A} (f : db -> result Ledger.sql_error (db * A)) : climbs (sql f).
Proof using All.
  apply climbs_same. intros w. unfold sql. pose proof (next_fault_rest w) as [Hc Ht]. destruct (next_fault w) as [o w1].
  cbn in *. by destruct o, (f (tables w1)) as [[d a]|e].
Qed.
Lemma climbs_query {A} (f : db -> list A) : climbs (query f).
Proof using All.
  apply climbs_same. intros w. unfold query. pose proof (next_fault_rest w) as [Hc Ht]. destruct (next_fault w) as [o w1].
  by destruct o.
Qed.
Lemma climbs_transaction {A} fail (body : io db response A) : climbs (transaction fail body).
Proof using All.
  apply climbs_same. intros w. unfold transaction. pose proof (next_fault_rest w) as [Hc Ht]. destruct (next_fault w) as [o w1].
  cbn in *. by destruct (body (tables w1)) as [d [a|e]], o.
Qed.
Lemma climbs_enqueue `{!Enqueuer Q} j : climbs (enqueue j).
Proof using All. apply climbs_same. intros w. unfold enqueue. by destruct (add j _ _) as [[k q] r]. Qed.
Lemma climbs_running `{!Enqueuer Q} id : climbs (is_running id).
Proof using All. by apply climbs_same. Qed.
Lemma climbs_guard r b : climbs (guard r b).
Proof using PreOrder0. unfold guard. destruct b; [apply climbs_ret|apply climbs_throw]. Qed.
Lemma climbs_some {A} r (o : option A) : climbs (some_or_resp r o).
Proof using PreOrder0. unfold some_or_resp. destruct o; [apply climbs_ret|apply climbs_throw]. Qed.
End climbs.

#[export] Hint Extern 0 (PreOrder _) => apply _ : climbs.
#[export] Hint Resolve climbs_ret climbs_throw climbs_now climbs_rand climbs_uuid climbs_sql climbs_query
  climbs_transaction climbs_enqueue climbs_running climbs_guard climbs_some : climbs.

Ltac climbs_step :=
  first
    [ progress (intros; cbv zeta)
    | solve [eauto 4 with climbs]
    | solve [apply _]
    | apply climbs_bind
    | apply climbs_bind_err
    | apply climbs_try
    | match goal with
      | |- climbs _ (match ?x with _ => _ end) => destruct x eqn:?
      | |- climbs _ (if ?x then _ else _) => destruct x eqn:?
      end ].
Ltac climbs := repeat climbs_step.

(** ** The counter of a tenant in a minute *)

Section limit.
Context `{Environment, !Seal.UUID, !Journal.JobIDs} (jsonb : gostring -> option gostring) (cfg : config).
Context {Q : Type} `{!Enqueuer Q}.
Abbreviation W := (world Q).
Implicit Types w : W.
(** The tenant, and the minute. *)
Context (t : gostring) (k : Z).

Definition in_minute (at_ : time) : Prop := (0 <= at_)%Z /\ limit_window at_ = k.

(** The clock stays in the minute from one reading to another. *)
Definition within (a b : nat) : Prop := forall i, a <= i < b -> in_minute (clock i).

Definition the_key : gostring := "ratelimit:post:" ++ t ++ ":" ++ Itoa k.

Definition posted_so_far (c : gmap gostring (Z * option time)) : Z :=
  match c !! the_key with Some (n, _) => n | None => 0 end.

(** The counter is not gone before the minute is over. *)
Definition lasting_counter (c : gmap gostring (Z * option time)) : Prop :=
  match c !! the_key with
  | Some (n, Some deadline) => (0 <= n /\ 60 * (k + 1) * Second <= deadline)%Z
  | Some (n, None) => (0 <= n)%Z
  | None => True
  end.

Lemma minute_bounds at_ : in_minute at_ -> (60 * k * Second <= at_ < 60 * (k + 1) * Second)%Z.
Proof.
  intros [Hat Hk]. unfold limit_window, Second in *. pose proof (Z.div_pos at_ 1000000000 Hat ltac:(lia)).
  rewrite Z.quot_div_nonneg in Hk by lia. subst k.
  pose proof (Z.div_mod at_ 1000000000 ltac:(lia)). pose proof (Z.mod_pos_bound at_ 1000000000 ltac:(lia)).
  pose proof (Z.div_mod (at_ / 1000000000) 60 ltac:(lia)). pose proof (Z.mod_pos_bound (at_ / 1000000000) 60 ltac:(lia)). lia.
Qed.

Lemma counter_the_key at_ c : in_minute at_ -> lasting_counter c -> counter the_key at_ c = c !! the_key.
Proof.
  intros Hm%minute_bounds Hc. unfold counter, lasting_counter in *. destruct (c !! the_key) as [[n [dl|]]|]; [|done..].
  rewrite (proj2 (Z.leb_gt dl at_)); [done|lia].
Qed.

Lemma incr_key key at_ c : in_minute at_ -> lasting_counter c ->
  lasting_counter (incr key at_ c).2 /\
  (posted_so_far c <= posted_so_far (incr key at_ c).2)%Z /\
  (key = the_key -> (incr key at_ c).1 = (posted_so_far c + 1)%Z /\ posted_so_far (incr key at_ c).2 = (posted_so_far c + 1)%Z).
Proof.
  intros Hm Hc. destruct (decide (key = the_key)) as [->|Hne].
  - unfold incr. rewrite counter_the_key by done. unfold posted_so_far, lasting_counter in *.
    destruct (c !! the_key) as [[n dl]|]; cbn; rewrite lookup_insert_eq; cbn; [|lia].
    split; [|lia]. destruct dl; lia.
  - unfold incr. destruct (default _ _) as [n dl]. cbn. unfold posted_so_far, lasting_counter in *.
    rewrite !lookup_insert_ne by done. by split.
Qed.

Lemma expire_key key at_ c : in_minute at_ -> lasting_counter c ->
  lasting_counter (expire key (120 * Second) at_ c) /\ posted_so_far (expire key (120 * Second) at_ c) = posted_so_far c.
Proof.
  intros Hm Hc. unfold expire. destruct (decide (key = the_key)) as [->|Hne].
  - rewrite counter_the_key by done. unfold posted_so_far, lasting_counter in *.
    destruct (c !! the_key) as [[n dl]|] eqn:Ec; [|by rewrite Ec]. rewrite lookup_insert_eq. split; [|done].
    apply minute_bounds in Hm. destruct dl; unfold Second in *; lia.
  - destruct (counter key at_ c) as [[n dl]|]; [|done]. unfold posted_so_far, lasting_counter in *.
    by rewrite !lookup_insert_ne.
Qed.

(** While the clock is in the minute, the counter only grows. *)
Definition climb w w' : Prop :=
  ticks w <= ticks w' /\ (within (ticks w) (ticks w') -> lasting_counter (counters w) ->
    lasting_counter (counters w') /\ (posted_so_far (counters w) <= posted_so_far (counters w'))%Z).

#[local] Instance climb_preorder : PreOrder climb.
Proof.
  split; [intros w; split; [done|]; intros _ Hc; by split|].
  intros w1 w2 w3 [Ht1 C1] [Ht2 C2]. split; [lia|]. intros Hw Hc.
  destruct C1 as [Hc2 Hp1]; [|done|].
  { intros i Hi. apply Hw. lia. }
  destruct C2 as [Hc3 Hp2]; [|done|].
  { intros i Hi. apply Hw. lia. }
  split; [done|lia].
Qed.

Lemma climb_same w w' : counters w' = counters w -> ticks w <= ticks w' -> climb w w'.
Proof. intros Ec Ht. split; [done|]. intros _ Hc. by rewrite Ec. Qed.

(** What a command of Redis does to the counters. *)
Lemma redis_run {A} (f : time -> gmap gostring (Z * option time) -> A * gmap gostring (Z * option time)) w w' res :
  redis f w = (w', res) ->
  (counters w' = counters w /\ ticks w' = ticks w /\ is_ok res = false) \/
  (counters w' = (f (clock (ticks w)) (counters w)).2 /\ ticks w' = S (ticks w) /\
   forall a, res = Ok a -> a = (f (clock (ticks w)) (counters w)).1).
Proof.
  unfold redis. pose proof (next_fault_rest w) as [Hc Ht]. destruct (next_fault w) as [o w1]. cbn in *. rewrite Hc, Ht.
  destruct o; intros [= <- <-]; cbn; rewrite ?Ht; [right|left|right]; (split; [done|]); (split; [done|]);
    first [by intros ? [= <-]|done].
Qed.

Lemma climb_redis {A} (f : time -> gmap gostring (Z * option time) -> A * gmap gostring (Z * option time)) :
  (forall at_ c, in_minute at_ -> lasting_counter c ->
     lasting_counter (f at_ c).2 /\ (posted_so_far c <= posted_so_far (f at_ c).2)%Z) ->
  climbs climb (redis f : io W unit A).
Proof.
  intros Hf w. destruct (redis f w) as [w' res] eqn:E. apply redis_run in E as [(Hc & Ht & _)|(Hc & Ht & _)]; cbn [fst].
  - apply climb_same; [done|lia].
  - split; [lia|]. intros Hw Hl. rewrite Hc. apply Hf; [|done]. apply Hw. lia.
Qed.

Lemma climb_allowPost t' : climbs climb (allowPost (Q := Q) t').
Proof.
  unfold allowPost. apply climbs_bind; [apply _|apply climbs_now; [apply _|apply climb_same]|]. intros at_. cbv zeta.
  apply climbs_bind; [apply _| |].
  { apply climb_redis. intros at' c Hm Hc. by destruct (incr_key (limit_key t' at_) at' c Hm Hc) as (? & ? & _). }
  intros n. apply climbs_bind; [apply _| |intros; apply climbs_ret; apply _].
  destruct (n =? 1)%Z; [|apply climbs_ret; apply _]. apply climbs_try; [apply _| |intros; apply climbs_ret; apply _].
  apply climb_redis. intros at' c Hm Hc. cbn [fst snd]. destruct (expire_key (limit_key t' at_) at' c Hm Hc) as [? ->]. by split.
Qed.

#[local] Hint Resolve climb_same climb_allowPost climb_preorder : climbs.

Lemma climb_accept_all t' jt src inputs : climbs climb (accept_all (Q := Q) t' jt src inputs).
Proof.
  induction inputs; cbn [accept_all]; [climbs|]. apply climbs_bind; [apply _| |climbs; apply IHinputs].
  unfold accept_one, ignore, or_down. climbs.
Qed.

Lemma climb_report t' rows : climbs climb (report_rows (Q := Q) t' rows).
Proof. induction rows; cbn [report_rows]; unfold report_row; climbs. Qed.

Lemma climb_Handler x r : climbs climb (Handler jsonb cfg (Q := Q) x r).
Proof.
  unfold Handler, authed, authenticate. destruct x; cbn [roles_of handler_of];
  unfold login, logout, getSession, postJob, postJobBatch, listJobs, getJob, createLink, compliance, getPolicy, putPolicy,
    createKey, listKeys, revokeKey, postSentinelEvents, listSentinelNodes, openLink, check_and_limit, or_down, randomToken; climbs.
  all: first [apply climb_accept_all|apply climb_report].
Qed.

(** A post that is let through counts. *)
Lemma redis_ticks {A} (f : time -> gmap gostring (Z * option time) -> A * gmap gostring (Z * option time)) w w' a :
  redis f w = (w', Ok a) -> ticks w' = S (ticks w).
Proof. by intros [(_ & _ & [=])|(_ & ? & _)]%redis_run. Qed.

Lemma incr_counts w0 w1 n at_ :
  redis (incr (limit_key t at_)) w0 = (w1, Ok n) -> in_minute at_ -> in_minute (clock (ticks w0)) ->
  lasting_counter (counters w0) ->
  lasting_counter (counters w1) /\
  n = (posted_so_far (counters w0) + 1)%Z /\ posted_so_far (counters w1) = n.
Proof.
  intros E Ha Hm Hc. apply redis_run in E as [(_ & _ & [=])|(-> & Ht & Hn)]. rewrite (Hn _ eq_refl).
  destruct (incr_key (limit_key t at_) _ _ Hm Hc) as (Hl & _ & Hk). split; [done|].
  assert (limit_key t at_ = the_key) as Hkey by (unfold limit_key, the_key; by destruct Ha as [_ ->]).
  by destruct (Hk Hkey) as [-> ->].
Qed.

Lemma expire_counts (b : bool) key w1 w2 (r : result unit unit) :
  (if b then try (redis (fun now c => (tt, expire key (120 * Second) now c))) (fun _ => ret tt) else ret tt) w1 = (w2, r) ->
  ticks w1 <= ticks w2 /\ (within (ticks w1) (ticks w2) -> lasting_counter (counters w1) ->
    lasting_counter (counters w2) /\ posted_so_far (counters w2) = posted_so_far (counters w1)).
Proof.
  destruct b; [|by intros [= <- _]]. io_run. destruct (redis _ w1) as [w' r'] eqn:E. intros [= <- _].
  apply redis_run in E as [(-> & -> & _)|(-> & Ht & _)]; [done|]. cbn [snd]. split; [lia|]. intros Hw Hc.
  apply expire_key; [apply Hw; lia|done].
Qed.

Lemma allowPost_true w w' : allowPost t w = (w', Ok true) ->
  within (ticks w) (ticks w') -> lasting_counter (counters w) ->
  lasting_counter (counters w') /\ (posted_so_far (counters w') = posted_so_far (counters w) + 1)%Z /\
  (posted_so_far (counters w) + 1 <= 30)%Z.
Proof.
  unfold allowPost. intros (w0 & at_ & [= <- <-] & E)%bind_Ok Hw Hc. cbv zeta in E.
  apply bind_Ok in E as (w1 & n & E1 & E). apply bind_Ok in E as (w2 & u & E2 & [= -> Hn]). apply Z.leb_le in Hn.
  pose proof (redis_ticks _ _ _ _ E1) as Ht. apply expire_counts in E2 as (Ht2 & E2). cbn in Ht.
  apply incr_counts in E1 as (Hc1 & -> & Hp); [|apply Hw; cbn; lia..|done].
  destruct E2 as (Hc2 & Hp2); [intros i Hi; apply Hw; lia|done|]. cbn in *. split; [done|]. lia.
Qed.

Lemma check_and_limit_Ok tenant jt src w w' u : check_and_limit cfg tenant jt src w = (w', Ok u) ->
  allowPost tenant w = (w', Ok true) /\ jt ∈ types cfg /\ (src = "cold-harbour" \/ src = "sentinel")%go.
Proof.
  unfold check_and_limit. intros (w1 & u1 & [-> Ht]%guard_Ok & (w2 & u2 & [-> Hs]%guard_Ok & E)%bind_Ok)%bind_Ok.
  apply bind_Ok in E as (w3 & b & (w4 & b' & Ha & [= -> ->])%bind_err_Ok & [-> ->]%guard_Ok).
  split; [done|]. split; [by apply existsb_seqb|]. apply orb_true_iff in Hs as [?|?]; bool_to_prop; auto.
Qed.

Lemma accept_one_errs tenant jt src i : errs (X := W) (fun e => status e <> 200%Z) (accept_one tenant jt src i).
Proof. unfold accept_one, or_down, ignore. errs. Qed.

Lemma accept_all_errs tenant jt src is_ : errs (X := W) (fun e => status e <> 200%Z) (accept_all tenant jt src is_).
Proof.
  induction is_; cbn [accept_all]; [apply errs_ret|]. apply errs_bind; [apply accept_one_errs|]. intros.
  apply errs_bind; [done|]. intros. apply errs_ret.
Qed.

Lemma check_errs tenant jt src : errs (X := W) (fun e => status e <> 200%Z) (check_and_limit cfg tenant jt src).
Proof. unfold check_and_limit. errs. Qed.

Definition is_post (x : route) : bool := match x with PostJob | PostJobBatch => true | _ => false end.

Lemma post_errs x csrf r p : is_post x = true -> errs (X := W) (fun e => status e <> 200%Z) (handler_of jsonb cfg x csrf r p).
Proof.
  intros Hx. destruct x; try done; cbn [handler_of]; unfold postJob, postJobBatch; cbv zeta;
    (apply errs_bind; [by apply errs_some|intros]); (apply errs_bind; [by apply errs_guard|intros]);
    (apply errs_bind; [apply check_errs|intros]).
  - apply errs_bind; [apply accept_one_errs|]. intros. apply errs_ret.
  - apply errs_bind; [apply accept_all_errs|]. errs.
Qed.

(** A post that is answered with 200 was let through. *)
Lemma post_200 x csrf r p w w' resp : is_post x = true ->
  handler_of jsonb cfg x csrf r p w = (w', Ok resp) ->
  exists w1, allowPost (Keys.TenantID p) w = (w1, Ok true) /\ climb w1 w'.
Proof.
  intros Hx E. destruct x; try done; cbn [handler_of] in E; unfold postJob, postJobBatch in E; cbv zeta in E;
    apply bind_Ok in E as (w0 & b & [-> _]%some_Ok & (w0 & u & [-> _]%guard_Ok & (w1 & u1 & [Ha _]%check_and_limit_Ok & E)%bind_Ok)%bind_Ok);
    exists w1; (split; [exact Ha|]); change w' with (w', Ok resp : result response response).1; rewrite <- E.
  - apply climbs_bind; [apply _| |climbs]. unfold accept_one, ignore, or_down. climbs.
  - apply climbs_bind; [apply _|apply climb_accept_all|climbs].
Qed.

(** Whether a request is a post of the tenant that is accepted. *)
Definition posted (x : route) (r : request) w : bool :=
  is_post x &&
  match (authenticate cfg r w).2 with Ok (p, _) => seqb (Keys.TenantID p) t | Err _ => false end &&
  (status (serve jsonb cfg x r w).2 =? 200)%Z.

Fixpoint posts (rs : list (route * request)) w : Z :=
  match rs with
  | [] => 0
  | (x, r) :: rs => ((if posted x r w then 1 else 0) + posts rs (serve jsonb cfg x r w).1)%Z
  end.

Lemma climb_serve x r w : climb w (serve jsonb cfg x r w).1.
Proof. unfold serve. pose proof (climb_Handler x r w). by destruct (Handler _ _ _ _ _). Qed.

Lemma climb_authenticate r : climbs climb (authenticate cfg (Q := Q) r).
Proof. unfold authenticate. climbs. Qed.

Lemma posted_counts x r w : let w' := (serve jsonb cfg x r w).1 in
  posted x r w = true -> within (ticks w) (ticks w') -> lasting_counter (counters w) ->
  (posted_so_far (counters w) + 1 <= 30 /\ posted_so_far (counters w) + 1 <= posted_so_far (counters w'))%Z.
Proof.
  cbv zeta. unfold posted. rewrite !andb_true_iff. intros [[Hx Ha] Hs] Hw Hc.
  assert (exists roles, roles_of x = Some roles) as [roles Hr] by (destruct x; try discriminate Hx; by eexists).
  unfold serve, Handler in *. rewrite Hr in *.
  pose proof (climb_authenticate r w) as Hca.
  destruct (authed_run cfg roles (handler_of jsonb cfg x) r w) as [(w1 & Ea & E)|(w1 & p & csrf & Ea & [E|(_ & _ & E)])];
    rewrite Ea in Ha, Hca; rewrite E in *; [done|done|]. cbn in Ha, Hca. bool_to_prop.
  destruct (handler_of jsonb cfg x (default [] csrf) r p w1) as [w2 [resp|resp]] eqn:Eh; cbn in Hs, Hw |- *;
    [|by apply (post_errs x _ _ _ Hx) in Eh].
  apply (post_200 _ _ _ _ _ _ _ Hx) in Eh as (w3 & Hal & L3). rewrite Ha in Hal.
  pose proof (climb_allowPost t w1) as L1. rewrite Hal in L1. cbn in L1.
  destruct Hca as [T1 C1], L1 as [T2 _], L3 as [T3 C3].
  destruct C1 as [Hc1 ?]; [intros i Hi; apply Hw; lia|done|].
  destruct (allowPost_true _ _ Hal) as (Hc2 & ? & ?); [intros i Hi; apply Hw; lia|done|].
  destruct C3 as [_ ?]; [intros i Hi; apply Hw; lia|done|]. lia.
Qed.

Lemma serve_all_ticks rs w : ticks w <= ticks (serve_all jsonb cfg rs w).1.
Proof.
  revert w. induction rs as [|[x r] rs IH]; intros w; [done|]. cbn [serve_all fst]. etrans; [apply climb_serve|apply IH].
Qed.

(** C14 [rate_limited]: in a minute of the clock, whatever requests come and whatever
    fails, at most thirty posts of a tenant are accepted, those that the counter
    already knows included. *)
Theorem rate_limited rs w :
  within (ticks w) (ticks (serve_all jsonb cfg rs w).1) -> lasting_counter (counters w) ->
  (posts rs w <= Z.max 0 (30 - posted_so_far (counters w)))%Z.
Proof.
  revert w. induction rs as [|[x r] rs IH]; intros w Hw Hc; [cbn; lia|]. cbn [posts serve_all fst] in *.
  destruct (climb_serve x r w) as [T1 C1].
  pose proof (serve_all_ticks rs (serve jsonb cfg x r w).1) as T2.
  assert (Hw1 : within (ticks w) (ticks (serve jsonb cfg x r w).1)) by (intros i Hi; apply Hw; lia).
  destruct (C1 Hw1 Hc) as [Hc1 Hp1].
  specialize (IH (serve jsonb cfg x r w).1 ltac:(intros i Hi; apply Hw; lia) Hc1).
  destruct (posted x r w) eqn:Ep; [|lia]. destruct (posted_counts x r w Ep Hw1 Hc). lia.
Qed.
End limit.

(** ** What is accepted is in the queue *)

Section accepted.
Context `{Environment, !Seal.UUID, !Journal.JobIDs} (jsonb : gostring -> option gostring) (cfg : config).
Context {Q : Type} `{!Enqueuer Q}.
Abbreviation W := (world Q).
Implicit Types w : W.

Lemma sql_queue {A} (f : db -> result Ledger.sql_error (db * A)) w : queue (sql f w).1 = queue w.
Proof.
  unfold sql. assert (queue (next_fault w).2 = queue w) as E by (unfold next_fault; by destruct (faults w)).
  destruct (next_fault w) as [o w1]. cbn in E. by destruct o, (f (tables w1)) as [[d a]|e].
Qed.

Lemma authenticate_queue r w : queue (authenticate cfg r w).1 = queue w.
Proof.
  unfold authenticate. io_run. destruct (negb _).
  - pose proof (sql_queue (select (fun d => Keys.Authenticate (XApiKey r) (api_keys d))) w) as E.
    by destruct (sql _ w) as [w1 [p|e]].
  - destruct (Cookie _ r) as [[|b value]|]; [done| |done]. cbn [now].
    match goal with |- context [sql ?f ?x] => pose proof (sql_queue f x) as E; destruct (sql f x) as [w1 [sk|e]] end; [|done].
    destruct (negb _); [done|].
    match goal with |- context [sql ?f ?x] => pose proof (sql_queue f x) as E'; destruct (sql f x) as [w2 [u|e]] end;
      cbn in *; congruence.
Qed.

Lemma allowPost_rest tenant w w' b : allowPost tenant w = (w', Ok b) ->
  tables w' = tables w /\ queue w' = queue w /\ idents w' = idents w.
Proof.
  assert (Hr : forall A (f : time -> gmap gostring (Z * option time) -> A * gmap gostring (Z * option time)) w0 w1 (r : result unit A),
    redis f w0 = (w1, r) -> tables w1 = tables w0 /\ queue w1 = queue w0 /\ idents w1 = idents w0).
  { intros A f w0 w1 r. unfold redis. unfold next_fault. destruct (faults w0) as [|[] ?]; by intros [= <- _]. }
  unfold allowPost. intros (w0 & at_ & [= <- <-] & E)%bind_Ok. cbv zeta in E.
  apply bind_Ok in E as (w1 & n & (Et & Eq & Ei)%Hr & E). apply bind_Ok in E as (w2 & u & E2 & [= <- _]).
  destruct (n =? 1)%Z; [|by injection E2 as <- _]. cbn [try io_effects] in E2.
  destruct (redis _ w1) as [w3 r3] eqn:E3. apply Hr in E3 as (Et3 & Eq3 & Ei3). injection E2 as <- _.
  by rewrite Et3, Eq3, Ei3.
Qed.

(** A job that is accepted has its row, and the queue took it. *)
Lemma accept_one_Ok tenant jt src input w w' id : accept_one tenant jt src input w = (w', Ok id) ->
  exists at_, id = new_uuid (idents w) /\ job_accepts (tables w) !! id = None /\
    job_accepts (tables w') !! id = Some (MkAccept tenant at_ src) /\
    add (Queue.MkJob id input tenant jt) (job_keys (tables w)) (queue w) = (job_keys (tables w'), queue w', Ok tt).
Proof.
  unfold accept_one. intros (w1 & id1 & [= <- <-] & (w2 & at_ & [= <- <-] & E)%bind_Ok)%bind_Ok. cbv zeta in E.
  apply bind_Ok in E as (w3 & u & (w4 & u4 & Es & [= -> _])%bind_err_Ok & E).
  pose proof (sql_queue (insert_accept (new_uuid (idents w))
    (MkAccept tenant (Ledger.normalizeAt (clock (ticks w))) src))) as Hq.
  match type of Es with sql _ ?x = _ => specialize (Hq x); cbn [tables queue counters] in Hq; rewrite Es in Hq; cbn [fst queue] in Hq end.
  apply sql_Ok in Es as [Es _]. cbn [tables] in Es. unfold insert_accept in Es.
  destruct (job_accepts (tables w) !! _) eqn:El; [done|]. case_bool_decide; [|done]. injection Es as Es.
  cbn [try io_effects] in E. unfold enqueue in E. rewrite Hq, <- Es in E. cbn [job_keys set_accepts] in E.
  destruct (add _ _ _) as [[k q] [u'|e]] eqn:Ea; cbn [try io_effects ret res] in E.
  - injection E as <- <-. exists (Ledger.normalizeAt (clock (ticks w))). cbn. rewrite lookup_insert_eq. destruct u'. done.
  - by apply bind_Ok in E as (? & ? & _ & (? & ? & _ & E)%bind_Ok).
Qed.

(** [postJob], when it accepts. *)
Lemma postJob_Ok r p w w' resp : postJob cfg r p w = (w', Ok resp) ->
  exists m id at_ src, readJSON r = Some m /\ (src = "cold-harbour" \/ src = "sentinel")%go /\
    let jt := or_default "redact" (member "jobType" m) in
    jt ∈ types cfg /\
    body resp = Marshal (JObj [("jobId", JStr id); ("status", JStr "QUEUED")]%go) ++ [Byte.x0a] /\
    job_accepts (tables w) !! id = None /\
    job_accepts (tables w') !! id = Some (MkAccept (Keys.TenantID p) at_ src) /\
    add (Queue.MkJob id (member "input" m) (Keys.TenantID p) jt) (job_keys (tables w)) (queue w) =
      (job_keys (tables w'), queue w', Ok tt).
Proof.
  unfold postJob. cbv zeta. intros (w1 & m & [-> Hm]%some_Ok & E)%bind_Ok.
  apply bind_Ok in E as (w1 & u & [-> _]%guard_Ok & E).
  apply bind_Ok in E as (w1 & u1 & (Ha & Ht & Hs)%check_and_limit_Ok & E).
  apply bind_Ok in E as (w2 & id & Hone & [= <- <-]).
  apply allowPost_rest in Ha as (Et & Eq & Ei). apply accept_one_Ok in Hone as (at_ & Hid & Hn & Hy & Hadd).
  rewrite Et, Eq in Hadd. rewrite Et in Hn. eexists m, id, at_, _. split_and!; done.
Qed.
End accepted.

Section queued.
Context `{Environment, !Seal.UUID, !Journal.JobIDs} (jsonb : gostring -> option gostring) (cfg : config).
Context `{!Queue.StreamIDs, !Queue.Sources, !Queue.SourcesLaws, !Seal.AEAD, !Seal.AEADLaws, !Seal.Vault, !Seal.VaultLaws}.
Context {RS J : Type} `{!Seal.ReceiptStore RS, !Journal.Store J}.
#[local] Existing Instance Seal.pg_keys.

(** C9 [posted_job_queued]: a post that is answered with 200 left the job accepted
    for the tenant that posted it, under an identifier that was free, and the last
    entry of the queue's stream is that job, its input sealed under the live key of
    the job, with which it opens again. *)
Theorem posted_job_queued r (w w' : world (@broker RS J)) resp :
  tables_ok (tables w) -> Seal.keys_ok (job_keys (tables w)) ->
  serve jsonb cfg PostJob r w = (w', resp) -> status resp = 200%Z ->
  exists t m id a key sealed i, requester cfg r (tables w) t /\ readJSON r = Some m /\
    body resp = Marshal (JObj [("jobId", JStr id); ("status", JStr "QUEUED")]%go) ++ [Byte.x0a] /\
    job_accepts (tables w) !! id = None /\ job_accepts (tables w') !! id = Some a /\ a_tenant a = t /\
    Seal.key_of (job_keys (tables w')) (Journal.DurableIDFor id) = Seal.Live key /\
    Seal.Open key sealed = Ok (member "input" m) /\
    Queue.stream (Queue.redis (bus (queue w'))) = Queue.stream (Queue.redis (bus (queue w))) ++
      [(i, entry_of (Queue.MkJob id sealed t (or_default "redact" (member "jobType" m))))].
Proof.
  intros Hw Hk E Hs. unfold serve, Handler in E. cbn [roles_of] in E.
  pose proof (authenticate_queue cfg r w) as Hq.
  destruct (authed_run cfg ["admin"; "app"; "sentinel"]%go (handler_of jsonb cfg PostJob) r w)
    as [(w1 & Ea & Er)|(w1 & p & csrf & Ea & [Er|(_ & _ & Er)])]; rewrite Er in E; [by injection E as <- <-..|].
  rewrite Ea in Hq. cbn [fst] in Hq. pose proof (authenticate_frame cfg r w w1 p csrf Hw Ea) as [Hreq _].
  assert (Hsame : job_keys (tables w1) = job_keys (tables w) /\ job_accepts (tables w1) = job_accepts (tables w)).
  { apply authenticate_spec in Ea. destruct csrf; [destruct Ea as (s & _ & _ & [->| ->])|destruct Ea as [_ ->]]; done. }
  destruct Hsame as [Hjk Hja]. cbn [handler_of] in E.
  destruct (postJob cfg r p w1) as [w2 [resp'|resp']] eqn:Ep; injection E as <- <-.
  2: { by apply (post_errs jsonb cfg PostJob [] r p eq_refl) in Ep. }
  apply postJob_Ok in Ep as (m & id & at_ & src & Hm & _ & _ & Hb & Hn & Hy & Hadd).
  cbn [add redis_queue] in Hadd. rewrite Hjk, Hq in Hadd.
  destruct (run_queue _ _) as [wq rq] eqn:Erun. injection Hadd as Hkeys Hqueue Hres.
  assert (rq = Ok tt) as -> by (by destruct rq as [[]|]).
  apply run_queue_Add in Erun as (key & sealed & i & _ & Ho & Hkey & Hst); [|exact Hk].
  rewrite Hja in Hn. exists (Keys.TenantID p), m, id, (MkAccept (Keys.TenantID p) at_ src), key, sealed, i.
  cbn in Ho, Hkey. rewrite <- Hkeys, <- Hqueue. split_and!; done.
Qed.
End queued.

#[local] Existing Instance toy_ids.
#[local] Existing Instance toy_uuid.
#[local] Existing Instance toy_aead.
#[local] Existing Instance toy_aead_laws.
#[local] Existing Instance toy_vault_laws.
#[local] Existing Instance toy_vault.
#[local] Existing Instance Seal.memory_receipts.
#[local] Existing Instance Journal.memory_journal.

(** Two posts of a tenant that has had twenty-nine. *)
Lemma rate_limited_witness :
  let w : world toy_broker := World toy_tables {[the_key "t1" 60 := (29, None)]}%Z toy_bus [] 0 0 0 in
  let r := key_request "POST" "ch_ADMINKEY_s" [] (Marshal (JObj [("input", JStr "a@b.co")]%go)) in
  let rs := [(PostJob, r); (PostJob, r)] in
  status <$> (serve_all jsonb_marshal toy_config rs w).2 = [200; 429]%Z /\
  (posts jsonb_marshal toy_config "t1" rs w <= Z.max 0 (30 - 29))%Z.
Proof.
  intros w r rs. split; [vm_compute; reflexivity|].
  assert (Hc : posted_so_far "t1" 60 (counters w) = 29%Z) by (vm_compute; reflexivity).
  rewrite <- Hc. apply (rate_limited jsonb_marshal toy_config "t1" 60 rs w).
  - intros i Hi. assert (Hn : ticks (serve_all jsonb_marshal toy_config rs w).1 = 5) by (vm_compute; reflexivity).
    rewrite Hn in Hi. cbn in Hi. do 5 (destruct i as [|i]; [split; vm_compute; [discriminate|reflexivity]|]). lia.
  - vm_compute. discriminate.
Defined.

Lemma posted_job_queued_witness :
  let r := key_request "POST" "ch_ADMINKEY_s" [] (Marshal (JObj [("input", JStr "a@b.co")]%go)) in
  let x := serve jsonb_marshal toy_config PostJob r toy_server in
  exists t m id a key sealed i, requester toy_config r toy_tables t /\ readJSON r = Some m /\
    body x.2 = Marshal (JObj [("jobId", JStr id); ("status", JStr "QUEUED")]%go) ++ [Byte.x0a] /\
    job_accepts toy_tables !! id = None /\ job_accepts (tables x.1) !! id = Some a /\ a_tenant a = t /\
    @Seal.key_of _ (@Seal.pg_keys toy_vault) (job_keys (tables x.1)) (Journal.DurableIDFor id) = Seal.Live key /\
    Seal.Open key sealed = Ok (member "input" m) /\
    Queue.stream (Queue.redis (bus (queue x.1))) = Queue.stream (Queue.redis (bus toy_bus)) ++
      [(i, entry_of (Queue.MkJob id sealed t (or_default "redact" (member "jobType" m))))].
Proof.
  intros r x. apply (posted_job_queued jsonb_marshal toy_config r toy_server x.1 x.2 toy_tables_ok).
  - intros id stored at_. cbn. by rewrite lookup_empty.
  - apply surjective_pairing.
  - vm_compute. reflexivity.
Defined.
