(* ===== verification/ApiSentinel.v ===== *)
(** * The masker and the control plane

    What one process of the program writes and the other reads: the batches that a
    node posts, and the policy that it fetches. *)

From S2P Require Import Prelude GoStd GoTime TimeParse Json JsonSpec Decode Sha256 Ledger LedgerSpec Policy PolicySpec Seal Journal Proc Queue SealSpec JournalSpec QueueSpec Sentinel SentinelSpec Keys Api ApiJobs ApiNodes ApiLogic ApiQueue ApiSpec ApiTenants ApiAccess.
Import Api ApiJobs ApiNodes.

(** ** Batches *)

Definition four_digits (t : time) : Prop := (0 <= year (civil_from_days (t / Second / 86400)) <= 9999)%Z.

(** A number that both sides read alike. *)
Definition count_ok (n : Z) : Prop := (0 <= n <= 2 ^ 53)%Z.

Lemma FormatOffset_zero t : FormatOffset t 0 = FormatRFC3339Nano t.
Proof. unfold FormatOffset. rewrite Z.mul_0_l, Z.add_0_r. unfold format_local, FormatRFC3339Nano. cbv zeta. rewrite <- !app_assoc. reflexivity. Qed.

Lemma time_json_zero t : four_digits t -> time_json t 0 = Some (FormatRFC3339Nano t).
Proof.
  intros [? ?]. unfold time_json. rewrite Z.mul_0_l, Z.add_0_r. cbv zeta.
  rewrite (proj2 (Z.ltb_ge _ _)), (proj2 (Z.ltb_ge 9999 _)) by lia. cbn. by rewrite FormatOffset_zero.
Qed.

Lemma stamp_utf8 t : valid_utf8 (FormatRFC3339Nano t).
Proof.
  induction (stamp_bytes t) as [|b s Hb _ IH]; [constructor|]. apply valid_cons_ascii; [|done].
  revert Hb. clear. by destruct b.
Qed.

Abbreviation num_binding := (fun kn : gostring * Z => (kn.1, JNum kn.2)).

(** A map of counts, written and read. *)
Lemma set_int_map_fold (l : list (gostring * Z)) cur : set_int_map cur (JObj (num_binding <$> l)) = Some (foldl (fun m kn => <[kn.1 := kn.2]> m) cur l).
Proof. cbn [set_int_map]. revert cur. induction l as [|[k n] l IH]; intros cur; [done|]. apply IH. Qed.

Lemma foldl_insert_map (l : list (gostring * Z)) (m : gmap gostring Z) : NoDup l.*1 -> (forall k, k ∈ l.*1 -> m !! k = None) ->
  foldl (fun m kn => <[kn.1 := kn.2]> m) m l = m ∪ list_to_map l.
Proof.
  revert m. induction l as [|[k n] l IH]; intros m Hn Hm; cbn.
  - by rewrite map_union_empty.
  - apply NoDup_cons in Hn as [Hk Hn]. rewrite IH; [|done|].
    + rewrite <- insert_union_r by (apply Hm; left). by rewrite insert_union_l.
    + intros k' Hk'. rewrite lookup_insert_ne by (intros <-; done). apply Hm. by right.
Qed.

Lemma counts_read (m : gmap gostring Z) :
  set_int_map ∅ (counts_json m) = Some m.
Proof.
  unfold counts_json. set (l := map_to_list m).
  assert (exists l', sort_slice (fun a b => str_lt a.1 b.1) (num_binding <$> l) = num_binding <$> l' /\ l' ≡ₚ l) as (l' & -> & Hp).
  { pose proof (sort_slice_perm (fun a b : gostring * json => str_lt a.1 b.1) (num_binding <$> l)) as Hp.
    apply Permutation_map_inv in Hp as (l' & El & Hp). by exists l'. }
  rewrite set_int_map_fold. f_equal. rewrite foldl_insert_map.
  - rewrite map_empty_union. rewrite (list_to_map_proper l' l); [apply list_to_map_to_list| |done].
    rewrite Hp. apply NoDup_fst_map_to_list.
  - rewrite Hp. apply NoDup_fst_map_to_list.
  - intros k _. apply lookup_empty.
Qed.

Lemma decode_wire node from to version m held dropped fo :
  set_struct wire_fields set_wire_field false no_wire
    (JObj [("nodeId", JStr node); ("from", JStr from); ("to", JStr to); ("policyVersion", JNum version);
           ("counts", counts_json m); ("held", JNum held); ("dropped", JNum dropped); ("failOpen", JNum fo)]%go) =
  Some (MkWire (Some node) (Some from) (Some to) (Some version) (Some m) (Some held) (Some dropped) (Some fo)).
Proof.
  assert (Hc : set_pointer set_int_map ∅ None (counts_json m) = Some (Some m))
    by (pose proof (counts_read m) as E; unfold counts_json in *; cbn [set_pointer default]; by rewrite E).
  revert Hc. generalize (counts_json m) as cj. intros cj Hc.
  change ((y ← (x ← set_pointer set_int_map ∅ None cj;
                Some (MkWire (Some node) (Some from) (Some to) (Some version) x None None None));
           set_members wire_fields set_wire_field false y
             [("held", JNum held); ("dropped", JNum dropped); ("failOpen", JNum fo)]%go) =
    Some (MkWire (Some node) (Some from) (Some to) (Some version) (Some m) (Some held) (Some dropped) (Some fo))).
  by rewrite Hc.
Qed.

Lemma counts_written m : map_Forall (fun k n => valid_utf8 k /\ count_ok n) m -> written (counts_json m).
Proof.
  intros Hm. unfold counts_json. apply written_obj. rewrite sort_slice_perm. apply Forall_fmap, Forall_forall.
  intros [k n] Hin%elem_of_map_to_list. apply Hm in Hin as [? [? ?]]. split; cbn; [done|lia].
Qed.

(** The conditions under which a node can report a window: what [main] of
    cmd/sentinel is started with, and a clock whose years have four digits. *)
Record reportable (b : Sentinel.eventBatch) : Prop := {
  rep_node : Sentinel.NodeID b <> [] /\ valid_utf8 (Sentinel.NodeID b);
  rep_from : four_digits (Sentinel.From b);
  rep_to : four_digits (Sentinel.To b);
  rep_span : (Sentinel.From b <= Sentinel.To b)%Z;
  rep_version : count_ok (Sentinel.PolicyVersion b);
  rep_counts : map_Forall (fun k n => k <> [] /\ valid_utf8 k /\ count_ok n) (Sentinel.Counts b);
  rep_held : count_ok (Sentinel.Held b);
  rep_dropped : count_ok (Sentinel.Dropped b);
  rep_open : count_ok (Sentinel.FailOpen b);
}.

(** What the control plane makes of a batch. *)
Definition received (b : Sentinel.eventBatch) : sentinelBatch :=
  MkSentinelBatch (Sentinel.NodeID b) (Sentinel.From b, 0%Z) (Sentinel.To b, 0%Z) (Sentinel.PolicyVersion b)
    (Sentinel.Counts b) (Sentinel.Held b) (Sentinel.Dropped b) (Sentinel.FailOpen b).

Lemma batch_written b : reportable b -> written (Sentinel.batch_json b).
Proof.
  intros [[_ Hn] _ _ _ Hv Hc Hh Hd Ho]. unfold Sentinel.batch_json, count_ok in *.
  apply written_obj. repeat apply Forall_cons_2; try apply Forall_nil_2; (split; [by apply ascii_valid|]); cbn [snd].
  - done.
  - apply stamp_utf8.
  - apply stamp_utf8.
  - cbn. lia.
  - apply (counts_written (Sentinel.Counts b)). eapply map_Forall_impl; [exact Hc|]. cbn. by intros k n (_ & ? & ?).
  - cbn. lia.
  - cbn. lia.
  - cbn. lia.
Qed.

Lemma non_negative_ok f n : count_ok n -> non_negative f (Some n) = Ok n.
Proof. intros [? _]. unfold non_negative. by rewrite (proj2 (Z.ltb_ge n 0)). Qed.

Lemma parseInstant_stamp t : four_digits t -> parseInstant (FormatRFC3339Nano t) = Some (t, 0%Z).
Proof.
  intros Ht. unfold parseInstant. destruct (seqb _ []) eqn:E; [|by apply ParseRFC3339_Format].
  pose proof (ParseRFC3339_Format t Ht) as Hp. bool_to_prop. rewrite E in Hp. by vm_compute in Hp.
Qed.

(** C24 [node_batch_accepted]: a window that a node reports is read by the control
    plane as the node wrote it, count by count, and the entry it appends to the
    ledger of the tenant is the text the node sent. *)
Theorem node_batch_accepted b : reportable b ->
  parseSentinelBatch (Marshal (Sentinel.batch_json b)) = Ok (received b) /\
  batch_json (received b) = Some (Sentinel.batch_json b).
Proof.
  intros Hb. pose proof (batch_written b Hb) as Hw. destruct Hb as [[Hn _] Hf Ht Hs Hv Hc Hh Hd Ho]. split.
  - unfold parseSentinelBatch. rewrite Parse_Marshal by done. cbn [mbind option_bind].
    assert (Hdec := decode_wire (Sentinel.NodeID b) (FormatRFC3339Nano (Sentinel.From b)) (FormatRFC3339Nano (Sentinel.To b))
      (Sentinel.PolicyVersion b) (Sentinel.Counts b) (Sentinel.Held b) (Sentinel.Dropped b) (Sentinel.FailOpen b)).
    unfold Sentinel.batch_json. unfold counts_json in Hdec. rewrite Hdec.
    unfold check_wire. cbn [w_node w_from w_to w_version w_counts w_held w_dropped w_fail mbind option_bind].
    destruct (Sentinel.NodeID b) as [|c s] eqn:En; [done|]. rewrite !parseInstant_stamp by done. cbn [fst].
    rewrite (proj2 (Z.ltb_ge _ _)) by done. rewrite !non_negative_ok by done. cbn [mbind result_bind].
    rewrite bool_decide_eq_true_2; [unfold received; by rewrite En|].
    eapply map_Forall_impl; [exact Hc|]. cbn. by intros k n (? & _ & ? & _).
  - unfold batch_json. cbn [received From To fst snd]. by rewrite !time_json_zero.
Qed.

(** ** The policy *)

(** A response as the client of cmd/sentinel reads it. *)
Definition as_read (resp : response) : Sentinel.response :=
  Sentinel.MkResponse (status resp) (body resp) (default [] (etag resp)).

Section policy.
Context `{Environment, !Seal.UUID, !Journal.JobIDs} (jsonb : gostring -> option gostring) (cfg : config).
Context {Q : Type} `{!Enqueuer Q}.
Abbreviation W := (world Q).
Implicit Types w : W.

Lemma putPolicy_errs r p : errs (X := W) (fun e => status e <> 200%Z) (putPolicy jsonb r p).
Proof.
  unfold putPolicy. errs. intros d d' e. unfold put_policy. destruct (Policy.Put _ _ _ _ _) as [[? ?]|]; [done|].
  by intros [= _ <-].
Qed.

(** [putPolicy], when it answers with the policy. *)
Lemma putPolicy_Ok r p w w' resp : tables_ok (tables w) -> putPolicy jsonb r p w = (w', Ok resp) -> status resp = 200%Z ->
  exists raw doc v stored, limited_body r = Some raw /\ Policy.Parse raw = Ok doc /\ (1 <= v <= 2147483647)%Z /\
    etag resp = Some (version_etag v) /\
    jsonb (Marshal (Policy.doc_json (Policy.with_version v doc))) = Some stored /\
    policies (tables w') !! Keys.TenantID p = Some (v, stored).
Proof.
  intros Hw. unfold putPolicy. intros (w1 & raw & [-> Hraw]%some_Ok & E)%bind_Ok Hs.
  destruct (Policy.Parse raw) as [doc|f] eqn:Ep; [|injection E as <- <-; done].
  apply bind_Ok in E as (w1 & at_ & [= <- _] & E). apply bind_Ok in E as (w2 & stored & Et & [= <- <-]).
  unfold transaction in Et. match type of Et with context [next_fault ?x] => set (w0 := x) in Et end.
  pose proof (next_fault_tables w0) as Etab. destruct (next_fault w0) as [o w3]. cbn [snd] in Etab.
  rewrite Etab in Et. change (tables w0) with (tables w) in Et. unfold put_policy in Et.
  destruct (Policy.Put _ _ _ _ _) as [[doc' s']|e] eqn:Eput in Et; [|by destruct o].
  destruct o; [|done..]. injection Et as <- <-.
  apply Put_Ok in Eput as (-> & Hv & _ & (body_ & Hbody & Hpol) & _).
  { eexists raw, doc, _, body_. split; [done|]. split; [done|]. split; [exact Hv|]. split; [done|].
    split; [exact Hbody|]. cbn. rewrite Hpol. apply lookup_insert_eq. }
  intros v x Hx. apply (ok_policies _ Hw) in Hx as [_ ?]. cbn in *. lia.
Qed.

(** [getPolicy], when the network serves it. *)
Lemma getPolicy_found r p w v stored doc : jsonb_keeps jsonb -> valid_doc doc -> small doc -> Policy.Version doc = v ->
  jsonb (Marshal (Policy.doc_json doc)) = Some stored -> policies (tables w) !! Keys.TenantID p = Some (v, stored) ->
  (next_fault w).1 = Proc.Served ->
  (getPolicy r p w).2 = Ok (if seqb (IfNoneMatch r) (version_etag v) then with_etag (version_etag v) (plain_status 304)
                            else with_etag (version_etag v) (writeJSON 200 (Policy.doc_json doc))).
Proof.
  intros Hj Hv Hs Hver Hst Hp Hf. unfold getPolicy, or_down. io_run. unfold sql. pose proof (next_fault_tables w) as Et.
  destruct (next_fault w) as [o w1]. cbn in Hf, Et. rewrite Hf, Et. unfold load_policy, Policy.Load. cbn [Policy.policies policy_store].
  rewrite Hp, (stored_decode jsonb doc stored) by done. cbn.
  assert (Policy.MkDoc v (Policy.Detectors doc) (Policy.Mode doc) (Policy.FailPolicy doc) (Policy.MaxInlineBytes doc) = doc) as ->
    by (rewrite <- Hver; by destruct doc).
  rewrite ?Hver. by destruct (seqb _ _).
Qed.

(** C23 [policy_reaches_sentinel]: after a policy has been put, a node of the tenant
    that asks for it fetches exactly the document that was put, with its version,
    as long as nobody puts another and the document fits into a megabyte; and with
    the tag it was given, it learns that nothing has changed. *)
Theorem policy_reaches_sentinel r p w w' resp (Hj : jsonb_keeps jsonb) :
  tables_ok (tables w) -> putPolicy jsonb r p w = (w', Ok resp) -> status resp = 200%Z ->
  exists raw doc v, limited_body r = Some raw /\ Policy.Parse raw = Ok doc /\ etag resp = Some (version_etag v) /\
    forall r2 p2 w2, Keys.TenantID p2 = Keys.TenantID p -> small doc ->
      policies (tables w2) !! Keys.TenantID p = policies (tables w') !! Keys.TenantID p ->
      (next_fault w2).1 = Proc.Served ->
      exists resp2, (getPolicy r2 p2 w2).2 = Ok resp2 /\
        ((glen (body resp2) <= 1048576)%Z ->
         Sentinel.fetchPolicy (Some (as_read resp2)) =
           if seqb (IfNoneMatch r2) (version_etag v) then Sentinel.Same
           else Sentinel.Fetched (Policy.with_version v doc) (version_etag v)).
Proof.
  intros Hw E Hs. destruct (putPolicy_Ok r p w w' resp Hw E Hs) as (raw & doc & v & stored & Hraw & Hp & Hv & He & Hst & Hpol).
  exists raw, doc, v. split; [done|]. split; [done|]. split; [done|]. intros r2 p2 w2 Hp2 [_ Hsm] Hsame Hf.
  assert (valid_doc (Policy.with_version v doc)) as Hvd by (by apply Parse_valid in Hp).
  assert (small (Policy.with_version v doc)) as Hsd by (split; cbn; lia || exact Hsm).
  eexists. split.
  - eapply (getPolicy_found r2 p2 w2 v stored); try done. by rewrite Hp2, Hsame.
  - unfold Sentinel.fetchPolicy, as_read. destruct (seqb _ _); [done|]. intros Hlen.
    cbn [Sentinel.Status Sentinel.Body Sentinel.ETag status body etag with_etag writeJSON default Z.eqb Pos.eqb negb] in *.
    unfold Sentinel.limited. rewrite (proj2 (Z.ltb_ge _ _)) by done.
    rewrite Parse_doc_json; [done..|]. right. exists Byte.x0a, []. auto.
Qed.
End policy.

#[local] Existing Instance toy_ids.
#[local] Existing Instance toy_uuid.
#[local] Existing Instance toy_aead.
#[local] Existing Instance toy_vault.
#[local] Existing Instance Seal.memory_receipts.
#[local] Existing Instance Journal.memory_journal.

Definition toy_batch : Sentinel.eventBatch :=
  Sentinel.MkBatch "node-1" 1000 5000000000 3 {[("email" : gostring) := 2%Z]} 1 0 0.

Lemma node_batch_accepted_witness :
  parseSentinelBatch (Marshal (Sentinel.batch_json toy_batch)) = Ok (received toy_batch) /\
  batch_json (received toy_batch) = Some (Sentinel.batch_json toy_batch).
Proof.
  apply node_batch_accepted. split; cbn; unfold count_ok, four_digits; try lia.
  - split; [discriminate|]. apply ascii_valid. vm_compute. reflexivity.
  - vm_compute. split; discriminate.
  - vm_compute. split; discriminate.
  - apply map_Forall_singleton. split; [discriminate|]. split; [apply ascii_valid; vm_compute; reflexivity|unfold count_ok; lia].
Defined.

Definition toy_doc : Policy.Doc := Policy.MkDoc 0 ["email"%go] "redact" "open" 9.

Definition toy_put : world toy_broker * result response response :=
  putPolicy jsonb_marshal (key_request "PUT" [] [] (Marshal (Policy.doc_json toy_doc)))
    (Keys.MkPrincipal "t1" "k1" "admin") toy_server.

Lemma policy_reaches_sentinel_witness :
  exists resp raw doc v, toy_put.2 = Ok resp /\
    limited_body (key_request "PUT" [] [] (Marshal (Policy.doc_json toy_doc))) = Some raw /\ Policy.Parse raw = Ok doc /\
    exists resp2, (getPolicy (key_request "GET" [] [] []) (Keys.MkPrincipal "t1" "k2" "sentinel") toy_put.1).2 = Ok resp2 /\
      ((glen (body resp2) <= 1048576)%Z ->
       Sentinel.fetchPolicy (Some (as_read resp2)) = Sentinel.Fetched (Policy.with_version v doc) (version_etag v)).
Proof.
  assert (Hok : is_ok toy_put.2 = true) by (vm_compute; reflexivity).
  destruct toy_put as [w' [resp|resp]] eqn:E; [clear Hok|discriminate Hok].
  assert (Hs : status resp = 200%Z).
  { enough (match toy_put.2 with Ok x => status x | Err _ => 0%Z end = 200%Z) as Hx by (by rewrite E in Hx).
    vm_compute. reflexivity. }
  pose proof (policy_reaches_sentinel jsonb_marshal (key_request "PUT" [] [] (Marshal (Policy.doc_json toy_doc)))
    (Keys.MkPrincipal "t1" "k1" "admin") toy_server w' resp jsonb_marshal_keeps toy_tables_ok) as Hr.
  fold toy_put in Hr. destruct (Hr E Hs)
    as (raw & doc & v & Hraw & Hp & He & Hget).
  assert (Hsm : match limited_body (key_request "PUT" [] [] (Marshal (Policy.doc_json toy_doc))) with
    | Some raw => match Policy.Parse raw with
                  | Ok d => (Z.abs (Policy.Version d) <=? 2 ^ 53)%Z && (Z.abs (Policy.MaxInlineBytes d) <=? 2 ^ 53)%Z
                  | Err _ => false end
    | None => false end = true) by (vm_compute; reflexivity).
  rewrite Hraw, Hp in Hsm.
  exists resp, raw, doc, v. split; [done|]. split; [done|]. split; [done|].
  destruct (Hget (key_request "GET" [] [] []) (Keys.MkPrincipal "t1" "k2" "sentinel") w' eq_refl) as (resp2 & H2 & Hf).
  - bool_to_prop. by split.
  - done.
  - enough (match (next_fault toy_put.1).1 with Proc.Served => true | _ => false end = true) as Hx
      by (rewrite E in Hx; cbn in Hx; by destruct (next_fault w').1).
    vm_compute. reflexivity.
  - exists resp2. split; [exact H2|]. intros Hl. rewrite (Hf Hl). reflexivity.
Defined.
