(* ===== verification/Admin.v ===== *)
(** * The administration tool (cmd/coldharbour)

    [main] from the command line to the exit status: creating a tenant with its first
    key, and keeping a file that holds a live key for the proxies of a tenant.  The
    migration runs SQL files through a library and is a parameter.  What the tool
    prints on its error output is left out. *)

From S2P Require Import Prelude GoStd GoTime Json Ledger Keys Proc Api Flag.

Module Admin.

(** A row of [tenants]. *)
Record tenant_row := MkTenant { tenant_id : Keys.uuid; tenant_name : gostring }.

(** The tables that the tool writes.  The ledger and the keys refer to the
    identifiers of [tenants]. *)
Record db := MkDb { tenants : list tenant_row; keys : Keys.store }.

Record world := World {
  tables : db;
  files : gmap gostring gostring;
  stdout : gostring;
  faults : list (Proc.outcome nat);
  ticks : nat;
  draws : nat;
  idents : nat;
}.

(** The process ends with a status, or a call fails. *)
Inductive error := Exit (code : Z) | Failed.

Section admin.
Context `{Api.Environment} (jsonb : gostring -> option gostring).
(** The environment of the process, and [runMigrate] behind its connection string. *)
Context (Getenv : gostring -> gostring) (migrate_Up : io world error unit).
Implicit Types w : world.

Definition set_tables d w := World d (files w) (stdout w) (faults w) (ticks w) (draws w) (idents w).
Definition set_files f w := World (tables w) f (stdout w) (faults w) (ticks w) (draws w) (idents w).

(** The next thing that the network or the disk does; when the list ends all is
    served. *)
Definition next_fault w : Proc.outcome nat * world :=
  match faults w with
  | [] => (Proc.Served, w)
  | o :: os => (o, World (tables w) (files w) (stdout w) os (ticks w) (draws w) (idents w))
  end.

Definition now : io world error time := fun w =>
  (World (tables w) (files w) (stdout w) (faults w) (S (ticks w)) (draws w) (idents w), Ok (Api.clock (ticks w))).
Definition rand_read (n : nat) : io world error gostring := fun w =>
  (World (tables w) (files w) (stdout w) (faults w) (ticks w) (S (draws w)) (idents w), Ok (Api.random (draws w) n)).
Definition fresh_uuid : io world error Keys.uuid := fun w =>
  (World (tables w) (files w) (stdout w) (faults w) (ticks w) (draws w) (S (idents w)), Ok (Api.new_uuid (idents w))).
Definition Println (s : gostring) : io world error unit := fun w =>
  (World (tables w) (files w) (stdout w ++ s ++ [Byte.x0a]) (faults w) (ticks w) (draws w) (idents w), Ok tt).

(** [os.ReadFile]; [None] is a file that does not exist. *)
Definition ReadFile (path : gostring) : io world error (option gostring) := fun w =>
  let '(o, w) := next_fault w in
  match o with Proc.Served => (w, Ok (files w !! path)) | _ => (w, Err Failed) end.

(** [os.WriteFile] empties the file first; when it fails the file is as it was or has
    a part of the text. *)
Definition WriteFile (path text : gostring) : io world error unit := fun w =>
  let '(o, w) := next_fault w in
  match o with
  | Proc.Served => (set_files (<[path := text]> (files w)) w, Ok tt)
  | Proc.Refused _ => (w, Err Failed)
  | Proc.ReplyLost n => (set_files (<[path := take n text]> (files w)) w, Err Failed)
  end.

(** ** The database *)

Definition dsn : io world error gostring :=
  let v := Getenv "POSTGRES_DSN" in if seqb v [] then throw (Exit 2) else ret v.

(** [pgx.Connect] *)
Definition Connect (dsn : gostring) : io world error unit := fun w =>
  let '(o, w) := next_fault w in
  match o with Proc.Served => (w, Ok tt) | _ => (w, Err Failed) end.

(** A transaction, from Begin to Commit: refused at one of its statements, rolled back
    by an error, committed, or committed without an answer. *)
Definition transaction {A} (body : db -> result Ledger.sql_error (db * A)) : io world error A := fun w =>
  let '(o, w) := next_fault w in
  match o, body (tables w) with
  | Proc.Served, Ok (d, a) => (set_tables d w, Ok a)
  | Proc.ReplyLost _, Ok (d, _) => (set_tables d w, Err Failed)
  | _, _ => (w, Err Failed)
  end.

(** The key in the file, as the database knows it; a query that fails finds nothing. *)
Definition authenticate (header : gostring) : io world error (option Keys.Principal) :=
  match Keys.Prefix header with
  | None => ret None
  | Some _ => fun w =>
      let '(o, w) := next_fault w in
      match o with
      | Proc.Served => (w, Ok (Keys.Authenticate header (Keys.api_keys (keys (tables w)))))
      | _ => (w, Ok None)
      end
  end.

(** [INSERT INTO tenants (name) VALUES ($1) RETURNING id]; names may repeat. *)
Definition insert_tenant (name : gostring) (id : Keys.uuid) (d : db) : result Ledger.sql_error db :=
  let l := Keys.audit (keys d) in
  if negb (Keys.text_ok name) then Err Ledger.BadText
  else if bool_decide (id ∈ Ledger.tenants l) then Err Ledger.DuplicateKey
  else Ok (MkDb (tenants d ++ [MkTenant id name])
             (Keys.Store (Keys.api_keys (keys d)) (Ledger.Db (Ledger.tenants l ++ [id]) (Ledger.audit_ledger l) (Ledger.ledger_heads l)))).

(** [SELECT id FROM tenants WHERE name = $1], the first row. *)
Definition select_tenant (name : gostring) (d : db) : option Keys.uuid :=
  tenant_id <$> find (fun t => seqb (tenant_name t) name) (tenants d).

(** [keys.Create] in a transaction; the key is what the callers use. *)
Definition create_key (tenant : Keys.uuid) (name role raw secret : gostring) (id : Keys.uuid) (t : time) (d : db)
    : result Ledger.sql_error (db * gostring) :=
  r ← Keys.Create jsonb tenant name role raw secret id t t (keys d);
  Ok (MkDb (tenants d) r.2, r.1.2).

(** ** Commands *)

(** [fs.Parse(args)] *)
Definition with_flags (fs : Flag.flag_set) (args : list gostring) (k : (gostring -> gostring) -> io world error unit)
    : io world error unit :=
  match Flag.Parse fs args with
  | None => throw Failed
  | Some (vs, _) => k (fun name => Flag.value name vs)
  end.

Definition tenant_tx (name : gostring) (tenantID : Keys.uuid) (raw secret : gostring) (id : Keys.uuid) (t : time)
    (d : db) : result Ledger.sql_error (db * gostring) :=
  d ← insert_tenant name tenantID d; create_key tenantID "admin" "admin" raw secret id t d.

Definition runCreateTenant (args : list gostring) : io world error unit :=
  with_flags (Flag.texts ["name"%go]) args (fun flag =>
    let name := flag "name"%go in
    if seqb name [] then throw Failed
    else
      conn <- dsn ;;
      Connect conn ;;;
      tenantID <- fresh_uuid ;;
      raw <- rand_read 5 ;;
      secret <- rand_read 32 ;;
      id <- fresh_uuid ;;
      t <- now ;;
      full <- transaction (tenant_tx name tenantID raw secret id t) ;;
      Println full).

Definition classifySentinelKey (raw role : gostring) (ok : bool) : bool :=
  negb (seqb (TrimSpace raw) []) && ok && seqb role "sentinel".

(** Whether the key in the file will do. *)
Definition sentinelKeyFileAction (path : gostring) : io world error bool :=
  raw <- ReadFile path ;;
  let text := default [] raw in
  if seqb (TrimSpace text) [] then ret false
  else
    conn <- dsn ;;
    Connect conn ;;;
    p <- authenticate (TrimSpace text) ;;
    ret (match p with
         | Some p => classifySentinelKey text (Keys.Role p) true
         | None => classifySentinelKey text [] false
         end).

(** Its transaction; [fresh] is the identifier a new tenant would get. *)
Definition sentinel_tx (tenantName keyName : gostring) (fresh : Keys.uuid) (raw secret : gostring) (id : Keys.uuid) (t : time)
    (d : db) : result Ledger.sql_error (db * gostring) :=
  td ← match select_tenant tenantName d with
       | Some tenantID => Ok (tenantID, d)
       | None => d ← insert_tenant tenantName fresh d; Ok (fresh, d)
       end;
  create_key td.1 keyName "sentinel" raw secret id t td.2.

Definition writeSentinelKey (tenantName keyName outPath : gostring) : io world error unit :=
  conn <- dsn ;;
  Connect conn ;;;
  fresh <- fresh_uuid ;;
  raw <- rand_read 5 ;;
  secret <- rand_read 32 ;;
  id <- fresh_uuid ;;
  t <- now ;;
  full <- transaction (sentinel_tx tenantName keyName fresh raw secret id t) ;;
  WriteFile outPath (full ++ [Byte.x0a]).

(** The loop of [runEnsureSentinelKey], with the attempts that are left. *)
Fixpoint ensure (attempts : nat) (tenantName keyName outPath : gostring) : io world error unit :=
  match attempts with
  | O => throw Failed
  | S attempts =>
      let again (e : error) := match e with Exit n => throw (Exit n) | Failed => ensure attempts tenantName keyName outPath end in
      try (sentinelKeyFileAction outPath) (fun reuse =>
        match reuse with
        | Err e => again e
        | Ok true => ret tt
        | Ok false =>
            try (writeSentinelKey tenantName keyName outPath) (fun r =>
              match r with Ok _ => ret tt | Err e => again e end)
        end)
  end.

Definition ensure_flags : Flag.flag_set :=
  [("tenant-name", (Flag.StringFlag, [])); ("out", (Flag.StringFlag, []));
   ("key-name", (Flag.StringFlag, "compose-sentinel"))]%go.

Definition runEnsureSentinelKey (args : list gostring) : io world error unit :=
  with_flags ensure_flags args (fun flag =>
    if seqb (flag "tenant-name"%go) [] || seqb (flag "out"%go) [] then throw Failed
    else ensure 60 (flag "tenant-name"%go) (flag "key-name"%go) (flag "out"%go)).

Definition runAdmin (args : list gostring) : io world error unit :=
  match args with
  | command :: rest =>
      if seqb command "create-tenant" then runCreateTenant rest
      else if seqb command "ensure-sentinel-key" then runEnsureSentinelKey rest
      else throw Failed
  | [] => throw Failed
  end.

Definition runMigrate : io world error unit := conn <- dsn ;; migrate_Up.

(** [os.Args], the name of the tool first; the exit status. *)
Definition main (args : list gostring) (w : world) : world * Z :=
  let status (m : io world error unit) :=
    match m w with (w, Ok _) => (w, 0%Z) | (w, Err Failed) => (w, 1%Z) | (w, Err (Exit n)) => (w, n) end in
  match args with
  | _ :: command :: rest =>
      if seqb command "migrate" then status runMigrate
      else if seqb command "admin" then status (runAdmin rest)
      else (w, 2%Z)
  | _ => (w, 2%Z)
  end.
End admin.

End Admin.
