(* ===== verification/AdminSpec.v ===== *)
(** * The administration tool: what its keys are good for *)

From S2P Require Import Prelude GoStd GoTime Base64 Sha256 Json Ledger LedgerSpec Keys Proc Api ApiLogic ApiAccess Flag Admin.
Import Admin.

(** ** Keys are plain text *)

Lemma url_digit_plain n : n < 64 -> plain (b64_digit "-"%byte "_"%byte n) = true.
Proof.
  intros Hn. assert (H : forallb (fun i => plain (b64_digit "-"%byte "_"%byte i)) (List.seq 0 64) = true)
    by (vm_compute; reflexivity).
  rewrite forallb_forall in H. apply H, in_seq. lia.
Qed.

Lemma b32_plain n : n < 32 -> plain (Keys.b32_digit n) = true.
Proof.
  intros Hn. assert (H : forallb (fun i => plain (Keys.b32_digit i)) (List.seq 0 32) = true) by (vm_compute; reflexivity).
  rewrite forallb_forall in H. apply H, in_seq. lia.
Qed.

Lemma key_plain raw secret : length raw = 5 ->
  Forall (fun b => plain b = true) ("ch_" ++ Keys.newPrefix raw ++ "_" ++ RawURLEncodeToString secret).
Proof.
  intros Hl. destruct raw as [|a [|b [|c [|d [|e [|? ?]]]]]]; try done. unfold Keys.newPrefix, Keys.base32.
  cbn [mbind list_bind app Keys.bits_of fmap list_fmap Keys.b32_digits].
  repeat (apply Forall_cons_2; [first [reflexivity|apply b32_plain, bits_value_lt]|]).
  apply b64_encode_all; [apply url_digit_plain|done].
Qed.

(** A line is trimmed to its text. *)
Lemma TrimSpace_line s : Forall (fun b => plain b = true) s -> TrimSpace (s ++ [Byte.x0a]) = s.
Proof.
  intros H. destruct s as [|b s]; [vm_compute; reflexivity|].
  assert (Hl : Forall (fun r => exists c t, r = c :: t /\ plain c = false) (space_runes ++ wide_space_runes))
    by (repeat constructor; by eexists _, _).
  assert (Hr : Forall (fun r => exists c t, r = c :: t /\ plain c = false) (reverse <$> (space_runes ++ wide_space_runes)))
    by (repeat constructor; by eexists _, _).
  pose proof (proj1 (proj1 (Forall_cons _ _ _) H)) as Hb. unfold TrimSpace. rewrite <- app_comm_cons, trim_left_plain by done.
  rewrite app_comm_cons, reverse_app, length_app, Nat.add_comm. set (t := b :: s) in *. cbn [length Nat.add].
  change (reverse [Byte.x0a] ++ reverse t) with (Byte.x0a :: reverse t). cbn [trim_left].
  destruct (reverse t) as [|c l] eqn:E; [by apply (f_equal length) in E; rewrite length_reverse in E|].
  assert (find (HasPrefix (Byte.x0a :: c :: l)) (reverse <$> (space_runes ++ wide_space_runes)) = Some [Byte.x0a]) as -> by reflexivity.
  change (drop (length [Byte.x0a]) (Byte.x0a :: c :: l)) with (c :: l). rewrite trim_left_plain; [| |done].
  - by rewrite <- E, reverse_involutive.
  - rewrite Forall_forall in H. apply H. rewrite <- elem_of_reverse, E. left.
Qed.

(** ** The tables *)

Lemma find_app {A} (f : A -> bool) l l' :
  List.find f (l ++ l') = match List.find f l with Some x => Some x | None => List.find f l' end.
Proof. induction l as [|x l IH]; [done|]. cbn. by destruct (f x). Qed.

Lemma rbind_Ok {E A B} (m : result E A) (k : A -> result E B) b : m ≫= k = Ok b -> exists a, m = Ok a /\ k a = Ok b.
Proof. destruct m as [a|e]; [|done]. by exists a. Qed.

Section admin.
Context `{Api.Environment, !Api.EnvironmentLaws} (jsonb : gostring -> option gostring).
Context (Getenv : gostring -> gostring) (migrate_Up : io world error unit).
Implicit Types w : world.

Abbreviation api_keys d := (Keys.api_keys (keys d)).

(** What [create_key] does to the tables. *)
Lemma create_key_Ok tenant name role raw secret id t d d' full :
  length raw = 5 -> length secret = 32 ->
  create_key jsonb tenant name role raw secret id t d = Ok (d', full) ->
  tenants d' = tenants d /\
  (exists k, api_keys d' = api_keys d ++ [k] /\
     Keys.key_tenant k = tenant /\ Keys.name k = name /\ Keys.role k = role /\ Keys.revoked_at k = None) /\
  Keys.Authenticate full (api_keys d') = Some (Keys.MkPrincipal tenant id role) /\
  Forall (fun b => plain b = true) full /\ full <> [].
Proof.
  intros Hr Hs E. unfold create_key in E. apply rbind_Ok in E as ([[[i pre] f] s] & E & [= <- <-]).
  pose proof E as E'. apply Create_Authenticate in E' as [-> Ha]; [|done..]. split; [done|].
  unfold Keys.Create in E. apply rbind_Ok in E as (s1 & E1 & E). apply rbind_Ok in E as (s2 & E2 & [= <- <- <-]).
  split; [|split; [done|split; [by apply key_plain|done]]].
  unfold Keys.append in E2. apply rbind_Ok in E2 as (l & _ & [= <-]). unfold Keys.insert_key in E1.
  destruct (negb _); [done|]. destruct (existsb _ _); [done|]. case_bool_decide; [|done]. injection E1 as <-.
  by eexists.
Qed.

(** The first row with a name stays the first. *)
Lemma select_tenant_more name d d' ts id : tenants d' = tenants d ++ ts ->
  select_tenant name d = Some id -> select_tenant name d' = Some id.
Proof.
  unfold select_tenant. intros ->. rewrite find_app. destruct (find _ (tenants d)); done.
Qed.

Lemma insert_tenant_Ok name id d d' : insert_tenant name id d = Ok d' ->
  tenants d' = tenants d ++ [MkTenant id name] /\ api_keys d' = api_keys d.
Proof. unfold insert_tenant. destruct (negb _); [done|]. case_bool_decide; [done|]. by intros [= <-]. Qed.

(** What [d'] has that [d] has not: at most [n] keys of proxies, all alive, of the
    tenant that the name leads to; and that tenant, when there was none. *)
Definition added (n : nat) (tn kn : gostring) (d d' : db) : Prop := exists ts ks,
  tenants d' = tenants d ++ ts /\ api_keys d' = api_keys d ++ ks /\
  (ts = [] \/ select_tenant tn d = None /\ exists id, ts = [MkTenant id tn]) /\
  length ks <= n /\
  Forall (fun k => Keys.name k = kn /\ Keys.role k = "sentinel"%go /\ Keys.revoked_at k = None /\
                   select_tenant tn d' = Some (Keys.key_tenant k)) ks.

Lemma added_refl tn kn d : added 0 tn kn d d.
Proof. exists [], []. rewrite !app_nil_r. split_and!; auto. Qed.

Lemma added_trans n m tn kn d d' d'' : added n tn kn d d' -> added m tn kn d' d'' -> added (n + m) tn kn d d''.
Proof.
  intros (ts & ks & Et & Ek & Hn & Hl & Hk) (ts' & ks' & Et' & Ek' & Hn' & Hl' & Hk').
  exists (ts ++ ts'), (ks ++ ks'). rewrite Et', Ek', Et, Ek, !app_assoc, length_app. split_and!; try done; [|lia|].
  - destruct Hn as [->|(Hs & id & ->)].
    + rewrite app_nil_r in Et. destruct Hn' as [->|(Hs & ?)]; [by left|right].
      unfold select_tenant in *. by rewrite Et in Hs.
    + right. split; [done|]. exists id. destruct Hn' as [->|(Hs' & _)]; [done|]. exfalso. unfold select_tenant in *.
      rewrite Et, find_app in Hs'. destruct (find _ (tenants d)); [done|]. cbn in Hs'. by rewrite seqb_refl in Hs'.
  - apply Forall_app. split; [|done]. eapply Forall_impl; [exact Hk|]. intros k (? & ? & ? & ?). split_and!; try done.
    by eapply select_tenant_more.
Qed.

Lemma added_mono n m tn kn d d' : n <= m -> added n tn kn d d' -> added m tn kn d d'.
Proof. intros ? (ts & ks & ? & ? & ? & ? & ?). exists ts, ks. split_and!; try done. lia. Qed.

Lemma sentinel_tx_Ok tn kn fresh raw secret id t d d' full :
  length raw = 5 -> length secret = 32 ->
  sentinel_tx jsonb tn kn fresh raw secret id t d = Ok (d', full) ->
  added 1 tn kn d d' /\
  (exists p, Keys.Authenticate full (api_keys d') = Some p /\ Keys.Role p = "sentinel"%go) /\
  Forall (fun b => plain b = true) full /\ full <> [].
Proof.
  intros Hr Hs E. apply rbind_Ok in E as ([tid d1] & E1 & E). cbn [fst snd] in E.
  apply create_key_Ok in E as (Et & (k & Ek & Hk1 & Hk2 & Hk3 & Hk4) & Ha & Hp & Hne); [|done..].
  split; [|split; [by eexists|done]].
  destruct (select_tenant tn d) as [tid'|] eqn:Es.
  - injection E1 as -> ->. exists [], [k]. rewrite app_nil_r. split_and!; auto. apply Forall_singleton. split_and!; try done.
    unfold select_tenant in *. by rewrite Et, Es, Hk1.
  - apply rbind_Ok in E1 as (d2 & E1%insert_tenant_Ok & [= <- <-]). destruct E1 as [Et2 Ek2].
    exists [MkTenant fresh tn], [k]. rewrite Et, Ek, Et2, Ek2. split_and!; eauto. apply Forall_singleton. split_and!; try done.
    unfold select_tenant in *. rewrite Et, Et2, find_app. destruct (find _ (tenants d)); [done|]. cbn. by rewrite seqb_refl, Hk1.
Qed.

(** ** Calls that change neither the tables nor the files *)

Definition same w w' : Prop := tables w' = tables w /\ files w' = files w.
Definition keeps {E A} (m : io world E A) : Prop := forall w, same w (m w).1.

Lemma same_trans w w' w'' : same w w' -> same w' w'' -> same w w''.
Proof. intros [E1 F1] [E2 F2]. split; congruence. Qed.

Lemma keeps_ret {E A} (a : A) : keeps (ret (E := E) a). Proof. by intros w. Qed.
Lemma keeps_throw {E A} (e : E) : keeps (throw (A := A) e). Proof. by intros w. Qed.
Lemma keeps_bind {E A B} (m : io world E A) (k : A -> io world E B) :
  keeps m -> (forall a, keeps (k a)) -> keeps (bind m k).
Proof.
  intros Hm Hk w. io_run. specialize (Hm w). destruct (m w) as [w1 [a|e]]; [|done].
  eapply same_trans; [exact Hm|apply Hk].
Qed.
Lemma next_fault_same w : same w (next_fault w).2.
Proof. destruct w as [d f s [|o os] n m i]; done. Qed.
Lemma keeps_dsn : keeps (dsn Getenv). Proof. unfold dsn. cbv zeta. destruct (seqb _ _); [apply keeps_throw|apply keeps_ret]. Qed.
Lemma keeps_Connect c : keeps (Connect c).
Proof. intros w. unfold Connect. pose proof (next_fault_same w). destruct (next_fault w) as [[] w1]; done. Qed.
Lemma keeps_ReadFile p : keeps (ReadFile p).
Proof. intros w. unfold ReadFile. pose proof (next_fault_same w). destruct (next_fault w) as [[] w1]; done. Qed.
Lemma keeps_authenticate h : keeps (authenticate h).
Proof.
  unfold authenticate. destruct (Keys.Prefix h); [|apply keeps_ret]. intros w. pose proof (next_fault_same w).
  destruct (next_fault w) as [[] w1]; done.
Qed.
#[local] Hint Resolve keeps_ret keeps_throw keeps_bind keeps_dsn keeps_Connect keeps_ReadFile keeps_authenticate : core.

Lemma dsn_Ok w w' c : dsn Getenv w = (w', Ok c) -> w' = w /\ Getenv "POSTGRES_DSN" <> [].
Proof. unfold dsn. cbv zeta. destruct (seqb _ _) eqn:E; [done|]. intros [= -> _]. split; [done|by apply seqb_neq]. Qed.

Lemma ReadFile_Ok p w w' raw : ReadFile p w = (w', Ok raw) -> raw = files w' !! p.
Proof. unfold ReadFile. destruct (next_fault w) as [[] w1]; [|done..]. by intros [= <- <-]. Qed.

Lemma authenticate_Ok h w w' p : authenticate h w = (w', Ok (Some p)) ->
  Keys.Authenticate h (api_keys (tables w')) = Some p.
Proof.
  unfold authenticate. destruct (Keys.Prefix h); [|done]. destruct (next_fault w) as [[] w1]; [|done..].
  by intros [= <- ?].
Qed.

(** The file holds a key that is let in as a proxy's. *)
Definition live (path : gostring) w : Prop := exists text p, files w !! path = Some text /\
  Keys.Authenticate (TrimSpace text) (api_keys (tables w)) = Some p /\ Keys.Role p = "sentinel"%go.

Lemma keeps_action path : keeps (sentinelKeyFileAction Getenv path).
Proof. unfold sentinelKeyFileAction. cbv zeta. apply keeps_bind; [auto|]. intros raw. destruct (seqb _ _); auto 10. Qed.

Lemma action_true path w w' : sentinelKeyFileAction Getenv path w = (w', Ok true) ->
  live path w' /\ Getenv "POSTGRES_DSN" <> [].
Proof.
  unfold sentinelKeyFileAction. cbv zeta. intros (w1 & raw & E1 & E)%bind_Ok.
  destruct (seqb _ _) eqn:Es; [done|]. apply bind_Ok in E as (w2 & c & [-> Hd]%dsn_Ok & E).
  apply bind_Ok in E as (w3 & u & E3 & E). apply bind_Ok in E as (w4 & p & E4 & E). split; [|done].
  pose proof (keeps_Connect c w1) as H3. rewrite E3 in H3. pose proof (keeps_authenticate (TrimSpace (default [] raw)) w3) as H4.
  rewrite E4 in H4. destruct p as [p|]; injection E as <- E.
  - apply authenticate_Ok in E4. unfold classifySentinelKey in E. rewrite Es in E. cbn in E. apply seqb_eq in E.
    apply ReadFile_Ok in E1. destruct H3 as [_ H3], H4 as [_ H4]. cbn [fst] in H3, H4. rewrite <- H3, <- H4 in E1.
    destruct raw as [text|]; [|done]. by exists text, p.
  - unfold classifySentinelKey in E. by rewrite andb_false_r in E.
Qed.

(** ** Writing a key *)

Lemma transaction_run {A} (body : db -> result Ledger.sql_error (db * A)) w w' r :
  transaction body w = (w', r) -> files w' = files w /\
  match r with
  | Ok a => body (tables w) = Ok (tables w', a)
  | Err _ => tables w' = tables w \/ exists a, body (tables w) = Ok (tables w', a)
  end.
Proof.
  unfold transaction. destruct (next_fault_same w) as [Et Ef]. destruct (next_fault w) as [o w1]. cbn [snd] in *. rewrite Et.
  destruct o, (body (tables w)) as [[d a]|e]; intros [= <- <-]; split; eauto; by right; exists a.
Qed.

Lemma WriteFile_run path text w w' r : WriteFile path text w = (w', r) ->
  tables w' = tables w /\ (forall p, p <> path -> files w' !! p = files w !! p) /\
  (r = Ok tt -> files w' !! path = Some text).
Proof.
  unfold WriteFile. destruct (next_fault_same w) as [Et Ef]. destruct (next_fault w) as [o w1]. cbn [snd] in *.
  destruct o; intros [= <- <-]; cbn [set_files tables files]; rewrite <- Ef; split_and!; try done; intros.
  - by apply lookup_insert_ne.
  - apply lookup_insert_eq.
  - by apply lookup_insert_ne.
Qed.

Lemma write_run tn kn out w w' r : writeSentinelKey jsonb Getenv tn kn out w = (w', r) ->
  added 1 tn kn (tables w) (tables w') /\ (forall p, p <> out -> files w' !! p = files w !! p) /\
  (r = Ok tt -> live out w' /\ Getenv "POSTGRES_DSN" <> []).
Proof.
  unfold writeSentinelKey. io_run. destruct (dsn Getenv w) as [w1 [c|e]] eqn:Ed.
  2:{ intros [= <- <-]. pose proof (keeps_dsn w) as [Et Ef]. rewrite Ed in Et, Ef. cbn [fst] in Et, Ef. rewrite Et, Ef.
      split; [eapply added_mono, added_refl; lia|done]. }
  apply dsn_Ok in Ed as [-> Hd]. pose proof (keeps_Connect c w) as [Et Ef].
  destruct (Connect c w) as [w1 [u|e]]; cbn [fst] in Et, Ef.
  2:{ intros [= <- <-]. rewrite Et, Ef. split; [eapply added_mono, added_refl; lia|done]. }
  cbn [fresh_uuid rand_read now]. match goal with |- context [transaction ?b ?x] => set (w2 := x) end.
  change (tables w1) with (tables w2) in Et. change (files w1) with (files w2) in Ef. rewrite <- Et, <- Ef.
  destruct (transaction _ w2) as [w3 r3] eqn:E3. apply transaction_run in E3 as [Ef3 E3]. rewrite <- Ef3.
  destruct r3 as [full|e].
  - apply sentinel_tx_Ok in E3 as (Ha & (p & Hp & Hr) & Hpl & Hne); [|apply Api.random_length..].
    intros Hw. apply WriteFile_run in Hw as (Et4 & Hf & Hok). rewrite Et4. split; [done|]. split; [done|].
    intros Hr4. split; [|done]. exists (full ++ [Byte.x0a]), p. rewrite Et4, TrimSpace_line by done. auto.
  - intros [= <- <-]. split; [|done]. destruct E3 as [->|[full E3]]; [eapply added_mono, added_refl; lia|].
    apply sentinel_tx_Ok in E3 as (Ha & _); [done|apply Api.random_length..].
Qed.

Lemma ensure_run n tn kn out w w' r : ensure jsonb Getenv n tn kn out w = (w', r) ->
  added n tn kn (tables w) (tables w') /\ (forall p, p <> out -> files w' !! p = files w !! p) /\
  (r = Ok tt -> live out w' /\ Getenv "POSTGRES_DSN" <> []).
Proof.
  revert w. induction n as [|n IH]; intros w; cbn [ensure].
  - intros [= <- <-]. split; [apply added_refl|done].
  - cbn [try io_effects]. pose proof (keeps_action out w) as [Et Ef]. destruct (sentinelKeyFileAction _ _ w) as [w1 r1] eqn:Ea.
    cbn [fst] in Et, Ef. rewrite <- Et, <- Ef.
    assert (Hnone : added (S n) tn kn (tables w1) (tables w1)) by (eapply added_mono, added_refl; lia).
    destruct r1 as [[]|[c|]].
    + intros [= <- <-]. split; [done|]. split; [done|]. intros _. by eapply action_true.
    + destruct (writeSentinelKey _ _ _ _ _ w1) as [w2 r2] eqn:Ew. apply write_run in Ew as (Ha & Hf & Hl).
      assert (added (S n) tn kn (tables w1) (tables w2)) by (eapply added_mono; [|exact Ha]; lia).
      destruct r2 as [[]|[c|]]; [intros [= <- <-]; auto..|].
      intros (Ha' & Hf' & Hl')%IH. split; [by eapply (added_trans 1)|]. split; [|done].
      intros p Hp. rewrite Hf' by done. by apply Hf.
    + by intros [= <- <-].
    + intros (Ha' & Hf' & Hl')%IH. split; [eapply added_mono; [|exact Ha']; lia|done].
Qed.

(** ** Again, and while the database is away *)

Lemma ensure_again n tn kn out w : live out w -> Getenv "POSTGRES_DSN" <> [] -> faults w = [] ->
  ensure jsonb Getenv (S n) tn kn out w = (w, Ok tt).
Proof.
  intros (text & p & Hf & Ha & Hr) Hd%seqb_neq Hnf. cbn [ensure]. unfold sentinelKeyFileAction, ReadFile, dsn, Connect, authenticate.
  cbv zeta. io_run. unfold next_fault. rewrite Hnf, Hf. cbn [default].
  assert (Hp : is_Some (Keys.Prefix (TrimSpace text))).
  { unfold Keys.Authenticate in Ha. by destruct (Keys.Prefix (TrimSpace text)). }
  assert (Ht : seqb (TrimSpace text) [] = false).
  { apply seqb_neq. intros Ht. rewrite Ht in Hp. by destruct Hp. }
  change (id text) with text. rewrite Ht, Hd. io_run. rewrite Hnf. destruct Hp as [x ->]. rewrite Hnf, Ha.
  unfold classifySentinelKey. by rewrite Ht, Hr.
Qed.

(** The database refuses the connections of [k] attempts. *)
Definition outage (k : nat) : list (Proc.outcome nat) := concat (replicate k [Proc.Served; Proc.Refused 0]).

Definition set_faults fs w := World (tables w) (files w) (stdout w) fs (ticks w) (draws w) (idents w).

Lemma ensure_away n tn kn out w k fs : Getenv "POSTGRES_DSN" <> [] -> faults w = Proc.Served :: Proc.Refused k :: fs ->
  ensure jsonb Getenv (S n) tn kn out w = ensure jsonb Getenv n tn kn out (set_faults fs w).
Proof.
  intros Hd%seqb_neq Hf. cbn [ensure try io_effects]. unfold sentinelKeyFileAction, writeSentinelKey, ReadFile, dsn, Connect. cbv zeta.
  io_run. unfold next_fault. rewrite Hf. cbn [files faults tables stdout ticks draws idents]. rewrite Hd. io_run.
  destruct (seqb (TrimSpace _) []); io_run; reflexivity.
Qed.

(** What the database makes of the next key. *)
Definition next_tx tn kn w : result Ledger.sql_error (db * gostring) :=
  sentinel_tx jsonb tn kn (Api.new_uuid (idents w)) (Api.random (draws w) 5) (Api.random (S (draws w)) 32)
    (Api.new_uuid (S (idents w))) (Api.clock (ticks w)) (tables w).

Lemma next_fault_nil w : faults w = [] -> next_fault w = (Proc.Served, w).
Proof. unfold next_fault. by intros ->. Qed.

Lemma action_served out w : Getenv "POSTGRES_DSN" <> [] -> faults w = [] ->
  exists b, sentinelKeyFileAction Getenv out w = (w, Ok b).
Proof.
  intros Hd%seqb_neq Hnf. unfold sentinelKeyFileAction, ReadFile, dsn, Connect, authenticate. cbv zeta. rewrite Hd. io_run.
  rewrite next_fault_nil by done. destruct (seqb (TrimSpace _) []); [by eexists|]. io_run. rewrite next_fault_nil by done.
  destruct (Keys.Prefix _); [rewrite next_fault_nil by done|]; by eexists.
Qed.

Lemma write_served tn kn out w d : Getenv "POSTGRES_DSN" <> [] -> faults w = [] -> next_tx tn kn w = Ok d ->
  exists w', writeSentinelKey jsonb Getenv tn kn out w = (w', Ok tt).
Proof.
  intros Hd%seqb_neq Hnf Hn. unfold writeSentinelKey, dsn, Connect. cbv zeta. rewrite Hd. io_run.
  rewrite next_fault_nil by done. cbn [fresh_uuid rand_read now]. cbn [draws idents ticks].
  unfold transaction. rewrite next_fault_nil by done. cbn [tables]. unfold next_tx in Hn. rewrite Hn. destruct d as [d full].
  unfold WriteFile. rewrite next_fault_nil by done. by eexists.
Qed.

Lemma ensure_served n tn kn out w d : Getenv "POSTGRES_DSN" <> [] -> faults w = [] -> next_tx tn kn w = Ok d ->
  exists w', ensure jsonb Getenv (S n) tn kn out w = (w', Ok tt).
Proof.
  intros Hd Hnf Hn. cbn [ensure try io_effects]. destruct (action_served out w) as [[] ->]; [done..|by eexists|].
  destruct (write_served tn kn out w d) as [w' ->]; [done..|]. by eexists.
Qed.

Lemma ensure_outage n k tn kn out w d : Getenv "POSTGRES_DSN" <> [] -> faults w = outage k -> next_tx tn kn w = Ok d ->
  k < n -> exists w', ensure jsonb Getenv n tn kn out w = (w', Ok tt).
Proof.
  intros Hd. revert n w. induction k as [|k IH]; intros [|n] w Hf Hn Hk; try lia; [by eapply ensure_served|].
  rewrite (ensure_away n tn kn out w 0 (outage k)) by done. apply IH; [done|exact Hn|lia].
Qed.

Lemma ensure_gives_up n k tn kn out w : Getenv "POSTGRES_DSN" <> [] -> faults w = outage k -> n <= k ->
  exists w', ensure jsonb Getenv n tn kn out w = (w', Err Failed) /\ same w w'.
Proof.
  intros Hd. revert k w. induction n as [|n IH]; intros k w Hf Hk; [by eexists|]. destruct k as [|k]; [lia|].
  rewrite (ensure_away n tn kn out w 0 (outage k)) by done. apply (IH k (set_faults (outage k) w)); [done|lia].
Qed.

(** The process ends on the spot with status 2. *)
Definition exits2 {A} (m : io world error A) : Prop := forall w w' n, m w = (w', Err (Exit n)) -> n = 2%Z.

Lemma exits2_bind {A B} (m : io world error A) (k : A -> io world error B) :
  exits2 m -> (forall a, exits2 (k a)) -> exits2 (bind m k).
Proof.
  intros Hm Hk w w' n. io_run. destruct (m w) as [w1 [a|e]] eqn:E; [apply Hk|]. intros [= <- ->]. by eapply Hm.
Qed.
Lemma exits2_served {A} (m : io world error A) : (forall w, match (m w).2 with Err (Exit _) => False | _ => True end) -> exits2 m.
Proof. intros Hm w w' n E. specialize (Hm w). by rewrite E in Hm. Qed.

Ltac served := apply exits2_served; intros w; unfold ReadFile, Connect, authenticate, transaction, WriteFile;
  try destruct (Keys.Prefix _); try (destruct (next_fault w) as [[] ?]); cbn [snd]; try done;
  match goal with |- context [match ?x with _ => _ end] => by destruct x as [[]|] end.

Lemma exits2_dsn : exits2 (dsn Getenv).
Proof. unfold dsn. cbv zeta. destruct (seqb _ _); [by intros w w' n [= _ <-]|done]. Qed.
Lemma exits2_action out : exits2 (sentinelKeyFileAction Getenv out).
Proof.
  unfold sentinelKeyFileAction. cbv zeta. apply exits2_bind; [served|]. intros raw. destruct (seqb _ _); [served|].
  apply exits2_bind; [apply exits2_dsn|]. intros c. apply exits2_bind; [served|]. intros _. apply exits2_bind; [served|]. intros p. served.
Qed.
Lemma exits2_write tn kn out : exits2 (writeSentinelKey jsonb Getenv tn kn out).
Proof.
  unfold writeSentinelKey. apply exits2_bind; [apply exits2_dsn|]. intros c. apply exits2_bind; [served|]. intros _.
  do 5 (apply exits2_bind; [served|intros ?]). apply exits2_bind; [served|]. intros full. served.
Qed.

Lemma ensure_exit n tn kn out w w' : ensure jsonb Getenv n tn kn out w <> (w', Err (Exit 0)).
Proof.
  revert w. induction n as [|n IH]; intros w; cbn [ensure]; [done|]. cbn [try io_effects].
  destruct (sentinelKeyFileAction _ _ w) as [w1 [[]|[c|]]] eqn:Ea; [done| | |apply IH].
  - destruct (writeSentinelKey _ _ _ _ _ w1) as [w2 [u|[c|]]] eqn:Ew; [done| |apply IH].
    apply exits2_write in Ew as ->. done.
  - apply exits2_action in Ea as ->. done.
Qed.

(** ** The commands *)

Abbreviation main := (main jsonb Getenv migrate_Up).
Abbreviation ensure_command exe args := (exe :: "admin" :: "ensure-sentinel-key" :: args)%go.

Lemma main_ensure exe args vs rest w :
  Flag.Parse ensure_flags args = Some (vs, rest) -> Flag.value "tenant-name" vs <> [] -> Flag.value "out" vs <> [] ->
  main (ensure_command exe args) w =
  match ensure jsonb Getenv 60 (Flag.value "tenant-name" vs) (Flag.value "key-name" vs) (Flag.value "out" vs) w with
  | (w, Ok _) => (w, 0%Z) | (w, Err Failed) => (w, 1%Z) | (w, Err (Exit n)) => (w, n)
  end.
Proof.
  intros Hp Ht%seqb_neq Ho%seqb_neq. unfold Admin.main, runAdmin.
  change (seqb "admin" "migrate") with false. change (seqb "admin" "admin") with true. cbv iota.
  change (seqb "ensure-sentinel-key" "create-tenant") with false.
  change (seqb "ensure-sentinel-key" "ensure-sentinel-key") with true. cbv iota.
  unfold runEnsureSentinelKey, with_flags. by rewrite Hp, Ht, Ho.
Qed.

(** C13 [sentinel_key_ready]: when ensure-sentinel-key ends with status 0, the file holds
    a key that the control plane lets in as a proxy's, and running the command again,
    undisturbed, changes nothing.  Whatever the network and the disk do: at most 60 keys are added,
    all alive, of the one tenant that the name leads to, which is added when it was
    not there; every key, tenant and other file stays.  An outage of the database
    that ends within 59 attempts is survived; one that lasts leaves everything as it
    was, and the status is 1. *)
Theorem sentinel_key_ready exe args vs rest w w' code :
  let tn := Flag.value "tenant-name" vs in
  let kn := Flag.value "key-name" vs in
  let out := Flag.value "out" vs in
  Flag.Parse ensure_flags args = Some (vs, rest) -> tn <> [] -> out <> [] ->
  main (ensure_command exe args) w = (w', code) ->
  (code = 0%Z -> live out w' /\ (faults w' = [] -> main (ensure_command exe args) w' = (w', 0%Z))) /\
  added 60 tn kn (tables w) (tables w') /\
  (forall p, p <> out -> files w' !! p = files w !! p) /\
  (Getenv "POSTGRES_DSN" <> [] -> forall k, faults w = outage k ->
     (60 <= k -> code = 1%Z /\ same w w') /\
     (k < 60 -> forall d, next_tx tn kn w = Ok d -> code = 0%Z)).
Proof.
  intros tn kn out Hp Ht Ho. rewrite (main_ensure exe args vs rest w) by done. fold tn kn out.
  destruct (ensure jsonb Getenv 60 tn kn out w) as [w1 r] eqn:E. intros Er.
  pose proof (ensure_run _ _ _ _ _ _ _ E) as (Ha & Hf & Hl).
  assert (Hw : w1 = w') by (destruct r as [|[]]; by injection Er). subst w1. split; [|split; [done|split; [done|]]].
  - intros ->. destruct r as [[]|e]; [|].
    + destruct (Hl eq_refl) as [Hlive Hd]. split; [done|]. intros Hnf. rewrite (main_ensure exe args vs rest w') by done.
      by rewrite ensure_again.
    + exfalso. destruct e as [n|]; [|done]. injection Er as ->. by eapply ensure_exit.
  - intros Hd k Hk. split.
    + intros H60. destruct (ensure_gives_up 60 k tn kn out w) as (w2 & E2 & Hs); [done..|]. rewrite E in E2.
      injection E2 as -> ->. by injection Er as ->.
    + intros H60 d Hn. destruct (ensure_outage 60 k tn kn out w d) as [w2 E2]; [done..|]. rewrite E in E2.
      injection E2 as -> ->. by injection Er as ->.
Qed.

Abbreviation create_command exe args := (exe :: "admin" :: "create-tenant" :: args)%go.

Lemma tenant_tx_Ok name tid raw secret id t d d' full :
  length raw = 5 -> length secret = 32 -> tenant_tx jsonb name tid raw secret id t d = Ok (d', full) ->
  tenants d' = tenants d ++ [MkTenant tid name] /\
  (exists k, api_keys d' = api_keys d ++ [k] /\ Keys.key_tenant k = tid /\ Keys.role k = "admin"%go) /\
  Keys.Authenticate full (api_keys d') = Some (Keys.MkPrincipal tid id "admin").
Proof.
  intros Hr Hs (d1 & [Et1 Ek1]%insert_tenant_Ok & E)%rbind_Ok.
  apply create_key_Ok in E as (Et & (k & Ek & Hk1 & _ & Hk3 & _) & Ha & _); [|done..]. rewrite Et, Et1. split; [done|].
  split; [|done]. exists k. by rewrite Ek, Ek1.
Qed.

Definition next_tenant_tx name w : result Ledger.sql_error (db * gostring) :=
  tenant_tx jsonb name (Api.new_uuid (idents w)) (Api.random (draws w) 5) (Api.random (S (draws w)) 32)
    (Api.new_uuid (S (idents w))) (Api.clock (ticks w)) (tables w).

Lemma main_create exe args vs rest w :
  Flag.Parse (Flag.texts ["name"%go]) args = Some (vs, rest) -> Flag.value "name" vs <> [] ->
  main (create_command exe args) w =
  if seqb (Getenv "POSTGRES_DSN") [] then (w, 2%Z)
  else
    match Connect (Getenv "POSTGRES_DSN") w with
    | (w1, Err _) => (w1, 1%Z)
    | (w1, Ok _) =>
        let w2 := World (tables w1) (files w1) (stdout w1) (faults w1) (S (ticks w1)) (S (S (draws w1))) (S (S (idents w1))) in
        match transaction (fun _ => next_tenant_tx (Flag.value "name" vs) w1) w2 with
        | (w3, Ok full) => (World (tables w3) (files w3) (stdout w3 ++ full ++ [Byte.x0a]) (faults w3) (ticks w3) (draws w3) (idents w3), 0%Z)
        | (w3, Err _) => (w3, 1%Z)
        end
    end.
Proof.
  intros Hp Hn%seqb_neq. unfold Admin.main, runAdmin. change (seqb "admin" "migrate") with false.
  change (seqb "admin" "admin") with true. cbv iota. change (seqb "create-tenant" "create-tenant") with true. cbv iota.
  unfold runCreateTenant, with_flags. rewrite Hp, Hn. unfold dsn. cbv zeta. destruct (seqb (Getenv "POSTGRES_DSN") []); [done|]. io_run.
  unfold Connect. destruct (next_fault w) as [[] w1]; [|done..]. cbn [fresh_uuid rand_read now Println].
  unfold transaction. set (w2 := World _ _ _ _ _ _ _). destruct (next_fault_same w2) as [Et _].
  destruct (next_fault w2) as [o w3]. cbn [snd] in Et. rewrite Et. unfold next_tenant_tx. cbn [w2 tables draws idents ticks].
  destruct o; [|done|]; by destruct (tenant_tx _ _ _ _ _ _ _ _) as [[d full]|].
Qed.

Lemma create_served exe args vs rest w d :
  Flag.Parse (Flag.texts ["name"%go]) args = Some (vs, rest) -> Flag.value "name" vs <> [] ->
  faults w = [] -> Getenv "POSTGRES_DSN" <> [] -> next_tenant_tx (Flag.value "name" vs) w = Ok d ->
  (main (create_command exe args) w).2 = 0%Z.
Proof.
  intros Hp Hn Hw Hd%seqb_neq E. rewrite (main_create exe args vs rest w), Hd by done. unfold Connect.
  rewrite next_fault_nil by done. unfold transaction. rewrite next_fault_nil, E by done. by destruct d.
Qed.

(** The tenant of the name and its key, neither without the other. *)
Definition both_added (name : gostring) w w' (id : Keys.uuid) : Prop := exists k,
  tenants (tables w') = tenants (tables w) ++ [MkTenant id name] /\
  api_keys (tables w') = api_keys (tables w) ++ [k] /\ Keys.key_tenant k = id /\ Keys.role k = "admin"%go.

(** when create-tenant ends with status 0, what it has printed is
    one line, a key that the control plane lets in as an administrator of the new
    tenant, which has the name asked for.  Otherwise it has printed nothing; then too
    the tables are as they were, or have the tenant and its key: never the one
    without the other.  When nothing fails and the tables take the rows, it succeeds. *)
Lemma tenant_created exe args vs rest w w' code :
  let name := Flag.value "name" vs in
  Flag.Parse (Flag.texts ["name"%go]) args = Some (vs, rest) -> name <> [] ->
  main (create_command exe args) w = (w', code) ->
  (code = 0%Z -> exists id kid full, both_added name w w' id /\ stdout w' = stdout w ++ full ++ [Byte.x0a] /\
     Keys.Authenticate full (api_keys (tables w')) = Some (Keys.MkPrincipal id kid "admin")) /\
  (code <> 0%Z -> stdout w' = stdout w /\ (tables w' = tables w \/ exists id, both_added name w w' id)) /\
  files w' = files w /\
  (faults w = [] -> Getenv "POSTGRES_DSN" <> [] -> forall d, next_tenant_tx name w = Ok d -> code = 0%Z).
Proof.
  intros name Hp Hn Em.
  assert (Hs : faults w = [] -> Getenv "POSTGRES_DSN" <> [] -> forall d, next_tenant_tx name w = Ok d -> code = 0%Z).
  { intros Hw Hd d Hd'. rewrite <- (create_served exe args vs rest w d) by done. by rewrite Em. }
  revert Em. rewrite (main_create exe args vs rest w) by done. fold name.
  destruct (seqb (Getenv "POSTGRES_DSN") []); [intros [= <- <-]; (split; [done|split; [auto|by split]])|].
  unfold Connect. destruct (next_fault_same w) as [Et Ef].
  assert (Eo : stdout (next_fault w).2 = stdout w) by (unfold next_fault; by destruct (faults w)).
  destruct (next_fault w) as [o w1]. cbn [snd] in *. destruct o; [|intros [= <- <-]; (split; [done|split; [auto|by split]])..].
  cbv zeta. set (w2 := World _ _ _ _ _ _ _). unfold transaction.
  assert (Eo2 : stdout (next_fault w2).2 = stdout w2) by (unfold next_fault; by destruct (faults w2)).
  destruct (next_fault_same w2) as [Et2 Ef2]. destruct (next_fault w2) as [o w3]. cbn [snd w2 tables files stdout] in *.
  rewrite Eo in Eo2. rewrite Et in Et2. rewrite Ef in Ef2.
  destruct (next_tenant_tx name w1) as [[d full]|e] eqn:En; [|destruct o; intros [= <- <-]; (split; [done|split; [auto|by split]])].
  apply tenant_tx_Ok in En as (Ht & (k & Hk & Hk1 & Hk2) & Ha); [|apply Api.random_length..]. rewrite Et in Ht, Hk.
  destruct o; intros [= <- <-]; [|(split; [done|split; [auto|by split]])|]; (split; [|split; [|by split]]); intros Hc; try done.
  - eexists _, _, full. cbn [tables stdout set_tables]. rewrite Eo2. split; [|done]. by exists k.
  - split; [done|]. right. eexists. by exists k.
Qed.
End admin.

(** ** A first start *)

#[local] Instance toy_environment : Api.Environment := {|
  Api.clock n := Z.of_nat n;
  Api.random i n := replicate n (byte_of_nat i);
  Api.new_uuid i := [byte_of_nat (48 + i)];
  Api.url_host _ := None;
  Api.local_offset _ := 0%Z;
|}.
#[local] Instance toy_environment_laws : Api.EnvironmentLaws.
Proof. split. intros. apply length_replicate. Qed.

Definition toy_getenv (_ : gostring) : gostring := "postgres://db"%go.
Definition toy_world (k : nat) : world := World (MkDb [] (Keys.Store [] (Ledger.Db [] [] ∅))) ∅ [] (outage k) 0 0 0.
Definition toy_args : list gostring := ["--tenant-name"; "acme"; "--out=/key"]%go.

Lemma sentinel_key_ready_witness :
  let run := main Some toy_getenv (ret tt) ("coldharbour" :: "admin" :: "ensure-sentinel-key" :: toy_args)%go (toy_world 2) in
  run.2 = 0%Z /\ live "/key" run.1.
Proof.
  intros run. destruct run as [w' code] eqn:E.
  destruct (Flag.Parse_gives ensure_flags toy_args [("tenant-name", "acme"); ("out", "/key"); ("key-name", "compose-sentinel")]%go)
    as (vs & rest & Ep & Hv); [vm_compute; reflexivity|].
  apply Forall_cons in Hv as [Ht [Ho [Hk _]%Forall_cons]%Forall_cons]. cbn [fst snd] in Ht, Ho, Hk.
  destruct (sentinel_key_ready Some toy_getenv (ret tt) "coldharbour" toy_args vs rest (toy_world 2) w' code) as (H1 & _ & _ & H2);
    [exact Ep|rewrite Ht; discriminate|rewrite Ho; discriminate|exact E|]. rewrite Ho in H1. rewrite Ht, Hk in H2.
  assert (Hd : exists d, next_tx Some "acme" "compose-sentinel" (toy_world 2) = Ok d).
  { assert (Hb : match next_tx Some "acme" "compose-sentinel" (toy_world 2) with Ok _ => true | Err _ => false end = true)
      by (vm_compute; reflexivity).
    destruct (next_tx _ _ _ _) as [d|]; [exists d; reflexivity|discriminate Hb]. }
  destruct Hd as [d Hd].
  assert (Hc : code = 0%Z) by (refine (proj2 (H2 _ 2 eq_refl) _ d Hd); [discriminate|lia]).
  split; [exact Hc|exact (proj1 (H1 Hc))].
Defined.
