(* ===== verification/Entry.v ===== *)
(** * The processes from their start (cmd/worker, cmd/controlplane, internal/migrate)

    [main] of the worker and of the control plane, from the environment to the moment
    they serve: what they require, whom they contact and in which order, how they end
    when something is missing; and the migration that the control plane runs first.
    goose is a parameter.  The metrics that the worker serves beside its loop are left
    out. *)

From S2P Require Import Prelude GoStd Json Proc Policy Redact Seal Vault Journal Queue QueueSpec QueueOnce QueueSigned Api.

(** ** Migrations (internal/migrate) *)

Module Migrate.

(** The names of the tables, and the rows of goose's own table: a version, and whether
    it is applied. *)
Record schema := Schema { relations : gset gostring; versions : list (Z * bool) }.

Definition version_table : gostring := "goose_db_version".

(** The library: the dialect, its table, and all migrations that are left, of which the
    network may let it finish only so many; it tells whether it came to the end. *)
Class Goose := {
  SetDialect : bool;
  EnsureDBVersion : schema -> schema;
  goose_Up : option nat -> schema -> schema * bool;
}.

Record world := World { db : schema; faults : list (Proc.outcome nat) }.

Section migrate.
Context `{Goose}.

(** A statement, refused, done, or done without an answer. *)
Definition query {A} (f : schema -> schema * A) : io world unit A := fun w =>
  match faults w with
  | [] => let r := f (db w) in (World r.1 [], Ok r.2)
  | Proc.Served :: os => let r := f (db w) in (World r.1 os, Ok r.2)
  | Proc.Refused _ :: os => (World (db w) os, Err tt)
  | Proc.ReplyLost _ :: os => (World (f (db w)).1 os, Err tt)
  end.

Definition regclass (name : gostring) : io world unit bool := query (fun s => (s, bool_decide (name ∈ relations s))).

Definition insert_version (v : Z) (s : schema) : schema := Schema (relations s) (versions s ++ [(v, true)]).

(** A database from before goose counts as one with the first migration. *)
Definition baseline : io world unit unit :=
  tenants <- regclass "tenants" ;;
  versionTable <- regclass version_table ;;
  if negb tenants || versionTable then ret tt
  else
    query (fun s => (EnsureDBVersion s, tt)) ;;;
    query (fun s => (insert_version 1 s, tt)).

Definition run_up : io world unit unit := fun w =>
  let go o os := let r := goose_Up o (db w) in (World r.1 os, if (r.2 : bool) then Ok tt else Err tt) in
  match faults w with
  | [] => go None []
  | Proc.Served :: os => go None os
  | Proc.Refused n :: os | Proc.ReplyLost n :: os => (World (goose_Up (Some n) (db w)).1 os, Err tt)
  end.

Definition Up : io world unit unit :=
  if SetDialect then baseline ;;; run_up else throw tt.
End migrate.

(** *** What goose documents *)

Section laws.
(** The migrations in their order, and what each does to the tables; [None] is a
    statement that fails, after which nothing of that migration is left. *)
Context (all : list Z) (runs : Z -> gset gostring -> option (gset gostring)).

Fixpoint up_loop (vs : list Z) (s : schema) : schema * bool :=
  match vs with
  | [] => (s, true)
  | v :: vs =>
      match runs v (relations s) with
      | None => (s, false)
      | Some r => up_loop vs (insert_version v (Schema r (versions s)))
      end
  end.

Definition ensured (s : schema) : schema :=
  if bool_decide (version_table ∈ relations s) then s else Schema ({[version_table]} ∪ relations s) [(0%Z, true)].

Definition pending (s : schema) : list Z := filter (fun v => (v, true) ∉ versions s) all.

Class GooseLaws `{Goose} := {
  dialect_known : SetDialect = true;
  ensure_law s : EnsureDBVersion s = ensured s;
  up_law s : goose_Up None s = let s := ensured s in up_loop (pending s) s;
}.
End laws.

Section theorems.
Context (all : list Z) (runs : Z -> gset gostring -> option (gset gostring)) `{!Goose, !GooseLaws all runs}.

Lemma ensured_twice s : ensured (ensured s) = ensured s.
Proof.
  unfold ensured at 2 3. destruct (bool_decide (_ ∈ relations s)) eqn:E; unfold ensured; [by rewrite E|].
  cbn [relations]. by rewrite bool_decide_eq_true_2 by set_solver.
Qed.

(** A database with tables of the first migration and without goose's gets every
    migration but the first. *)
Lemma Up_old_database s :
  "tenants"%go ∈ relations s -> version_table ∉ relations s ->
  let s1 := insert_version 1 (ensured s) in
  Up (World s []) = (World (up_loop runs (filter (fun v => v <> 0 /\ v <> 1)%Z all) s1).1 [],
                     if (up_loop runs (filter (fun v => v <> 0 /\ v <> 1)%Z all) s1).2 then Ok tt else Err tt).
Proof.
  intros Ht Hv s1. assert (Hs1 : ensured s1 = s1 /\ versions s1 = [(0, true); (1, true)]%Z).
  { assert (E : s1 = Schema ({[version_table]} ∪ relations s) [(0, true); (1, true)]%Z)
      by (subst s1; unfold ensured; by rewrite bool_decide_eq_false_2).
    rewrite E. unfold ensured. cbn [relations]. by rewrite bool_decide_eq_true_2 by set_solver. }
  unfold Up. rewrite (dialect_known all runs). unfold baseline, regclass, query, run_up. io_run. cbn [faults db fst snd].
  rewrite bool_decide_eq_true_2, bool_decide_eq_false_2 by done. cbn [negb orb fst snd faults db].
  rewrite (ensure_law all runs), (up_law all runs). fold s1. cbv zeta. rewrite (proj1 Hs1).
  replace (pending all s1) with (filter (fun v => v <> 0 /\ v <> 1)%Z all); [done|].
  unfold pending. rewrite (proj2 Hs1). apply list_filter_iff. intros v.
  rewrite !elem_of_cons, elem_of_nil. split; [intros [H0 H1] [[= ->]|[[= ->]|[]]]|intros Hv'; split; intros ->; apply Hv']; auto.
Qed.

(** Any other is left to goose. *)
Lemma Up_known_database s :
  "tenants"%go ∉ relations s \/ version_table ∈ relations s ->
  Up (World s []) = (World (goose_Up None s).1 [], if (goose_Up None s).2 then Ok tt else Err tt).
Proof.
  intros Hs. unfold Up. rewrite (dialect_known all runs). unfold baseline, regclass, query, run_up. io_run. cbn [faults db fst snd].
  assert (Hb : negb (bool_decide ("tenants"%go ∈ relations s)) || bool_decide (version_table ∈ relations s) = true).
  { apply orb_true_iff. destruct Hs; [left; rewrite bool_decide_eq_false_2 by done|right; apply bool_decide_eq_true_2]; done. }
  cbn [fst snd]. by rewrite Hb.
Qed.

(** When the two statements of [baseline] are torn apart, the old database can never be
    migrated again: goose's table is there, without the first migration, which then
    fails at each start. *)
Lemma baseline_torn s n rest :
  all = 1%Z :: rest -> runs 1%Z (relations (ensured s)) = None ->
  "tenants"%go ∈ relations s -> version_table ∉ relations s ->
  let torn := Up (World s [Proc.Served; Proc.Served; Proc.Served; Proc.Refused n]) in
  torn.2 = Err tt /\ Up (World (db torn.1) []) = (World (db torn.1) [], Err tt).
Proof.
  intros Hall Ha Ht Hv torn. assert (E : torn = (World (ensured s) [], Err tt)).
  { subst torn. unfold Up. rewrite (dialect_known all runs). unfold baseline, regclass, query, run_up. io_run. cbn [faults db fst snd].
    rewrite bool_decide_eq_true_2, bool_decide_eq_false_2 by done. cbn [negb orb fst snd]. by rewrite (ensure_law all runs). }
  rewrite E. split; [done|]. cbn [fst db].
  assert (Hs : relations (ensured s) = {[version_table]} ∪ relations s /\ versions (ensured s) = [(0, true)]%Z).
  { unfold ensured. by rewrite bool_decide_eq_false_2. }
  rewrite Up_known_database by (right; rewrite (proj1 Hs); clear; set_solver). rewrite (up_law all runs). cbv zeta.
  rewrite ensured_twice. unfold pending. rewrite (proj2 Hs), Hall, filter_cons_True.
  - cbn [up_loop]. by rewrite Ha.
  - by rewrite elem_of_cons, elem_of_nil; intros [[= ?]|[]].
Qed.
End theorems.

(** *** Two migrations, the first of which makes [tenants] *)

Definition toy_runs (v : Z) (r : gset gostring) : option (gset gostring) :=
  if bool_decide (v = 1%Z) then
    if bool_decide ("tenants"%go ∈ r) then None else Some ({["tenants"%go]} ∪ r)
  else Some ({["sessions"%go]} ∪ r).

Definition toy_up (vs : list Z) (s : schema) : schema * bool := up_loop toy_runs vs (ensured s).

#[local] Instance toy_goose : Goose := {|
  SetDialect := true;
  EnsureDBVersion := ensured;
  goose_Up o s :=
    let vs := pending [1; 2]%Z (ensured s) in
    match o with None => toy_up vs s | Some n => toy_up (take n vs) s end;
|}.

#[local] Instance toy_goose_laws : GooseLaws [1; 2]%Z toy_runs.
Proof. by split. Qed.

Definition old_database : schema := Schema {["tenants"%go]} [].

(** The migration of an old database, and what a process that dies within [baseline]
    leaves to the next. *)
Example old_database_migrated :
  let r := Up (World old_database []) in
  (r.2, versions (db r.1)) = (Ok tt, [(0, true); (1, true); (2, true)]%Z) /\
  bool_decide ("sessions"%go ∈ relations (db r.1)) = true.
Proof. split; vm_compute; reflexivity. Qed.

Example old_database_torn :
  let torn := Up (World old_database [Proc.Served; Proc.Served; Proc.Served; Proc.Refused 0]) in
  torn.2 = Err tt /\ Up (World (db torn.1) []) = (World (db torn.1) [], Err tt).
Proof. by apply (baseline_torn [1; 2]%Z toy_runs old_database 0 [2%Z]). Qed.
End Migrate.

(** ** The processes *)

Module Entry.

(** Why a process gives up: the line it logs, and the error in it. *)
Inductive cause :=
| MissingDSN
| DSNRequired
| ConfigError (e : Queue.config_error)
| VaultError (e : Vault.error)
| SigningError (e : Seal.seal_error)
| MigrationFailed
| Unreachable.

(** [log.Fatal], which exits with status 1; a panic. *)
Inductive stop := Fatal (text : gostring) (c : cause) | Panicked (text : gostring).

(** [redis.Options], as far as the code sets them; the roots are PEM text. *)
Record options := Options { Addr : gostring; Password : gostring; TLS : option (option gostring) }.

(** Whom a process calls while it starts. *)
Inductive service :=
| JournalDB (dsn : gostring)
| KeysDB (dsn : gostring)
| ReceiptsDB (dsn : gostring)
| Pool (dsn : gostring)
| MigrationDB (dsn : gostring)
| Redis (o : options)
| EventChannel (o : options).

(** The files, the database before the migration, what the network does next, and the
    calls so far. *)
Record world := World {
  files : gmap gostring gostring;
  schema : Migrate.schema;
  faults : list (Proc.outcome nat);
  calls : list service;
}.

#[local] Existing Instance Proc.act_effects.

Section entry.
Context `{!Vault.Service, !Migrate.Goose, !Journal.JobIDs, !Seal.UUID, !Seal.AEAD, !Seal.Ed25519}.
(** [AppendCertsFromPEM] finds a certificate. *)
Context (has_certificate : gostring -> bool).
Implicit Types w : world.
Abbreviation Getenv := Vault.Getenv.

(** Opening a connection and the first word on it. *)
Definition contact (s : service) (e : stop) : io world stop unit := fun w =>
  let done_ os := World (files w) (schema w) os (calls w ++ [s]) in
  match faults w with
  | [] => (done_ [], Ok tt)
  | Proc.Served :: os => (done_ os, Ok tt)
  | _ :: os => (done_ os, Err e)
  end.

(** *** Opening the stores and Redis *)

Definition open_store (s : gostring -> service) (text dsn : gostring) : io world stop unit :=
  if seqb dsn [] then throw (Fatal text MissingDSN) else contact (s dsn) (Fatal text Unreachable).

Definition OpenJournal := open_store JournalDB.
Definition OpenPostgresKeyStore := open_store KeysDB.
Definition OpenPostgresReceiptStore := open_store ReceiptsDB.

Definition RedisAddr : gostring :=
  if seqb (Getenv "REDIS_ADDR") [] then "127.0.0.1:6379"%go else Getenv "REDIS_ADDR".

Definition ReadFile (path : gostring) : io world stop (option gostring) := fun w =>
  match faults w with
  | [] => (w, Ok (files w !! path))
  | Proc.Served :: os => (World (files w) (schema w) os (calls w), Ok (files w !! path))
  | _ :: os => (World (files w) (schema w) os (calls w), Ok None)
  end.

Definition redisOptions (addr : gostring) : io world stop options :=
  let opt := Options addr (Getenv "REDIS_PASSWORD") in
  if negb (seqb (Getenv "REDIS_TLS") "1") then ret (opt None)
  else if seqb (Getenv "REDIS_CA") [] then ret (opt (Some None))
  else
    f <- ReadFile (Getenv "REDIS_CA") ;;
    match f with
    | None => throw (Panicked "open")
    | Some pem => if has_certificate pem then ret (opt (Some (Some pem)))
                  else throw (Panicked "REDIS_CA is not a PEM certificate")
    end.

(** The client dials when it is used. *)
Definition OpenJobs (addr : gostring) : io world stop options := redisOptions addr.
Definition NewRedisClient (addr : gostring) : io world stop options := redisOptions addr.

(** A step whose error ends the process. *)
Definition fatal {E A} (text : gostring) (c : E -> cause) (r : result E A) : io world stop A :=
  match r with Ok a => ret a | Err e => throw (Fatal text (c e)) end.

(** *** The worker *)

Definition worker_deps : Queue.Deps := Queue.MkDeps true true true Queue.worker_registry Queue.no_hooks.

(** Up to [PrepareGroup]; from there it is the process [Queue.serve]. *)
Definition worker_start (args : list gostring) (hostname : option gostring)
    : io world stop (Queue.WorkerConfig * gostring * options) :=
  cfg <- fatal "worker: load config" ConfigError (Queue.loadWorkerConfigFrom args Getenv hostname) ;;
  fatal "worker" VaultError Vault.RequireVault ;;;
  let dsn := Getenv "POSTGRES_DSN" in
  OpenJournal "worker: open journal" dsn ;;;
  OpenPostgresKeyStore "worker: open key store" dsn ;;;
  OpenPostgresReceiptStore "worker: open receipt store" dsn ;;;
  priv <- fatal "worker: load signing key" SigningError (Seal.LoadSigningKey (Getenv "SIGNING_KEY")) ;;
  contact (Pool dsn) (Fatal "worker: policy" Unreachable) ;;;
  stream <- OpenJobs RedisAddr ;;
  ret (cfg, priv, stream).

(** What it then does for [n] turns. *)
Definition worker_main (cfg : Queue.WorkerConfig) (priv : gostring) (n : nat) : Queue.M Queue.error unit :=
  Queue.serve priv cfg worker_deps n.

(** *** The control plane *)

(** [New] and [SetWSOrigins]; the map of types as its sorted keys. *)
Definition New (types : list gostring) (wsOrigins : list gostring) : Api.config :=
  Api.MkConfig wsOrigins (seqb (Getenv "ALLOW_INSECURE_SESSION_COOKIE") "1") types.

(** [migrate.Up] on a connection of its own. *)
Definition migrate_Up : io world stop unit := fun w =>
  let r := Migrate.Up (Migrate.World (schema w) (faults w)) in
  (World (files w) (Migrate.db r.1) (Migrate.faults r.1) (calls w),
   match r.2 with Ok _ => Ok tt | Err _ => Err (Fatal "controlplane: migrate" MigrationFailed) end).

Definition listen_addr (port : gostring) : gostring :=
  let addr := if seqb port [] then "8080"%go else port in
  match addr with c :: _ => if beq c ":"%byte then addr else ":" ++ addr | [] => addr end.

(** The registry of the control plane, of which it uses the names. *)
Definition registry : gmap gostring Queue.runner :=
  Runner.Runner.NewRegistry [Redact.Redact.runner None; Redact.Mask.runner].

(** Up to [ListenAndServe], which serves [ApiNodes.Handler] under this configuration. *)
Definition controlplane_start : io world stop (Api.config * options * gostring) :=
  let dsn := Getenv "POSTGRES_DSN" in
  if seqb dsn [] then throw (Fatal "controlplane" DSNRequired)
  else
    fatal "controlplane" VaultError Vault.RequireVault ;;;
    contact (MigrationDB dsn) (Fatal "controlplane: postgres" Unreachable) ;;;
    migrate_Up ;;;
    contact (Pool dsn) (Fatal "controlplane: postgres" Unreachable) ;;;
    rdb <- NewRedisClient RedisAddr ;;
    contact (Redis rdb) (Fatal "controlplane: redis" Unreachable) ;;;
    OpenPostgresKeyStore "controlplane: keys" dsn ;;;
    jobs <- OpenJobs RedisAddr ;;
    let srv := New (Runner.Runner.Types (Some registry)) (Api.ParseWSOrigins (Getenv "WS_ORIGIN_PATTERNS")) in
    contact (EventChannel rdb) (Fatal "controlplane: events" Unreachable) ;;;
    ret (srv, jobs, listen_addr (Getenv "PORT")).

End entry.
End Entry.
