(* ===== verification/EntrySpec.v ===== *)
(** * What the processes of [Entry] are when they serve *)

From S2P Require Import Prelude GoStd Flag Base64 Json Proc Policy Redact Seal Vault Journal Queue QueueSpec QueueOnce QueueSigned Api Entry.
Import Entry.

#[local] Existing Instance Proc.act_effects.

Section entry.
Context `{!Vault.Service, !Migrate.Goose, !Journal.JobIDs, !Seal.UUID, !Seal.AEAD, !Seal.Ed25519}.
Context (has_certificate : gostring -> bool).
Implicit Types w : world.
Abbreviation Getenv := Vault.Getenv.
Abbreviation dsn := (Getenv "POSTGRES_DSN").
Abbreviation worker_start := (worker_start has_certificate).
Abbreviation controlplane_start := (controlplane_start has_certificate).

(** ** Steps that may fail *)

Lemma step_Ok {A B} (m : io world stop A) (k : A -> io world stop B) w w' b :
  bind m k w = (w', Ok b) -> exists w1 a, m w = (w1, Ok a) /\ k a w1 = (w', Ok b).
Proof. unfold bind. cbn [try io_effects]. destruct (m w) as [w1 [a|e]]; [eauto|done]. Qed.

Lemma fatal_Ok {E A} text (c : E -> cause) (r : result E A) w w' a : fatal text c r w = (w', Ok a) -> r = Ok a /\ w' = w.
Proof. destruct r; [by intros [= <- <-]|done]. Qed.

Lemma contact_Ok s e w w' : contact s e w = (w', Ok tt) ->
  files w' = files w /\ schema w' = schema w /\ calls w' = calls w ++ [s].
Proof. unfold contact. destruct (faults w) as [|[]]; [by intros [= <-]..|done|done]. Qed.

Lemma open_store_Ok s text d w w' : open_store s text d w = (w', Ok tt) ->
  d <> [] /\ files w' = files w /\ schema w' = schema w /\ calls w' = calls w ++ [s d].
Proof.
  unfold open_store. destruct (seqb d []) eqn:E; [done|]. apply seqb_neq in E. intros Hc%contact_Ok. auto.
Qed.

(** The certificate authority of Redis can be read. *)
Definition redis_ready (fs : gmap gostring gostring) : Prop :=
  Getenv "REDIS_TLS" <> "1"%go \/ Getenv "REDIS_CA" = [] \/
  exists pem, fs !! Getenv "REDIS_CA" = Some pem /\ has_certificate pem = true.

Lemma read_ca_Ok p w w' f : ReadFile p w = (w', Ok f) ->
  (f = files w !! p \/ f = None) /\ files w' = files w /\ schema w' = schema w /\ calls w' = calls w.
Proof. unfold ReadFile. destruct (faults w) as [|[]]; intros [= <- <-]; auto. Qed.

Lemma redisOptions_Ok addr w w' o : redisOptions has_certificate addr w = (w', Ok o) ->
  redis_ready (files w) /\ Addr o = addr /\ files w' = files w /\ schema w' = schema w /\ calls w' = calls w.
Proof.
  unfold redisOptions, redis_ready. cbv zeta. destruct (seqb (Getenv "REDIS_TLS") "1") eqn:Et; cbn [negb].
  2:{ apply seqb_neq in Et. intros [= <- <-]. auto. }
  destruct (seqb (Getenv "REDIS_CA") []) eqn:Ec; [apply seqb_eq in Ec; intros [= <- <-]; auto|].
  intros (w1 & [pem|] & (Hf & F1 & F2 & F3)%read_ca_Ok & Hk)%step_Ok; [|done].
  destruct (has_certificate pem) eqn:Ep; [|done]. injection Hk as <- <-.
  split; [|auto]. right. right. exists pem. destruct Hf as [Hf|]; [auto|done].
Qed.

Lemma redisOptions_served addr w : faults w = [] -> redis_ready (files w) ->
  exists o, redisOptions has_certificate addr w = (w, Ok o).
Proof.
  intros Hf Hr. unfold redisOptions. cbv zeta.
  destruct (seqb (Getenv "REDIS_TLS") "1") eqn:Et; cbn [negb]; [|eauto].
  destruct (seqb (Getenv "REDIS_CA") []) eqn:Ec; [eauto|]. apply seqb_eq in Et. apply seqb_neq in Ec.
  destruct Hr as [|[|(pem & Hp & Hc)]]; [done..|]. unfold ReadFile. io_run. rewrite Hf, Hp, Hc. eauto.
Qed.

(** ** The worker *)

(** What a worker needs in its command line, its environment and its files. *)
Record worker_needs (args : list gostring) (hostname : option gostring) (fs : gmap gostring gostring)
    (cfg : Queue.WorkerConfig) (priv : gostring) : Prop := {
  need_config : Queue.loadWorkerConfigFrom args Getenv hostname = Ok cfg;
  need_vault : Vault.RequireVault = Ok tt;
  need_dsn : dsn <> [];
  need_key : Seal.LoadSigningKey (Getenv "SIGNING_KEY") = Ok priv;
  need_redis : redis_ready fs;
}.

Lemma config_valid args hostname cfg :
  Queue.loadWorkerConfigFrom args Getenv hostname = Ok cfg -> Queue.valid cfg = Ok tt.
Proof.
  unfold Queue.loadWorkerConfigFrom. destruct (Flag.Parse _ _) as [[vs r]|]; [|done].
  assert (Hb : forall (m : result Queue.config_error gostring) k, (m ≫= k) = Ok cfg -> exists c, k c = Ok cfg)
    by (intros [c|e] k Hc; [by exists c|done]).
  intros [c Hc]%Hb. cbv zeta in Hc. set (cfg' := Queue.MkConfig _ _ _) in Hc.
  destruct (Queue.valid cfg') as [[]|] eqn:E; [|done]. by injection Hc as <-.
Qed.

Lemma signing_key_length b64 priv : Seal.LoadSigningKey b64 = Ok priv -> length priv = 64.
Proof.
  unfold Seal.LoadSigningKey, Seal.ParsePrivateKey. destruct (seqb b64 []); [done|].
  destruct (DecodeString b64); [|done]. destruct (negb _) eqn:E; [done|]. intros [= <-].
  by apply negb_false_iff, Nat.eqb_eq in E.
Qed.

(** A worker that has started refuses nothing more: it goes through the loop. *)
Lemma worker_serves args hostname fs cfg priv n :
  worker_needs args hostname fs cfg priv ->
  worker_main cfg priv n = bind Queue.PrepareGroup (fun _ => Queue.loop priv cfg worker_deps n).
Proof.
  intros Hn. unfold worker_main, Queue.serve, Queue.RunGroup, Queue.ready. cbn [Queue.HasJournal Queue.HasKeys Queue.HasReceipts negb worker_deps].
  rewrite (signing_key_length _ _ (need_key _ _ _ _ _ Hn)). cbn [Nat.eqb negb Queue.Registry worker_deps].
  by rewrite (config_valid _ _ _ (need_config _ _ _ _ _ Hn)).
Qed.

(** The theorems on the queue are about it. *)
Lemma worker_among cfg priv n :
  (forall d, program_of priv d (discard (worker_main cfg priv n))) /\
  participant priv (discard (worker_main cfg priv n)).
Proof.
  split; [intros d; by apply a_server|by apply p_server].
Qed.

Lemma worker_start_Ok args hostname w w' cfg priv stream :
  worker_start args hostname w = (w', Ok (cfg, priv, stream)) ->
  worker_needs args hostname (files w) cfg priv /\ Addr stream = RedisAddr /\
  calls w' = calls w ++ [JournalDB dsn; KeysDB dsn; ReceiptsDB dsn; Pool dsn].
Proof.
  unfold worker_start.
  intros (w1 & c & [Hc ->]%fatal_Ok & (w2 & [] & [Hv ->]%fatal_Ok & Hk)%step_Ok)%step_Ok.
  apply step_Ok in Hk as (w3 & [] & (Hd & F3 & _ & C3)%open_store_Ok & Hk).
  apply step_Ok in Hk as (w4 & [] & (_ & F4 & _ & C4)%open_store_Ok & Hk).
  apply step_Ok in Hk as (w5 & [] & (_ & F5 & _ & C5)%open_store_Ok & Hk).
  apply step_Ok in Hk as (w6 & p & [Hp ->]%fatal_Ok & Hk).
  apply step_Ok in Hk as (w7 & [] & (F7 & _ & C7)%contact_Ok & Hk).
  apply step_Ok in Hk as (w8 & s & (Hr & Ha & _ & _ & C8)%redisOptions_Ok & Hk). injection Hk as <- <- <- <-.
  rewrite F7, F5, F4, F3 in Hr. split; [by split|]. split; [done|].
  rewrite C8, C7, C5, C4, C3, <- !app_assoc. done.
Qed.

Lemma worker_start_served args hostname w cfg priv :
  faults w = [] -> worker_needs args hostname (files w) cfg priv ->
  exists w' stream, worker_start args hostname w = (w', Ok (cfg, priv, stream)).
Proof.
  intros Hf [Hc Hv Hd Hk Hr]. unfold worker_start, OpenJournal, OpenPostgresKeyStore, OpenPostgresReceiptStore, open_store, contact.
  rewrite Hc, Hv, (proj2 (seqb_neq _ _) Hd), Hk. io_run. cbn [fatal ret res io_effects]. rewrite Hf. cbn [faults].
  set (w' := World _ _ [] _). destruct (redisOptions_served RedisAddr w' eq_refl Hr) as [o Ho].
  unfold OpenJobs. rewrite Ho. eauto.
Qed.

(** ** The control plane *)

Lemma types_served : Runner.Runner.Types (Some registry) = ["mask"; "redact"]%go.
Proof. vm_compute. reflexivity. Qed.

Lemma ParseWSOrigins_some raw : Api.ParseWSOrigins raw <> [].
Proof. unfold Api.ParseWSOrigins. cbv zeta. destruct (seqb _ _); [done|]. by case_match. Qed.

Lemma listen_addr_port port : exists p, listen_addr port = ":" ++ p.
Proof.
  unfold listen_addr. destruct (seqb port []) eqn:E; [by eexists|]. apply seqb_neq in E.
  destruct port as [|c p]; [done|]. destruct (beq c ":"%byte) eqn:Ec; [|by eexists].
  apply beq_eq in Ec as ->. by exists p.
Qed.

Lemma migrate_Up_Ok w w' : migrate_Up w = (w', Ok tt) ->
  (exists m, Migrate.Up (Migrate.World (schema w) (faults w)) = (m, Ok tt) /\ schema w' = Migrate.db m) /\
  files w' = files w /\ calls w' = calls w.
Proof. unfold migrate_Up. destruct (Migrate.Up _) as [m [[]|]]; intros [= <-]; eauto. Qed.

(** The control plane listens only after Vault is configured, the migrations are done
    and Postgres, Redis and the channel of events have answered, in this order. *)
Lemma controlplane_serves w w' cfg jobs addr :
  controlplane_start w = (w', Ok (cfg, jobs, addr)) ->
  Vault.RequireVault = Ok tt /\ dsn <> [] /\ redis_ready (files w) /\
  (exists m os, Migrate.Up (Migrate.World (schema w) os) = (m, Ok tt) /\ schema w' = Migrate.db m) /\
  Api.types cfg = ["mask"; "redact"]%go /\ Api.wsOrigins cfg <> [] /\ (exists p, addr = ":" ++ p) /\
  exists o, calls w' = calls w ++ [MigrationDB dsn; Pool dsn; Redis o; KeysDB dsn; EventChannel o].
Proof.
  unfold controlplane_start. cbv zeta. destruct (seqb dsn []) eqn:Ed; [done|]. apply seqb_neq in Ed.
  intros (w1 & [] & [Hv ->]%fatal_Ok & Hk)%step_Ok.
  apply step_Ok in Hk as (w2 & [] & (F2 & S2 & C2)%contact_Ok & Hk).
  apply step_Ok in Hk as (w3 & [] & ((m & Hm & S3) & F3 & C3)%migrate_Up_Ok & Hk).
  apply step_Ok in Hk as (w4 & [] & (F4 & S4 & C4)%contact_Ok & Hk).
  apply step_Ok in Hk as (w5 & o & (Hr & _ & F5 & S5 & C5)%redisOptions_Ok & Hk).
  apply step_Ok in Hk as (w6 & [] & (F6 & S6 & C6)%contact_Ok & Hk).
  apply step_Ok in Hk as (w7 & [] & (_ & F7 & S7 & C7)%open_store_Ok & Hk).
  apply step_Ok in Hk as (w8 & j & (_ & _ & F8 & S8 & C8)%redisOptions_Ok & Hk).
  apply step_Ok in Hk as (w9 & [] & (F9 & S9 & C9)%contact_Ok & Hk). injection Hk as <- <- <- <-.
  rewrite F4, F3, F2 in Hr. rewrite S2 in Hm. rewrite <- S4, <- S5, <- S6, <- S7, <- S8, <- S9 in S3.
  split; [done|]. split; [done|]. split; [done|]. split; [eauto|].
  split; [apply types_served|]. split; [apply ParseWSOrigins_some|]. split; [apply listen_addr_port|].
  exists o. rewrite C9, C8, C7, C6, C5, C4, C3, C2, <- !app_assoc. done.
Qed.

End entry.
